(** * Dense matrix kernels, pivoted elimination, QR iteration and the
      comparison harness: a shallow embedding of the C sources

    Sources embedded here:
    - [matrix_types.h], [matrix_utils.c]      : [Matrix], [create_matrix],
                                                the collection with
                                                [find_matrix], [add_matrix]
                                                and [remove_matrix]
    - [matrix_arithmetic.c]                   : [add_matrices], ...
    - [matrix_arithmetic_parallel.c]          : the single / OpenMP /
                                                multiprocess variants and
                                                [run_operation_comparison]
    - [determinant_gauss.c]                   : [determinant_gauss_partial_pivot]
    - [determinant_parallel.c]                : [determinant_single], ...,
                                                [run_determinant_comparison]
    - [eigen_qr.c]                            : [eigen_qr_single], ...,
                                                [run_eigen_comparison]
    - [matrix_file_ops.c]                     : [read_matrix_from_file],
                                                [read_matrices_from_folder]
    - [menu_demo_v2.c]                        : the input helpers and the
                                                handlers of the menu, up to
                                                [handle_action]

    Conventions of the embedding.
    - A C [double] is a value of an abstract scalar type [F] carrying the
      operations the sources use ([Scalar]).  Two interpretations are
      provided: IEEE-754 binary64 ([ieee_scalar], Rocq's primitive floats)
      and exact rational arithmetic ([exact_scalar], [Qc]).
    - A C [int] is a [Z]; a loop [for (i = lo; i < hi; ++i)] is a fold over
      [seq lo (hi - lo)] ([for_range]).
    - A nullable pointer argument is an [option]; an output cell [double *p]
      is an [option F] holding its current contents when [p] is not NULL.
    - [malloc]/[calloc]/[pipe]/[fork] outcomes and the readings of the
      wall clock are inputs of the functions (oracles).
    - A child process is a function from the snapshot of the parent's
      memory taken at [fork] to the payload it writes on its pipe; the
      parent's [read] is the transfer of that payload.  In
      [eigen_qr_multiprocess], where a child writes two whole matrices on
      one pipe and the parent does not look at what its [read]s return,
      the number of doubles each [read] is handed is an input as well,
      counted in whole doubles.
    - An OpenMP [parallel for] over iterations that write disjoint cells is
      a sequential run of the iterations in the order of a schedule, which
      is an input of the function.  The order in which a loop with
      [reduction(+:x)] adds its terms is an input too ([Sum]).
    - The standard input is the string of the characters not read yet.
      The children of the multiprocess arithmetic variants end with
      [exit], which flushes the standard input they share with the
      parent: what is left to read after such a run is an input of the
      handler.
      What [stat], [fopen], [fscanf] and [readdir] find on the disk is an
      input of the loaders; what is written to the terminal or to a file
      is left out, and so are the functions that only write
      ([display_matrix], [write_matrix_to_file], ...) and [main], whose
      loop is cut short by a signal. *)

From Stdlib Require Import String Ascii ZArith List Lia Bool Permutation.
From Stdlib Require Import Floats.
From Stdlib Require Import QArith Qcanon Qcabs.
Import ListNotations.

Close Scope Qc_scope.
Close Scope Q_scope.
Local Open Scope nat_scope.

(* ================================================================== *)
(** * Scalars: the operations on [double] used by the sources          *)
(* ================================================================== *)

Class Scalar (F : Type) : Type := {
  zero : F;                 (* 0.0 *)
  one : F;                  (* 1.0 *)
  add : F -> F -> F;        (* x + y *)
  sub : F -> F -> F;        (* x - y *)
  mul : F -> F -> F;        (* x * y *)
  div : F -> F -> F;        (* x / y *)
  neg : F -> F;             (* -x *)
  fabs : F -> F;            (* fabs(x) *)
  ltb : F -> F -> bool;     (* x < y *)
  leb : F -> F -> bool;     (* x <= y *)
  PIVOT_EPS : F;            (* #define PIVOT_EPS 1e-12 *)
  lit_1e_14 : F;            (* the literal 1e-14 of qr_decompose_* *)
  lit_1e99 : F              (* the literal 1e99 of run_eigen_comparison *)
}.

(** [x > y] in C. *)
Definition gtb {F : Type} {SF : Scalar F} (x y : F) : bool := ltb y x.

(** IEEE-754 binary64: the sources' [double].  The three literals are the
    doubles nearest to 1e-12, 1e-14 and 1e99. *)
#[export] Instance ieee_scalar : Scalar float := {|
  zero := 0%float;
  one := 1%float;
  add := PrimFloat.add;
  sub := PrimFloat.sub;
  mul := PrimFloat.mul;
  div := PrimFloat.div;
  neg := PrimFloat.opp;
  fabs := PrimFloat.abs;
  ltb := PrimFloat.ltb;
  leb := PrimFloat.leb;
  PIVOT_EPS := 0x1.19799812dea11p-40%float;
  lit_1e_14 := 0x1.6849b86a12b9bp-47%float;
  lit_1e99 := 0x1.d42aea2879f2ep+328%float
|}.

(** Exact rational arithmetic. *)
Definition Qc_ltb (x y : Qc) : bool :=
  match Qccompare x y with Lt => true | _ => false end.

Definition Qc_leb (x y : Qc) : bool :=
  match Qccompare x y with Gt => false | _ => true end.

#[export] Instance exact_scalar : Scalar Qc := {|
  zero := Q2Qc 0;
  one := Q2Qc 1;
  add := Qcplus;
  sub := Qcminus;
  mul := Qcmult;
  div := Qcdiv;
  neg := Qcopp;
  fabs := Qcabs;
  ltb := Qc_ltb;
  leb := Qc_leb;
  PIVOT_EPS := Q2Qc (1 # 1000000000000);
  lit_1e_14 := Q2Qc (1 # 100000000000000);
  lit_1e99 := Q2Qc (Qpower 10 99)
|}.

(** The laws of an ordered field.  Exact arithmetic satisfies them
    ([exact_laws]).  IEEE doubles do not: a NaN is not ordered, and 0.0
    times an infinity is not 0.0.  No statement on the determinant
    functions rests on them; [pick_eigen_fastest] states the selection of
    the fastest solver for times that obey them. *)
Class OrderedFieldLaws (F : Type) (SF : Scalar F) : Prop := {
  ltb_asym : forall x y : F, ltb x y = true -> ltb y x = false;
  ltb_cotrans : forall x y z : F,
      ltb x y = true -> ltb x z = true \/ ltb z y = true;
  leb_total : forall x y : F, ltb x y = false -> leb y x = true;
  leb_not_gt : forall x y : F, leb x y = true -> ltb y x = false;
  fabs_zero : fabs zero = zero;
  fabs_one : fabs one = one;
  eps_pos : ltb zero PIVOT_EPS = true;
  eps_lt_one : ltb PIVOT_EPS one = true;
  div_zero_l : forall x : F, div zero x = zero;
  mul_zero_l : forall x : F, mul zero x = zero;
  sub_zero_r : forall x : F, sub x zero = x;
  mul_one_r : forall x : F, mul x one = x;
  mul_assoc : forall x y z : F, mul (mul x y) z = mul x (mul y z)
}.

(** The five computations the elimination of an identity matrix performs.
    They hold in IEEE arithmetic ([ieee_unit_facts]) as in exact
    arithmetic. *)
Class UnitFacts (F : Type) (SF : Scalar F) : Prop := {
  zero_not_above_one : gtb (fabs zero) (fabs one) = false;
  one_not_small : ltb (fabs one) PIVOT_EPS = false;
  update_of_zero : sub zero (mul (div zero one) zero) = zero;
  update_of_one : sub one (mul (div zero one) zero) = one;
  one_times_one : mul one one = one
}.

#[export] Instance ieee_unit_facts : UnitFacts float ieee_scalar.
Proof. constructor; reflexivity. Qed.

(** What the statements on the elimination use of the arithmetic.  IEEE
    doubles have these properties ([ieee_number_facts]) as exact
    rationals have ([exact_number_facts]): [leb x x] fails for a NaN
    only, [sub x x] is 0.0 for a finite [x] only, and [fabs x] is 0.0
    for 0.0 and -0.0 only. *)
Class NumberFacts (F : Type) (SF : Scalar F) : Prop := {
  not_below_eps : forall x : F,
      leb x x = true -> ltb (fabs x) PIVOT_EPS = false ->
      leb PIVOT_EPS (fabs x) = true;
  null_zero : fabs zero = zero;
  null_small : forall z : F, fabs z = zero -> ltb (fabs z) PIVOT_EPS = true;
  null_div : forall z a : F,
      fabs z = zero -> leb a a = true -> ltb (fabs a) PIVOT_EPS = false ->
      fabs (div z a) = zero;
  null_mul : forall f x : F,
      fabs f = zero -> sub x x = zero -> fabs (mul f x) = zero;
  null_sub : forall a b : F,
      fabs a = zero -> fabs b = zero -> fabs (sub a b) = zero
}.


(* ================================================================== *)
(** * Arrays and loops                                                 *)
(* ================================================================== *)

(** [a[i] = v] on an array held as a list; a store outside the array is
    outside the sources' behaviour and leaves the list as it is. *)
Fixpoint upd {A : Type} (l : list A) (i : nat) (v : A) : list A :=
  match l, i with
  | [], _ => []
  | _ :: t, O => v :: t
  | x :: t, S i' => x :: upd t i' v
  end.

(** [for (i = lo; i < hi; ++i) s = body(i, s);] *)
Definition for_range {S : Type} (lo hi : nat) (body : nat -> S -> S) (s : S) : S :=
  fold_left (fun s i => body i s) (seq lo (hi - lo)) s.

(** The iterations of a loop run in the order of a schedule. *)
Definition for_sched {I S : Type} (sched : list I) (body : I -> S -> S) (s : S) : S :=
  fold_left (fun s i => body i s) sched s.

(** The iteration space of two collapsed loops, in row-major order. *)
Definition cells (r c : nat) : list (nat * nat) :=
  flat_map (fun i => map (fun j => (i, j)) (seq 0 c)) (seq 0 r).

(** [strncpy(dst, src, MAX_NAME_LENGTH - 1)] into a zeroed buffer. *)
Definition MAX_NAME_LENGTH : nat := 64.

Definition strncpy_name (src : string) : string :=
  substring 0 (MAX_NAME_LENGTH - 1) src.

(* ================================================================== *)
(** * matrix_types.h, matrix_utils.c                                   *)
(* ================================================================== *)

Section Kernels.
Context {F : Type} {SF : Scalar F}.

Record Matrix : Type := mkMatrix {
  name : string;
  rows : Z;
  cols : Z;
  data : list (list F)
}.

(** [m->data[i][j]] *)
Definition cell (d : list (list F)) (i j : nat) : F :=
  nth j (nth i d []) zero.

(** [m->data[i][j] = v] *)
Definition set_cell (d : list (list F)) (i j : nat) (v : F) : list (list F) :=
  upd d i (upd (nth i d []) j v).

Definition set_data (m : Matrix) (d : list (list F)) : Matrix :=
  mkMatrix (name m) (rows m) (cols m) d.

Definition set_name (m : Matrix) (s : string) : Matrix :=
  mkMatrix s (rows m) (cols m) (data m).

(** [create_matrix]: [alloc] tells whether every [calloc] of the call
    succeeds.  [calloc] zero-fills, so every entry starts as 0.0. *)
Definition create_matrix (alloc : bool) (nm : option string) (r c : Z)
  : option Matrix :=
  if (r <=? 0)%Z || (c <=? 0)%Z then None
  else if negb alloc then None
  else Some (mkMatrix
               (match nm with Some s => strncpy_name s | None => EmptyString end)
               r c
               (repeat (repeat zero (Z.to_nat c)) (Z.to_nat r))).

(** A matrix as [create_matrix] and the loaders build it: [rows] rows of
    [cols] entries each, both at least 1. *)
Definition well_formed (m : Matrix) : Prop :=
  (1 <= rows m)%Z /\ (1 <= cols m)%Z /\
  length (data m) = Z.to_nat (rows m) /\
  Forall (fun r => length r = Z.to_nat (cols m)) (data m).

(* ================================================================== *)
(** * matrix_arithmetic.c                                              *)
(* ================================================================== *)

(** The two nested loops that store [f i j] at [result->data[i][j]]. *)
Definition fill_cells (r c : nat) (f : nat -> nat -> F) (d : list (list F))
  : list (list F) :=
  for_range 0 r (fun i d =>
    for_range 0 c (fun j d => set_cell d i j (f i j)) d) d.

(** [sum = 0.0; for (k = 0; k < inner; k++) sum += a[i][k] * b[k][j];] *)
Definition dot_cell (a b : Matrix) (inner : nat) (i j : nat) : F :=
  for_range 0 inner
    (fun k sum => add sum (mul (cell (data a) i k) (cell (data b) k j))) zero.

Definition add_cell (a b : Matrix) (i j : nat) : F :=
  add (cell (data a) i j) (cell (data b) i j).

Definition sub_cell (a b : Matrix) (i j : nat) : F :=
  sub (cell (data a) i j) (cell (data b) i j).

Definition mul_cell (a b : Matrix) (i j : nat) : F :=
  dot_cell a b (Z.to_nat (cols a)) i j.

(** [m1->rows != m2->rows || m1->cols != m2->cols] *)
Definition addsub_mismatch (a b : Matrix) : bool :=
  negb (rows a =? rows b)%Z || negb (cols a =? cols b)%Z.

(** [m1->cols != m2->rows] *)
Definition mul_mismatch (a b : Matrix) : bool :=
  negb (cols a =? rows b)%Z.

Definition add_matrices (alloc : bool) (m1 m2 : option Matrix)
  (result_name : option string) : option Matrix :=
  match m1, m2, result_name with
  | Some a, Some b, Some nm =>
      if addsub_mismatch a b then None
      else match create_matrix alloc (Some nm) (rows a) (cols a) with
           | None => None
           | Some result =>
               Some (set_data result
                       (fill_cells (Z.to_nat (rows a)) (Z.to_nat (cols a))
                          (add_cell a b) (data result)))
           end
  | _, _, _ => None
  end.

Definition subtract_matrices (alloc : bool) (m1 m2 : option Matrix)
  (result_name : option string) : option Matrix :=
  match m1, m2, result_name with
  | Some a, Some b, Some nm =>
      if addsub_mismatch a b then None
      else match create_matrix alloc (Some nm) (rows a) (cols a) with
           | None => None
           | Some result =>
               Some (set_data result
                       (fill_cells (Z.to_nat (rows a)) (Z.to_nat (cols a))
                          (sub_cell a b) (data result)))
           end
  | _, _, _ => None
  end.

Definition multiply_matrices (alloc : bool) (m1 m2 : option Matrix)
  (result_name : option string) : option Matrix :=
  match m1, m2, result_name with
  | Some a, Some b, Some nm =>
      if mul_mismatch a b then None
      else match create_matrix alloc (Some nm) (rows a) (cols b) with
           | None => None
           | Some result =>
               Some (set_data result
                       (fill_cells (Z.to_nat (rows a)) (Z.to_nat (cols b))
                          (mul_cell a b) (data result)))
           end
  | _, _, _ => None
  end.

(* ================================================================== *)
(** * matrix_arithmetic_parallel.c                                     *)
(* ================================================================== *)

(** The nine variants differ in three places only: the shape test, the
    column count of the result and the value stored in a cell. *)
Record Op : Type := mkOp {
  mismatch : Matrix -> Matrix -> bool;
  out_cols : Matrix -> Matrix -> Z;
  cell_value : Matrix -> Matrix -> nat -> nat -> F
}.

Definition add_op : Op := mkOp addsub_mismatch (fun a _ => cols a) add_cell.
Definition sub_op : Op := mkOp addsub_mismatch (fun a _ => cols a) sub_cell.
Definition mul_op : Op := mkOp mul_mismatch (fun _ b => cols b) mul_cell.

(** *_single: the nested loops; [*exec_time] is stored on success only.
    [elapsed] is the value of [end - start]. *)
Definition run_single (op : Op) (alloc : bool) (elapsed : F)
  (m1 m2 : option Matrix) (result_name : option string) (exec_time : F)
  : option Matrix * F :=
  match m1, m2, result_name with
  | Some a, Some b, Some nm =>
      if mismatch op a b then (None, exec_time)
      else match create_matrix alloc (Some nm) (rows a) (out_cols op a b) with
           | None => (None, exec_time)
           | Some result =>
               (Some (set_data result
                        (fill_cells (Z.to_nat (rows a))
                           (Z.to_nat (out_cols op a b))
                           (cell_value op a b) (data result))),
                elapsed)
           end
  | _, _, _ => (None, exec_time)
  end.

(** *_openmp: [#pragma omp parallel for collapse(2) schedule(static)];
    the iterations [(i, j)] run in the order of [sched]. *)
Definition run_openmp (op : Op) (alloc : bool) (sched : list (nat * nat))
  (elapsed : F) (m1 m2 : option Matrix) (result_name : option string)
  (exec_time : F) : option Matrix * F :=
  match m1, m2, result_name with
  | Some a, Some b, Some nm =>
      if mismatch op a b then (None, exec_time)
      else match create_matrix alloc (Some nm) (rows a) (out_cols op a b) with
           | None => (None, exec_time)
           | Some result =>
               (Some (set_data result
                        (for_sched sched
                           (fun ij d =>
                              set_cell d (fst ij) (snd ij)
                                (cell_value op a b (fst ij) (snd ij)))
                           (data result))),
                elapsed)
           end
  | _, _, _ => (None, exec_time)
  end.

(** *_multiprocess, first pair of loops: one [pipe] and one [fork] per
    element.  The state is [elem_idx] and the payloads the children leave
    on [pipes[elem_idx]]; [spawn_ok e] tells whether [pipe] and [fork]
    succeed for element [e].  The child of element [(i, j)] computes its
    value from the matrices it inherits and writes it on its pipe. *)
Definition spawn_children (spawn_ok : nat -> bool) (r c : nat)
  (f : nat -> nat -> F) (total_elements : nat) : option (nat * list F) :=
  for_range 0 r (fun i st =>
    for_range 0 c (fun j st =>
      match st with
      | None => None
      | Some (elem_idx, pipes) =>
          if spawn_ok elem_idx
          then Some (S elem_idx, upd pipes elem_idx (f i j))
          else None
      end) st)
    (Some (0, repeat zero total_elements)).

(** Second pair of loops: [read] the payload of [pipes[elem_idx]] and store
    it at [result->data[i][j]]. *)
Definition collect_children (r c : nat) (pipes : list F)
  (d : list (list F)) : nat * list (list F) :=
  for_range 0 r (fun i st =>
    for_range 0 c (fun j st =>
      (S (fst st), set_cell (snd st) i j (nth (fst st) pipes zero))) st)
    (0, d).

Definition run_multiprocess (op : Op) (alloc pids_ok : bool)
  (spawn_ok : nat -> bool) (elapsed : F) (m1 m2 : option Matrix)
  (result_name : option string) (exec_time : F) : option Matrix * F :=
  match m1, m2, result_name with
  | Some a, Some b, Some nm =>
      if mismatch op a b then (None, exec_time)
      else match create_matrix alloc (Some nm) (rows a) (out_cols op a b) with
           | None => (None, exec_time)
           | Some result =>
               let r := Z.to_nat (rows a) in
               let c := Z.to_nat (out_cols op a b) in
               let total_elements := r * c in
               if negb pids_ok then (None, exec_time)
               else match spawn_children spawn_ok r c (cell_value op a b)
                            total_elements with
                    | None => (None, exec_time)
                    | Some (_, pipes) =>
                        (Some (set_data result
                                 (snd (collect_children r c pipes (data result)))),
                         elapsed)
                    end
           end
  | _, _, _ => (None, exec_time)
  end.

(** Whether a call of a *_multiprocess variant creates a child: the
    shapes fit, the result and [pids] are allocated, and [pipe] and
    [fork] succeed for the first element. *)
Definition forks_child (op : Op) (alloc pids_ok : bool)
  (spawn_ok : nat -> bool) (a b : Matrix) : bool :=
  negb (mismatch op a b)
  && negb ((rows a <=? 0)%Z || (out_cols op a b <=? 0)%Z) && alloc
  && pids_ok && spawn_ok 0.

Definition add_matrices_single := run_single add_op.
Definition add_matrices_openmp := run_openmp add_op.
Definition add_matrices_multiprocess := run_multiprocess add_op.
Definition subtract_matrices_single := run_single sub_op.
Definition subtract_matrices_openmp := run_openmp sub_op.
Definition subtract_matrices_multiprocess := run_multiprocess sub_op.
Definition multiply_matrices_single := run_single mul_op.
Definition multiply_matrices_openmp := run_openmp mul_op.
Definition multiply_matrices_multiprocess := run_multiprocess mul_op.

(** ** run_operation_comparison *)

Record PerformanceMetrics : Type := mkMetrics {
  single_thread_time : F;
  openmp_time : F;
  multiprocess_time : F
}.

Inductive Strategy : Type := SingleThreaded | OpenMP | Multiprocessing.

(** What the environment contributes to one run of a comparison. *)
Record Oracle : Type := mkOracle {
  alloc1 : bool;                  (* allocations of the single run *)
  alloc2 : bool;                  (* allocations of the OpenMP run *)
  alloc3 : bool;                  (* allocations of the multiprocess run *)
  sched : list (nat * nat);       (* order of the OpenMP iterations *)
  pids_ok : bool;                 (* malloc of pids *)
  spawn_ok : nat -> bool;         (* pipe and fork of each element *)
  elapsed1 : F;
  elapsed2 : F;
  elapsed3 : F
}.

(** [snprintf(temp_name, sizeof(temp_name), "%s_<suffix>", result_name)] *)
Definition temp_name (result_name suffix : string) : string :=
  substring 0 127 (result_name ++ "_" ++ suffix)%string.

(** The [strcmp] cascade on [operation]. *)
Definition op_of (operation : string) : option Op :=
  if String.eqb operation "Addition" then Some add_op
  else if String.eqb operation "Subtraction" then Some sub_op
  else if String.eqb operation "Multiplication" then Some mul_op
  else None.

(** "Determine fastest method": the three variables [fastest],
    [fastest_time] and [fastest_result] after the two [if]s. *)
Definition pick_operation (metrics : PerformanceMetrics)
  (result1 result2 result3 : option Matrix)
  : Strategy * F * option Matrix :=
  let st0 := (SingleThreaded, single_thread_time metrics, result1) in
  let st1 :=
    if ltb (openmp_time metrics) (snd (fst st0))
    then (OpenMP, openmp_time metrics, result2) else st0 in
  if ltb (multiprocess_time metrics) (snd (fst st1))
  then (Multiprocessing, multiprocess_time metrics, result3) else st1.

Definition run_operation_comparison (o : Oracle) (m1 m2 : option Matrix)
  (result_name operation : option string)
  (metrics : option PerformanceMetrics)
  : option Matrix * option PerformanceMetrics :=
  match m1, m2, result_name, operation, metrics with
  | Some _, Some _, Some nm, Some opn, Some mt =>
      let '(result1, t1) :=
        match op_of opn with
        | Some op => run_single op (alloc1 o) (elapsed1 o) m1 m2
                       (Some (temp_name nm "single")) (single_thread_time mt)
        | None => (None, single_thread_time mt)
        end in
      let '(result2, t2) :=
        match op_of opn with
        | Some op => run_openmp op (alloc2 o) (sched o) (elapsed2 o) m1 m2
                       (Some (temp_name nm "openmp")) (openmp_time mt)
        | None => (None, openmp_time mt)
        end in
      let '(result3, t3) :=
        match op_of opn with
        | Some op => run_multiprocess op (alloc3 o) (pids_ok o) (spawn_ok o)
                       (elapsed3 o) m1 m2
                       (Some (temp_name nm "multiproc")) (multiprocess_time mt)
        | None => (None, multiprocess_time mt)
        end in
      let mt' := mkMetrics t1 t2 t3 in
      let fastest_result := snd (pick_operation mt' result1 result2 result3) in
      (match fastest_result with
       | Some res => Some (set_name res (strncpy_name nm))
       | None => None
       end, Some mt')
  | _, _, _, _, _ => (None, metrics)
  end.

End Kernels.

(* ================================================================== *)
(** * matrix_utils.c: the collection of matrices                       *)
(* ================================================================== *)

Section Collection.
Context {F : Type} {SF : Scalar F}.

(** [MatrixCollection]: [items] holds the [count] matrices in use, in the
    order of the array; [capacity] is the number of slots allocated.  The
    collection owns its matrices: an entry of [items] stands for the
    matrix the pointer [items[i]] refers to. *)
Record MatrixCollection : Type := mkCollection {
  items : list (@Matrix F);
  capacity : Z
}.

(** [c->count] *)
Definition count (c : MatrixCollection) : Z := Z.of_nat (length (items c)).

(** [create_collection]: [alloc] tells whether both [calloc]s succeed. *)
Definition create_collection (alloc : bool) : option MatrixCollection :=
  if alloc then Some (mkCollection [] 8) else None.

(** [find_matrix]: the first matrix whose name [strcmp] finds equal. *)
Definition find_matrix (c : option MatrixCollection) (nm : option string)
  : option Matrix :=
  match c, nm with
  | Some col, Some s => find (fun m => String.eqb (name m) s) (items col)
  | _, _ => None
  end.

(** [add_matrix]: [realloc_ok] tells whether the [realloc] of a full
    array succeeds.  The outcome is the return value and the collection
    afterwards. *)
Definition add_matrix (realloc_ok : bool) (c : option MatrixCollection)
  (m : option Matrix) : Z * option MatrixCollection :=
  match c, m with
  | Some col, Some mm =>
      match find_matrix c (Some (name mm)) with
      | Some _ => (0%Z, c)
      | None =>
          if (capacity col <=? count col)%Z
          then if realloc_ok
               then (1%Z, Some (mkCollection (items col ++ [mm])
                                  (capacity col * 2)))
               else (0%Z, c)
          else (1%Z, Some (mkCollection (items col ++ [mm]) (capacity col)))
      end
  | _, _ => (0%Z, c)
  end.

(** The search loop of [remove_matrix]: the index of the first matrix of
    that name, counted from [i]. *)
Fixpoint find_index (s : string) (its : list (@Matrix F)) (i : nat)
  : option nat :=
  match its with
  | [] => None
  | m :: rest =>
      if String.eqb (name m) s then Some i else find_index s rest (S i)
  end.

(** What a read of the array gives outside the entries in use. *)
Definition no_matrix : @Matrix F := mkMatrix EmptyString 0 0 [].

(** [for (j = i + 1; j < c->count; j++) c->items[j-1] = c->items[j];] *)
Definition shift_left (its : list (@Matrix F)) (i : nat) : list Matrix :=
  for_range (i + 1) (length its)
    (fun j its => upd its (j - 1) (nth j its no_matrix)) its.

(** [remove_matrix]: the entry found is freed, the entries after it move
    one slot down and [count] drops by one. *)
Definition remove_matrix (c : option MatrixCollection) (nm : option string)
  : Z * option MatrixCollection :=
  match c, nm with
  | Some col, Some s =>
      match find_index s (items col) 0 with
      | Some i =>
          (1%Z, Some (mkCollection
                        (firstn (length (items col) - 1)
                           (shift_left (items col) i))
                        (capacity col)))
      | None => (0%Z, c)
      end
  | _, _ => (0%Z, c)
  end.

End Collection.

(* ================================================================== *)
(** * determinant_gauss.c, determinant_parallel.c                      *)
(* ================================================================== *)

Section Determinant.
Context {F : Type} {SF : Scalar F}.

(** [A[(size_t)i * n + j]] and [A[(size_t)i * n + j] = v] on the
    contiguous row-major workspace. *)
Definition at_ (n : nat) (A : list F) (i j : nat) : F := nth (i * n + j) A zero.

Definition store (n : nat) (A : list F) (i j : nat) (v : F) : list F :=
  upd A (i * n + j) v.

(** [copy_matrix_contiguous]: row [i] of the matrix lands at [A + i * n]. *)
Definition copy_matrix_contiguous (m : Matrix) : list F :=
  let n := Z.to_nat (rows m) in
  flat_map (fun i => map (fun j => cell (data m) i j) (seq 0 n)) (seq 0 n).

(** The pivot search of step [k]: the pair [(pivot_row, max_abs)]. *)
Definition pivot_search (n : nat) (A : list F) (k : nat) : nat * F :=
  for_range (k + 1) n
    (fun i st =>
       let v := fabs (at_ n A i k) in
       if gtb v (snd st) then (i, v) else st)
    (k, fabs (at_ n A k k)).

(** The swap of rows [k] and [pivot_row], columns [k .. n-1]. *)
Definition swap_rows (n : nat) (A : list F) (k pivot_row : nat) : list F :=
  for_range k n
    (fun j A =>
       let tmp := at_ n A k j in
       let A1 := store n A k j (at_ n A pivot_row j) in
       store n A1 pivot_row j tmp)
    A.

(** The body of the row loop: the update of row [i] at step [k]. *)
Definition eliminate_row (n k : nat) (akk : F) (i : nat) (A : list F) : list F :=
  let factor := div (at_ n A i k) akk in
  let A1 := store n A i k zero in
  for_range (k + 1) n
    (fun j A => store n A i j (sub (at_ n A i j) (mul factor (at_ n A k j))))
    A1.

(** The row phase of a step, as each variant runs it.  [None]: the step
    could not get its resources and the function returns 0. *)
Definition RowPhase : Type := nat -> nat -> F -> list F -> option (list F).

Definition rows_single : RowPhase :=
  fun n k akk A => Some (for_range (k + 1) n (eliminate_row n k akk) A).

(** [#pragma omp parallel for schedule(static)]: the rows of step [k] are
    updated in the order [sched k]. *)
Definition rows_openmp (sched : nat -> list nat) : RowPhase :=
  fun n k akk A => Some (for_sched (sched k) (eliminate_row n k akk) A).

(** The child of row [i]: the segment [buf[0 .. n-k-1]] it writes on its
    pipe, computed from the workspace it inherits at [fork]. *)
Definition child_segment (n k : nat) (akk : F) (A : list F) (i : nat) : list F :=
  let seg := n - k in
  let factor := div (at_ n A i k) akk in
  for_range (k + 1) n
    (fun j buf => upd buf (j - k) (sub (at_ n A i j) (mul factor (at_ n A k j))))
    (upd (repeat zero seg) 0 zero).

(** The parent stores the segment of row [i] back: [A[i, j] = buf[j - k]]. *)
Definition write_back (n k : nat) (i : nat) (buf : list F) (A : list F) : list F :=
  for_range k n (fun j A => store n A i j (nth (j - k) buf zero)) A.

(** The multiprocess row phase: the parent does not touch [A] while it
    forks, so every child sees the workspace of the start of the phase;
    [step_ok k] tells whether the allocations, pipes and forks of step [k]
    succeed. *)
Definition rows_multiprocess (step_ok : nat -> bool) : RowPhase :=
  fun n k akk A =>
    let rowsBelow := n - (k + 1) in
    if rowsBelow =? 0 then Some A
    else if negb (step_ok k) then None
    else
      let payloads :=
        map (fun idx => child_segment n k akk A (k + 1 + idx)) (seq 0 rowsBelow) in
      Some (for_range 0 rowsBelow
              (fun idx A => write_back n k (k + 1 + idx) (nth idx payloads []) A)
              A).

(** What a run does, besides its result: the pivot chosen at each step
    (with the workspace the step started from), the swaps and the
    divisions. *)
Inductive Event : Type :=
| Pivot (k : nat) (A : list F) (pivot_row : nat)
| Swap (k pivot_row : nat)
| Division (i k : nat) (divisor : F).

(** How the loop over [k] ends. *)
Inductive Elim : Type :=
| Singular (k : nat)                       (* *out_det = 0.0; return 1 *)
| Complete (A : list F) (det_sign : F)     (* the loop ran through *)
| Aborted (k : nat).                       (* return 0 at step k *)

(** The body of the loop over [k]: either the loop is left ([inl]) or the
    next step starts from a new workspace and sign ([inr]). *)
Definition det_step (rowphase : RowPhase) (n k : nat) (A : list F)
  (det_sign : F) : (Elim + list F * F) * list Event :=
  let pivot_row := fst (pivot_search n A k) in
  let pivot_val := at_ n A pivot_row k in
  if ltb (fabs pivot_val) PIVOT_EPS
  then (inl (Singular k), [Pivot k A pivot_row])
  else
    let swapped := negb (pivot_row =? k) in
    let A1 := if swapped then swap_rows n A k pivot_row else A in
    let sign1 := if swapped then neg det_sign else det_sign in
    let akk := at_ n A1 k k in
    let events :=
      Pivot k A pivot_row
      :: (if swapped then [Swap k pivot_row] else [])
      ++ map (fun i => Division i k akk) (seq (k + 1) (n - (k + 1))) in
    match rowphase n k akk A1 with
    | None => (inl (Aborted k), events)
    | Some A2 => (inr (A2, sign1), events)
    end.

(** The loop [for (k = 0; k < n; ++k)], from step [k] with [fuel = n - k]
    steps to go. *)
Fixpoint det_loop (rowphase : RowPhase) (n fuel k : nat) (A : list F)
  (det_sign : F) : Elim * list Event :=
  match fuel with
  | O => (Complete A det_sign, [])
  | S fuel' =>
      match det_step rowphase n k A det_sign with
      | (inl e, events) => (e, events)
      | (inr (A2, sign1), events) =>
          let rest := det_loop rowphase n fuel' (S k) A2 sign1 in
          (fst rest, events ++ snd rest)
      end
  end.

(** [det = det_sign; for (i = 0; i < n; ++i) det *= A[i * n + i];] *)
Definition diag_product (n : nat) (A : list F) (det_sign : F) : F :=
  for_range 0 n (fun i det => mul det (at_ n A i i)) det_sign.

(** The outcome of a call: the return value and the contents of
    [*out_det] and [*exec_time] afterwards ([None] for a NULL pointer). *)
Record DetOut : Type := mkDetOut {
  ret : Z;
  det_cell : option F;
  time_cell : option F
}.

(** [if (exec_time) *exec_time = get_time() - start;] *)
Definition store_time (exec_time : option F) (elapsed : F) : option F :=
  match exec_time with Some _ => Some elapsed | None => None end.

(** The body shared by the four determinant functions.  [alloc] tells
    whether the workspace is obtained. *)
Definition det_run (rowphase : RowPhase) (alloc : bool) (elapsed : F)
  (m : option Matrix) (out_det exec_time : option F) : DetOut :=
  match m, out_det with
  | Some mm, Some _ =>
      if negb (rows mm =? cols mm)%Z then mkDetOut 0 out_det exec_time
      else if negb alloc then mkDetOut 0 out_det exec_time
      else
        let n := Z.to_nat (rows mm) in
        match fst (det_loop rowphase n n 0 (copy_matrix_contiguous mm) one) with
        | Singular _ => mkDetOut 1 (Some zero) (store_time exec_time elapsed)
        | Complete A det_sign =>
            mkDetOut 1 (Some (diag_product n A det_sign))
              (store_time exec_time elapsed)
        | Aborted _ => mkDetOut 0 out_det exec_time
        end
  | _, _ => mkDetOut 0 out_det exec_time
  end.

(** The events of the run of [det_run] on a square matrix. *)
Definition det_events (rowphase : RowPhase) (mm : Matrix) : list Event :=
  let n := Z.to_nat (rows mm) in
  snd (det_loop rowphase n n 0 (copy_matrix_contiguous mm) one).

(** The workspace and sign a completed elimination ends with. *)
Definition det_final (rowphase : RowPhase) (mm : Matrix) : Elim :=
  let n := Z.to_nat (rows mm) in
  fst (det_loop rowphase n n 0 (copy_matrix_contiguous mm) one).

(** [determinant_gauss_partial_pivot] has no timing argument. *)
Definition determinant_gauss_partial_pivot (alloc : bool) (m : option Matrix)
  (out_det : option F) : Z * option F :=
  let r := det_run rows_single alloc zero m out_det None in
  (ret r, det_cell r).

Definition determinant_single (alloc : bool) (elapsed : F)
  (m : option Matrix) (out_det exec_time : option F) : DetOut :=
  det_run rows_single alloc elapsed m out_det exec_time.

Definition determinant_openmp (sched : nat -> list nat) (alloc : bool)
  (elapsed : F) (m : option Matrix) (out_det exec_time : option F) : DetOut :=
  det_run (rows_openmp sched) alloc elapsed m out_det exec_time.

Definition determinant_multiprocess (step_ok : nat -> bool) (alloc : bool)
  (elapsed : F) (m : option Matrix) (out_det exec_time : option F) : DetOut :=
  det_run (rows_multiprocess step_ok) alloc elapsed m out_det exec_time.

End Determinant.

(* ================================================================== *)
(** * eigen_qr.c                                                       *)
(* ================================================================== *)

Section Eigen.
Context {F : Type} {SF : Scalar F}.

(** [sqrt] of [math.h]. *)
Variable sqrt : F -> F.

Record EigenResult : Type := mkEigen {
  eigenvalues : list F;              (* array of size n *)
  eigenvectors : option (@Matrix F); (* NULL when create_matrix failed *)
  eig_n : Z;
  iterations : Z
}.

(** [copy_matrix_flat]: [A[i * n + j] = m->data[i][j]]. *)
Definition copy_matrix_flat (m : Matrix) : list F :=
  let n := Z.to_nat (rows m) in
  flat_map (fun i => map (fun j => cell (data m) i j) (seq 0 n)) (seq 0 n).

(** [copy_flat_to_matrix]: [m->data[i][j] = A[i * n + j]]. *)
Definition copy_flat_to_matrix (A : list F) (m : Matrix) : Matrix :=
  let n := Z.to_nat (rows m) in
  set_data m (fill_cells n n (fun i j => at_ n A i j) (data m)).

(** One turn of the loop over [j] of [qr_decompose_single]: column [j] is
    copied, orthogonalized against the columns before it and normalized.
    [None] is the [return 0] of a norm below 1e-14. *)
Definition column_norm (n j : nat) (Q : list F) : F :=
  sqrt (for_range 0 n
          (fun i norm => add norm (mul (at_ n Q i j) (at_ n Q i j))) zero).

Definition orthogonalize (A : list F) (n j : nat) (QR : list F * list F)
  : list F * list F :=
  let Q1 := for_range 0 n (fun i Q => store n Q i j (at_ n A i j)) (fst QR) in
  for_range 0 j
    (fun k QR =>
       let dot :=
         for_range 0 n
           (fun i dot => add dot (mul (at_ n (fst QR) i k) (at_ n A i j))) zero in
       let R' := store n (snd QR) k j dot in
       let Q' :=
         for_range 0 n
           (fun i Q => store n Q i j (sub (at_ n Q i j) (mul dot (at_ n Q i k))))
           (fst QR) in
       (Q', R'))
    (Q1, snd QR).

Definition qr_column (A : list F) (n j : nat) (QR : list F * list F)
  : option (list F * list F) :=
  let QR2 := orthogonalize A n j QR in
  let norm := column_norm n j (fst QR2) in
  if ltb norm lit_1e_14 then None
  else
    let R3 := store n (snd QR2) j j norm in
    Some (for_range 0 n
            (fun i Q => store n Q i j (div (at_ n Q i j) norm)) (fst QR2),
          R3).

(** [qr_decompose_single]: [memset] of [Q] and [R], then the columns. *)
Definition qr_decompose_single (A : list F) (n : nat)
  : option (list F * list F) :=
  for_range 0 n
    (fun j st => match st with
                 | None => None
                 | Some QR => qr_column A n j QR
                 end)
    (Some (repeat zero (n * n), repeat zero (n * n))).

(** A loop with [reduction(+:x)]: every thread adds the terms of its
    iterations to a copy of [x] that starts at 0.0, and the copies are
    added to the 0.0 that [x] holds, in an order the run decides.  The
    order of the additions is an input of the function: a tree whose
    leaves are the terms and the zeros the copies start from. *)
Inductive Sum : Type :=
| Start : Sum
| Term : nat -> Sum
| Plus : Sum -> Sum -> Sum.

Fixpoint sum_value (s : Sum) (term : nat -> F) : F :=
  match s with
  | Start => zero
  | Term i => term i
  | Plus a b => add (sum_value a term) (sum_value b term)
  end.

(** The order of the loop [x = 0.0; for (i = 0; i < n; ++i) x += term(i)]
    when no iteration is handed to another thread. *)
Definition in_order (n : nat) : Sum :=
  for_range 0 n (fun i s => Plus s (Term i)) Start.

(** The iterations [lo .. hi-1] added to a copy by one thread, and the
    copies of the threads added to [x] one after the other. *)
Definition chunk_sum (lo hi : nat) : Sum :=
  for_range lo hi (fun i s => Plus s (Term i)) Start.

Definition chunked (chunks : list (nat * nat)) : Sum :=
  fold_left (fun s c => Plus s (chunk_sum (fst c) (snd c))) chunks Start.

(** [qr_decompose_openmp] computes the same columns.  Its loops over [i]
    that store into [Q] are [parallel for]s over disjoint cells; its two
    sums, [dot] and [norm], are reductions: [order k] is the order of the
    additions of [dot] for column [k], [order j] that of [norm]. *)
Definition column_norm_openmp (order : Sum) (n j : nat) (Q : list F) : F :=
  sqrt (sum_value order (fun i => mul (at_ n Q i j) (at_ n Q i j))).

Definition orthogonalize_openmp (order : nat -> Sum) (A : list F) (n j : nat)
  (QR : list F * list F) : list F * list F :=
  let Q1 := for_range 0 n (fun i Q => store n Q i j (at_ n A i j)) (fst QR) in
  for_range 0 j
    (fun k QR =>
       let dot :=
         sum_value (order k)
           (fun i => mul (at_ n (fst QR) i k) (at_ n A i j)) in
       let R' := store n (snd QR) k j dot in
       let Q' :=
         for_range 0 n
           (fun i Q => store n Q i j (sub (at_ n Q i j) (mul dot (at_ n Q i k))))
           (fst QR) in
       (Q', R'))
    (Q1, snd QR).

Definition qr_column_openmp (order : nat -> Sum) (A : list F) (n j : nat)
  (QR : list F * list F) : option (list F * list F) :=
  let QR2 := orthogonalize_openmp order A n j QR in
  let norm := column_norm_openmp (order j) n j (fst QR2) in
  if ltb norm lit_1e_14 then None
  else
    let R3 := store n (snd QR2) j j norm in
    Some (for_range 0 n
            (fun i Q => store n Q i j (div (at_ n Q i j) norm)) (fst QR2),
          R3).

Definition qr_decompose_openmp (orders : nat -> nat -> Sum) (A : list F)
  (n : nat) : option (list F * list F) :=
  for_range 0 n
    (fun j st => match st with
                 | None => None
                 | Some QR => qr_column_openmp (orders j) A n j QR
                 end)
    (Some (repeat zero (n * n), repeat zero (n * n))).

(** [matmul_single], [matmul_openmp]: every cell of [C] is stored, so the
    model builds [C] anew. *)
Definition matmul_single (A B : list F) (n : nat) : list F :=
  flat_map
    (fun i =>
       map (fun j =>
              for_range 0 n
                (fun k sum => add sum (mul (at_ n A i k) (at_ n B k j))) zero)
           (seq 0 n))
    (seq 0 n).

(** [matmul_openmp]: the cells of [C] are shared among the threads; each
    cell is summed by one thread in [sum], which is declared in the body
    of the loop, from [k = 0] to [k = n-1]. *)
Definition matmul_openmp (A B : list F) (n : nat) : list F :=
  matmul_single A B n.

(** [is_converged]: 0 as soon as an off-diagonal entry exceeds [tol]. *)
Definition is_converged (A : list F) (n : nat) (tol : F) : bool :=
  forallb
    (fun i =>
       forallb
         (fun j => negb (negb (i =? j) && gtb (fabs (at_ n A i j)) tol))
         (seq 0 n))
    (seq 0 n).

Definition extract_eigenvalues (A : list F) (n : nat) : list F :=
  map (fun i => at_ n A i i) (seq 0 n).

(** [V] after [memset] and the loop storing 1.0 on the diagonal. *)
Definition identity_flat (n : nat) : list F :=
  for_range 0 n (fun i V => store n V i i one) (repeat zero (n * n)).

(** The loop [for (iter = 0; iter < max_iter; ++iter)] of the single and
    OpenMP variants, with [fuel = max_iter - iter] rounds to go.  [None] is
    the [return NULL] of a failed decomposition; otherwise the final [A],
    [V] and [iter]. *)
Fixpoint qr_iterate (qr : list F -> nat -> option (list F * list F))
  (mm : list F -> list F -> nat -> list F)
  (n : nat) (tol : F) (fuel : nat) (iter : Z) (A V : list F)
  : option (list F * list F * Z) :=
  match fuel with
  | O => Some (A, V, iter)
  | S fuel' =>
      if is_converged A n tol then Some (A, V, iter)
      else match qr A n with
           | None => None
           | Some (Q, R) =>
               qr_iterate qr mm n tol fuel' (iter + 1)%Z (mm R Q n) (mm V Q n)
           end
  end.

(** The loop of [eigen_qr_openmp]: the orders of the reductions of round
    [iter] are [orders iter]. *)
Fixpoint qr_iterate_openmp (orders : nat -> nat -> nat -> Sum)
  (n : nat) (tol : F) (fuel : nat) (iter : Z) (A V : list F)
  : option (list F * list F * Z) :=
  match fuel with
  | O => Some (A, V, iter)
  | S fuel' =>
      if is_converged A n tol then Some (A, V, iter)
      else match qr_decompose_openmp (orders (Z.to_nat iter)) A n with
           | None => None
           | Some (Q, R) =>
               qr_iterate_openmp orders n tol fuel' (iter + 1)%Z
                 (matmul_openmp R Q n) (matmul_openmp V Q n)
           end
  end.

(** [read(fd, buf, bytes)] with [bytes] the size of [want] doubles, when
    the call hands over [k] doubles: no more than it asks for and no more
    than the child has written and the parent has not read yet ([pipe]).
    The doubles go to the front of the buffer, whose other cells keep what
    they held.  The result is the buffer and what is left to read.  The
    return value of [read] is not looked at. *)
Definition read_doubles (k want : nat) (pipe buf : list F)
  : list F * list F :=
  let got := firstn (Nat.min k want) pipe in
  (firstn want (got ++ skipn (length got) buf), skipn (length got) pipe).

(** The same loop in [eigen_qr_multiprocess].  The child runs
    [qr_decompose_single] on its copy of [A] and writes [Q], then [R], on
    the pipe of the round; when the decomposition fails it exits without
    writing.  The parent reads twice, into [Q] and into [R], and goes on
    with what the buffers hold then; it does not look at the exit status.
    [res_ok i] tells whether [pipe] and [fork] succeed in round [i];
    [reads i] tells how many doubles the two [read]s of round [i] are
    handed. *)
Fixpoint qr_iterate_mp (res_ok : nat -> bool) (reads : nat -> nat * nat)
  (n : nat) (tol : F) (fuel : nat) (iter : Z) (A V Q R : list F)
  : option (list F * list F * Z) :=
  match fuel with
  | O => Some (A, V, iter)
  | S fuel' =>
      if is_converged A n tol then Some (A, V, iter)
      else if negb (res_ok (Z.to_nat iter)) then None
      else
        let written := match qr_decompose_single A n with
                       | Some (Q1, R1) => Q1 ++ R1
                       | None => []
                       end in
        let rQ := read_doubles (fst (reads (Z.to_nat iter))) (n * n)
                    written Q in
        let rR := read_doubles (snd (reads (Z.to_nat iter))) (n * n)
                    (snd rQ) R in
        qr_iterate_mp res_ok reads n tol fuel' (iter + 1)%Z
          (matmul_single (fst rR) (fst rQ) n) (matmul_single V (fst rQ) n)
          (fst rQ) (fst rR)
  end.

(** The tail shared by the three variants: the result structure. *)
Definition make_result (alloc_vec : bool) (rows_m : Z) (A V : list F)
  (iter : Z) : EigenResult :=
  let n := Z.to_nat rows_m in
  mkEigen (extract_eigenvalues A n)
    (match create_matrix alloc_vec (Some "Eigenvectors"%string) rows_m rows_m with
     | Some ev => Some (copy_flat_to_matrix V ev)
     | None => None
     end)
    rows_m iter.

(** [alloc]: the six workspace allocations succeed; [alloc_vec]: the
    allocation of the eigenvector matrix succeeds. *)
Definition eigen_qr_single (alloc alloc_vec : bool) (elapsed : F)
  (m : option Matrix) (max_iter : Z) (tol : F) (exec_time : option F)
  : option EigenResult * option F :=
  match m with
  | Some mm =>
      if negb (rows mm =? cols mm)%Z then (None, exec_time)
      else if negb alloc then (None, exec_time)
      else
        let n := Z.to_nat (rows mm) in
        match qr_iterate qr_decompose_single matmul_single n tol
                (Z.to_nat max_iter) 0%Z (copy_matrix_flat mm) (identity_flat n) with
        | None => (None, exec_time)
        | Some (A, V, iter) =>
            (Some (make_result alloc_vec (rows mm) A V iter),
             store_time exec_time elapsed)
        end
  | None => (None, exec_time)
  end.

Definition eigen_qr_openmp (alloc alloc_vec : bool)
  (orders : nat -> nat -> nat -> Sum) (elapsed : F)
  (m : option Matrix) (max_iter : Z) (tol : F) (exec_time : option F)
  : option EigenResult * option F :=
  match m with
  | Some mm =>
      if negb (rows mm =? cols mm)%Z then (None, exec_time)
      else if negb alloc then (None, exec_time)
      else
        let n := Z.to_nat (rows mm) in
        match qr_iterate_openmp orders n tol
                (Z.to_nat max_iter) 0%Z (copy_matrix_flat mm) (identity_flat n) with
        | None => (None, exec_time)
        | Some (A, V, iter) =>
            (Some (make_result alloc_vec (rows mm) A V iter),
             store_time exec_time elapsed)
        end
  | None => (None, exec_time)
  end.

(** [Q0], [R0]: what the buffers [Q] and [R] hold when [malloc] hands
    them out. *)
Definition eigen_qr_multiprocess (alloc alloc_vec : bool)
  (res_ok : nat -> bool) (reads : nat -> nat * nat) (Q0 R0 : list F)
  (elapsed : F)
  (m : option Matrix) (max_iter : Z) (tol : F) (exec_time : option F)
  : option EigenResult * option F :=
  match m with
  | Some mm =>
      if negb (rows mm =? cols mm)%Z then (None, exec_time)
      else if negb alloc then (None, exec_time)
      else
        let n := Z.to_nat (rows mm) in
        match qr_iterate_mp res_ok reads n tol (Z.to_nat max_iter) 0%Z
                (copy_matrix_flat mm) (identity_flat n) Q0 R0 with
        | None => (None, exec_time)
        | Some (A, V, iter) =>
            (Some (make_result alloc_vec (rows mm) A V iter),
             store_time exec_time elapsed)
        end
  | None => (None, exec_time)
  end.

(** ** run_eigen_comparison *)

Record EigenOracle : Type := mkEigenOracle {
  e_alloc1 : bool; e_vec1 : bool;
  e_alloc2 : bool; e_vec2 : bool;
  e_alloc3 : bool; e_vec3 : bool;
  e_orders : nat -> nat -> nat -> Sum;
  e_res_ok : nat -> bool;
  e_reads : nat -> nat * nat;
  e_Q0 : list F; e_R0 : list F;
  e_elapsed1 : F; e_elapsed2 : F; e_elapsed3 : F
}.

(** "Choose the fastest result that succeeded": [fastest_name],
    [fastest_time] and [fastest] after the two [if]s. *)
Definition pick_eigen {R : Type} (metrics : PerformanceMetrics)
  (res1 res2 res3 : option R) : Strategy * F * option R :=
  let st0 :=
    (SingleThreaded,
     match res1 with Some _ => single_thread_time metrics | None => lit_1e99 end,
     res1) in
  let st1 :=
    match res2 with
    | Some _ =>
        if ltb (openmp_time metrics) (snd (fst st0))
        then (OpenMP, openmp_time metrics, res2) else st0
    | None => st0
    end in
  match res3 with
  | Some _ =>
      if ltb (multiprocess_time metrics) (snd (fst st1))
      then (Multiprocessing, multiprocess_time metrics, res3) else st1
  | None => st1
  end.

(** The contents of a metrics field after a run that was handed its
    address. *)
Definition field_after (old : F) (t : option F) : F :=
  match t with Some v => v | None => old end.

Definition run_eigen_comparison (o : EigenOracle) (m : option Matrix)
  (max_iter : Z) (tol : F) (metrics : option PerformanceMetrics)
  : option EigenResult * option PerformanceMetrics :=
  match m, metrics with
  | Some mm, Some mt =>
      if negb (rows mm =? cols mm)%Z then (None, metrics)
      else
        let r1 := eigen_qr_single (e_alloc1 o) (e_vec1 o) (e_elapsed1 o)
                    m max_iter tol (Some (single_thread_time mt)) in
        let r2 := eigen_qr_openmp (e_alloc2 o) (e_vec2 o) (e_orders o)
                    (e_elapsed2 o)
                    m max_iter tol (Some (openmp_time mt)) in
        let r3 := eigen_qr_multiprocess (e_alloc3 o) (e_vec3 o) (e_res_ok o)
                    (e_reads o) (e_Q0 o) (e_R0 o) (e_elapsed3 o)
                    m max_iter tol (Some (multiprocess_time mt)) in
        let mt' :=
          mkMetrics (field_after (single_thread_time mt) (snd r1))
                    (field_after (openmp_time mt) (snd r2))
                    (field_after (multiprocess_time mt) (snd r3)) in
        (snd (pick_eigen mt' (fst r1) (fst r2) (fst r3)), Some mt')
  | _, _ => (None, metrics)
  end.

End Eigen.

(* ================================================================== *)
(** * determinant_parallel.c: run_determinant_comparison               *)
(* ================================================================== *)

Section DetComparison.
Context {F : Type} {SF : Scalar F}.

(** What the environment contributes to one run of
    [run_determinant_comparison]. *)
Record DetOracle : Type := mkDetOracle {
  d_alloc1 : bool;                (* workspace of the single run *)
  d_alloc2 : bool;                (* workspace of the OpenMP run *)
  d_alloc3 : bool;                (* workspace of the multiprocess run *)
  d_sched : nat -> list nat;      (* order of the OpenMP row updates *)
  d_step_ok : nat -> bool;        (* resources of each multiprocess step *)
  d_elapsed1 : F;
  d_elapsed2 : F;
  d_elapsed3 : F
}.

(** The variables [fastest], [fastest_time] and [chosen_det] after the two
    [if]s. *)
Definition pick_determinant (metrics : PerformanceMetrics) (det1 det2 det3 : F)
  : Strategy * F * F :=
  let st0 := (SingleThreaded, single_thread_time metrics, det1) in
  let st1 :=
    if ltb (openmp_time metrics) (snd (fst st0))
    then (OpenMP, openmp_time metrics, det2) else st0 in
  if ltb (multiprocess_time metrics) (snd (fst st1))
  then (Multiprocessing, multiprocess_time metrics, det3) else st1.

(** [run_determinant_comparison]: the three variants write to the locals
    [det1], [det2], [det3], which start at 0.0, and to the three time
    fields; their return values are not looked at.  The outcome is the
    return value and the contents of [*metrics] and [*out_det]. *)
Definition run_determinant_comparison (o : DetOracle) (m : option Matrix)
  (metrics : option PerformanceMetrics) (out_det : option F)
  : Z * option PerformanceMetrics * option F :=
  match m, metrics, out_det with
  | Some mm, Some mt, Some _ =>
      if negb (rows mm =? cols mm)%Z then (0%Z, metrics, out_det)
      else
        let r1 := determinant_single (d_alloc1 o) (d_elapsed1 o) m
                    (Some zero) (Some (single_thread_time mt)) in
        let r2 := determinant_openmp (d_sched o) (d_alloc2 o) (d_elapsed2 o) m
                    (Some zero) (Some (openmp_time mt)) in
        let r3 := determinant_multiprocess (d_step_ok o) (d_alloc3 o)
                    (d_elapsed3 o) m
                    (Some zero) (Some (multiprocess_time mt)) in
        let mt' :=
          mkMetrics (field_after (single_thread_time mt) (time_cell r1))
                    (field_after (openmp_time mt) (time_cell r2))
                    (field_after (multiprocess_time mt) (time_cell r3)) in
        let chosen_det :=
          snd (pick_determinant mt'
                 (field_after zero (det_cell r1))
                 (field_after zero (det_cell r2))
                 (field_after zero (det_cell r3))) in
        (1%Z, Some mt', Some chosen_det)
  | _, _, _ => (0%Z, metrics, out_det)
  end.

End DetComparison.

(* ================================================================== *)
(** * matrix_file_ops.c: loading matrices                              *)
(* ================================================================== *)

Section FileOps.
Context {F : Type} {SF : Scalar F}.

(** What the calls of [stat], [fopen] and [fscanf] on one path give:
    whether the file is there and opens, the string read by ["%63s"], the
    two integers read by ["%d %d"] (when both are), and the number read
    by the [k]-th ["%lf"] (when one is). *)
Record FileScan : Type := mkFileScan {
  f_opens : bool;
  f_name : option string;
  f_dims : option (Z * Z);
  f_value : nat -> option F
}.

(** The loops of [read_matrix_from_file] over the elements: the scan of
    element [(i, j)] is the [(i * cols + j)]-th; the first one that fails
    ends the function with NULL. *)
Definition scan_elements (file : FileScan) (r c : nat) (d : list (list F))
  : option (list (list F)) :=
  for_range 0 r (fun i st =>
    for_range 0 c (fun j st =>
      match st with
      | None => None
      | Some d =>
          match f_value file (i * c + j) with
          | Some v => Some (set_cell d i j v)
          | None => None
          end
      end) st)
    (Some d).

(** [read_matrix_from_file]: [alloc] tells whether [create_matrix] gets
    its memory. *)
Definition read_matrix_from_file (alloc : bool) (file : FileScan)
  (filepath : option string) : option Matrix :=
  match filepath with
  | None => None
  | Some _ =>
      if negb (f_opens file) then None
      else match f_name file with
           | None => None
           | Some nm =>
               match f_dims file with
               | None => None
               | Some (r, c) =>
                   if (r <=? 0)%Z || (c <=? 0)%Z then None
                   else match create_matrix alloc (Some nm) r c with
                        | None => None
                        | Some m =>
                            match scan_elements file (Z.to_nat r) (Z.to_nat c)
                                    (data m) with
                            | Some d => Some (set_data m d)
                            | None => None
                            end
                        end
               end
           end
  end.

(** [len < 5 || strcmp(name + len - 4, ".txt") != 0]: the entry is
    skipped. *)
Definition not_txt (d_name : string) : bool :=
  let len := String.length d_name in
  (len <? 5) || negb (String.eqb (substring (len - 4) 4 d_name) ".txt").

(** [snprintf(path, sizeof(path), "%s/%s", folder, ent->d_name)] *)
Definition entry_path (folder d_name : string) : string :=
  substring 0 511 (folder ++ "/" ++ d_name)%string.

(** What the environment contributes to one call of
    [read_matrices_from_folder]: the entries [readdir] lists ([None] when
    the folder is not a directory or does not open), what the scans of a
    path give, and whether the allocations made for the [k]-th entry
    succeed. *)
Record Folder : Type := mkFolder {
  listing : option (list string);
  scan_of : string -> FileScan;
  file_alloc : nat -> bool;
  file_realloc : nat -> bool
}.

(** The body of the [readdir] loop for the [k]-th entry: the state is the
    collection and [loaded]. *)
Definition load_entry (env : Folder) (folder : string) (k : nat)
  (d_name : string) (st : MatrixCollection * Z) : MatrixCollection * Z :=
  if String.eqb d_name "." || String.eqb d_name ".." then st
  else if not_txt d_name then st
  else
    let path := entry_path folder d_name in
    match read_matrix_from_file (file_alloc env k) (scan_of env path)
            (Some path) with
    | None => st
    | Some m =>
        match add_matrix (file_realloc env k) (Some (fst st)) (Some m) with
        | (1%Z, Some col') => (col', (snd st + 1)%Z)
        | _ => st
        end
    end.

Fixpoint load_entries (env : Folder) (folder : string) (k : nat)
  (entries : list string) (st : MatrixCollection * Z) : MatrixCollection * Z :=
  match entries with
  | [] => st
  | d_name :: rest =>
      load_entries env folder (S k) rest (load_entry env folder k d_name st)
  end.

(** [read_matrices_from_folder]: the return value and the collection
    afterwards. *)
Definition read_matrices_from_folder (env : Folder) (folder : option string)
  (col : option MatrixCollection) : Z * option MatrixCollection :=
  match folder, col with
  | Some fd, Some c =>
      match listing env with
      | None => (0%Z, col)
      | Some entries =>
          let st := load_entries env fd 0 entries (c, 0%Z) in
          (snd st, Some (fst st))
      end
  | _, _ => (0%Z, col)
  end.

End FileOps.

(* ================================================================== *)
(** * menu_demo_v2.c: reading the answers of the user                  *)
(* ================================================================== *)

(** The standard input is the string of the characters not read yet; it
    is at its end when the string is empty.  What the program writes on
    the terminal is not part of the model. *)

(** [isspace] in the C locale: the space and the characters 9 to 13. *)
Definition isspace (c : ascii) : bool :=
  let n := nat_of_ascii c in (n =? 32) || ((9 <=? n) && (n <=? 13)).

(** The C string held by a buffer: its bytes before the first NUL. *)
Fixpoint c_str (s : string) : string :=
  match s with
  | EmptyString => EmptyString
  | String c rest =>
      if Ascii.eqb c "000" then EmptyString else String c (c_str rest)
  end.

(** The characters [fgets] takes when it may store [k] of them: up to
    and including the first newline; the others stay in the input. *)
Fixpoint take_line (k : nat) (s : string) : string * string :=
  match k, s with
  | O, _ => (EmptyString, s)
  | _, EmptyString => (EmptyString, EmptyString)
  | S k', String c rest =>
      if Ascii.eqb c "010" then (String c EmptyString, rest)
      else let lr := take_line k' rest in (String c (fst lr), snd lr)
  end.

(** [fgets(buf, n, stdin)]: NULL at the end of the input, otherwise the
    buffer and the input that remains. *)
Definition fgets (n : nat) (stdin : string) : option (string * string) :=
  match stdin with
  | EmptyString => None
  | _ => Some (take_line (n - 1) stdin)
  end.

(** [trim_newline] of the menu: one trailing newline or carriage return
    is cut off. *)
Fixpoint trim_newline (s : string) : string :=
  match s with
  | EmptyString => EmptyString
  | String c EmptyString =>
      if Ascii.eqb c "010" || Ascii.eqb c "013" then EmptyString else s
  | String c rest => String c (trim_newline rest)
  end.

(** The loop that moves [p] past the leading space characters. *)
Fixpoint skip_spaces (s : string) : string :=
  match s with
  | String c rest => if isspace c then skip_spaces rest else s
  | EmptyString => EmptyString
  end.

(** The loop over the characters from [end] on finds space characters
    only. *)
Fixpoint only_spaces (s : string) : bool :=
  match s with
  | String c rest => isspace c && only_spaces rest
  | EmptyString => true
  end.

(** ** strtol in base 10 *)

Definition digit_of (c : ascii) : option Z :=
  let n := nat_of_ascii c in
  if (48 <=? n) && (n <=? 57) then Some (Z.of_nat (n - 48)) else None.

(** The digits at the head of [s]: their value after [acc] and what
    follows them; [None] when there is none and [seen] is false. *)
Fixpoint read_digits (s : string) (acc : Z) (seen : bool)
  : option (Z * string) :=
  match s with
  | String c rest =>
      match digit_of c with
      | Some d => read_digits rest (acc * 10 + d) true
      | None => if seen then Some (acc, s) else None
      end
  | EmptyString => if seen then Some (acc, s) else None
  end.

Definition LONG_MAX : Z := 9223372036854775807.
Definition LONG_MIN : Z := -9223372036854775808.

(** [strtol(p, &end, 10)] with a 64-bit [long]: [None] when no conversion
    is performed ([end == p]), otherwise the value, clamped to the range
    of [long], and the string at [end]. *)
Definition strtol (p : string) : option (Z * string) :=
  let s1 := skip_spaces p in
  let signed :=
    match s1 with
    | String "-" rest => (true, rest)
    | String "+" rest => (false, rest)
    | _ => (false, s1)
    end in
  match read_digits (snd signed) 0 false with
  | None => None
  | Some (v, rest) =>
      let val := if fst signed then (- v)%Z else v in
      Some (Z.max LONG_MIN (Z.min LONG_MAX val), rest)
  end.

(** [(int)val]: the low 32 bits, as a signed number. *)
Definition to_int (v : Z) : Z :=
  ((v + 2147483648) mod 4294967296 - 2147483648)%Z.

(** [read_int_choice]: the return value, the contents of [*out]
    afterwards and the input that remains. *)
Definition read_int_choice (stdin : string) (out : Z) : Z * Z * string :=
  match fgets 256 stdin with
  | None => ((-1)%Z, out, stdin)
  | Some (raw, rest) =>
      let p := skip_spaces (trim_newline (c_str raw)) in
      match p with
      | EmptyString => (0%Z, out, rest)
      | _ =>
          match strtol p with
          | None => (0%Z, out, rest)
          | Some (val, e) =>
              if only_spaces e then (1%Z, to_int val, rest)
              else (0%Z, out, rest)
          end
      end
  end.

(** [read_line_prompt]: the return value, the contents of [buf]
    afterwards and the input that remains. *)
Definition read_line_prompt (n : nat) (stdin : string) (buf : string)
  : Z * string * string :=
  match fgets n stdin with
  | None => ((-1)%Z, buf, stdin)
  | Some (raw, rest) =>
      let line := trim_newline (c_str raw) in
      (Z.of_nat (String.length line), line, rest)
  end.

Definition read_int_prompt (stdin : string) (out : Z) : Z * Z * string :=
  read_int_choice stdin out.

Section Doubles.
Context {F : Type} {SF : Scalar F}.

(** [strtod] of [stdlib.h]: [None] when no conversion is performed,
    otherwise the value and the string at [end]. *)
Variable strtod : string -> option (F * string).

Definition read_double_prompt (stdin : string) (out : F) : Z * F * string :=
  match fgets 256 stdin with
  | None => ((-1)%Z, out, stdin)
  | Some (raw, rest) =>
      let p := skip_spaces (trim_newline (c_str raw)) in
      match p with
      | EmptyString => (0%Z, out, rest)
      | _ =>
          match strtod p with
          | None => (0%Z, out, rest)
          | Some (v, e) =>
              if only_spaces e then (1%Z, v, rest) else (0%Z, out, rest)
          end
      end
  end.

End Doubles.

(* ================================================================== *)
(** * menu_demo_v2.c: the handlers of the menu                         *)
(* ================================================================== *)

Section Handlers.
Context {F : Type} {SF : Scalar F}.
Variable strtod : string -> option (F * string).

(** A handler takes the input and the collection and leaves what remains
    of the input and the collection as it made it. *)
Definition Handler : Type :=
  string -> @MatrixCollection F -> string * @MatrixCollection F.

(** [add_matrix(col, m)] by a handler, which frees [m] when it is
    refused: the collection afterwards. *)
Definition store_matrix (realloc_ok : bool) (col : @MatrixCollection F)
  (m : @Matrix F) : @MatrixCollection F :=
  match add_matrix realloc_ok (Some col) (Some m) with
  | (1%Z, Some col') => col'
  | _ => col
  end.

(** A store through the pointer [find_matrix] returned: the first matrix
    of that name gets the data [d]. *)
Definition store_data (col : @MatrixCollection F) (nm : string)
  (d : list (list F)) : @MatrixCollection F :=
  match find_index nm (items col) 0 with
  | Some i =>
      mkCollection
        (upd (items col) i (set_data (nth i (items col) no_matrix) d))
        (capacity col)
  | None => col
  end.

(** The two loops of [handle_enter_matrix] over the elements: the first
    answer that is not a number cancels the entry. *)
Definition enter_elements (r c : nat) (stdin : string) (d : list (list F))
  : string * option (list (list F)) :=
  for_range 0 r (fun i st =>
    for_range 0 c (fun j st =>
      match snd st with
      | None => st
      | Some d =>
          match read_double_prompt strtod (fst st) zero with
          | (1%Z, val, rest) => (rest, Some (set_cell d i j val))
          | (_, _, rest) => (rest, None)
          end
      end) st)
    (stdin, Some d).

Definition handle_enter_matrix (alloc realloc_ok : bool) : Handler :=
  fun stdin col =>
    match read_line_prompt MAX_NAME_LENGTH stdin EmptyString with
    | (rc, nm, s1) =>
        if (rc =? -1)%Z then (s1, col)
        else if (rc =? 0)%Z then (s1, col)
        else
          match find_matrix (Some col) (Some nm) with
          | Some _ => (s1, col)
          | None =>
              match read_int_prompt s1 0%Z with
              | (rc, r, s2) =>
                  if (rc =? -1)%Z then (s2, col)
                  else if negb (rc =? 1)%Z || (r <=? 0)%Z then (s2, col)
                  else
                    match read_int_prompt s2 0%Z with
                    | (rc, c, s3) =>
                        if (rc =? -1)%Z then (s3, col)
                        else if negb (rc =? 1)%Z || (c <=? 0)%Z then (s3, col)
                        else
                          match create_matrix alloc (Some nm) r c with
                          | None => (s3, col)
                          | Some m =>
                              match enter_elements (Z.to_nat r) (Z.to_nat c)
                                      s3 (data m) with
                              | (s4, None) => (s4, col)
                              | (s4, Some d) =>
                                  (s4, store_matrix realloc_ok col
                                         (set_data m d))
                              end
                          end
                    end
              end
          end
    end.

Definition handle_display_matrix : Handler :=
  fun stdin col =>
    match read_line_prompt MAX_NAME_LENGTH stdin EmptyString with
    | (_, _, s1) => (s1, col)
    end.

Definition handle_delete_matrix : Handler :=
  fun stdin col =>
    match read_line_prompt MAX_NAME_LENGTH stdin EmptyString with
    | (rc, nm, s1) =>
        if (rc =? -1)%Z then (s1, col)
        else if (rc =? 0)%Z then (s1, col)
        else match remove_matrix (Some col) (Some nm) with
             | (_, Some col') => (s1, col')
             | (_, None) => (s1, col)
             end
    end.

(** An index read by [handle_modify_matrix]: the answer has to be a
    number between 0 and [bound - 1]. *)
Definition read_index (stdin : string) (bound : Z) : option nat * string :=
  match read_int_prompt stdin 0%Z with
  | (rc, i, rest) =>
      if negb (rc =? 1)%Z || (i <? 0)%Z || (bound <=? i)%Z then (None, rest)
      else (Some (Z.to_nat i), rest)
  end.

(** The loop over the entries of a row or of a column: [cell_of k] is the
    cell of the [k]-th answer.  The entries stored before an answer that
    is not a number stay stored. *)
Definition modify_cells (len : nat) (cell_of : nat -> nat * nat)
  (stdin : string) (d : list (list F)) : string * list (list F) :=
  fst (for_range 0 len (fun k (st : string * list (list F) * bool) =>
         if snd st
         then match read_double_prompt strtod (fst (fst st)) zero with
              | (1%Z, v, rest) =>
                  (rest,
                   set_cell (snd (fst st)) (fst (cell_of k)) (snd (cell_of k)) v,
                   true)
              | (_, _, rest) => (rest, snd (fst st), false)
              end
         else st)
       (stdin, d, true)).

Definition handle_modify_matrix : Handler :=
  fun stdin col =>
    match read_line_prompt MAX_NAME_LENGTH stdin EmptyString with
    | (rc, nm, s1) =>
        if (rc =? -1)%Z then (s1, col)
        else if (rc =? 0)%Z then (s1, col)
        else
          match find_matrix (Some col) (Some nm) with
          | None => (s1, col)
          | Some m =>
              match read_int_prompt s1 0%Z with
              | (rc, choice, s2) =>
                  if (rc =? -1)%Z then (s2, col)
                  else if negb (rc =? 1)%Z then (s2, col)
                  else if (choice =? 1)%Z then
                    match read_index s2 (rows m) with
                    | (None, s3) => (s3, col)
                    | (Some i, s3) =>
                        match read_index s3 (cols m) with
                        | (None, s4) => (s4, col)
                        | (Some j, s4) =>
                            match read_double_prompt strtod s4 zero with
                            | (1%Z, v, s5) =>
                                (s5, store_data col nm (set_cell (data m) i j v))
                            | (_, _, s5) => (s5, col)
                            end
                        end
                    end
                  else if (choice =? 2)%Z then
                    match read_index s2 (rows m) with
                    | (None, s3) => (s3, col)
                    | (Some i, s3) =>
                        match modify_cells (Z.to_nat (cols m))
                                (fun j => (i, j)) s3 (data m) with
                        | (s4, d) => (s4, store_data col nm d)
                        end
                    end
                  else if (choice =? 3)%Z then
                    match read_index s2 (cols m) with
                    | (None, s3) => (s3, col)
                    | (Some j, s3) =>
                        match modify_cells (Z.to_nat (rows m))
                                (fun i => (i, j)) s3 (data m) with
                        | (s4, d) => (s4, store_data col nm d)
                        end
                    end
                  else (s2, col)
              end
          end
    end.

Definition handle_read_from_file (alloc realloc_ok : bool)
  (scan : string -> FileScan) : Handler :=
  fun stdin col =>
    match read_line_prompt 512 stdin EmptyString with
    | (rc, path, s1) =>
        if (rc =? -1)%Z then (s1, col)
        else if (rc =? 0)%Z then (s1, col)
        else match read_matrix_from_file alloc (scan path) (Some path) with
             | Some m => (s1, store_matrix realloc_ok col m)
             | None => (s1, col)
             end
    end.

Definition handle_read_from_folder (env : Folder) : Handler :=
  fun stdin col =>
    match read_line_prompt 512 stdin EmptyString with
    | (rc, path, s1) =>
        if (rc =? -1)%Z then (s1, col)
        else if (rc =? 0)%Z then (s1, col)
        else match read_matrices_from_folder env (Some path) (Some col) with
             | (_, Some col') => (s1, col')
             | (_, None) => (s1, col)
             end
    end.

(** [handle_save_to_file] writes a file and leaves the collection as it
    is. *)
Definition handle_save_to_file : Handler :=
  fun stdin col =>
    match read_line_prompt MAX_NAME_LENGTH stdin EmptyString with
    | (rc, nm, s1) =>
        if (rc =? -1)%Z then (s1, col)
        else if (rc =? 0)%Z then (s1, col)
        else match find_matrix (Some col) (Some nm) with
             | None => (s1, col)
             | Some _ =>
                 match read_line_prompt 512 s1 EmptyString with
                 | (_, _, s2) => (s2, col)
                 end
             end
    end.

Definition handle_save_all : Handler :=
  fun stdin col =>
    if (count col =? 0)%Z then (stdin, col)
    else match read_line_prompt 512 stdin EmptyString with
         | (_, _, s1) => (s1, col)
         end.

(** [handle_add_matrices], [handle_subtract_matrices] and
    [handle_multiply_matrices] differ in the operation string only.
    [metrics] is the local structure as the handler finds it on its
    stack.

    The children of the multiprocess variant end with [exit(0)], which
    flushes their copy of [stdin]: when the standard input is a regular
    file, this moves the offset the parent shares with them back, and
    characters already taken are read again later.  [after_exit] tells
    what the standard input holds once the children have exited, given
    what it held before; on a terminal or a pipe it is the identity.
    When the run gives up after some forks it does not wait for the
    children; their exits are taken as done when the handler returns. *)
Definition handle_operation (operation : string) (o : Oracle)
  (metrics : PerformanceMetrics) (realloc_ok : bool)
  (after_exit : string -> string) : Handler :=
  fun stdin col =>
    if (count col <? 2)%Z then (stdin, col)
    else
      match read_line_prompt 64 stdin EmptyString with
      | (rc, name1, s1) =>
          if (rc =? -1)%Z then (s1, col)
          else if (rc =? 0)%Z then (s1, col)
          else
            match read_line_prompt 64 s1 EmptyString with
            | (rc, name2, s2) =>
                if (rc =? -1)%Z then (s2, col)
                else if (rc =? 0)%Z then (s2, col)
                else
                  match read_line_prompt 64 s2 EmptyString with
                  | (rc, result_name, s3) =>
                      if (rc =? -1)%Z then (s3, col)
                      else if (rc =? 0)%Z then (s3, col)
                      else
                        match find_matrix (Some col) (Some name1),
                              find_matrix (Some col) (Some name2) with
                        | Some m1, Some m2 =>
                            let forked :=
                              match op_of operation with
                              | Some op =>
                                  forks_child op (alloc3 o) (pids_ok o)
                                    (spawn_ok o) m1 m2
                              | None => false
                              end in
                            let s4 := if forked then after_exit s3 else s3 in
                            match fst (run_operation_comparison o (Some m1)
                                         (Some m2) (Some result_name)
                                         (Some operation) (Some metrics)) with
                            | Some result =>
                                (s4, store_matrix realloc_ok col result)
                            | None => (s4, col)
                            end
                        | _, _ => (s3, col)
                        end
                  end
            end
      end.

Definition handle_add_matrices := handle_operation "Addition".
Definition handle_subtract_matrices := handle_operation "Subtraction".
Definition handle_multiply_matrices := handle_operation "Multiplication".

(** [handle_determinant] and [handle_eigen] read a name and print what
    they compute; the collection stays as it is. *)
Definition handle_determinant : Handler :=
  fun stdin col =>
    match read_line_prompt MAX_NAME_LENGTH stdin EmptyString with
    | (_, _, s1) => (s1, col)
    end.

Definition handle_eigen : Handler :=
  fun stdin col =>
    match read_line_prompt MAX_NAME_LENGTH stdin EmptyString with
    | (_, _, s1) => (s1, col)
    end.

(** What the environment contributes to one action of the menu. *)
Record MenuEnv : Type := mkMenuEnv {
  m_alloc : bool;                     (* the allocations of create_matrix *)
  m_realloc : bool;                   (* the realloc of add_matrix *)
  m_scan : string -> @FileScan F;     (* the files read *)
  m_folder : @Folder F;               (* the folder read *)
  m_oracle : @Oracle F;               (* the run of a comparison *)
  m_metrics : @PerformanceMetrics F;  (* the metrics before the run *)
  m_after_exit : string -> string     (* the input after the children *)
}.

(** [handle_action]; option 9, [display_all_matrices], only prints. *)
Definition handle_action (env : MenuEnv) (choice : Z) : Handler :=
  fun stdin col =>
    if (choice =? 1)%Z then
      handle_enter_matrix (m_alloc env) (m_realloc env) stdin col
    else if (choice =? 2)%Z then handle_display_matrix stdin col
    else if (choice =? 3)%Z then handle_delete_matrix stdin col
    else if (choice =? 4)%Z then handle_modify_matrix stdin col
    else if (choice =? 5)%Z then
      handle_read_from_file (m_alloc env) (m_realloc env) (m_scan env) stdin col
    else if (choice =? 6)%Z then handle_read_from_folder (m_folder env) stdin col
    else if (choice =? 7)%Z then handle_save_to_file stdin col
    else if (choice =? 8)%Z then handle_save_all stdin col
    else if (choice =? 9)%Z then (stdin, col)
    else if (choice =? 10)%Z then
      handle_add_matrices (m_oracle env) (m_metrics env) (m_realloc env)
        (m_after_exit env) stdin col
    else if (choice =? 11)%Z then
      handle_subtract_matrices (m_oracle env) (m_metrics env) (m_realloc env)
        (m_after_exit env) stdin col
    else if (choice =? 12)%Z then
      handle_multiply_matrices (m_oracle env) (m_metrics env) (m_realloc env)
        (m_after_exit env) stdin col
    else if (choice =? 13)%Z then handle_determinant stdin col
    else if (choice =? 14)%Z then handle_eigen stdin col
    else (stdin, col).

End Handlers.

(* ================================================================== *)
(** * Vocabulary of the statements                                     *)
(* ================================================================== *)

Section Vocabulary.
Context {F : Type} {SF : Scalar F}.

(** [d] has [r] rows of [c] entries. *)
Definition shape (r c : nat) (d : list (list F)) : Prop :=
  length d = r /\ Forall (fun row => length row = c) d.

(** Row [i] and column [j] of a matrix. *)
Definition row_of (m : Matrix) (i : nat) : list F := nth i (data m) [].

Definition col_of (m : Matrix) (j : nat) : list F :=
  map (fun row => nth j row zero) (data m).

(** The dot product of two vectors, the terms added from the first to the
    last. *)
Definition dot (xs ys : list F) : F :=
  fold_left (fun s p => add s (mul (fst p) (snd p))) (combine xs ys) zero.

(** The [r] by [c] table of the values [f i j]. *)
Definition table (r c : nat) (f : nat -> nat -> F) : list (list F) :=
  map (fun i => map (fun j => f i j) (seq 0 c)) (seq 0 r).

(** The matrix a variant of operation [op] hands back on success. *)
Definition expected (op : Op) (a b : Matrix) (nm : string) : Matrix :=
  mkMatrix (strncpy_name nm) (rows a) (out_cols op a b)
    (table (Z.to_nat (rows a)) (Z.to_nat (out_cols op a b)) (cell_value op a b)).

(** [res] is an [r] by [c] matrix whose entry [(i, j)] is [f i j]. *)
Definition is_result (r c : Z) (f : nat -> nat -> F) (res : option Matrix)
  : Prop :=
  exists m, res = Some m /\ rows m = r /\ cols m = c /\
    shape (Z.to_nat r) (Z.to_nat c) (data m) /\
    forall i j, i < Z.to_nat r -> j < Z.to_nat c -> cell (data m) i j = f i j.

(** Entry [(r, c)] of row [r] after its update at step [k] on workspace
    [A]: column [k] becomes 0.0, a column right of [k] gets
    [A[r, c] - (A[r, k] / akk) * A[k, c]], a column left of [k] stays. *)
Definition elim_entry (n k : nat) (akk : F) (A : list F) (r c : nat) : F :=
  if c =? k then zero
  else if k <? c
       then sub (at_ n A r c) (mul (div (at_ n A r k) akk) (at_ n A k c))
       else at_ n A r c.

(** The entries after the row phase of step [k]. *)
Definition after_rows (n k : nat) (akk : F) (A : list F) (r c : nat) : F :=
  if k <? r then elim_entry n k akk A r c else at_ n A r c.

(** A row phase that keeps the size of the workspace. *)
Definition keeps_length (n : nat) (rowphase : @RowPhase F) : Prop :=
  forall k akk A X,
    length A = n * n -> rowphase n k akk A = Some X -> length X = n * n.

(** A row phase that, when it succeeds, leaves the entries [after_rows]. *)
Definition sound_rows (n : nat) (rowphase : @RowPhase F) : Prop :=
  forall k akk A X,
    length A = n * n -> k < n -> rowphase n k akk A = Some X ->
    length X = n * n /\
    forall r c, r < n -> c < n -> at_ n X r c = after_rows n k akk A r c.

(** The row phases of the four determinant functions. *)
Inductive variant : @RowPhase F -> Prop :=
| variant_single : variant rows_single
| variant_openmp (sched : nat -> list nat) : variant (rows_openmp sched)
| variant_multiprocess (step_ok : nat -> bool) :
    variant (rows_multiprocess step_ok).

(** A schedule of the OpenMP row loop visits each row below the pivot
    once. *)
Definition valid_schedule (n : nat) (sched : nat -> list nat) : Prop :=
  forall k, k < n -> Permutation (sched k) (seq (k + 1) (n - (k + 1))).

(** [pivot_row] is the first row of largest magnitude in column [k],
    rows [k .. n-1]. *)
Definition is_argmax (n : nat) (A : list F) (k pivot_row : nat) : Prop :=
  k <= pivot_row < n /\
  (forall i, k <= i < n ->
     leb (fabs (at_ n A i k)) (fabs (at_ n A pivot_row k)) = true) /\
  (forall i, k <= i < pivot_row ->
     ltb (fabs (at_ n A i k)) (fabs (at_ n A pivot_row k)) = true).

Definition is_swap (e : @Event F) : bool :=
  match e with Swap _ _ => true | _ => false end.

(** The pivot of the step is not the row of the step. *)
Definition is_moved_pivot (e : @Event F) : bool :=
  match e with Pivot k _ pivot_row => negb (pivot_row =? k) | _ => false end.

Definition count_swaps (evs : list (@Event F)) : nat :=
  length (filter is_swap evs).

Definition count_moved_pivots (evs : list (@Event F)) : nat :=
  length (filter is_moved_pivot evs).

(** The diagonal of the workspace and the product of a list. *)
Definition diag_entries (n : nat) (A : list F) : list F :=
  map (fun i => at_ n A i i) (seq 0 n).

Definition product (l : list F) : F := fold_left mul l one.

(** The [n] by [n] identity matrix. *)
Definition identity_matrix (nm : string) (n : nat) : @Matrix F :=
  mkMatrix nm (Z.of_nat n) (Z.of_nat n)
    (table n n (fun i j => if i =? j then one else zero)).

(** The square matrix [m] has a row of zeros. *)
Definition has_zero_row (m : @Matrix F) : Prop :=
  exists r, r < Z.to_nat (rows m) /\
    forall c, c < Z.to_nat (rows m) -> cell (data m) r c = zero.

(** The conditions under which a variant hands back NULL before it
    computes anything. *)
Definition refused (op : @Op F) (a b : @Matrix F) (alloc : bool) : bool :=
  mismatch op a b || (rows a <=? 0)%Z || (out_cols op a b <=? 0)%Z || negb alloc.

(** A square matrix whose entries off the diagonal are 0.0. *)
Definition is_diagonal (m : @Matrix F) : Prop :=
  rows m = cols m /\
  forall i j, i < Z.to_nat (rows m) -> j < Z.to_nat (rows m) -> i <> j ->
    cell (data m) i j = zero.

(** The diagonal of a matrix, from the first entry to the last. *)
Definition diagonal_of (m : @Matrix F) : list F :=
  map (fun i => cell (data m) i i) (seq 0 (Z.to_nat (rows m))).

(** The iterates a run of [qr_iterate] hands to the decomposition, in
    order: one per round. *)
Fixpoint qr_rounds (qr : list F -> nat -> option (list F * list F))
  (mm : list F -> list F -> nat -> list F) (n : nat) (tol : F)
  (fuel : nat) (A V : list F) : list (list F) :=
  match fuel with
  | O => []
  | S fuel' =>
      if is_converged A n tol then []
      else A :: match qr A n with
                | None => []
                | Some (Q, R) => qr_rounds qr mm n tol fuel' (mm R Q n) (mm V Q n)
                end
  end.

(** [Q] and [R] after the first [j] columns of a decomposition. *)
Definition columns_done (sqrt : F -> F) (A : list F) (n j : nat)
  : option (list F * list F) :=
  for_range 0 j
    (fun j st => match st with
                 | None => None
                 | Some QR => qr_column sqrt A n j QR
                 end)
    (Some (repeat zero (n * n), repeat zero (n * n))).

(** The decomposition of [A] breaks down: after some columns, the next
    one is left with a norm below 1e-14. *)
Definition breaks_down (sqrt : F -> F) (A : list F) (n : nat) : Prop :=
  exists j QR, j < n /\ columns_done sqrt A n j = Some QR /\
    ltb (column_norm sqrt n j (fst (orthogonalize A n j QR))) lit_1e_14 = true.

(** The elapsed time and the success of a strategy in a comparison. *)
Definition time_of (mt : @PerformanceMetrics F) (s : Strategy) : F :=
  match s with
  | SingleThreaded => single_thread_time mt
  | OpenMP => openmp_time mt
  | Multiprocessing => multiprocess_time mt
  end.

Definition result_of {R : Type} (res1 res2 res3 : option R) (s : Strategy)
  : option R :=
  match s with
  | SingleThreaded => res1
  | OpenMP => res2
  | Multiprocessing => res3
  end.

(** The order Sequential, OpenMP, ProcessIsolated. *)
Definition rank (s : Strategy) : nat :=
  match s with SingleThreaded => 0 | OpenMP => 1 | Multiprocessing => 2 end.

(** [s] succeeded, no successful strategy was faster, and the successful
    strategies before it in the order were slower. *)
Definition fastest_successful {R : Type} (mt : @PerformanceMetrics F)
  (res1 res2 res3 : option R) (s : Strategy) : Prop :=
  result_of res1 res2 res3 s <> None /\
  forall s', result_of res1 res2 res3 s' <> None ->
    leb (time_of mt s) (time_of mt s') = true /\
    (rank s' < rank s -> ltb (time_of mt s) (time_of mt s') = true).

(** What holds of the state of [spawn_children] before the child of
    element [(i, j)] is created. *)
Definition spawned (spawn_ok : nat -> bool) (r c : nat) (f : nat -> nat -> F)
  (i j : nat) (st : option (nat * list F)) : Prop :=
  ((forall e, e < r * c -> spawn_ok e = true) -> st <> None) /\
  (forall e pipes, st = Some (e, pipes) ->
     e = i * c + j /\ length pipes = r * c /\
     (forall i' j', i' < i -> j' < c -> nth (i' * c + j') pipes zero = f i' j') /\
     (forall j', j' < j -> nth (i * c + j') pipes zero = f i j')).

(** What holds of the state of [collect_children] before the payload of
    element [(i, j)] is read. *)
Definition collected (r c : nat) (f : nat -> nat -> F) (i j : nat)
  (st : nat * list (list F)) : Prop :=
  fst st = i * c + j /\ shape r c (snd st) /\
  (forall i' j', i' < i -> j' < c -> cell (snd st) i' j' = f i' j') /\
  (forall j', j' < j -> cell (snd st) i j' = f i j').

(** The events of one step, when it does not stop on a small pivot. *)
Definition step_events (n k : nat) (A : list F) : list (@Event F) :=
  let pivot_row := fst (pivot_search n A k) in
  let swapped := negb (pivot_row =? k) in
  let A1 := if swapped then swap_rows n A k pivot_row else A in
  Pivot k A pivot_row
  :: (if swapped then [Swap k pivot_row] else [])
  ++ map (fun i => Division i k (at_ n A1 k k)) (seq (k + 1) (n - (k + 1))).

(** The workspace and the sign after the swap of a step. *)
Definition swapped_ws (n k : nat) (A : list F) : list F :=
  let pivot_row := fst (pivot_search n A k) in
  if negb (pivot_row =? k) then swap_rows n A k pivot_row else A.

Definition swapped_sign (n k : nat) (A : list F) (s : F) : F :=
  if negb (fst (pivot_search n A k) =? k) then neg s else s.

(** The workspace holds the identity. *)
Definition identity_ws (n : nat) (A : list F) : Prop :=
  length A = n * n /\
  forall i j, i < n -> j < n -> at_ n A i j = if i =? j then one else zero.

(** The iterate a run of [qr_iterate] ends with. *)
Definition last_iterate (qr : list F -> nat -> option (list F * list F))
  (mm : list F -> list F -> nat -> list F) (n : nat) (tol : F)
  (fuel : nat) (A V : list F) : list F :=
  match qr_iterate qr mm n tol fuel 0%Z A V with
  | Some (A', _, _) => A'
  | None => []
  end.

End Vocabulary.

Section DeterminantVocabulary.
Context {F : Type} {SF : Scalar F}.

(** [<] and [<=] order the values of [l] as they order numbers: none of
    them is a NaN. *)
Definition ordered_on (l : list F) : Prop :=
  forall x y, In x l -> In y l ->
    (ltb x y = true -> ltb y x = false) /\
    (ltb x y = false -> leb y x = true) /\
    (forall z, In z l -> ltb x y = true -> ltb x z = true \/ ltb z y = true).

(** The magnitudes among which the pivot of step [k] is searched. *)
Definition column_magnitudes (n : nat) (A : list F) (k : nat) : list F :=
  map (fun i => fabs (at_ n A i k)) (seq k (n - k)).

(** The steps of a run: the column, the workspace the step started from
    and the pivot row it selected. *)
Definition steps_of (evs : list (@Event F)) : list (nat * list F * nat) :=
  flat_map (fun e => match e with
                     | Pivot k A p => [(k, A, p)]
                     | _ => []
                     end) evs.

(** The workspace the first of [steps] starts from; [final] when there
    is none. *)
Definition next_ws (steps : list (nat * list F * nat)) (final : list F)
  : list F :=
  match steps with
  | [] => final
  | (_, W, _) :: _ => W
  end.

(** Rows [k] and [p] of the workspace exchanged. *)
Definition exchanged (n : nat) (A : list F) (k p : nat) (r c : nat) : F :=
  at_ n A (if r =? k then p else if r =? p then k else r) c.

(** Entry [(r, c)] after step [k] with pivot row [p], in the words of the
    algorithm: rows [k] and [p] are exchanged, then every row below [k]
    gets 0.0 in column [k] and loses its multiple of row [k] right of
    it. *)
Definition step_entry (n k p : nat) (A : list F) (r c : nat) : F :=
  let a := exchanged n A k p in
  if k <? r
  then if c =? k then zero
       else if k <? c
            then sub (a r c) (mul (div (a r k) (a k k)) (a k c))
            else a r c
  else a r c.

(** [steps] are the steps [k, k+1, ..., n-1] of an elimination that ends
    with the workspace [final]: each selects a pivot row between [k] and
    [n-1] that no later row exceeds in magnitude, the first row of
    largest magnitude when the magnitudes of the column are ordered, and
    hands the next step the workspace [step_entry] describes. *)
Fixpoint elimination_chain (n k : nat) (steps : list (nat * list F * nat))
  (final : list F) : Prop :=
  match steps with
  | [] => k = n
  | (k', W, p) :: rest =>
      k' = k /\ k <= p < n /\
      (forall i, p < i < n ->
         ltb (fabs (at_ n W p k)) (fabs (at_ n W i k)) = false) /\
      (ordered_on (column_magnitudes n W k) -> is_argmax n W k p) /\
      length (next_ws rest final) = n * n /\
      (forall r c, r < n -> c < n ->
         at_ n (next_ws rest final) r c = step_entry n k p W r c) /\
      elimination_chain n (S k) rest final
  end.

(** Some row [r >= k] of the workspace holds 0.0 or -0.0 from column [k]
    on. *)
Definition null_row_ws (n k : nat) (A : list F) : Prop :=
  length A = n * n /\
  exists r, k <= r < n /\ forall c, k <= c < n -> fabs (at_ n A r c) = zero.

(** Every pivot the run divides by is a number, and the entries right of
    it in its row are finite. *)
Definition tame_pivots (n : nat) (evs : list (@Event F)) : Prop :=
  forall k A p, In (Pivot k A p) evs ->
    ltb (fabs (at_ n A p k)) PIVOT_EPS = false ->
    leb (at_ n A p k) (at_ n A p k) = true /\
    forall c, k < c < n -> sub (at_ n A p c) (at_ n A p c) = zero.

End DeterminantVocabulary.


Section CollectionVocabulary.
Context {F : Type} {SF : Scalar F}.

(** The names held by a collection, in the order of [items]. *)
Definition names (c : @MatrixCollection F) : list string := map name (items c).

(** What [create_collection], [add_matrix] and [remove_matrix] keep: no
    two matrices share a name, and the used part of the array fits its
    capacity, which never drops below the initial 8. *)
Definition collection_ok (c : @MatrixCollection F) : Prop :=
  NoDup (names c) /\ (count c <= capacity c)%Z /\ (8 <= capacity c)%Z.

(** A list without its entry [i]. *)
Definition without {A : Type} (i : nat) (l : list A) : list A :=
  firstn i l ++ skipn (S i) l.

(** The columns before [k] of the workspace hold 0.0 below the diagonal. *)
Definition zeros_below (n k : nat) (A : list F) : Prop :=
  length A = n * n /\
  forall r c, c < k -> c < r < n -> at_ n A r c = zero.

(** What every result of a solver call on [m] with budget [max_iter]
    looks like. *)
Definition result_fits (m : @Matrix F) (max_iter : Z) (alloc_vec : bool)
  (r : @EigenResult F) : Prop :=
  eig_n r = rows m /\
  length (eigenvalues r) = Z.to_nat (rows m) /\
  (0 <= iterations r <= Z.max 0 max_iter)%Z /\
  (eigenvectors r = None <-> alloc_vec = false \/ (rows m <= 0)%Z) /\
  forall ev, eigenvectors r = Some ev ->
    name ev = "Eigenvectors"%string /\ rows ev = rows m /\ cols ev = rows m /\
    shape (Z.to_nat (rows m)) (Z.to_nat (rows m)) (data ev).

(** Every reduction of the OpenMP solver on an [n] by [n] matrix returns
    what adding its terms in index order returns. *)
Definition sums_in_order (n : nat) (orders : nat -> nat -> nat -> Sum)
  : Prop :=
  forall i j k (term : nat -> F), k <= j < n ->
    sum_value (orders i j k) term = sum_value (in_order n) term.

(** The two [read]s of every round of the multiprocess solver on an [n]
    by [n] matrix are handed the [n * n] doubles they ask for. *)
Definition whole_reads (n : nat) (reads : nat -> nat * nat) : Prop :=
  forall i, n * n <= fst (reads i) /\ n * n <= snd (reads i).


(** The time a comparison of solvers measures for a strategy. *)
Definition elapsed_of (o : @EigenOracle F) (s : Strategy) : F :=
  match s with
  | SingleThreaded => e_elapsed1 o
  | OpenMP => e_elapsed2 o
  | Multiprocessing => e_elapsed3 o
  end.

(** The values among which a comparison of strategies chooses: the three
    time fields and the 1e99 that stands for a failed first strategy. *)
Definition compared (mt : @PerformanceMetrics F) : list F :=
  [single_thread_time mt; openmp_time mt; multiprocess_time mt; lit_1e99].

(** [<] and [<=] order these values as they order numbers: none of them
    is a NaN. *)
Definition ordered_times (mt : @PerformanceMetrics F) : Prop :=
  forall x y, In x (compared mt) -> In y (compared mt) ->
    (ltb x y = true -> ltb y x = false) /\
    (ltb x y = false -> leb y x = true) /\
    (forall z, In z (compared mt) ->
       ltb x y = true -> ltb x z = true \/ ltb z y = true).

End CollectionVocabulary.

Section StoreVocabulary.
Context {F : Type} {SF : Scalar F}.

(** A collection as the menu keeps it: names distinct, capacity
    respected, and every matrix with [rows] rows of [cols] entries. *)
Definition store_ok (c : @MatrixCollection F) : Prop :=
  collection_ok c /\ Forall well_formed (items c).

(** What holds of the state of [scan_elements] before element [(i, j)]
    is scanned. *)
Definition scanned (file : @FileScan F) (r c i j : nat)
  (st : option (list (list F))) : Prop :=
  (st <> None <-> forall k, k < i * c + j -> f_value file k <> None) /\
  forall d, st = Some d ->
    shape r c d /\
    (forall i' j', i' < i -> j' < c ->
       f_value file (i' * c + j') = Some (cell d i' j')) /\
    (forall j', j' < j -> f_value file (i * c + j') = Some (cell d i j')).

End StoreVocabulary.

Section InputVocabulary.

(** A line of text: no newline and no NUL among its characters. *)
Fixpoint plain (l : string) : bool :=
  match l with
  | EmptyString => true
  | String c rest =>
      negb (Ascii.eqb c "000") && negb (Ascii.eqb c "010") && plain rest
  end.

(** The line [l] followed by a newline and by the rest of the input. *)
Definition line (l rest : string) : string := (l ++ String "010" rest)%string.

End InputVocabulary.

Section MenuVocabulary.
Context {F : Type} {SF : Scalar F}.

(** A name typed on a line of its own that fits the 64 bytes the
    handlers give it. *)
Definition answer (l : string) : Prop :=
  plain l = true /\ 0 < String.length l < 63.

(** A comparison on an [r] by [c] result in which every variant gets its
    resources and the OpenMP schedule visits each cell once. *)
Definition granted (o : @Oracle F) (r c : nat) : Prop :=
  alloc1 o = true /\ alloc2 o = true /\ alloc3 o = true /\
  pids_ok o = true /\ (forall x, x < r * c -> spawn_ok o x = true) /\
  Permutation (sched o) (cells r c).

End MenuVocabulary.

(* ================================================================== *)
(** * Sample inputs                                                    *)
(* ================================================================== *)

(** The default tolerance of the callers, the double nearest to 1e-10. *)
Definition default_tol : float := 0x1.b7cdfd9d7bdbbp-34%float.

Definition sample_a : @Matrix float :=
  mkMatrix "A" 2 2 [[1; 2]; [3; 4]]%float.

Definition sample_b : @Matrix float :=
  mkMatrix "B" 2 2 [[5; 6]; [7; 8]]%float.

(** Its second row is twice the first. *)
Definition singular_m : @Matrix float :=
  mkMatrix "S" 2 2 [[1; 2]; [2; 4]]%float.

Definition diag_m : @Matrix float :=
  mkMatrix "D" 2 2 [[2; 0]; [0; 3]]%float.

(** Of rank one and not diagonal. *)
Definition rank1_m : @Matrix float :=
  mkMatrix "R" 2 2 [[1; 1]; [1; 1]]%float.

Definition one_a : @Matrix float := mkMatrix "A" 1 1 [[1]]%float.

Definition one_b : @Matrix float := mkMatrix "B" 1 1 [[2]]%float.

(** A comparison whose single and OpenMP runs succeed in 0.5 s and
    0.25 s and whose multiprocess run cannot fork. *)
Definition no_fork : @Oracle float :=
  mkOracle true true true [(0, 0)] true (fun _ => false)
    0.5%float 0.25%float 0.125%float.

(** The metrics structure as the caller hands it over. *)
Definition fresh_metrics : @PerformanceMetrics float :=
  mkMetrics 0%float 0%float 0%float.

(** Its determinant is 4. *)
Definition three_m : @Matrix float :=
  mkMatrix "T" 3 3 [[2; 1; 1]; [4; 3; 3]; [8; 7; 9]]%float.

(** Symmetric positive definite, with eigenvalues (7 +- sqrt 5) / 2. *)
Definition spd_m : @Matrix float :=
  mkMatrix "P" 2 2 [[4; 1]; [1; 3]]%float.

(** A schedule that visits the rows below the pivot from the last to the
    first. *)
Definition backwards (n : nat) : nat -> list nat :=
  fun k => rev (seq (k + 1) (n - (k + 1))).

(** An entry of 2^1023: its double is no longer a double. *)
Definition big : float := 0x1p+1023%float.

(** Finite entries whose elimination runs into infinities and NaNs. *)
Definition overflow_m : @Matrix float :=
  mkMatrix "O" 4 4
    [[1; -big; 0; 0]; [1; big; 0; 0]; [1; big; 1; 0]; [0; 0; 2; 1]]%float.

(** The workspace from which step 2 of the elimination of [overflow_m]
    starts. *)
Definition overflow_ws2 : list float :=
  [1; -big; 0; 0; 0; infinity; 0; 0; 0; 0; nan; nan; 0; 0; 2; 1]%float.

(** Its last row is zero. *)
Definition overflow_zero_row : @Matrix float :=
  mkMatrix "Z" 3 3 [[1; -big; -big]; [1; big; big]; [0; 0; 0]]%float.

Definition zero_row_m : @Matrix float :=
  mkMatrix "Z" 3 3 [[2; 1; 1]; [0; 0; 0]; [8; 7; 9]]%float.

(** The workspace and the sign the elimination of [sample_a] ends
    with. *)
Definition sample_a_final_ws : list float :=
  Eval vm_compute in
    match det_final rows_single sample_a with
    | Complete A _ => A
    | _ => []
    end.

Definition sample_a_final_sign : float :=
  Eval vm_compute in
    match det_final rows_single sample_a with
    | Complete _ s => s
    | _ => 0%float
    end.

(** A collection that holds [sample_a], and one that holds [sample_a] and
    [sample_b]. *)
Definition one_stored : @MatrixCollection float := mkCollection [sample_a] 8.

Definition two_stored : @MatrixCollection float :=
  mkCollection [sample_a; sample_b] 8.

(** A comparison of operations on 2 by 2 matrices in which every variant
    gets its resources. *)
Definition all_granted : @Oracle float :=
  mkOracle true true true (cells 2 2) true (fun _ => true)
    0.5%float 0.25%float 0.125%float.

(** A comparison of determinants in which every variant gets its
    resources; the OpenMP rows run from the last to the first. *)
Definition det_granted : @DetOracle float :=
  mkDetOracle true true true (backwards 2) (fun _ => true)
    0.5%float 0.25%float 0.125%float.

(** The workspace and the sign the elimination of [three_m] ends with. *)
Definition three_final_ws : list float :=
  Eval vm_compute in
    match det_final rows_single three_m with
    | Complete A _ => A
    | _ => []
    end.

Definition three_final_sign : float :=
  Eval vm_compute in
    match det_final rows_single three_m with
    | Complete _ s => s
    | _ => 0%float
    end.

(** What [eigen_qr_single] returns on [spd_m]. *)
Definition spd_result : @EigenResult float :=
  Eval vm_compute in
    match fst (eigen_qr_single PrimFloat.sqrt true true 0%float (Some spd_m)
                 500 default_tol None) with
    | Some r => r
    | None => mkEigen [] None 0 0
    end.


(** A comparison of solvers in which every variant gets its resources. *)
Definition eigen_granted : @EigenOracle float :=
  mkEigenOracle true true true true true true
    (fun _ _ _ => chunked [(0, 2)]) (fun _ => true) (fun _ => (4, 4)) [] []
    0.5%float 0.25%float 0.125%float.

(** A file that holds the 1 by 2 matrix C. *)
Definition sample_file : @FileScan float :=
  mkFileScan true (Some "C"%string) (Some (1, 2)%Z)
    (fun k => nth_error [9; 10]%float k).

(** A folder whose only matrix file is [c.txt]. *)
Definition sample_folder : @Folder float :=
  mkFolder (Some ["."; ".."; "notes.md"; ".txt"; "c.txt"]%string)
    (fun _ => sample_file) (fun _ => true) (fun _ => true).

(** A [strtod] that finds no number in what it is given. *)
Definition no_number : string -> option (float * string) := fun _ => None.

Definition sample_env : @MenuEnv float :=
  mkMenuEnv true true (fun _ => sample_file) sample_folder all_granted
    fresh_metrics (fun s => s).

(* ================================================================== *)
(** * Facts about arrays and loops                                     *)
(* ================================================================== *)

Section ListFacts.
Context {A : Type}.

Lemma length_upd (l : list A) (i : nat) (v : A) :
  length (upd l i v) = length l.
Proof.
  revert i; induction l as [|x t IH]; intros [|i]; simpl; auto.
Qed.

Lemma nth_upd (l : list A) (i j : nat) (v d : A) :
  nth j (upd l i v) d =
  if (i =? j) && (i <? length l) then v else nth j l d.
Proof.
  revert i j; induction l as [|x t IH]; intros i j.
  - destruct i, j; simpl; try reflexivity;
      rewrite ?andb_false_r; reflexivity.
  - destruct i as [|i], j as [|j]; simpl; try reflexivity.
    rewrite IH. reflexivity.
Qed.

Lemma nth_upd_same (l : list A) (i : nat) (v d : A) :
  i < length l -> nth i (upd l i v) d = v.
Proof.
  intros H. rewrite nth_upd, Nat.eqb_refl.
  apply Nat.ltb_lt in H. rewrite H. reflexivity.
Qed.

Lemma nth_upd_other (l : list A) (i j : nat) (v d : A) :
  i <> j -> nth j (upd l i v) d = nth j l d.
Proof.
  intros H. rewrite nth_upd.
  apply Nat.eqb_neq in H. rewrite H. reflexivity.
Qed.

End ListFacts.

Section LoopFacts.
Context {S : Type}.

Lemma for_range_empty (lo hi : nat) (body : nat -> S -> S) (s : S) :
  hi <= lo -> for_range lo hi body s = s.
Proof.
  intros H. unfold for_range. replace (hi - lo) with 0 by lia. reflexivity.
Qed.

Lemma for_range_last (lo hi : nat) (body : nat -> S -> S) (s : S) :
  lo <= hi ->
  for_range lo (Datatypes.S hi) body s = body hi (for_range lo hi body s).
Proof.
  intros H. unfold for_range.
  replace (Datatypes.S hi - lo) with (Datatypes.S (hi - lo)) by lia.
  rewrite seq_S, fold_left_app. simpl.
  replace (lo + (hi - lo)) with hi by lia. reflexivity.
Qed.

Lemma for_range_first (lo hi : nat) (body : nat -> S -> S) (s : S) :
  lo < hi ->
  for_range lo hi body s = for_range (Datatypes.S lo) hi body (body lo s).
Proof.
  intros H. unfold for_range.
  replace (hi - lo) with (Datatypes.S (hi - Datatypes.S lo)) by lia.
  reflexivity.
Qed.

(** The loop invariant rule. *)
Lemma for_range_inv (P : nat -> S -> Prop) (lo hi : nat)
  (body : nat -> S -> S) (s : S) :
  lo <= hi ->
  P lo s ->
  (forall i t, lo <= i < hi -> P i t -> P (Datatypes.S i) (body i t)) ->
  P hi (for_range lo hi body s).
Proof.
  intros Hle H0 Hstep.
  induction hi as [|hi IH].
  - assert (lo = 0) by lia. subst. rewrite for_range_empty; auto.
  - destruct (Nat.eq_dec lo (Datatypes.S hi)) as [->|Hne].
    + rewrite for_range_empty; auto.
    + rewrite for_range_last by lia.
      apply Hstep; [lia|]. apply IH; [lia|].
      intros i t Hi. apply Hstep. lia.
Qed.

Lemma for_range_ext (lo hi : nat) (f g : nat -> S -> S) (s : S) :
  (forall i t, lo <= i < hi -> f i t = g i t) ->
  for_range lo hi f s = for_range lo hi g s.
Proof.
  intros H. unfold for_range.
  assert (Hin : forall i, In i (seq lo (hi - lo)) -> lo <= i < hi).
  { intros i Hi. apply in_seq in Hi. lia. }
  revert s Hin. generalize (seq lo (hi - lo)) as l.
  induction l as [|x l IH]; intros s Hin; simpl; auto.
  rewrite H by (apply Hin; left; reflexivity).
  apply IH. intros i Hi. apply Hin. right. exact Hi.
Qed.

Lemma for_sched_inv {I : Type} (P : S -> Prop) (sched : list I)
  (body : I -> S -> S) (s : S) :
  P s ->
  (forall i t, In i sched -> P t -> P (body i t)) ->
  P (for_sched sched body s).
Proof.
  unfold for_sched. revert s.
  induction sched as [|x l IH]; intros s H0 Hstep; simpl; auto.
  apply IH.
  - apply Hstep; [left; reflexivity|exact H0].
  - intros i t Hi. apply Hstep. right. exact Hi.
Qed.

End LoopFacts.

(** Two nested loops visit the cells in row-major order. *)
Lemma for_range_nested {S : Type} (r c : nat) (body : nat -> nat -> S -> S)
  (s : S) :
  for_range 0 r (fun i s => for_range 0 c (fun j s => body i j s) s) s =
  for_sched (cells r c) (fun ij s => body (fst ij) (snd ij) s) s.
Proof.
  unfold for_range, for_sched, cells. rewrite !Nat.sub_0_r.
  revert s. generalize (seq 0 r) as rowsl.
  induction rowsl as [|i l IH]; intros s; simpl; auto.
  rewrite fold_left_app, <- IH. f_equal.
  generalize (seq 0 c) as colsl. revert s.
  intros s colsl. revert s.
  induction colsl as [|j l' IH']; intros s; simpl; auto.
Qed.

Lemma in_cells (r c i j : nat) : In (i, j) (cells r c) <-> i < r /\ j < c.
Proof.
  unfold cells. rewrite in_flat_map. split.
  - intros [x [Hx Hin]]. apply in_map_iff in Hin.
    destruct Hin as [y [Heq Hy]]. inversion Heq; subst.
    apply in_seq in Hx. apply in_seq in Hy. lia.
  - intros [Hi Hj]. exists i. split.
    + apply in_seq. lia.
    + apply in_map_iff. exists j. split; auto. apply in_seq. lia.
Qed.

(** Row-major indices. *)
Lemma index_inj (n i j i' j' : nat) :
  j < n -> j' < n -> i * n + j = i' * n + j' -> i = i' /\ j = j'.
Proof. intros Hj Hj' H. assert (i = i') by nia. subst. lia. Qed.

Lemma index_lt (r n i j : nat) : i < r -> j < n -> i * n + j < r * n.
Proof. intros. nia. Qed.

(* ================================================================== *)
(** * Facts about matrices held as lists of rows                       *)
(* ================================================================== *)

Section MatrixFacts.
Context {F : Type} {SF : Scalar F}.

Lemma Forall_upd {A : Type} (P : A -> Prop) (l : list A) (i : nat) (v : A) :
  Forall P l -> (i < length l -> P v) -> Forall P (upd l i v).
Proof.
  revert i; induction l as [|x t IH]; intros i Hl Hv; simpl.
  - destruct i; constructor.
  - inversion Hl; subst. destruct i as [|i].
    + constructor; auto. apply Hv. simpl. lia.
    + constructor; auto. apply IH; auto. intros Hi. apply Hv. simpl. lia.
Qed.

Lemma shape_row (r c : nat) (d : list (list F)) (i : nat) :
  shape r c d -> i < r -> length (nth i d []) = c.
Proof.
  intros [Hlen Hall] Hi. rewrite Forall_forall in Hall.
  apply Hall. apply nth_In. lia.
Qed.

Lemma shape_repeat (r c : nat) : shape r c (repeat (repeat zero c) r).
Proof.
  split.
  - apply repeat_length.
  - apply Forall_forall. intros x Hx. apply repeat_spec in Hx. subst.
    apply repeat_length.
Qed.

Lemma shape_set_cell (r c : nat) (d : list (list F)) (i j : nat) (v : F) :
  shape r c d -> shape r c (set_cell d i j v).
Proof.
  intros Hs. pose proof Hs as [Hlen Hall]. unfold set_cell. split.
  - rewrite length_upd. exact Hlen.
  - apply Forall_upd; auto. intros Hi. rewrite length_upd.
    apply (shape_row r c); auto. lia.
Qed.

Lemma cell_set_cell (r c : nat) (d : list (list F)) (i j i' j' : nat) (v : F) :
  shape r c d -> i < r -> j < c ->
  cell (set_cell d i j v) i' j' =
  if (i =? i') && (j =? j') then v else cell d i' j'.
Proof.
  intros Hs Hi Hj. pose proof Hs as [Hlen Hall]. unfold cell, set_cell.
  rewrite nth_upd.
  assert (Hlt : (i <? length d) = true) by (apply Nat.ltb_lt; lia).
  rewrite Hlt, andb_true_r.
  destruct (Nat.eqb_spec i i') as [->|Hne]; simpl; auto.
  rewrite nth_upd.
  assert (Hlt' : (j <? length (nth i' d [])) = true).
  { apply Nat.ltb_lt. rewrite (shape_row r c); auto. }
  rewrite Hlt', andb_true_r. reflexivity.
Qed.

Lemma shape_ext (r c : nat) (d d' : list (list F)) :
  shape r c d -> shape r c d' ->
  (forall i j, i < r -> j < c -> cell d i j = cell d' i j) ->
  d = d'.
Proof.
  intros Hs Hs' Heq. pose proof Hs as [Hlen _]. pose proof Hs' as [Hlen' _].
  apply (nth_ext d d' [] []); [lia|].
  intros i Hi.
  apply (nth_ext _ _ zero zero).
  - rewrite (shape_row r c d), (shape_row r c d'); auto; lia.
  - intros j Hj. rewrite (shape_row r c d) in Hj by (auto; lia).
    apply Heq; lia.
Qed.

(** The cells stored by a schedule hold their values; the others keep
    theirs. *)
Lemma sched_fill_spec (f : nat -> nat -> F) (r c : nat)
  (sched : list (nat * nat)) (d : list (list F)) :
  shape r c d ->
  (forall i j, In (i, j) sched -> i < r /\ j < c) ->
  let d' := for_sched sched
              (fun ij d => set_cell d (fst ij) (snd ij) (f (fst ij) (snd ij))) d in
  shape r c d' /\
  (forall i j, In (i, j) sched -> cell d' i j = f i j) /\
  (forall i j, ~ In (i, j) sched -> cell d' i j = cell d i j).
Proof.
  unfold for_sched. revert d.
  induction sched as [|[a b] l IH]; intros d Hs Hin; cbn [fold_left fst snd].
  - split; [exact Hs|]. split; [intros i j H; destruct H|reflexivity].
  - destruct (Hin a b (or_introl eq_refl)) as [Ha Hb].
    destruct (IH (set_cell d a b (f a b))) as [Hs' [Hin' Hout']].
    + apply shape_set_cell; auto.
    + intros i j Hij. apply Hin. right. exact Hij.
    + split; [exact Hs'|]. split.
      * intros i j [Heq|Hl]; [|apply Hin'; exact Hl].
        inversion Heq; subst.
        destruct (in_dec (fun x y : nat * nat =>
                            ltac:(decide equality; apply Nat.eq_dec))
                         (i, j) l) as [Hl|Hl].
        -- apply Hin'; exact Hl.
        -- rewrite Hout' by exact Hl.
           rewrite (cell_set_cell r c) by auto.
           rewrite !Nat.eqb_refl. reflexivity.
      * intros i j Hn. rewrite Hout' by (intro; apply Hn; right; assumption).
        rewrite (cell_set_cell r c) by auto.
        destruct (Nat.eqb_spec a i) as [->|]; simpl; auto.
        destruct (Nat.eqb_spec b j) as [->|]; simpl; auto.
        exfalso. apply Hn. left. reflexivity.
Qed.

(** A schedule that covers the iteration space fills every cell, in any
    order. *)
Lemma sched_fill_full (f : nat -> nat -> F) (r c : nat)
  (sched : list (nat * nat)) (d : list (list F)) :
  shape r c d ->
  Permutation sched (cells r c) ->
  let d' := for_sched sched
              (fun ij d => set_cell d (fst ij) (snd ij) (f (fst ij) (snd ij))) d in
  shape r c d' /\ (forall i j, i < r -> j < c -> cell d' i j = f i j).
Proof.
  intros Hs Hp d'.
  destruct (sched_fill_spec f r c sched d Hs) as [Hs' [Hin _]].
  - intros i j Hij. apply in_cells.
    apply (Permutation_in _ Hp). exact Hij.
  - split; [exact Hs'|]. intros i j Hi Hj. apply Hin.
    apply (Permutation_in _ (Permutation_sym Hp)). apply in_cells. auto.
Qed.

Lemma fill_cells_spec (f : nat -> nat -> F) (r c : nat) (d : list (list F)) :
  shape r c d ->
  shape r c (fill_cells r c f d) /\
  (forall i j, i < r -> j < c -> cell (fill_cells r c f d) i j = f i j).
Proof.
  intros Hs. unfold fill_cells.
  rewrite (for_range_nested r c (fun i j d => set_cell d i j (f i j))).
  apply sched_fill_full; auto.
Qed.

End MatrixFacts.

(* ================================================================== *)
(** * The multiprocess variants: payloads keep their positions         *)
(* ================================================================== *)

Section PipeFacts.
Context {F : Type} {SF : Scalar F}.

Lemma spawn_children_inv (spawn_ok : nat -> bool) (r c : nat)
  (f : nat -> nat -> F) :
  spawned spawn_ok r c f r 0 (spawn_children spawn_ok r c f (r * c)).
Proof.
  unfold spawn_children.
  apply (for_range_inv (fun i st => spawned spawn_ok r c f i 0 st)); [lia| |].
  - split; [discriminate|].
    intros e pipes H. inversion H; subst. rewrite repeat_length.
    repeat split; auto; intros; lia.
  - intros i st Hi Hst.
    assert (Hrow : spawned spawn_ok r c f i c
              (for_range 0 c
                 (fun j st =>
                    match st with
                    | None => None
                    | Some (elem_idx, pipes) =>
                        if spawn_ok elem_idx
                        then Some (S elem_idx, upd pipes elem_idx (f i j))
                        else None
                    end) st)).
    { apply (for_range_inv (fun j st => spawned spawn_ok r c f i j st));
        [lia|exact Hst|].
      intros j [[e pipes]|] Hj [Hok Hinv].
      - destruct (Hinv e pipes eq_refl) as [He [Hlen [Hprev Hcur]]].
        split.
        + intros Hall. rewrite Hall by (subst e; nia). discriminate.
        + intros e' pipes' Heq.
          destruct (spawn_ok e); [|discriminate].
          inversion Heq; subst e' pipes'; clear Heq.
          rewrite length_upd. repeat split; auto; try lia.
          * intros i' j' Hi' Hj'. rewrite nth_upd_other by (subst e; nia).
            apply Hprev; auto.
          * intros j' Hj'. destruct (Nat.eq_dec j' j) as [->|Hne].
            -- rewrite <- He. apply nth_upd_same. subst e. nia.
            -- rewrite nth_upd_other by (subst e; nia). apply Hcur. lia.
      - split; [|discriminate]. intros Hall. exfalso. apply Hok; auto. }
    destruct Hrow as [Hok Hinv]. split; [exact Hok|].
    intros e pipes Heq. destruct (Hinv e pipes Heq) as [He [Hlen [Hprev Hcur]]].
    repeat split; auto; try lia.
    intros i' j' Hi' Hj'. destruct (Nat.eq_dec i' i) as [->|Hne].
    + apply Hcur; auto.
    + apply Hprev; auto. lia.
Qed.

(** The payload of element [(i, j)] is at index [i * c + j]. *)
Lemma spawn_children_spec (spawn_ok : nat -> bool) (r c : nat)
  (f : nat -> nat -> F) (e : nat) (pipes : list F) :
  spawn_children spawn_ok r c f (r * c) = Some (e, pipes) ->
  forall i j, i < r -> j < c -> nth (i * c + j) pipes zero = f i j.
Proof.
  intros H. destruct (spawn_children_inv spawn_ok r c f) as [_ Hinv].
  destruct (Hinv e pipes H) as [_ [_ [Hprev _]]]. exact Hprev.
Qed.

Lemma spawn_children_ok (spawn_ok : nat -> bool) (r c : nat)
  (f : nat -> nat -> F) :
  (forall e, e < r * c -> spawn_ok e = true) ->
  exists e pipes, spawn_children spawn_ok r c f (r * c) = Some (e, pipes).
Proof.
  intros Hall. destruct (spawn_children_inv spawn_ok r c f) as [Hok _].
  destruct (spawn_children spawn_ok r c f (r * c)) as [[e pipes]|].
  - exists e, pipes. reflexivity.
  - exfalso. apply Hok; auto.
Qed.

Lemma collect_children_spec (r c : nat) (f : nat -> nat -> F)
  (pipes : list F) (d : list (list F)) :
  shape r c d ->
  (forall i j, i < r -> j < c -> nth (i * c + j) pipes zero = f i j) ->
  shape r c (snd (collect_children r c pipes d)) /\
  (forall i j, i < r -> j < c ->
     cell (snd (collect_children r c pipes d)) i j = f i j).
Proof.
  intros Hs Hp.
  assert (H : collected r c f r 0 (collect_children r c pipes d)).
  { unfold collect_children.
    apply (for_range_inv (fun i st => collected r c f i 0 st)); [lia| |].
    - repeat split; simpl; auto; try apply Hs; intros; lia.
    - intros i st Hi Hst.
      assert (Hrow : collected r c f i c
                (for_range 0 c
                   (fun j st =>
                      (S (fst st),
                       set_cell (snd st) i j (nth (fst st) pipes zero))) st)).
      { apply (for_range_inv (fun j st => collected r c f i j st));
          [lia|exact Hst|].
        intros j [e d1] Hj [He [Hsh [Hprev Hcur]]]. simpl in *.
        unfold collected; simpl. split; [lia|].
        split; [apply shape_set_cell; exact Hsh|]. split.
        - intros i' j' Hi' Hj'.
          rewrite (cell_set_cell r c) by (auto; lia).
          destruct (Nat.eqb_spec i i'); [lia|]. simpl. apply Hprev; auto.
        - intros j' Hj'.
          rewrite (cell_set_cell r c) by (auto; lia).
          rewrite Nat.eqb_refl. simpl.
          destruct (Nat.eqb_spec j j') as [<-|Hne].
          + subst e. apply Hp; lia.
          + apply Hcur. lia. }
      destruct Hrow as [He [Hsh [Hprev Hcur]]].
      unfold collected. split; [simpl; lia|]. split; [exact Hsh|]. split.
      + intros i' j' Hi' Hj'. destruct (Nat.eq_dec i' i) as [->|Hne].
        * apply Hcur; auto.
        * apply Hprev; auto. lia.
      + intros; lia. }
  destruct H as [_ [Hsh [Hprev _]]]. split; auto.
Qed.

End PipeFacts.

(* ================================================================== *)
(** * The arithmetic variants compute the same table                   *)
(* ================================================================== *)

Section ArithFacts.
Context {F : Type} {SF : Scalar F}.

Lemma shape_table (r c : nat) (f : nat -> nat -> F) : shape r c (table r c f).
Proof.
  unfold table. split.
  - rewrite length_map, length_seq. reflexivity.
  - apply Forall_forall. intros x Hx. apply in_map_iff in Hx.
    destruct Hx as [i [<- _]]. rewrite length_map, length_seq. reflexivity.
Qed.

Lemma cell_table (r c : nat) (f : nat -> nat -> F) (i j : nat) :
  i < r -> j < c -> cell (table r c f) i j = f i j.
Proof.
  intros Hi Hj. unfold cell, table.
  rewrite (nth_indep _ [] (map (fun j => f 0 j) (seq 0 c)))
    by (rewrite length_map, length_seq; exact Hi).
  rewrite (map_nth (fun i => map (fun j => f i j) (seq 0 c)) (seq 0 r) 0 i).
  rewrite seq_nth by exact Hi. simpl.
  rewrite (nth_indep _ zero (f i 0))
    by (rewrite length_map, length_seq; exact Hj).
  rewrite (map_nth (fun j => f i j) (seq 0 c) 0 j).
  rewrite seq_nth by exact Hj. reflexivity.
Qed.

Lemma fill_cells_table (f : nat -> nat -> F) (r c : nat) (d : list (list F)) :
  shape r c d -> fill_cells r c f d = table r c f.
Proof.
  intros Hs. destruct (fill_cells_spec f r c d Hs) as [Hs' Hc].
  apply (shape_ext r c); auto using shape_table.
  intros i j Hi Hj. rewrite Hc, cell_table; auto.
Qed.

Lemma sched_fill_table (f : nat -> nat -> F) (r c : nat)
  (sched : list (nat * nat)) (d : list (list F)) :
  shape r c d -> Permutation sched (cells r c) ->
  for_sched sched
    (fun ij d => set_cell d (fst ij) (snd ij) (f (fst ij) (snd ij))) d
  = table r c f.
Proof.
  intros Hs Hp. destruct (sched_fill_full f r c sched d Hs Hp) as [Hs' Hc].
  apply (shape_ext r c); auto using shape_table.
  intros i j Hi Hj. rewrite Hc, cell_table; auto.
Qed.

Lemma collect_children_table (f : nat -> nat -> F) (r c e : nat)
  (spawn_ok : nat -> bool) (pipes : list F) (d : list (list F)) :
  shape r c d ->
  spawn_children spawn_ok r c f (r * c) = Some (e, pipes) ->
  snd (collect_children r c pipes d) = table r c f.
Proof.
  intros Hs Hsp.
  destruct (collect_children_spec r c f pipes d Hs
              (spawn_children_spec spawn_ok r c f e pipes Hsp)) as [Hs' Hc].
  apply (shape_ext r c); auto using shape_table.
  intros i j Hi Hj. rewrite Hc, cell_table; auto.
Qed.

(** [create_matrix] either refuses or returns the zero matrix. *)
Lemma create_matrix_eq (alloc : bool) (nm : string) (r c : Z) :
  create_matrix alloc (Some nm) r c =
  if (r <=? 0)%Z || (c <=? 0)%Z || negb alloc then None
  else Some (mkMatrix (strncpy_name nm) r c
               (repeat (repeat zero (Z.to_nat c)) (Z.to_nat r))).
Proof.
  unfold create_matrix.
  destruct ((r <=? 0)%Z || (c <=? 0)%Z); simpl; auto.
Qed.

(** The outcome of each variant in closed form. *)
Lemma run_single_eq (op : Op) (alloc : bool) (e t : F) (a b : Matrix)
  (nm : string) :
  run_single op alloc e (Some a) (Some b) (Some nm) t =
  if refused op a b alloc then (None, t) else (Some (expected op a b nm), e).
Proof.
  unfold run_single, refused. destruct (mismatch op a b); simpl; auto.
  rewrite create_matrix_eq.
  destruct ((rows a <=? 0)%Z || (out_cols op a b <=? 0)%Z || negb alloc);
    simpl; auto.
  unfold set_data, expected; simpl.
  rewrite fill_cells_table by apply shape_repeat. reflexivity.
Qed.

Lemma run_openmp_eq (op : Op) (alloc : bool) (sched : list (nat * nat))
  (e t : F) (a b : Matrix) (nm : string) :
  Permutation sched (cells (Z.to_nat (rows a)) (Z.to_nat (out_cols op a b))) ->
  run_openmp op alloc sched e (Some a) (Some b) (Some nm) t =
  if refused op a b alloc then (None, t) else (Some (expected op a b nm), e).
Proof.
  intros Hp.
  unfold run_openmp, refused. destruct (mismatch op a b); simpl; auto.
  rewrite create_matrix_eq.
  destruct ((rows a <=? 0)%Z || (out_cols op a b <=? 0)%Z || negb alloc);
    simpl; auto.
  unfold set_data, expected; simpl.
  rewrite (sched_fill_table (cell_value op a b) (Z.to_nat (rows a))
             (Z.to_nat (out_cols op a b)));
    auto using shape_repeat.
Qed.

Lemma run_multiprocess_eq (op : Op) (alloc pids : bool)
  (spawn : nat -> bool) (e t : F) (a b : Matrix) (nm : string) :
  run_multiprocess op alloc pids spawn e (Some a) (Some b) (Some nm) t =
  if refused op a b alloc || negb pids then (None, t)
  else match spawn_children spawn (Z.to_nat (rows a))
               (Z.to_nat (out_cols op a b)) (cell_value op a b)
               (Z.to_nat (rows a) * Z.to_nat (out_cols op a b)) with
       | None => (None, t)
       | Some _ => (Some (expected op a b nm), e)
       end.
Proof.
  unfold run_multiprocess, refused. destruct (mismatch op a b); simpl; auto.
  rewrite create_matrix_eq.
  destruct ((rows a <=? 0)%Z || (out_cols op a b <=? 0)%Z || negb alloc);
    simpl; auto.
  destruct pids; simpl; auto.
  destruct (spawn_children spawn _ _ _ _) as [[e' pipes]|] eqn:Hsp; auto.
  unfold set_data, expected; simpl.
  rewrite (collect_children_table (cell_value op a b) (Z.to_nat (rows a))
             (Z.to_nat (out_cols op a b)) e' spawn);
    auto using shape_repeat.
Qed.

Lemma run_multiprocess_all_ok (op : Op) (e t : F) (a b : Matrix) (nm : string) :
  run_multiprocess op true true (fun _ => true) e (Some a) (Some b) (Some nm) t =
  if refused op a b true then (None, t) else (Some (expected op a b nm), e).
Proof.
  rewrite run_multiprocess_eq. rewrite orb_false_r.
  destruct (refused op a b true); auto.
  destruct (spawn_children_ok (fun _ => true) (Z.to_nat (rows a))
              (Z.to_nat (out_cols op a b)) (cell_value op a b))
    as [e' [pipes ->]]; auto.
Qed.

(** The three functions of [matrix_arithmetic.c] in the same closed form. *)
Lemma add_matrices_eq (alloc : bool) (a b : Matrix) (nm : string) :
  add_matrices alloc (Some a) (Some b) (Some nm) =
  if refused add_op a b alloc then None else Some (expected add_op a b nm).
Proof.
  unfold add_matrices, refused. simpl.
  destruct (addsub_mismatch a b); simpl; auto.
  rewrite create_matrix_eq.
  destruct ((rows a <=? 0)%Z || (cols a <=? 0)%Z || negb alloc); simpl; auto.
  unfold set_data, expected; simpl.
  rewrite fill_cells_table by apply shape_repeat. reflexivity.
Qed.

Lemma subtract_matrices_eq (alloc : bool) (a b : Matrix) (nm : string) :
  subtract_matrices alloc (Some a) (Some b) (Some nm) =
  if refused sub_op a b alloc then None else Some (expected sub_op a b nm).
Proof.
  unfold subtract_matrices, refused. simpl.
  destruct (addsub_mismatch a b); simpl; auto.
  rewrite create_matrix_eq.
  destruct ((rows a <=? 0)%Z || (cols a <=? 0)%Z || negb alloc); simpl; auto.
  unfold set_data, expected; simpl.
  rewrite fill_cells_table by apply shape_repeat. reflexivity.
Qed.

Lemma multiply_matrices_eq (alloc : bool) (a b : Matrix) (nm : string) :
  multiply_matrices alloc (Some a) (Some b) (Some nm) =
  if refused mul_op a b alloc then None else Some (expected mul_op a b nm).
Proof.
  unfold multiply_matrices, refused. simpl.
  destruct (mul_mismatch a b); simpl; auto.
  rewrite create_matrix_eq.
  destruct ((rows a <=? 0)%Z || (cols b <=? 0)%Z || negb alloc); simpl; auto.
  unfold set_data, expected; simpl.
  rewrite fill_cells_table by apply shape_repeat. reflexivity.
Qed.

End ArithFacts.

Section ArithContract.
Context {F : Type} {SF : Scalar F}.

Lemma fold_left_ext_in {A B : Type} (f g : A -> B -> A) (l : list B) (s : A) :
  (forall t x, In x l -> f t x = g t x) ->
  fold_left f l s = fold_left g l s.
Proof.
  revert s; induction l as [|x l IH]; intros s H; simpl; auto.
  rewrite H by (left; reflexivity). apply IH.
  intros t y Hy. apply H. right. exact Hy.
Qed.

(** The loop over [k] adds the terms of the dot product in order. *)
Lemma dot_nth (xs ys : list F) (n lo : nat) (s0 : F) :
  length xs = n -> length ys = n ->
  fold_left (fun s p => add s (mul (fst p) (snd p))) (combine xs ys) s0 =
  fold_left (fun s k => add s (mul (nth (k - lo) xs zero) (nth (k - lo) ys zero)))
    (seq lo n) s0.
Proof.
  revert ys n lo s0.
  induction xs as [|x xs IH]; intros ys n lo s0 Hx Hy; simpl in Hx; subst n.
  - reflexivity.
  - destruct ys as [|y ys]; [discriminate|]. simpl in Hy.
    cbn [combine fold_left seq fst snd].
    rewrite Nat.sub_diag. cbn [nth].
    rewrite (IH ys (length xs) (S lo)) by (auto; lia).
    apply fold_left_ext_in. intros t k Hk. apply in_seq in Hk.
    replace (k - lo) with (S (k - S lo)) by lia. reflexivity.
Qed.

Lemma nth_col_of (b : Matrix) (j k : nat) :
  nth k (col_of b j) zero = cell (data b) k j.
Proof.
  unfold col_of, cell.
  assert (H0 : zero = (fun row : list F => nth j row zero) [])
    by (destruct j; reflexivity).
  rewrite H0 at 1.
  exact (map_nth (fun row : list F => nth j row zero) (data b) [] k).
Qed.

Lemma mul_cell_dot (a b : Matrix) (i j : nat) :
  well_formed a -> well_formed b -> cols a = rows b ->
  i < Z.to_nat (rows a) ->
  mul_cell a b i j = dot (row_of a i) (col_of b j).
Proof.
  intros [_ [_ [Hla Hfa]]] [_ [_ [Hlb _]]] Hab Hi.
  unfold mul_cell, dot_cell, dot, for_range. rewrite Nat.sub_0_r.
  rewrite (dot_nth (row_of a i) (col_of b j) (Z.to_nat (cols a)) 0).
  - apply fold_left_ext_in. intros t k _.
    rewrite Nat.sub_0_r, nth_col_of. reflexivity.
  - unfold row_of. rewrite Forall_forall in Hfa. apply Hfa.
    apply nth_In. lia.
  - unfold col_of. rewrite length_map. rewrite Hlb, Hab. reflexivity.
Qed.

Lemma is_result_expected (op : Op) (a b : Matrix) (nm : string)
  (f : nat -> nat -> F) :
  (forall i j, i < Z.to_nat (rows a) -> j < Z.to_nat (out_cols op a b) ->
     cell_value op a b i j = f i j) ->
  is_result (rows a) (out_cols op a b) f (Some (expected op a b nm)).
Proof.
  intros Hf. exists (expected op a b nm). simpl.
  repeat split; auto using shape_table; try apply shape_table.
  intros i j Hi Hj. rewrite cell_table by auto. apply Hf; auto.
Qed.

Lemma mismatch_none (op : Op) (a b : Matrix) (nm : string) (e t : F)
  (alloc pids : bool) (spawn : nat -> bool) (sched : list (nat * nat)) :
  mismatch op a b = true ->
  fst (run_single op alloc e (Some a) (Some b) (Some nm) t) = None /\
  fst (run_openmp op alloc sched e (Some a) (Some b) (Some nm) t) = None /\
  fst (run_multiprocess op alloc pids spawn e (Some a) (Some b) (Some nm) t)
  = None.
Proof.
  intros H. unfold run_single, run_openmp, run_multiprocess.
  rewrite H. auto.
Qed.

Lemma addsub_mismatch_false (a b : @Matrix F) :
  rows a = rows b -> cols a = cols b -> addsub_mismatch a b = false.
Proof.
  intros H1 H2. unfold addsub_mismatch. rewrite H1, H2, !Z.eqb_refl.
  reflexivity.
Qed.

Lemma addsub_mismatch_true (a b : @Matrix F) :
  rows a <> rows b \/ cols a <> cols b -> addsub_mismatch a b = true.
Proof.
  unfold addsub_mismatch.
  intros [H|H]; apply Z.eqb_neq in H; rewrite H; simpl; auto using orb_true_r.
Qed.

Lemma not_refused (op : @Op F) (a b : @Matrix F) :
  mismatch op a b = false -> (1 <= rows a)%Z -> (1 <= out_cols op a b)%Z ->
  refused op a b true = false.
Proof.
  intros Hm Hr Hc. unfold refused. rewrite Hm. simpl.
  destruct (Z.leb_spec (rows a) 0); [lia|].
  destruct (Z.leb_spec (out_cols op a b) 0); [lia|]. reflexivity.
Qed.

(** C2.  For well-formed matrices of matching shapes, [add_matrices],
    [subtract_matrices] and their single, OpenMP and multiprocess variants
    return a matrix of that shape whose entry [(i, j)] is
    [m1[i][j] + m2[i][j]] (resp. [m1[i][j] - m2[i][j]]); when
    [m1->cols == m2->rows] the multiplications return an
    [m1->rows] by [m2->cols] matrix whose entry [(i, j)] is the dot product
    of row [i] of [m1] and column [j] of [m2]; when the shape condition
    fails every one of them returns NULL, whatever the resources. *)
Theorem arithmetic_contract (a b : Matrix) (nm : string) (e t : F) :
  well_formed a -> well_formed b ->
  (rows a = rows b -> cols a = cols b ->
   forall sched,
     Permutation sched (cells (Z.to_nat (rows a)) (Z.to_nat (cols a))) ->
     Forall (is_result (rows a) (cols a)
               (fun i j => add (cell (data a) i j) (cell (data b) i j)))
       [ add_matrices true (Some a) (Some b) (Some nm);
         fst (add_matrices_single true e (Some a) (Some b) (Some nm) t);
         fst (add_matrices_openmp true sched e (Some a) (Some b) (Some nm) t);
         fst (add_matrices_multiprocess true true (fun _ => true) e
                (Some a) (Some b) (Some nm) t) ] /\
     Forall (is_result (rows a) (cols a)
               (fun i j => sub (cell (data a) i j) (cell (data b) i j)))
       [ subtract_matrices true (Some a) (Some b) (Some nm);
         fst (subtract_matrices_single true e (Some a) (Some b) (Some nm) t);
         fst (subtract_matrices_openmp true sched e (Some a) (Some b) (Some nm) t);
         fst (subtract_matrices_multiprocess true true (fun _ => true) e
                (Some a) (Some b) (Some nm) t) ]) /\
  (cols a = rows b ->
   forall sched,
     Permutation sched (cells (Z.to_nat (rows a)) (Z.to_nat (cols b))) ->
     Forall (is_result (rows a) (cols b)
               (fun i j => dot (row_of a i) (col_of b j)))
       [ multiply_matrices true (Some a) (Some b) (Some nm);
         fst (multiply_matrices_single true e (Some a) (Some b) (Some nm) t);
         fst (multiply_matrices_openmp true sched e (Some a) (Some b) (Some nm) t);
         fst (multiply_matrices_multiprocess true true (fun _ => true) e
                (Some a) (Some b) (Some nm) t) ]) /\
  (rows a <> rows b \/ cols a <> cols b ->
   forall alloc pids spawn sched,
     Forall (eq None)
       [ add_matrices alloc (Some a) (Some b) (Some nm);
         fst (add_matrices_single alloc e (Some a) (Some b) (Some nm) t);
         fst (add_matrices_openmp alloc sched e (Some a) (Some b) (Some nm) t);
         fst (add_matrices_multiprocess alloc pids spawn e
                (Some a) (Some b) (Some nm) t);
         subtract_matrices alloc (Some a) (Some b) (Some nm);
         fst (subtract_matrices_single alloc e (Some a) (Some b) (Some nm) t);
         fst (subtract_matrices_openmp alloc sched e (Some a) (Some b) (Some nm) t);
         fst (subtract_matrices_multiprocess alloc pids spawn e
                (Some a) (Some b) (Some nm) t) ]) /\
  (cols a <> rows b ->
   forall alloc pids spawn sched,
     Forall (eq None)
       [ multiply_matrices alloc (Some a) (Some b) (Some nm);
         fst (multiply_matrices_single alloc e (Some a) (Some b) (Some nm) t);
         fst (multiply_matrices_openmp alloc sched e (Some a) (Some b) (Some nm) t);
         fst (multiply_matrices_multiprocess alloc pids spawn e
                (Some a) (Some b) (Some nm) t) ]).
Proof.
  intros Ha Hb.
  pose proof Ha as [Hra [Hca _]]. pose proof Hb as [Hrb [Hcb _]].
  split; [|split; [|split]].
  - intros Hr Hc sched Hp.
    assert (Hadd : refused add_op a b true = false)
      by (apply not_refused; simpl; auto using addsub_mismatch_false).
    assert (Hsub : refused sub_op a b true = false)
      by (apply not_refused; simpl; auto using addsub_mismatch_false).
    unfold add_matrices_single, add_matrices_openmp, add_matrices_multiprocess,
      subtract_matrices_single, subtract_matrices_openmp,
      subtract_matrices_multiprocess.
    rewrite add_matrices_eq, subtract_matrices_eq, !run_single_eq,
      !run_multiprocess_all_ok.
    rewrite (run_openmp_eq add_op), (run_openmp_eq sub_op) by exact Hp.
    rewrite Hadd, Hsub. simpl fst.
    split; repeat constructor;
      first [ apply (is_result_expected add_op a b nm)
            | apply (is_result_expected sub_op a b nm) ];
      reflexivity.
  - intros Hab sched Hp.
    assert (Hmul : refused mul_op a b true = false).
    { apply not_refused; simpl; auto.
      unfold mul_mismatch. rewrite Hab, Z.eqb_refl. reflexivity. }
    unfold multiply_matrices_single, multiply_matrices_openmp,
      multiply_matrices_multiprocess.
    rewrite multiply_matrices_eq, !run_single_eq, !run_multiprocess_all_ok.
    rewrite (run_openmp_eq mul_op) by exact Hp.
    rewrite Hmul. simpl fst.
    repeat constructor; apply (is_result_expected mul_op a b nm);
      intros i j Hi Hj; simpl; apply mul_cell_dot; auto.
  - intros Hne alloc pids spawn sched.
    pose proof (addsub_mismatch_true a b Hne) as Hm.
    destruct (mismatch_none add_op a b nm e t alloc pids spawn sched Hm)
      as [H1 [H2 H3]].
    destruct (mismatch_none sub_op a b nm e t alloc pids spawn sched Hm)
      as [H4 [H5 H6]].
    unfold add_matrices_single, add_matrices_openmp, add_matrices_multiprocess,
      subtract_matrices_single, subtract_matrices_openmp,
      subtract_matrices_multiprocess.
    rewrite H1, H2, H3, H4, H5, H6.
    unfold add_matrices, subtract_matrices. rewrite Hm.
    repeat constructor.
  - intros Hne alloc pids spawn sched.
    assert (Hm : mul_mismatch a b = true).
    { unfold mul_mismatch. apply Z.eqb_neq in Hne. rewrite Hne. reflexivity. }
    destruct (mismatch_none mul_op a b nm e t alloc pids spawn sched Hm)
      as [H1 [H2 H3]].
    unfold multiply_matrices_single, multiply_matrices_openmp,
      multiply_matrices_multiprocess.
    rewrite H1, H2, H3.
    unfold multiply_matrices. rewrite Hm.
    repeat constructor.
Qed.

End ArithContract.

(* ================================================================== *)
(** * Facts about the contiguous workspace                             *)
(* ================================================================== *)

Section WorkspaceFacts.
Context {F : Type} {SF : Scalar F}.

Lemma length_store (n : nat) (A : list F) (i j : nat) (v : F) :
  length (store n A i j v) = length A.
Proof. apply length_upd. Qed.

Lemma at_store (n : nat) (A : list F) (i j r c : nat) (v : F) :
  length A = n * n -> i < n -> j < n -> c < n ->
  at_ n (store n A i j v) r c =
  if (i =? r) && (j =? c) then v else at_ n A r c.
Proof.
  intros Hlen Hi Hj Hc. unfold at_, store. rewrite nth_upd.
  assert (Hlt : (i * n + j <? length A) = true).
  { apply Nat.ltb_lt. rewrite Hlen. apply index_lt; auto. }
  rewrite Hlt, andb_true_r.
  destruct (Nat.eqb_spec (i * n + j) (r * n + c)) as [Heq|Hne].
  - apply index_inj in Heq; auto. destruct Heq as [-> ->].
    rewrite !Nat.eqb_refl. reflexivity.
  - destruct (Nat.eqb_spec i r) as [->|]; simpl; auto.
    destruct (Nat.eqb_spec j c) as [->|]; simpl; auto.
    exfalso. apply Hne. reflexivity.
Qed.

Lemma at_store_same (n : nat) (A : list F) (i j : nat) (v : F) :
  length A = n * n -> i < n -> j < n ->
  at_ n (store n A i j v) i j = v.
Proof.
  intros. rewrite at_store by auto. rewrite !Nat.eqb_refl. reflexivity.
Qed.

Lemma at_store_other (n : nat) (A : list F) (i j r c : nat) (v : F) :
  length A = n * n -> i < n -> j < n -> c < n ->
  i <> r \/ j <> c ->
  at_ n (store n A i j v) r c = at_ n A r c.
Proof.
  intros Hlen Hi Hj Hc Hne. rewrite at_store by auto.
  destruct (Nat.eqb_spec i r); destruct (Nat.eqb_spec j c); simpl; auto.
  exfalso. destruct Hne; auto.
Qed.

(** Two workspaces with the same entries are the same array. *)
Lemma workspace_ext (n : nat) (A B : list F) :
  length A = n * n -> length B = n * n ->
  (forall i j, i < n -> j < n -> at_ n A i j = at_ n B i j) ->
  A = B.
Proof.
  intros HA HB Heq. apply (nth_ext A B zero zero); [lia|].
  intros q Hq. rewrite HA in Hq.
  assert (Hn : n <> 0) by (intro; subst; simpl in Hq; lia).
  pose proof (Nat.div_mod q n Hn) as Hdm.
  pose proof (Nat.mod_upper_bound q n Hn) as Hmod.
  assert (Hdiv : q / n < n).
  { apply Nat.Div0.div_lt_upper_bound. lia. }
  specialize (Heq (q / n) (q mod n) Hdiv Hmod). unfold at_ in Heq.
  replace (q / n * n + q mod n) with q in Heq by lia.
  exact Heq.
Qed.

Lemma flat_map_const_length {A B : Type} (f : A -> list B) (l : list A)
  (n : nat) :
  (forall x, length (f x) = n) -> length (flat_map f l) = length l * n.
Proof.
  intros H. induction l as [|x l IH]; simpl; auto.
  rewrite length_app, H, IH. reflexivity.
Qed.

Lemma length_copy_matrix_contiguous (m : Matrix) :
  length (copy_matrix_contiguous m) = Z.to_nat (rows m) * Z.to_nat (rows m).
Proof.
  unfold copy_matrix_contiguous.
  rewrite (flat_map_const_length _ _ (Z.to_nat (rows m))).
  - rewrite length_seq. reflexivity.
  - intros x. rewrite length_map, length_seq. reflexivity.
Qed.

(** Entry [(i, j)] of a row-major table. *)
Lemma nth_flat_table (n : nat) (f : nat -> nat -> F) (i j : nat) :
  i < n -> j < n ->
  nth (i * n + j)
    (flat_map (fun i => map (fun j => f i j) (seq 0 n)) (seq 0 n)) zero
  = f i j.
Proof.
  intros Hi Hj.
  assert (H : forall len lo,
             lo <= i < lo + len ->
             nth ((i - lo) * n + j)
               (flat_map (fun i => map (fun j => f i j) (seq 0 n)) (seq lo len))
               zero
             = f i j).
  { induction len as [|len IH]; intros lo Hr; [lia|].
    cbn [seq flat_map].
    destruct (Nat.eq_dec i lo) as [->|Hne].
    - rewrite Nat.sub_diag. simpl.
      rewrite app_nth1 by (rewrite length_map, length_seq; exact Hj).
      rewrite (nth_indep _ zero (f lo 0))
        by (rewrite length_map, length_seq; exact Hj).
      rewrite (map_nth (fun j => f lo j) (seq 0 n) 0 j).
      rewrite seq_nth by exact Hj. reflexivity.
    - rewrite app_nth2 by (rewrite length_map, length_seq; nia).
      rewrite length_map, length_seq.
      replace ((i - lo) * n + j - n) with ((i - S lo) * n + j) by nia.
      apply IH. lia. }
  specialize (H n 0). rewrite Nat.sub_0_r in H.
  apply H. lia.
Qed.

Lemma at_copy_matrix_contiguous (m : Matrix) (i j : nat) :
  i < Z.to_nat (rows m) -> j < Z.to_nat (rows m) ->
  at_ (Z.to_nat (rows m)) (copy_matrix_contiguous m) i j = cell (data m) i j.
Proof.
  intros Hi Hj. unfold at_, copy_matrix_contiguous.
  apply (nth_flat_table (Z.to_nat (rows m))
           (fun i j => cell (data m) i j)); auto.
Qed.

End WorkspaceFacts.

(* ================================================================== *)
(** * The row phase: every variant performs the same update            *)
(* ================================================================== *)

Ltac nat_cases :=
  repeat match goal with
         | |- context [?a =? ?b] => destruct (Nat.eqb_spec a b)
         | |- context [?a <? ?b] => destruct (Nat.ltb_spec a b)
         | |- context [?a <=? ?b] => destruct (Nat.leb_spec a b)
         end;
  simpl;
  first [ lia | reflexivity | (subst; reflexivity) | (subst; lia) | idtac ].

Section RowPhaseFacts.
Context {F : Type} {SF : Scalar F}.

Lemma eliminate_row_spec (n k i : nat) (akk : F) (A : list F) :
  length A = n * n -> k < n -> i < n -> i <> k ->
  length (eliminate_row n k akk i A) = n * n /\
  forall r c, c < n ->
    at_ n (eliminate_row n k akk i A) r c =
    if r =? i then elim_entry n k akk A i c else at_ n A r c.
Proof.
  intros Hlen Hk Hi Hik. unfold eliminate_row.
  set (factor := div (at_ n A i k) akk).
  set (A1 := store n A i k zero).
  assert (Hlen1 : length A1 = n * n) by (unfold A1; rewrite length_store; auto).
  pose (P := fun j X =>
       length X = n * n /\
       forall r c, c < n ->
         at_ n X r c =
         if (r =? i) && (k <? c) && (c <? j)
         then sub (at_ n A i c) (mul factor (at_ n A k c))
         else at_ n A1 r c).
  assert (Hinv : P n
      (for_range (k + 1) n
         (fun j A => store n A i j (sub (at_ n A i j) (mul factor (at_ n A k j))))
         A1)).
  { apply (for_range_inv P); unfold P; [lia| |].
    - split; auto. intros r c Hc. nat_cases.
    - intros j X Hj [HlenX HX]. split; [rewrite length_store; auto|].
      assert (Hij : at_ n X i j = at_ n A i j).
      { rewrite HX by lia. unfold A1. rewrite at_store by (auto; lia).
        nat_cases. }
      assert (Hkj : at_ n X k j = at_ n A k j).
      { rewrite HX by lia. unfold A1. rewrite at_store by (auto; lia).
        nat_cases. }
      intros r c Hc. rewrite at_store by (auto; lia). rewrite Hij, Hkj.
      rewrite HX by auto. nat_cases. }
  destruct Hinv as [HlenX HX]. split; auto.
  intros r c Hc. rewrite HX by auto. unfold elim_entry, A1, factor.
  rewrite at_store by auto. nat_cases.
Qed.

(** The rows of a schedule are updated from the workspace the phase
    started with, whatever their order. *)
Lemma sched_rows_spec (n k : nat) (akk : F) (l : list nat) (A : list F) :
  length A = n * n -> k < n -> NoDup l ->
  (forall i, In i l -> k < i < n) ->
  length (for_sched l (eliminate_row n k akk) A) = n * n /\
  (forall r c, c < n -> In r l ->
     at_ n (for_sched l (eliminate_row n k akk) A) r c = elim_entry n k akk A r c) /\
  (forall r c, c < n -> ~ In r l ->
     at_ n (for_sched l (eliminate_row n k akk) A) r c = at_ n A r c).
Proof.
  unfold for_sched. revert A.
  induction l as [|i l IH]; intros A Hlen Hk Hnd Hin; cbn [fold_left].
  - split; auto. split; [intros r c _ []|reflexivity].
  - inversion Hnd as [|x y Hnotin Hnd']; subst.
    destruct (Hin i (or_introl eq_refl)) as [Hki Hi].
    destruct (eliminate_row_spec n k i akk A Hlen Hk Hi) as [Hlen1 H1]; [lia|].
    destruct (IH (eliminate_row n k akk i A) Hlen1 Hk Hnd') as [HlenX [HinX HoutX]].
    { intros j Hj. apply Hin. right. exact Hj. }
    split; [exact HlenX|]. split.
    + intros r c Hc [->|Hr].
      * rewrite HoutX by auto. rewrite H1 by auto.
        rewrite Nat.eqb_refl. reflexivity.
      * rewrite HinX by auto. unfold elim_entry.
        assert (r <> i) by (intro; subst; contradiction).
        rewrite !H1 by (auto; lia).
        destruct (Nat.eqb_spec r i); [contradiction|].
        destruct (Nat.eqb_spec k i); [lia|]. reflexivity.
    + intros r c Hc Hn.
      rewrite HoutX; [|exact Hc|intro; apply Hn; right; assumption].
      rewrite H1 by auto.
      destruct (Nat.eqb_spec r i) as [->|]; auto.
      exfalso. apply Hn. left. reflexivity.
Qed.

Lemma rows_perm_spec (n k : nat) (akk : F) (l : list nat) (A : list F) :
  length A = n * n -> k < n ->
  Permutation l (seq (k + 1) (n - (k + 1))) ->
  length (for_sched l (eliminate_row n k akk) A) = n * n /\
  forall r c, r < n -> c < n ->
    at_ n (for_sched l (eliminate_row n k akk) A) r c = after_rows n k akk A r c.
Proof.
  intros Hlen Hk Hp.
  assert (Hnd : NoDup l).
  { apply (Permutation_NoDup (Permutation_sym Hp)). apply seq_NoDup. }
  assert (Hin : forall i, In i l <-> k < i < n).
  { intros i. split.
    - intros H. apply (Permutation_in _ Hp) in H. apply in_seq in H. lia.
    - intros H. apply (Permutation_in _ (Permutation_sym Hp)).
      apply in_seq. lia. }
  destruct (sched_rows_spec n k akk l A Hlen Hk Hnd) as [HlenX [HinX HoutX]].
  { intros i Hi. apply Hin. exact Hi. }
  split; auto. intros r c Hr Hc. unfold after_rows.
  destruct (Nat.ltb_spec k r).
  - apply HinX; auto. apply Hin. lia.
  - apply HoutX; auto. intro H'. apply Hin in H'. lia.
Qed.

Lemma rows_single_spec (n k : nat) (akk : F) (A : list F) :
  length A = n * n -> k < n ->
  exists X, rows_single n k akk A = Some X /\ length X = n * n /\
    forall r c, r < n -> c < n -> at_ n X r c = after_rows n k akk A r c.
Proof.
  intros Hlen Hk. unfold rows_single. eexists. split; [reflexivity|].
  apply (rows_perm_spec n k akk (seq (k + 1) (n - (k + 1))) A); auto.
Qed.

Lemma rows_openmp_spec (sched : nat -> list nat) (n k : nat) (akk : F)
  (A : list F) :
  length A = n * n -> k < n ->
  Permutation (sched k) (seq (k + 1) (n - (k + 1))) ->
  exists X, rows_openmp sched n k akk A = Some X /\ length X = n * n /\
    forall r c, r < n -> c < n -> at_ n X r c = after_rows n k akk A r c.
Proof.
  intros Hlen Hk Hp. unfold rows_openmp. eexists. split; [reflexivity|].
  apply rows_perm_spec; auto.
Qed.

(** The segment a child sends holds the new entries of its row from
    column [k] on. *)
Lemma child_segment_spec (n k i : nat) (akk : F) (A : list F) :
  k < n ->
  forall t, t < n - k ->
    nth t (child_segment n k akk A i) zero = elim_entry n k akk A i (k + t).
Proof.
  intros Hk. unfold child_segment.
  set (factor := div (at_ n A i k) akk).
  pose (P := fun j buf =>
       length buf = n - k /\
       forall t, t < n - k ->
         nth t buf zero =
         if (0 <? t) && (k + t <? j)
         then sub (at_ n A i (k + t)) (mul factor (at_ n A k (k + t)))
         else zero).
  assert (Hinv : P n
      (for_range (k + 1) n
         (fun j buf =>
            upd buf (j - k) (sub (at_ n A i j) (mul factor (at_ n A k j))))
         (upd (repeat zero (n - k)) 0 zero))).
  { apply (for_range_inv P); unfold P; [lia| |].
    - split; [rewrite length_upd, repeat_length; reflexivity|].
      intros t Ht. rewrite nth_upd, repeat_length.
      assert (Hz : nth t (repeat zero (n - k)) zero = zero).
      { destruct (nth_in_or_default t (repeat zero (n - k)) zero) as [Hin|Hd];
          [apply repeat_spec in Hin|]; auto. }
      rewrite Hz. nat_cases.
    - intros j buf Hj [Hlen Hbuf]. split; [rewrite length_upd; auto|].
      intros t Ht. rewrite nth_upd, Hlen, Hbuf by auto.
      destruct (Nat.eqb_spec (j - k) t) as [<-|Hne]; simpl.
      + replace (k + (j - k)) with j by lia. nat_cases.
      + nat_cases. }
  destruct Hinv as [_ Hbuf]. intros t Ht. rewrite Hbuf by auto.
  unfold elim_entry, factor. nat_cases.
Qed.

Lemma write_back_spec (n k i : nat) (buf A : list F) :
  length A = n * n -> k < n -> i < n ->
  length (write_back n k i buf A) = n * n /\
  forall r c, c < n ->
    at_ n (write_back n k i buf A) r c =
    if (r =? i) && (k <=? c) then nth (c - k) buf zero else at_ n A r c.
Proof.
  intros Hlen Hk Hi. unfold write_back.
  pose (P := fun j X =>
       length X = n * n /\
       forall r c, c < n ->
         at_ n X r c =
         if (r =? i) && (k <=? c) && (c <? j)
         then nth (c - k) buf zero else at_ n A r c).
  assert (Hinv : P n
      (for_range k n (fun j A => store n A i j (nth (j - k) buf zero)) A)).
  { apply (for_range_inv P); unfold P; [lia| |].
    - split; auto. intros r c Hc. nat_cases.
    - intros j X Hj [HlenX HX]. split; [rewrite length_store; auto|].
      intros r c Hc. rewrite at_store by (auto; lia). rewrite HX by auto.
      nat_cases. }
  destruct Hinv as [HlenX HX]. split; auto.
  intros r c Hc. rewrite HX by auto. nat_cases.
Qed.

Lemma rows_multiprocess_spec (step_ok : nat -> bool) (n k : nat) (akk : F)
  (A X : list F) :
  length A = n * n -> k < n ->
  rows_multiprocess step_ok n k akk A = Some X ->
  length X = n * n /\
  forall r c, r < n -> c < n -> at_ n X r c = after_rows n k akk A r c.
Proof.
  intros Hlen Hk. unfold rows_multiprocess.
  destruct (Nat.eqb_spec (n - (k + 1)) 0) as [Hz|Hnz].
  - intros H. inversion H; subst X. split; auto.
    intros r c Hr Hc. unfold after_rows. nat_cases.
  - destruct (step_ok k); simpl; [|discriminate].
    intros H. inversion H; subst X; clear H.
    set (payloads :=
           map (fun idx => child_segment n k akk A (k + 1 + idx))
             (seq 0 (n - (k + 1)))).
    assert (Hpay : forall idx, idx < n - (k + 1) ->
              nth idx payloads [] = child_segment n k akk A (k + 1 + idx)).
    { intros idx Hidx. unfold payloads.
      rewrite (nth_indep _ [] (child_segment n k akk A (k + 1 + 0)))
        by (rewrite length_map, length_seq; exact Hidx).
      rewrite (map_nth (fun idx => child_segment n k akk A (k + 1 + idx))
                 (seq 0 (n - (k + 1))) 0 idx).
      rewrite seq_nth by exact Hidx. reflexivity. }
    pose (P := fun idx Y =>
         length Y = n * n /\
         forall r c, r < n -> c < n ->
           at_ n Y r c =
           if (k <? r) && (r <? k + 1 + idx)
           then elim_entry n k akk A r c else at_ n A r c).
    assert (Hinv : P (n - (k + 1))
        (for_range 0 (n - (k + 1))
           (fun idx A0 =>
              write_back n k (k + 1 + idx) (nth idx payloads []) A0) A)).
    { apply (for_range_inv P); unfold P; [lia| |].
      - split; auto. intros r c Hr Hc. nat_cases.
      - intros idx Y Hidx [HlenY HY].
        destruct (write_back_spec n k (k + 1 + idx) (nth idx payloads []) Y)
          as [HlenW HW]; auto; [lia|].
        split; auto. intros r c Hr Hc. rewrite HW by auto.
        rewrite HY by auto. rewrite Hpay by lia.
        destruct (Nat.eqb_spec r (k + 1 + idx)) as [->|Hne]; simpl.
        + destruct (Nat.leb_spec k c); simpl.
          * rewrite child_segment_spec by lia.
            replace (k + (c - k)) with c by lia. nat_cases.
          * unfold elim_entry. nat_cases.
        + nat_cases. }
    destruct Hinv as [HlenY HY]. split; auto.
    intros r c Hr Hc. rewrite HY by auto. unfold after_rows. nat_cases.
Qed.

End RowPhaseFacts.

(* ================================================================== *)
(** * The steps of the elimination                                     *)
(* ================================================================== *)

Section StepFacts.
Context {F : Type} {SF : Scalar F}.

Lemma length_swap_rows (n : nat) (A : list F) (k p : nat) :
  length (swap_rows n A k p) = length A.
Proof.
  unfold swap_rows.
  destruct (Nat.le_gt_cases k n) as [Hle|Hgt].
  - apply (for_range_inv (fun _ X => length X = length A)); auto.
    intros j X _ HX. rewrite !length_store. exact HX.
  - rewrite for_range_empty by lia. reflexivity.
Qed.

Lemma length_eliminate_row (n k i : nat) (akk : F) (A : list F) :
  length (eliminate_row n k akk i A) = length A.
Proof.
  unfold eliminate_row.
  destruct (Nat.le_gt_cases (k + 1) n) as [Hle|Hgt].
  - apply (for_range_inv
             (fun _ X => length X = length A)); auto.
    + apply length_store.
    + intros j X _ HX. rewrite length_store. exact HX.
  - rewrite for_range_empty by lia. apply length_store.
Qed.

Lemma length_write_back (n k i : nat) (buf A : list F) :
  length (write_back n k i buf A) = length A.
Proof.
  unfold write_back.
  destruct (Nat.le_gt_cases k n) as [Hle|Hgt].
  - apply (for_range_inv (fun _ X => length X = length A)); auto.
    intros j X _ HX. rewrite length_store. exact HX.
  - rewrite for_range_empty by lia. reflexivity.
Qed.

(** Every variant keeps the size of the workspace, whatever the schedule
    and the resources. *)
Lemma variant_keeps_length (n : nat) (rowphase : RowPhase) :
  variant rowphase -> keeps_length n rowphase.
Proof.
  intros [|sched|step_ok] k akk A X Hlen H.
  - unfold rows_single in H. inversion H; subst X.
    unfold for_range.
    apply (for_sched_inv (fun X => length X = n * n)); auto.
    intros i t _ Ht. rewrite length_eliminate_row. exact Ht.
  - unfold rows_openmp in H. inversion H; subst X.
    apply (for_sched_inv (fun X => length X = n * n)); auto.
    intros i t _ Ht. rewrite length_eliminate_row. exact Ht.
  - unfold rows_multiprocess in H.
    destruct (n - (k + 1) =? 0); [inversion H; subst; auto|].
    destruct (step_ok k); simpl in H; [|discriminate].
    inversion H; subst X. unfold for_range.
    apply (for_sched_inv (fun X => length X = n * n)); auto.
    intros i t _ Ht. rewrite length_write_back. exact Ht.
Qed.

Lemma sound_keeps_length (n : nat) (rowphase : RowPhase) :
  variant rowphase -> sound_rows n rowphase -> keeps_length n rowphase.
Proof. intros Hv _. apply variant_keeps_length. exact Hv. Qed.

Lemma rows_single_sound (n : nat) : sound_rows n rows_single.
Proof.
  intros k akk A X Hlen Hk H.
  destruct (rows_single_spec n k akk A Hlen Hk) as [Y [HY HS]].
  rewrite HY in H. inversion H; subst. exact HS.
Qed.

Lemma rows_openmp_sound (n : nat) (sched : nat -> list nat) :
  valid_schedule n sched -> sound_rows n (rows_openmp sched).
Proof.
  intros Hv k akk A X Hlen Hk H.
  destruct (rows_openmp_spec sched n k akk A Hlen Hk (Hv k Hk)) as [Y [HY HS]].
  rewrite HY in H. inversion H; subst. exact HS.
Qed.

Lemma rows_multiprocess_sound (n : nat) (step_ok : nat -> bool) :
  sound_rows n (rows_multiprocess step_ok).
Proof.
  intros k akk A X Hlen Hk H.
  apply (rows_multiprocess_spec step_ok n k akk A X); auto.
Qed.

(** The swap exchanges the two rows from column [k] on. *)
Lemma swap_rows_spec (n : nat) (A : list F) (k p : nat) :
  length A = n * n -> k < n -> p < n ->
  forall r c, c < n ->
    at_ n (swap_rows n A k p) r c =
    if k <=? c
    then (if r =? k then at_ n A p c
          else if r =? p then at_ n A k c else at_ n A r c)
    else at_ n A r c.
Proof.
  intros Hlen Hk Hp. unfold swap_rows.
  pose (P := fun j X =>
       length X = n * n /\
       forall r c, c < n ->
         at_ n X r c =
         if (k <=? c) && (c <? j)
         then (if r =? k then at_ n A p c
               else if r =? p then at_ n A k c else at_ n A r c)
         else at_ n A r c).
  assert (Hinv : P n
      (for_range k n
         (fun j A0 =>
            let tmp := at_ n A0 k j in
            let A1 := store n A0 k j (at_ n A0 p j) in
            store n A1 p j tmp) A)).
  { apply (for_range_inv P); unfold P; [lia| |].
    - split; auto. intros r c Hc. nat_cases.
    - intros j X Hj [HlenX HX]. cbv zeta.
      split; [rewrite !length_store; auto|].
      assert (Hkj : at_ n X k j = at_ n A k j) by (rewrite HX by lia; nat_cases).
      assert (Hpj : at_ n X p j = at_ n A p j) by (rewrite HX by lia; nat_cases).
      intros r c Hc.
      rewrite !at_store by (rewrite ?length_store; auto; lia).
      rewrite Hkj, Hpj, HX by auto. nat_cases. }
  destruct Hinv as [_ HX]. intros r c Hc. rewrite HX by auto. nat_cases.
Qed.

(** After the swap the pivot sits on the diagonal. *)
Lemma pivot_on_diagonal (n : nat) (A : list F) (k p : nat) :
  length A = n * n -> k < n -> p < n ->
  at_ n (if negb (p =? k) then swap_rows n A k p else A) k k = at_ n A p k.
Proof.
  intros Hlen Hk Hp. destruct (Nat.eqb_spec p k) as [->|Hne]; simpl; auto.
  rewrite swap_rows_spec by auto. rewrite Nat.leb_refl, Nat.eqb_refl.
  reflexivity.
Qed.

(** The pivot search returns a row between [k] and [n-1] and the
    magnitude of its entry. *)
Lemma pivot_search_range (n : nat) (A : list F) (k : nat) :
  k < n ->
  k <= fst (pivot_search n A k) < n /\
  snd (pivot_search n A k) = fabs (at_ n A (fst (pivot_search n A k)) k).
Proof.
  intros Hk. unfold pivot_search.
  apply (for_range_inv
           (fun i st => k <= fst st < i /\ snd st = fabs (at_ n A (fst st) k)));
    [lia|simpl; split; [lia|reflexivity]|].
  intros i [p mx] Hi [Hp Hmx]. simpl in *.
  destruct (gtb (fabs (at_ n A i k)) mx); simpl; split; auto; lia.
Qed.

Section WithLaws.
Context {L : OrderedFieldLaws F SF}.

Lemma ltb_irrefl (x : F) : ltb x x = false.
Proof.
  destruct (ltb x x) eqn:H; auto. pose proof (ltb_asym x x H). congruence.
Qed.

Lemma ltb_zero_one : ltb zero one = true.
Proof.
  destruct (ltb_cotrans zero PIVOT_EPS one eps_pos) as [H|H]; auto.
  pose proof (ltb_asym _ _ eps_lt_one). congruence.
Qed.

End WithLaws.

End StepFacts.

(* ================================================================== *)
(** * The loop over the pivot columns                                  *)
(* ================================================================== *)

Section LoopOverPivots.
Context {F : Type} {SF : Scalar F}.
Variable rowphase : @RowPhase F.
Variable n : nat.

(** The three ways a step of the loop goes. *)
Lemma det_loop_step (fuel k : nat) (A : list F) (s : F) :
  let p := fst (pivot_search n A k) in
  let A1 := swapped_ws n k A in
  (ltb (fabs (at_ n A p k)) PIVOT_EPS = true /\
   det_loop rowphase n (S fuel) k A s = (Singular k, [Pivot k A p])) \/
  (ltb (fabs (at_ n A p k)) PIVOT_EPS = false /\
   rowphase n k (at_ n A1 k k) A1 = None /\
   det_loop rowphase n (S fuel) k A s = (Aborted k, step_events n k A)) \/
  (exists A2,
     ltb (fabs (at_ n A p k)) PIVOT_EPS = false /\
     rowphase n k (at_ n A1 k k) A1 = Some A2 /\
     det_loop rowphase n (S fuel) k A s =
     (fst (det_loop rowphase n fuel (S k) A2 (swapped_sign n k A s)),
      step_events n k A
      ++ snd (det_loop rowphase n fuel (S k) A2 (swapped_sign n k A s)))).
Proof.
  cbv zeta. cbn [det_loop]. unfold det_step, swapped_ws, swapped_sign, step_events.
  destruct (ltb (fabs (at_ n A (fst (pivot_search n A k)) k)) PIVOT_EPS).
  - left. auto.
  - right.
    destruct (rowphase n k _ _) as [A2|] eqn:Hrp.
    + right. exists A2. auto.
    + left. auto.
Qed.

Lemma in_step_events_pivot (k : nat) (A : list F) (k' : nat) (A' : list F)
  (p' : nat) :
  In (Pivot k' A' p') (step_events n k A) ->
  k' = k /\ A' = A /\ p' = fst (pivot_search n A k).
Proof.
  unfold step_events. intros [H|H].
  - inversion H; subst. auto.
  - apply in_app_or in H. destruct H as [H|H].
    + destruct (negb _); simpl in H; [destruct H as [H|[]]; discriminate|destruct H].
    + apply in_map_iff in H. destruct H as [x [Hx _]]. discriminate.
Qed.

Lemma in_step_events_division (k : nat) (A : list F) (i k' : nat) (d : F) :
  In (Division i k' d) (step_events n k A) ->
  k' = k /\ d = at_ n (swapped_ws n k A) k k.
Proof.
  unfold step_events, swapped_ws. intros [H|H]; [discriminate|].
  apply in_app_or in H. destruct H as [H|H].
  - destruct (negb _); simpl in H; [destruct H as [H|[]]; discriminate|destruct H].
  - apply in_map_iff in H. destruct H as [x [Hx _]].
    inversion Hx; subst. auto.
Qed.

(** Every pivot event records the row the search selected on the
    workspace of its step. *)
Lemma pivot_events (fuel k0 : nat) (A0 : list F) (s0 : F) (k : nat)
  (A : list F) (p : nat) :
  k0 + fuel = n ->
  In (Pivot k A p) (snd (det_loop rowphase n fuel k0 A0 s0)) ->
  k < n /\ p = fst (pivot_search n A k).
Proof.
  revert k0 A0 s0. induction fuel as [|fuel IH]; intros k0 A0 s0 Hn Hin.
  - simpl in Hin. destruct Hin.
  - destruct (det_loop_step fuel k0 A0 s0)
      as [[_ Heq]|[[_ [_ Heq]]|[A2 [_ [_ Heq]]]]];
      rewrite Heq in Hin; cbn [fst snd In] in Hin.
    + destruct Hin as [H|[]]. inversion H; subst. split; [lia|reflexivity].
    + apply in_step_events_pivot in Hin. destruct Hin as [-> [-> ->]].
      split; [lia|reflexivity].
    + apply in_app_or in Hin. destruct Hin as [Hin|Hin].
      * apply in_step_events_pivot in Hin. destruct Hin as [-> [-> ->]].
        split; [lia|reflexivity].
      * apply (IH (S k0) A2 (swapped_sign n k0 A0 s0)); [lia|exact Hin].
Qed.

(** C3 on the loop: a step whose column is below the threshold from its
    row down ends the loop as singular. *)
Lemma small_column_stops (fuel k0 : nat) (A0 : list F) (s0 : F) (k : nat)
  (A : list F) (p : nat) :
  k0 + fuel = n ->
  In (Pivot k A p) (snd (det_loop rowphase n fuel k0 A0 s0)) ->
  (forall i, k <= i < n -> ltb (fabs (at_ n A i k)) PIVOT_EPS = true) ->
  fst (det_loop rowphase n fuel k0 A0 s0) = Singular k.
Proof.
  revert k0 A0 s0. induction fuel as [|fuel IH]; intros k0 A0 s0 Hn Hin Hsmall.
  - simpl in Hin. destruct Hin.
  - assert (Hk0 : k0 < n) by lia.
    destruct (pivot_search_range n A0 k0 Hk0) as [Hrange _].
    assert (Hhead : k = k0 -> A = A0 ->
              ltb (fabs (at_ n A0 (fst (pivot_search n A0 k0)) k0)) PIVOT_EPS
              = true).
    { intros -> ->. apply Hsmall. exact Hrange. }
    destruct (det_loop_step fuel k0 A0 s0)
      as [[_ Heq]|[[Hbig [_ Heq]]|[A2 [Hbig [_ Heq]]]]];
      rewrite Heq in Hin |- *; cbn [fst snd In] in Hin |- *.
    + destruct Hin as [H|[]]. inversion H; subst. reflexivity.
    + apply in_step_events_pivot in Hin. destruct Hin as [-> [-> _]].
      rewrite Hhead in Hbig by reflexivity. discriminate.
    + apply in_app_or in Hin. destruct Hin as [Hin|Hin].
      * apply in_step_events_pivot in Hin. destruct Hin as [-> [-> _]].
        rewrite Hhead in Hbig by reflexivity. discriminate.
      * apply (IH (S k0) A2 (swapped_sign n k0 A0 s0)); auto. lia.
Qed.

Lemma count_swaps_step (k : nat) (A : list F) :
  count_swaps (step_events n k A) =
  if negb (fst (pivot_search n A k) =? k) then 1 else 0.
Proof.
  unfold count_swaps, step_events. cbn [filter is_swap].
  rewrite filter_app, length_app.
  assert (H : forall l (d : F),
             filter is_swap (map (fun i => Division i k d) l) = []).
  { induction l as [|x l IH]; intros d; simpl; auto. }
  rewrite H. destruct (negb _); reflexivity.
Qed.

Lemma count_moved_step (k : nat) (A : list F) :
  count_moved_pivots (step_events n k A) =
  if negb (fst (pivot_search n A k) =? k) then 1 else 0.
Proof.
  unfold count_moved_pivots, step_events. cbn [filter is_moved_pivot].
  assert (H : forall l (d : F),
             filter is_moved_pivot (map (fun i => Division i k d) l) = []).
  { induction l as [|x l IH]; intros d; simpl; auto. }
  destruct (negb _); cbn [length]; rewrite filter_app, H, length_app;
    reflexivity.
Qed.

(** C4, the sign: it starts from the initial sign and is negated once per
    swap; the swaps are the steps whose pivot is not on the diagonal. *)
Lemma sign_counts_swaps (fuel k0 : nat) (A0 : list F) (s0 : F) (A : list F)
  (s : F) :
  fst (det_loop rowphase n fuel k0 A0 s0) = Complete A s ->
  let evs := snd (det_loop rowphase n fuel k0 A0 s0) in
  s = Nat.iter (count_swaps evs) neg s0 /\
  count_swaps evs = count_moved_pivots evs.
Proof.
  revert k0 A0 s0. induction fuel as [|fuel IH]; intros k0 A0 s0 Hc.
  - simpl in *. inversion Hc; subst. split; reflexivity.
  - cbv zeta.
    destruct (det_loop_step fuel k0 A0 s0)
      as [[_ Heq]|[[_ [_ Heq]]|[A2 [_ [_ Heq]]]]];
      rewrite Heq in Hc |- *; cbn [fst snd] in Hc |- *; try discriminate.
    destruct (IH (S k0) A2 (swapped_sign n k0 A0 s0) Hc) as [Hs Hcount].
    unfold count_swaps, count_moved_pivots in *.
    rewrite !filter_app, !length_app.
    fold (count_swaps (step_events n k0 A0)).
    fold (count_moved_pivots (step_events n k0 A0)).
    rewrite count_swaps_step, count_moved_step, <- Hcount. split; auto.
    rewrite Hs. unfold swapped_sign.
    destruct (negb _); simpl; auto.
    rewrite <- Nat.iter_succ_r. reflexivity.
Qed.

(** C9 on the loop: the divisor of every division is the pivot the step
    selected, which passed the threshold test. *)
Lemma divisions_pass_test (fuel k0 : nat) (A0 : list F) (s0 : F) (i k : nat)
  (d : F) :
  keeps_length n rowphase ->
  k0 + fuel = n -> length A0 = n * n ->
  In (Division i k d) (snd (det_loop rowphase n fuel k0 A0 s0)) ->
  ltb (fabs d) PIVOT_EPS = false.
Proof.
  intros Hkeep. revert k0 A0 s0.
  induction fuel as [|fuel IH]; intros k0 A0 s0 Hn Hlen Hin.
  - simpl in Hin. destruct Hin.
  - assert (Hk0 : k0 < n) by lia.
    destruct (pivot_search_range n A0 k0 Hk0) as [Hrange _].
    assert (Hakk : at_ n (swapped_ws n k0 A0) k0 k0 =
                   at_ n A0 (fst (pivot_search n A0 k0)) k0).
    { unfold swapped_ws. apply pivot_on_diagonal; auto. lia. }
    destruct (det_loop_step fuel k0 A0 s0)
      as [[_ Heq]|[[Hbig [_ Heq]]|[A2 [Hbig [Hrp Heq]]]]];
      rewrite Heq in Hin; cbn [fst snd In] in Hin.
    + destruct Hin as [H|[]]. discriminate.
    + apply in_step_events_division in Hin. destruct Hin as [_ ->].
      rewrite Hakk. exact Hbig.
    + apply in_app_or in Hin. destruct Hin as [Hin|Hin].
      * apply in_step_events_division in Hin. destruct Hin as [_ ->].
        rewrite Hakk. exact Hbig.
      * apply (IH (S k0) A2 (swapped_sign n k0 A0 s0)); auto; [lia|].
        apply (Hkeep k0 (at_ n (swapped_ws n k0 A0) k0 k0) (swapped_ws n k0 A0));
          auto.
        unfold swapped_ws. destruct (negb _); auto.
        rewrite length_swap_rows. exact Hlen.
Qed.

End LoopOverPivots.

(* ================================================================== *)
(** * The determinant functions                                        *)
(* ================================================================== *)

Section DeterminantFacts.
Context {F : Type} {SF : Scalar F}.

(** A sound row phase either gives up or goes the way of the sequential
    one. *)
Lemma det_loop_sound (rowphase : RowPhase) (n : nat) :
  sound_rows n rowphase ->
  forall fuel k0 A0 s0,
    k0 + fuel = n -> length A0 = n * n ->
    (exists k', fst (det_loop rowphase n fuel k0 A0 s0) = Aborted k') \/
    fst (det_loop rowphase n fuel k0 A0 s0) =
    fst (det_loop rows_single n fuel k0 A0 s0).
Proof.
  intros Hsound. induction fuel as [|fuel IH]; intros k0 A0 s0 Hn Hlen.
  - right. reflexivity.
  - assert (Hk0 : k0 < n) by lia.
    assert (Hlen1 : length (swapped_ws n k0 A0) = n * n).
    { unfold swapped_ws. destruct (negb _); auto.
      rewrite length_swap_rows. exact Hlen. }
    destruct (det_loop_step rowphase n fuel k0 A0 s0)
      as [[Hsmall Heq]|[[Hbig [_ Heq]]|[A2 [Hbig [Hrp Heq]]]]];
      rewrite Heq; cbn [fst snd].
    + right.
      destruct (det_loop_step rows_single n fuel k0 A0 s0)
        as [[_ Heq']|[[Hbig' _]|[A2' [Hbig' _]]]];
        try congruence.
      rewrite Heq'. reflexivity.
    + left. exists k0. reflexivity.
    + destruct (det_loop_step rows_single n fuel k0 A0 s0)
        as [[Hsmall' _]|[[_ [Hrp' _]]|[A2' [_ [Hrp' Heq']]]]];
        try congruence; try discriminate.
      rewrite Heq'. cbn [fst snd].
      destruct (Hsound _ _ _ _ Hlen1 Hk0 Hrp) as [HlenA2 HA2].
      destruct (rows_single_sound n _ _ _ _ Hlen1 Hk0 Hrp') as [HlenA2' HA2'].
      assert (A2 = A2').
      { apply (workspace_ext n); auto.
        intros i j Hi Hj. rewrite HA2, HA2'; auto. }
      subst A2'. apply IH; [lia|exact HlenA2].
Qed.

(** The calls that return 0 leave [*out_det] and [*exec_time] alone; the
    others store both. *)
Lemma det_run_cases (rowphase : RowPhase) (alloc : bool) (e : F)
  (m : option Matrix) (out_det t : option F) :
  (det_run rowphase alloc e m out_det t = mkDetOut 0 out_det t) \/
  (exists mm old d,
     m = Some mm /\ out_det = Some old /\
     rows mm = cols mm /\ alloc = true /\
     det_run rowphase alloc e m out_det t = mkDetOut 1 (Some d) (store_time t e) /\
     ((exists k, det_final rowphase mm = Singular k /\ d = zero) \/
      (exists A s, det_final rowphase mm = Complete A s /\
                   d = diag_product (Z.to_nat (rows mm)) A s))).
Proof.
  unfold det_run, det_final.
  destruct m as [mm|]; [|left; reflexivity].
  destruct out_det as [old|]; [|left; reflexivity].
  destruct (Z.eqb_spec (rows mm) (cols mm)) as [Hsq|Hsq]; simpl;
    [|left; reflexivity].
  destruct alloc; simpl; [|left; reflexivity].
  destruct (fst (det_loop rowphase _ _ 0 _ one)) as [k|A s|k] eqn:Hl.
  - right. exists mm, old, zero. repeat split; auto. left. exists k. auto.
  - right. exists mm, old, (diag_product (Z.to_nat (rows mm)) A s).
    repeat split; auto. right. exists A, s. auto.
  - left. reflexivity.
Qed.

(** The result of a call on a square matrix, with the workspace granted. *)
Lemma det_run_square (rowphase : RowPhase) (e : F) (mm : Matrix)
  (old : F) (t : option F) :
  rows mm = cols mm ->
  det_run rowphase true e (Some mm) (Some old) t =
  match det_final rowphase mm with
  | Singular _ => mkDetOut 1 (Some zero) (store_time t e)
  | Complete A s =>
      mkDetOut 1 (Some (diag_product (Z.to_nat (rows mm)) A s)) (store_time t e)
  | Aborted _ => mkDetOut 0 (Some old) t
  end.
Proof.
  intros Hsq. unfold det_run, det_final.
  rewrite Hsq, Z.eqb_refl. simpl. rewrite <- Hsq. reflexivity.
Qed.

(** C10.  A call of a determinant function that fails (NULL matrix, NULL
    output pointer, non-square matrix, failed allocation, or a step of the
    multiprocess variant without its resources) returns 0 and leaves
    [*out_det] as it was; the return value is 0 or 1, and [*out_det]
    changes only when it is 1.  [det_run rowphase] is
    [determinant_single], [determinant_openmp sched] or
    [determinant_multiprocess step_ok] according to [rowphase]. *)
Theorem failure_leaves_output (rowphase : RowPhase) (alloc : bool) (e : F)
  (m : option Matrix) (out_det t : option F) :
  (ret (det_run rowphase alloc e m out_det t) = 0%Z \/
   ret (det_run rowphase alloc e m out_det t) = 1%Z) /\
  (ret (det_run rowphase alloc e m out_det t) = 0%Z ->
   det_cell (det_run rowphase alloc e m out_det t) = out_det) /\
  (det_cell (det_run rowphase alloc e m out_det t) <> out_det ->
   ret (det_run rowphase alloc e m out_det t) = 1%Z) /\
  (m = None \/ out_det = None \/ alloc = false \/
   (exists mm, m = Some mm /\ rows mm <> cols mm) \/
   (exists mm k, m = Some mm /\ det_final rowphase mm = Aborted k) ->
   ret (det_run rowphase alloc e m out_det t) = 0%Z /\
   det_cell (det_run rowphase alloc e m out_det t) = out_det) /\
  (fst (determinant_gauss_partial_pivot alloc m out_det) = 0%Z ->
   snd (determinant_gauss_partial_pivot alloc m out_det) = out_det) /\
  (m = None \/ out_det = None \/ alloc = false \/
   (exists mm, m = Some mm /\ rows mm <> cols mm) ->
   determinant_gauss_partial_pivot alloc m out_det = (0%Z, out_det)).
Proof.
  assert (Hfail : forall rp ex tx,
            (m = None \/ out_det = None \/ alloc = false \/
             (exists mm, m = Some mm /\ rows mm <> cols mm) \/
             (exists mm k, m = Some mm /\ det_final rp mm = Aborted k)) ->
            det_run rp alloc ex m out_det tx = mkDetOut 0 out_det tx).
  { intros rp ex tx H.
    destruct (det_run_cases rp alloc ex m out_det tx)
      as [H0|[mm [old [d [Hm [Ho [Hsq [Ha [_ Hd]]]]]]]]]; auto.
    exfalso. subst.
    destruct H as [H|[H|[H|[[mm' [Hm' Hne]]|[mm' [k [Hm' Hab]]]]]]];
      try discriminate.
    - inversion Hm'; subst. contradiction.
    - inversion Hm'; subst.
      destruct Hd as [[k' [Hf _]]|[A [s [Hf _]]]]; congruence. }
  assert (Hshape : forall rp ex tx,
            (ret (det_run rp alloc ex m out_det tx) = 0%Z /\
             det_cell (det_run rp alloc ex m out_det tx) = out_det) \/
            ret (det_run rp alloc ex m out_det tx) = 1%Z).
  { intros rp ex tx.
    destruct (det_run_cases rp alloc ex m out_det tx)
      as [H0|[mm [old [d [_ [_ [_ [_ [H1 _]]]]]]]]].
    - left. rewrite H0. auto.
    - right. rewrite H1. reflexivity. }
  split; [|split; [|split; [|split; [|split]]]].
  - destruct (Hshape rowphase e t) as [[H _]|H]; auto.
  - intros H0. destruct (Hshape rowphase e t) as [[_ H]|H]; auto.
    rewrite H in H0. discriminate.
  - intros Hne. destruct (Hshape rowphase e t) as [[_ H]|H]; auto.
    contradiction.
  - intros H. rewrite (Hfail rowphase e t H). auto.
  - unfold determinant_gauss_partial_pivot. cbn [fst snd]. intros H0.
    destruct (Hshape rows_single zero None) as [[_ H]|H]; auto.
    rewrite H in H0. discriminate.
  - intros H. unfold determinant_gauss_partial_pivot.
    rewrite (Hfail rows_single zero None); [reflexivity|].
    destruct H as [H|[H|[H|H]]]; auto.
Qed.

End DeterminantFacts.

Section DeterminantClaims.
Context {F : Type} {SF : Scalar F}.

(** C3.  When a step [k] of the elimination starts from a workspace [A]
    whose column [k] is below the threshold 1e-12 in magnitude in every
    row [i >= k], the loop is left at that step, the function returns 1
    and [*out_det] is 0.0.  This holds for each variant of the row phase
    ([det_run rows_single] is [determinant_single]) and for
    [determinant_gauss_partial_pivot]. *)
Theorem singular_is_success (rowphase : RowPhase) (e : F) (m : Matrix)
  (old : F) (t : option F) (k : nat) (A : list F) (p : nat) :
  rows m = cols m ->
  In (Pivot k A p) (det_events rowphase m) ->
  (forall i, k <= i < Z.to_nat (rows m) ->
     ltb (fabs (at_ (Z.to_nat (rows m)) A i k)) PIVOT_EPS = true) ->
  det_final rowphase m = Singular k /\
  det_run rowphase true e (Some m) (Some old) t =
    mkDetOut 1 (Some zero) (store_time t e) /\
  (rowphase = rows_single ->
   determinant_single true e (Some m) (Some old) t =
     mkDetOut 1 (Some zero) (store_time t e) /\
   determinant_gauss_partial_pivot true (Some m) (Some old) = (1%Z, Some zero)).
Proof.
  intros Hsq Hin Hsmall.
  assert (Hf : det_final rowphase m = Singular k).
  { unfold det_final, det_events in *.
    apply (small_column_stops rowphase (Z.to_nat (rows m))
             (Z.to_nat (rows m)) 0 (copy_matrix_contiguous m) one k A p);
      auto. }
  assert (Hrun : forall ex tx,
            det_run rowphase true ex (Some m) (Some old) tx =
            mkDetOut 1 (Some zero) (store_time tx ex)).
  { intros ex tx. rewrite det_run_square by exact Hsq. rewrite Hf. reflexivity. }
  split; [exact Hf|]. split; [apply Hrun|].
  intros ->. split; [apply Hrun|].
  unfold determinant_gauss_partial_pivot. rewrite Hrun. reflexivity.
Qed.

End DeterminantClaims.

Section DivisorClaim.
Context {F : Type} {SF : Scalar F} {N : NumberFacts F SF}.

(** C9, as the code has it.  In every run of a determinant function the
    divisor [akk] of each division [A[i,k] / akk] has passed the test
    [fabs(pivot) < PIVOT_EPS]: its magnitude is not below the threshold
    1e-12, and it is at least the threshold when the divisor is a
    number.  A NaN passes the test as well. *)
Theorem divisors_above_threshold (rowphase : RowPhase) (m : Matrix)
  (i k : nat) (d : F) :
  variant rowphase ->
  In (Division i k d) (det_events rowphase m) ->
  ltb (fabs d) PIVOT_EPS = false /\
  (leb d d = true -> leb PIVOT_EPS (fabs d) = true).
Proof.
  intros Hv Hin.
  assert (H : ltb (fabs d) PIVOT_EPS = false).
  { unfold det_events in Hin.
    apply (divisions_pass_test rowphase (Z.to_nat (rows m))
             (Z.to_nat (rows m)) 0 (copy_matrix_contiguous m) one i k d); auto.
    - apply variant_keeps_length. exact Hv.
    - apply length_copy_matrix_contiguous. }
  split; [exact H|]. intros Hd. apply not_below_eps; assumption.
Qed.

End DivisorClaim.


Section StrategiesAgree.
Context {F : Type} {SF : Scalar F}.





End StrategiesAgree.

(* ================================================================== *)
(** * Identity matrices and matrices with a row of zeros               *)
(* ================================================================== *)

Section IdentityRuns.
Context {F : Type} {SF : Scalar F} {U : UnitFacts F SF}.

Lemma identity_pivot (n k : nat) (A : list F) :
  identity_ws n A -> k < n -> fst (pivot_search n A k) = k.
Proof.
  intros [Hlen HA] Hk.
  assert (H : pivot_search n A k = (k, fabs one)).
  { unfold pivot_search.
    apply (for_range_inv (fun _ st => st = (k, fabs one))); [lia| |].
    - rewrite HA by auto. rewrite Nat.eqb_refl. reflexivity.
    - intros i st Hi ->. cbv zeta. cbn [snd]. rewrite HA by lia.
      destruct (Nat.eqb_spec i k); [lia|].
      rewrite zero_not_above_one. reflexivity. }
  rewrite H. reflexivity.
Qed.

(** The elimination leaves the identity as it is and never swaps. *)
Lemma identity_loop (n fuel k0 : nat) (A : list F) (s : F) :
  identity_ws n A -> k0 + fuel = n ->
  fst (det_loop rows_single n fuel k0 A s) = Complete A s.
Proof.
  intros HI. pose proof HI as [Hlen HA]. revert k0.
  induction fuel as [|fuel IH]; intros k0 Hn; [reflexivity|].
  assert (Hk0 : k0 < n) by lia.
  pose proof (identity_pivot n k0 A HI Hk0) as Hp.
  assert (Hws : swapped_ws n k0 A = A).
  { unfold swapped_ws. rewrite Hp, Nat.eqb_refl. reflexivity. }
  assert (Hsg : swapped_sign n k0 A s = s).
  { unfold swapped_sign. rewrite Hp, Nat.eqb_refl. reflexivity. }
  assert (Hpv : ltb (fabs (at_ n A (fst (pivot_search n A k0)) k0)) PIVOT_EPS
                = false).
  { rewrite Hp, HA by lia. rewrite Nat.eqb_refl. apply one_not_small. }
  destruct (det_loop_step rows_single n fuel k0 A s)
    as [[Hsmall _]|[[_ [Hrp _]]|[A2 [_ [Hrp Heq]]]]];
    try congruence; try discriminate.
  rewrite Heq. cbn [fst]. rewrite Hsg. rewrite Hws in Hrp.
  destruct (rows_single_sound n _ _ _ _ Hlen Hk0 Hrp) as [Hlen2 HA2].
  assert (A2 = A).
  { apply (workspace_ext n); auto. intros i j Hi Hj.
    rewrite HA2 by auto. unfold after_rows, elim_entry.
    destruct (Nat.ltb_spec k0 i); auto.
    destruct (Nat.eqb_spec j k0) as [->|Hjk].
    - rewrite HA by auto. destruct (Nat.eqb_spec i k0); [lia|reflexivity].
    - destruct (Nat.ltb_spec k0 j); auto.
      rewrite (HA i k0), (HA k0 j), (HA k0 k0), (HA i j) by auto.
      destruct (Nat.eqb_spec i k0); [lia|].
      destruct (Nat.eqb_spec k0 j); [lia|].
      rewrite Nat.eqb_refl.
      destruct (i =? j); [apply update_of_one|apply update_of_zero]. }
  subst A2. apply IH. lia.
Qed.

Lemma identity_diag_product (n : nat) (A : list F) :
  identity_ws n A -> diag_product n A one = one.
Proof.
  intros [_ HA]. unfold diag_product.
  apply (for_range_inv (fun _ det => det = one)); [lia|reflexivity|].
  intros i t Hi ->. rewrite HA by lia. rewrite Nat.eqb_refl.
  apply one_times_one.
Qed.

Lemma identity_ws_copy (nm : string) (n : nat) :
  identity_ws n (copy_matrix_contiguous (identity_matrix nm n)).
Proof.
  pose proof (length_copy_matrix_contiguous (identity_matrix nm n)) as Hlen.
  pose proof (at_copy_matrix_contiguous (identity_matrix nm n)) as Hat.
  simpl in Hlen, Hat. rewrite Nat2Z.id in Hlen, Hat.
  split; [exact Hlen|].
  intros i j Hi Hj. rewrite Hat by auto. apply cell_table; auto.
Qed.

(** The determinant of an identity matrix is 1.0, in every arithmetic
    with the [UnitFacts]: in particular on IEEE doubles. *)
Lemma identity_determinant (n : nat) (nm : string) (e old : F) (t : option F) :
  determinant_single true e (Some (identity_matrix nm n)) (Some old) t =
    mkDetOut 1 (Some one) (store_time t e) /\
  determinant_gauss_partial_pivot true (Some (identity_matrix nm n))
    (Some old) = (1%Z, Some one).
Proof.
  assert (Hrun : forall ex tx,
            det_run rows_single true ex (Some (identity_matrix nm n))
              (Some old) tx = mkDetOut 1 (Some one) (store_time tx ex)).
  { intros ex tx. rewrite det_run_square by reflexivity.
    unfold det_final. simpl rows. rewrite Nat2Z.id.
    rewrite (identity_loop n n 0 _ one (identity_ws_copy nm n)) by lia.
    rewrite identity_diag_product by apply identity_ws_copy. reflexivity. }
  unfold determinant_single, determinant_gauss_partial_pivot.
  rewrite !Hrun. auto.
Qed.

End IdentityRuns.

Section IdentityAndZeroRow.
Context {F : Type} {SF : Scalar F} {L : OrderedFieldLaws F SF}.

Lemma ltb_zero_eps : ltb (fabs zero) PIVOT_EPS = true.
Proof. rewrite fabs_zero. apply eps_pos. Qed.

#[export] Instance laws_unit_facts : UnitFacts F SF.
Proof.
  constructor.
  - unfold gtb. rewrite fabs_one, fabs_zero. apply ltb_asym. apply ltb_zero_one.
  - rewrite fabs_one. apply ltb_asym. apply eps_lt_one.
  - rewrite div_zero_l, mul_zero_l, sub_zero_r. reflexivity.
  - rewrite div_zero_l, mul_zero_l, sub_zero_r. reflexivity.
  - apply mul_one_r.
Qed.

End IdentityAndZeroRow.

Section ZeroRowClaim.
Context {F : Type} {SF : Scalar F} {N : NumberFacts F SF}.

Lemma tame_pivots_app (n : nat) (evs1 evs2 : list (@Event F)) :
  tame_pivots n (evs1 ++ evs2) -> tame_pivots n evs1 /\ tame_pivots n evs2.
Proof.
  intros H. split; intros k A p Hin; apply H; apply in_or_app; auto.
Qed.

(** A workspace with a row of zeros makes the loop stop on a small pivot,
    provided the pivots met before are tame: the row stays a row of
    zeros. *)
Lemma null_row_loop (n fuel k0 : nat) (A : list F) (s : F) :
  null_row_ws n k0 A -> k0 + fuel = n ->
  tame_pivots n (snd (det_loop rows_single n fuel k0 A s)) ->
  exists k, fst (det_loop rows_single n fuel k0 A s) = Singular k.
Proof.
  revert k0 A s. induction fuel as [|fuel IH]; intros k0 A s HZ Hn Htame.
  - destruct HZ as [_ [r [Hr _]]]. lia.
  - destruct HZ as [Hlen [r [Hr Hzero]]].
    assert (Hk0 : k0 < n) by lia.
    destruct (pivot_search_range n A k0 Hk0) as [Hp _].
    set (p := fst (pivot_search n A k0)) in *.
    assert (Hlen1 : length (swapped_ws n k0 A) = n * n).
    { unfold swapped_ws. destruct (negb _); auto.
      rewrite length_swap_rows. exact Hlen. }
    destruct (det_loop_step rows_single n fuel k0 A s)
      as [[_ Heq]|[[_ [Hrp _]]|[A2 [Hbig [Hrp Heq]]]]];
      try discriminate.
    + exists k0. rewrite Heq. reflexivity.
    + rewrite Heq in Htame |- *. cbn [fst snd] in Htame |- *.
      apply tame_pivots_app in Htame. destruct Htame as [Hstep Hrest].
      fold p in Hbig.
      destruct (Hstep k0 A p) as [Hnum Hfin]; [left; reflexivity|exact Hbig|].
      apply IH; [|lia|exact Hrest].
      destruct (rows_single_sound n _ _ _ _ Hlen1 Hk0 Hrp) as [Hlen2 HA2].
      assert (Hpr : p <> r).
      { intros Heq'. rewrite Heq' in Hbig.
        rewrite null_small in Hbig by (apply Hzero; lia). discriminate. }
      assert (Hws : forall x c, x < n -> k0 <= c < n ->
                at_ n (swapped_ws n k0 A) x c = exchanged n A k0 p x c).
      { intros x c Hx Hc. unfold swapped_ws, exchanged. fold p.
        destruct (Nat.eqb_spec p k0) as [Hpk|Hpk]; simpl.
        - destruct (Nat.eqb_spec x k0) as [->|]; [rewrite Hpk; reflexivity|].
          destruct (Nat.eqb_spec x p); [lia|reflexivity].
        - rewrite swap_rows_spec by (auto; lia).
          destruct (Nat.leb_spec k0 c); [|lia].
          destruct (Nat.eqb_spec x k0); [reflexivity|].
          destruct (Nat.eqb_spec x p); reflexivity. }
      assert (Hrow : exists r1, k0 < r1 < n /\
                forall c, k0 <= c < n ->
                  fabs (at_ n (swapped_ws n k0 A) r1 c) = zero).
      { destruct (Nat.eq_dec r k0) as [Hrk|Hrk].
        - exists p. split; [lia|]. intros c Hc.
          rewrite Hws by lia. unfold exchanged.
          destruct (Nat.eqb_spec p k0); [lia|]. rewrite Nat.eqb_refl.
          rewrite <- Hrk. apply Hzero. lia.
        - exists r. split; [lia|]. intros c Hc.
          rewrite Hws by lia. unfold exchanged.
          destruct (Nat.eqb_spec r k0); [contradiction|].
          destruct (Nat.eqb_spec r p); [congruence|].
          apply Hzero. exact Hc. }
      destruct Hrow as [r1 [Hr1 Hz1]].
      split; [exact Hlen2|]. exists r1. split; [lia|].
      intros c Hc. rewrite HA2 by lia. unfold after_rows, elim_entry.
      destruct (Nat.ltb_spec k0 r1); [|lia].
      destruct (Nat.eqb_spec c k0); [lia|].
      destruct (Nat.ltb_spec k0 c); [|lia].
      assert (Hkk : at_ n (swapped_ws n k0 A) k0 k0 = at_ n A p k0).
      { rewrite Hws by lia. unfold exchanged. rewrite Nat.eqb_refl.
        reflexivity. }
      assert (Hkc : at_ n (swapped_ws n k0 A) k0 c = at_ n A p c).
      { rewrite Hws by lia. unfold exchanged. rewrite Nat.eqb_refl.
        reflexivity. }
      rewrite Hkk, Hkc. apply null_sub; [apply Hz1; lia|].
      apply null_mul; [|apply Hfin; lia].
      apply null_div; [apply Hz1; lia|exact Hnum|exact Hbig].
Qed.

Lemma null_row_ws_copy (m : Matrix) :
  has_zero_row m -> null_row_ws (Z.to_nat (rows m)) 0 (copy_matrix_contiguous m).
Proof.
  intros [r [Hr Hz]]. split; [apply length_copy_matrix_contiguous|].
  exists r. split; [lia|]. intros c Hc.
  rewrite at_copy_matrix_contiguous by lia. rewrite Hz by lia.
  apply null_zero.
Qed.

(** C8, as the code has it.  The determinant of the [n] by [n] identity
    matrix, [n >= 1], is 1.0.  The determinant of a square matrix with a
    row of zeros is 0.0 when every pivot the elimination divides by is a
    number and the entries right of it in its row are finite; both calls
    return 1.  An infinity in a pivot row turns the row of zeros into
    NaNs. *)
Theorem identity_and_zero_row {U : UnitFacts F SF} :
  (forall (n : nat) (nm : string) (e old : F) (t : option F),
     1 <= n ->
     determinant_single true e (Some (identity_matrix nm n)) (Some old) t =
       mkDetOut 1 (Some one) (store_time t e) /\
     determinant_gauss_partial_pivot true (Some (identity_matrix nm n))
       (Some old) = (1%Z, Some one)) /\
  (forall (m : Matrix) (e old : F) (t : option F),
     rows m = cols m -> has_zero_row m ->
     tame_pivots (Z.to_nat (rows m)) (det_events rows_single m) ->
     determinant_single true e (Some m) (Some old) t =
       mkDetOut 1 (Some zero) (store_time t e) /\
     determinant_gauss_partial_pivot true (Some m) (Some old) =
       (1%Z, Some zero)).
Proof.
  split.
  - intros n nm e old t _. apply identity_determinant.
  - intros m e old t Hsq Hz Htame.
    assert (Hrun : forall ex tx,
              det_run rows_single true ex (Some m) (Some old) tx =
              mkDetOut 1 (Some zero) (store_time tx ex)).
    { intros ex tx. rewrite det_run_square by exact Hsq.
      unfold det_final.
      destruct (null_row_loop (Z.to_nat (rows m)) (Z.to_nat (rows m)) 0
                  (copy_matrix_contiguous m) one (null_row_ws_copy m Hz))
        as [k Hk]; [lia|exact Htame|].
      rewrite Hk. reflexivity. }
    unfold determinant_single, determinant_gauss_partial_pivot.
    rewrite !Hrun. auto.
Qed.

End ZeroRowClaim.


(* ================================================================== *)
(** * Exact rational arithmetic obeys the laws                         *)
(* ================================================================== *)

Lemma Qc_ltb_lt (x y : Qc) : Qc_ltb x y = true <-> (x < y)%Qc.
Proof.
  unfold Qc_ltb. rewrite Qclt_alt.
  destruct (x ?= y)%Qc; split; intros H; congruence.
Qed.

Lemma Qc_ltb_ge (x y : Qc) : Qc_ltb x y = false <-> (y <= x)%Qc.
Proof.
  split; intros H.
  - apply Qcnot_lt_le. intros Hlt. apply Qc_ltb_lt in Hlt. congruence.
  - destruct (Qc_ltb x y) eqn:E; auto.
    apply Qc_ltb_lt in E. exfalso. apply (Qcle_not_lt _ _ H E).
Qed.

Lemma Qc_leb_le (x y : Qc) : Qc_leb x y = true <-> (x <= y)%Qc.
Proof.
  unfold Qc_leb. rewrite Qcle_alt.
  destruct (x ?= y)%Qc; split; intros H; congruence.
Qed.

#[export] Instance exact_laws : OrderedFieldLaws Qc exact_scalar.
Proof.
  constructor; simpl.
  - intros x y H. apply Qc_ltb_lt in H. apply Qc_ltb_ge.
    apply Qclt_le_weak. exact H.
  - intros x y z H. apply Qc_ltb_lt in H.
    destruct (Qclt_le_dec x z) as [Hxz|Hzx].
    + left. apply Qc_ltb_lt. exact Hxz.
    + right. apply Qc_ltb_lt. apply (Qcle_lt_trans _ _ _ Hzx H).
  - intros x y H. apply Qc_ltb_ge in H. apply Qc_leb_le. exact H.
  - intros x y H. apply Qc_leb_le in H. apply Qc_ltb_ge. exact H.
  - apply Qcabs_pos. apply Qcle_refl.
  - apply Qcabs_pos. apply Qc_leb_le. reflexivity.
  - reflexivity.
  - reflexivity.
  - intros x. unfold Qcdiv. apply Qcmult_0_l.
  - intros x. apply Qcmult_0_l.
  - intros x. unfold Qcminus.
    replace (- Q2Qc 0)%Qc with (Q2Qc 0) by (apply Qc_is_canon; reflexivity).
    apply Qcplus_0_r.
  - intros x. apply Qcmult_1_r.
  - intros x y z. symmetry. apply Qcmult_assoc.
Qed.

(* ================================================================== *)
(** * Doubles and exact rationals have the number facts                *)
(* ================================================================== *)

Section IeeeFacts.

(** Comparing the other way round gives the opposite answer. *)
Lemma SFcompare_swap (x y : spec_float) :
  SFcompare y x =
  match SFcompare x y with Some c => Some (CompOpp c) | None => None end.
Proof.
  destruct x as [sx|sx| |sx mx ex], y as [sy|sy| |sy my ey]; simpl;
    try reflexivity;
    try (destruct sx; reflexivity); try (destruct sy; reflexivity);
    try (destruct sx, sy; reflexivity).
  destruct sx, sy; try reflexivity;
    rewrite (Z.compare_antisym ex ey);
    destruct (ex ?= ey)%Z; simpl; try reflexivity;
    rewrite (Pos.compare_cont_antisym mx my Eq); simpl;
    rewrite ?CompOpp_involutive; reflexivity.
Qed.

(** A double that is at most itself is not a NaN. *)
Lemma leb_refl_number (x : float) :
  PrimFloat.leb x x = true -> Prim2SF x <> S754_nan.
Proof.
  rewrite leb_spec. intros H E. rewrite E in H. discriminate.
Qed.

Lemma SFcompare_numbers (x y : spec_float) :
  x <> S754_nan -> y <> S754_nan -> SFcompare x y <> None.
Proof.
  destruct x, y; simpl; try discriminate; congruence.
Qed.

(** On doubles that are not NaN, what is not below is at least. *)
Lemma float_not_below (x y : float) :
  PrimFloat.leb x x = true -> PrimFloat.leb y y = true ->
  PrimFloat.ltb x y = false -> PrimFloat.leb y x = true.
Proof.
  intros Hx Hy. apply leb_refl_number in Hx. apply leb_refl_number in Hy.
  rewrite ltb_spec, leb_spec. unfold SFltb, SFleb.
  rewrite (SFcompare_swap (Prim2SF x) (Prim2SF y)).
  pose proof (SFcompare_numbers _ _ Hx Hy) as Hc.
  destruct (SFcompare (Prim2SF x) (Prim2SF y)) as [[| |]|];
    simpl; congruence.
Qed.

Lemma abs_number (x : float) :
  PrimFloat.leb x x = true -> PrimFloat.leb (abs x) (abs x) = true.
Proof.
  intros Hx. apply leb_refl_number in Hx.
  rewrite leb_spec, abs_spec. unfold SFleb.
  destruct (Prim2SF x) as [s|s| |s m e]; simpl; try congruence.
  rewrite Z.compare_refl. rewrite Pos.compare_cont_refl. reflexivity.
Qed.

(** The doubles whose magnitude is 0.0 are 0.0 and -0.0. *)
Lemma abs_zero_cases (z : float) :
  abs z = 0%float -> exists s, Prim2SF z = S754_zero s.
Proof.
  intros H. apply (f_equal Prim2SF) in H. rewrite abs_spec in H.
  destruct (Prim2SF z) as [s|s| |s m e]; try discriminate. exists s. reflexivity.
Qed.

Lemma abs_of_zero (x : float) (s : bool) :
  Prim2SF x = S754_zero s -> abs x = 0%float.
Proof.
  intros H. apply Prim2SF_inj. rewrite abs_spec, H. reflexivity.
Qed.

(** 0.0 / a is a zero when [a] is a number that passed the pivot test. *)
Lemma float_null_div (z a : float) :
  abs z = 0%float -> PrimFloat.leb a a = true ->
  PrimFloat.ltb (abs a) PIVOT_EPS = false ->
  abs (z / a) = 0%float.
Proof.
  intros Hz Ha Hbig. destruct (abs_zero_cases z Hz) as [s Hs].
  apply leb_refl_number in Ha.
  destruct (Prim2SF a) as [sa|sa| |sa ma ea] eqn:Ea; try congruence.
  - rewrite (abs_of_zero a sa Ea) in Hbig. discriminate.
  - apply (abs_of_zero _ (xorb s sa)). rewrite div_spec, Hs, Ea. reflexivity.
  - apply (abs_of_zero _ (xorb s sa)). rewrite div_spec, Hs, Ea. reflexivity.
Qed.

(** A zero times a finite double is a zero.  [x - x] is 0.0 exactly
    when [x] is finite. *)
Lemma float_null_mul (f x : float) :
  abs f = 0%float -> (x - x)%float = 0%float -> abs (f * x) = 0%float.
Proof.
  intros Hf Hx. destruct (abs_zero_cases f Hf) as [s Hs].
  apply (f_equal Prim2SF) in Hx. rewrite sub_spec in Hx.
  destruct (Prim2SF x) as [sx|sx| |sx mx ex] eqn:Ex.
  - apply (abs_of_zero _ (xorb s sx)). rewrite mul_spec, Hs, Ex. reflexivity.
  - destruct sx; discriminate.
  - discriminate.
  - apply (abs_of_zero _ (xorb s sx)). rewrite mul_spec, Hs, Ex. reflexivity.
Qed.

Lemma float_null_sub (a b : float) :
  abs a = 0%float -> abs b = 0%float -> abs (a - b) = 0%float.
Proof.
  intros Ha Hb. destruct (abs_zero_cases a Ha) as [sa Hsa].
  destruct (abs_zero_cases b Hb) as [sb Hsb].
  apply (abs_of_zero _ (match sa, sb with
                        | true, false => true | _, _ => false end)).
  rewrite sub_spec, Hsa, Hsb. destruct sa, sb; reflexivity.
Qed.

End IeeeFacts.

#[export] Instance ieee_number_facts : NumberFacts float ieee_scalar.
Proof.
  constructor; simpl.
  - intros x Hx Hbig. apply float_not_below; auto.
    apply abs_number. exact Hx.
  - reflexivity.
  - intros z Hz. rewrite Hz. reflexivity.
  - exact float_null_div.
  - exact float_null_mul.
  - exact float_null_sub.
Qed.

#[export] Instance exact_number_facts : NumberFacts Qc exact_scalar.
Proof.
  assert (H0 : Qcabs (Q2Qc 0) = Q2Qc 0) by (apply Qcabs_pos; apply Qcle_refl).
  constructor; simpl.
  - intros x _ H. apply Qc_ltb_ge in H. apply Qc_leb_le. exact H.
  - exact H0.
  - intros z Hz. rewrite Hz. reflexivity.
  - intros z a Hz _ _. apply Qcabs_null in Hz. rewrite Hz.
    unfold Qcdiv. rewrite Qcmult_0_l. exact H0.
  - intros f x Hf _. apply Qcabs_null in Hf. rewrite Hf.
    rewrite Qcmult_0_l. exact H0.
  - intros a b Ha Hb. apply Qcabs_null in Ha. apply Qcabs_null in Hb.
    rewrite Ha, Hb. exact H0.
Qed.

(* ================================================================== *)
(** * The QR iteration                                                 *)
(* ================================================================== *)

Section EigenFacts.
Context {F : Type} {SF : Scalar F}.
Variable sqrt : F -> F.

Lemma at_copy_matrix_flat (m : Matrix) (i j : nat) :
  i < Z.to_nat (rows m) -> j < Z.to_nat (rows m) ->
  at_ (Z.to_nat (rows m)) (copy_matrix_flat m) i j = cell (data m) i j.
Proof. apply at_copy_matrix_contiguous. Qed.

(** A diagonal matrix passes the convergence test as it comes. *)
Lemma diagonal_converged (m : Matrix) (tol : F) :
  is_diagonal m -> gtb (fabs zero) tol = false ->
  is_converged (copy_matrix_flat m) (Z.to_nat (rows m)) tol = true.
Proof.
  intros [_ Hd] Htol. unfold is_converged.
  apply forallb_forall. intros i Hi. apply in_seq in Hi.
  apply forallb_forall. intros j Hj. apply in_seq in Hj.
  destruct (Nat.eqb_spec i j) as [->|Hne]; simpl; auto.
  rewrite at_copy_matrix_flat by lia. rewrite Hd by lia.
  rewrite Htol. reflexivity.
Qed.

Lemma qr_iterate_converged (qr : list F -> nat -> option (list F * list F))
  (mm : list F -> list F -> nat -> list F) (n : nat) (tol : F)
  (fuel : nat) (iter : Z) (A V : list F) :
  is_converged A n tol = true ->
  qr_iterate qr mm n tol fuel iter A V = Some (A, V, iter).
Proof. intros H. destruct fuel; simpl; auto. rewrite H. reflexivity. Qed.

Lemma qr_iterate_openmp_converged (orders : nat -> nat -> nat -> Sum)
  (n : nat) (tol : F) (fuel : nat) (iter : Z) (A V : list F) :
  is_converged A n tol = true ->
  qr_iterate_openmp sqrt orders n tol fuel iter A V = Some (A, V, iter).
Proof. intros H. destruct fuel; simpl; auto. rewrite H. reflexivity. Qed.

Lemma qr_iterate_mp_converged (res_ok : nat -> bool)
  (reads : nat -> nat * nat) (n : nat) (tol : F)
  (fuel : nat) (iter : Z) (A V Q R : list F) :
  is_converged A n tol = true ->
  qr_iterate_mp sqrt res_ok reads n tol fuel iter A V Q R = Some (A, V, iter).
Proof. intros H. destruct fuel; simpl; auto. rewrite H. reflexivity. Qed.

Lemma extract_eigenvalues_copy (m : Matrix) :
  extract_eigenvalues (copy_matrix_flat m) (Z.to_nat (rows m)) = diagonal_of m.
Proof.
  unfold extract_eigenvalues, diagonal_of. apply map_ext_in.
  intros i Hi. apply in_seq in Hi. apply at_copy_matrix_flat; lia.
Qed.

(** C5, as the code has it.  On a diagonal matrix, with a tolerance that
    0.0 does not exceed, each variant of the solver returns a result whose
    eigenvalue [i] is the diagonal entry [i] and whose iteration count
    is 0: the convergence test precedes the first round.  This holds
    whatever the orders of the reductions and whatever the [read]s would
    be handed. *)
Theorem diagonal_needs_no_round (m : Matrix) (max_iter : Z) (tol e : F)
  (t : option F) (alloc_vec : bool) (orders : nat -> nat -> nat -> Sum)
  (res_ok : nat -> bool) (reads : nat -> nat * nat) (Q0 R0 : list F) :
  is_diagonal m -> gtb (fabs zero) tol = false ->
  (exists r, fst (eigen_qr_single sqrt true alloc_vec e (Some m) max_iter tol t)
             = Some r /\
             eigenvalues r = diagonal_of m /\ iterations r = 0%Z) /\
  (exists r, fst (eigen_qr_openmp sqrt true alloc_vec orders e (Some m)
                    max_iter tol t) = Some r /\
             eigenvalues r = diagonal_of m /\ iterations r = 0%Z) /\
  (exists r, fst (eigen_qr_multiprocess sqrt true alloc_vec res_ok reads Q0 R0
                    e (Some m) max_iter tol t) = Some r /\
             eigenvalues r = diagonal_of m /\ iterations r = 0%Z).
Proof.
  intros Hd Htol. pose proof Hd as [Hsq _].
  pose proof (diagonal_converged m tol Hd Htol) as Hc.
  unfold eigen_qr_single, eigen_qr_openmp, eigen_qr_multiprocess.
  rewrite Hsq, Z.eqb_refl. simpl negb. cbv iota. rewrite <- Hsq.
  rewrite qr_iterate_converged, qr_iterate_openmp_converged,
    qr_iterate_mp_converged by exact Hc.
  repeat split; eexists; (split; [reflexivity|]); simpl;
    auto using extract_eigenvalues_copy.
Qed.

(** ** Failure of the single-threaded solver *)

Lemma columns_done_all (A : list F) (n : nat) :
  qr_decompose_single sqrt A n = columns_done sqrt A n n.
Proof. reflexivity. Qed.

Lemma columns_done_next (A : list F) (n j : nat) :
  columns_done sqrt A n (S j) =
  match columns_done sqrt A n j with
  | None => None
  | Some QR => qr_column sqrt A n j QR
  end.
Proof. unfold columns_done. rewrite for_range_last by lia. reflexivity. Qed.

Lemma qr_column_none (A : list F) (n j : nat) (QR : list F * list F) :
  qr_column sqrt A n j QR = None <->
  ltb (column_norm sqrt n j (fst (orthogonalize A n j QR))) lit_1e_14 = true.
Proof.
  unfold qr_column.
  destruct (ltb (column_norm sqrt n j (fst (orthogonalize A n j QR))) lit_1e_14);
    split; intros H; congruence.
Qed.

(** The decomposition returns 0 exactly when some column is left with a
    norm below 1e-14. *)
Lemma decomposition_fails_iff (A : list F) (n : nat) :
  qr_decompose_single sqrt A n = None <-> breaks_down sqrt A n.
Proof.
  rewrite columns_done_all. unfold breaks_down.
  assert (H : forall m,
             columns_done sqrt A n m = None <->
             exists j QR, j < m /\ columns_done sqrt A n j = Some QR /\
               ltb (column_norm sqrt n j (fst (orthogonalize A n j QR)))
                 lit_1e_14 = true).
  { induction m as [|m IH].
    - split; [discriminate|]. intros [j [QR [Hj _]]]. lia.
    - rewrite columns_done_next. split.
      + destruct (columns_done sqrt A n m) as [QR|] eqn:Hm.
        * intros Hc. apply qr_column_none in Hc.
          exists m, QR. split; [lia|]. split; auto.
        * intros _. destruct IH as [IH _].
          destruct (IH eq_refl) as [j [QR [Hj Hrest]]].
          exists j, QR. split; [lia|exact Hrest].
      + intros [j [QR [Hj [Hdone Hnorm]]]].
        destruct (Nat.eq_dec j m) as [->|Hne].
        * rewrite Hdone. apply qr_column_none. exact Hnorm.
        * destruct IH as [_ IH].
          rewrite IH; auto. exists j, QR. split; [lia|]. auto. }
  apply H.
Qed.

(** What a run of the loop returns, in terms of its rounds. *)
Lemma qr_iterate_rounds (qr : list F -> nat -> option (list F * list F))
  (mm : list F -> list F -> nat -> list F) (n : nat) (tol : F)
  (fuel : nat) (iter : Z) (A V : list F) :
  let rounds := qr_rounds qr mm n tol fuel A V in
  length rounds <= fuel /\
  match qr_iterate qr mm n tol fuel iter A V with
  | None => exists X, In X rounds /\ qr X n = None
  | Some (A', V', iter') =>
      (forall X, In X rounds -> qr X n <> None) /\
      iter' = (iter + Z.of_nat (length rounds))%Z /\
      (is_converged A' n tol = false -> length rounds = fuel)
  end.
Proof.
  revert iter A V. induction fuel as [|fuel IH]; intros iter A V; simpl.
  - split; [lia|]. split; [intros X []|]. split; [lia|reflexivity].
  - destruct (is_converged A n tol) eqn:Hc; simpl.
    + split; [lia|]. split; [intros X []|]. split; [lia|congruence].
    + destruct (qr A n) as [[Q R]|] eqn:Hqr.
      * specialize (IH (iter + 1)%Z (mm R Q n) (mm V Q n)).
        cbv zeta in IH. destruct IH as [Hlen IH]. split; [simpl; lia|].
        destruct (qr_iterate qr mm n tol fuel (iter + 1) (mm R Q n) (mm V Q n))
          as [[[A' V'] iter']|].
        -- destruct IH as [Hall [Hiter Hex]]. split; [|split].
           ++ intros X [<-|HX]; [congruence|apply Hall; exact HX].
           ++ simpl length. lia.
           ++ intros H. simpl. rewrite Hex; auto.
        -- destruct IH as [X [HX Hn]]. exists X. split; [right; exact HX|exact Hn].
      * split; [simpl; lia|]. exists A. split; [left; reflexivity|exact Hqr].
Qed.

(** ** The OpenMP solver when its reductions add in index order *)

Lemma sum_value_chunk (lo hi : nat) (term : nat -> F) :
  sum_value (chunk_sum lo hi) term =
  for_range lo hi (fun i acc => add acc (term i)) zero.
Proof.
  unfold chunk_sum.
  destruct (Nat.le_gt_cases lo hi) as [Hle|Hgt].
  - induction hi as [|hi IH].
    + rewrite !for_range_empty by lia. reflexivity.
    + destruct (Nat.eq_dec lo (S hi)) as [->|Hne].
      * rewrite !for_range_empty by lia. reflexivity.
      * rewrite !for_range_last by lia. cbn [sum_value].
        rewrite IH by lia. reflexivity.
  - rewrite !for_range_empty by lia. reflexivity.
Qed.

Lemma sum_value_in_order (n : nat) (term : nat -> F) :
  sum_value (in_order n) term =
  for_range 0 n (fun i acc => add acc (term i)) zero.
Proof. apply (sum_value_chunk 0 n). Qed.

Lemma qr_column_openmp_in_order (order : nat -> Sum) (A : list F)
  (n j : nat) (QR : list F * list F) :
  (forall k (term : nat -> F), k <= j ->
     sum_value (order k) term = sum_value (in_order n) term) ->
  qr_column_openmp sqrt order A n j QR = qr_column sqrt A n j QR.
Proof.
  intros Ho.
  assert (Horth : orthogonalize_openmp order A n j QR = orthogonalize A n j QR).
  { unfold orthogonalize_openmp, orthogonalize.
    apply for_range_ext. intros k st Hk.
    rewrite Ho by lia. rewrite sum_value_in_order. reflexivity. }
  unfold qr_column_openmp, qr_column, column_norm_openmp, column_norm.
  rewrite Horth, Ho by lia. rewrite sum_value_in_order. reflexivity.
Qed.

Lemma qr_decompose_openmp_in_order (orders : nat -> nat -> Sum) (A : list F)
  (n : nat) :
  (forall j k (term : nat -> F), k <= j < n ->
     sum_value (orders j k) term = sum_value (in_order n) term) ->
  qr_decompose_openmp sqrt orders A n = qr_decompose_single sqrt A n.
Proof.
  intros Ho. unfold qr_decompose_openmp, qr_decompose_single.
  apply for_range_ext. intros j st Hj. destruct st as [QR|]; auto.
  apply qr_column_openmp_in_order. intros k term Hk. apply Ho. lia.
Qed.

Lemma qr_iterate_openmp_in_order (orders : nat -> nat -> nat -> Sum)
  (n : nat) (tol : F) (fuel : nat) (iter : Z) (A V : list F) :
  sums_in_order n orders ->
  qr_iterate_openmp sqrt orders n tol fuel iter A V =
  qr_iterate (qr_decompose_single sqrt) matmul_single n tol fuel iter A V.
Proof.
  intros Ho. revert iter A V.
  induction fuel as [|fuel IH]; intros iter A V; [reflexivity|].
  cbn [qr_iterate_openmp qr_iterate].
  destruct (is_converged A n tol); [reflexivity|].
  rewrite qr_decompose_openmp_in_order
    by (intros j k term Hjk; apply Ho; exact Hjk).
  destruct (qr_decompose_single sqrt A n) as [[Q R]|]; [|reflexivity].
  apply IH.
Qed.

(** With its reductions adding in index order the OpenMP solver is the
    single-threaded one. *)
Lemma eigen_qr_openmp_same (alloc alloc_vec : bool)
  (orders : nat -> nat -> nat -> Sum) (e : F)
  (m : option Matrix) (max_iter : Z) (tol : F) (t : option F) :
  (forall mm, m = Some mm -> sums_in_order (Z.to_nat (rows mm)) orders) ->
  eigen_qr_openmp sqrt alloc alloc_vec orders e m max_iter tol t =
  eigen_qr_single sqrt alloc alloc_vec e m max_iter tol t.
Proof.
  intros Ho. unfold eigen_qr_openmp, eigen_qr_single.
  destruct m as [mm|]; [|reflexivity].
  rewrite qr_iterate_openmp_in_order by (apply Ho; reflexivity).
  reflexivity.
Qed.

(** C6 for [eigen_qr_single] and [eigen_qr_openmp]: on a square matrix,
    with its workspace granted, the solver returns NULL exactly when the
    decomposition of one of its rounds breaks down; otherwise the
    [iterations] field is the number of rounds performed, which is
    [max_iter] when the final iterate does not meet the tolerance. *)
Lemma single_fails_on_breakdown_only (m : Matrix) (max_iter : Z) (tol e : F)
  (t : option F) (alloc_vec : bool) :
  rows m = cols m ->
  let n := Z.to_nat (rows m) in
  let rounds := qr_rounds (qr_decompose_single sqrt) matmul_single n tol
                  (Z.to_nat max_iter) (copy_matrix_flat m) (identity_flat n) in
  let final := last_iterate (qr_decompose_single sqrt) matmul_single n tol
                 (Z.to_nat max_iter) (copy_matrix_flat m) (identity_flat n) in
  (fst (eigen_qr_single sqrt true alloc_vec e (Some m) max_iter tol t) = None <->
   exists X, In X rounds /\ breaks_down sqrt X n) /\
  (forall r,
     fst (eigen_qr_single sqrt true alloc_vec e (Some m) max_iter tol t) = Some r ->
     iterations r = Z.of_nat (length rounds) /\
     (0 <= iterations r <= Z.max 0 max_iter)%Z /\
     (is_converged final n tol = false -> iterations r = Z.max 0 max_iter)).
Proof.
  intros Hsq n rounds final.
  pose proof (qr_iterate_rounds (qr_decompose_single sqrt) matmul_single n tol
                (Z.to_nat max_iter) 0%Z (copy_matrix_flat m) (identity_flat n))
    as Hr.
  cbv zeta in Hr. fold rounds in Hr. destruct Hr as [Hlen Hr].
  unfold final, last_iterate, eigen_qr_single.
  rewrite Hsq, Z.eqb_refl. simpl negb. cbv iota. rewrite <- Hsq. fold n.
  destruct (qr_iterate (qr_decompose_single sqrt) matmul_single n tol
              (Z.to_nat max_iter) 0 (copy_matrix_flat m) (identity_flat n))
    as [[[A V] iter]|] eqn:Hit.
  - destruct Hr as [Hall [Hiter Hex]]. simpl fst. split.
    + split; [discriminate|]. intros [X [HX Hb]].
      apply decomposition_fails_iff in Hb. exfalso. apply (Hall X HX Hb).
    + intros r Hr'. inversion Hr'; subst r; clear Hr'. simpl.
      split; [lia|]. split; [lia|]. intros Hnc. specialize (Hex Hnc). lia.
  - destruct Hr as [X [HX Hn]]. simpl fst. split.
    + split; auto. intros _. exists X. split; auto.
      apply decomposition_fails_iff. exact Hn.
    + intros r Hr'. discriminate.
Qed.

(** ** The multiprocess solver does not see a failed decomposition *)

Lemma qr_iterate_mp_total (res_ok : nat -> bool) (reads : nat -> nat * nat)
  (n : nat) (tol : F) (fuel : nat) (iter : Z) (A V Q R : list F) :
  (forall i, res_ok i = true) ->
  qr_iterate_mp sqrt res_ok reads n tol fuel iter A V Q R <> None.
Proof.
  intros Hok. revert iter A V Q R.
  induction fuel as [|fuel IH]; intros iter A V Q R; simpl; [discriminate|].
  destruct (is_converged A n tol); [discriminate|].
  rewrite Hok. simpl. apply IH.
Qed.

(** With its workspace, pipes and forks granted, [eigen_qr_multiprocess]
    returns a result on every square matrix, whatever the decompositions
    of its children did and whatever its [read]s were handed. *)
Lemma multiprocess_never_fails (m : Matrix) (max_iter : Z) (tol e : F)
  (t : option F) (alloc_vec : bool) (res_ok : nat -> bool)
  (reads : nat -> nat * nat) (Q0 R0 : list F) :
  rows m = cols m -> (forall i, res_ok i = true) ->
  fst (eigen_qr_multiprocess sqrt true alloc_vec res_ok reads Q0 R0 e (Some m)
         max_iter tol t) <> None.
Proof.
  intros Hsq Hok. unfold eigen_qr_multiprocess.
  rewrite Hsq, Z.eqb_refl. simpl negb. cbv iota. rewrite <- Hsq.
  pose proof (qr_iterate_mp_total res_ok reads (Z.to_nat (rows m)) tol
                (Z.to_nat max_iter) 0%Z (copy_matrix_flat m)
                (identity_flat (Z.to_nat (rows m))) Q0 R0 Hok) as H.
  destruct (qr_iterate_mp sqrt res_ok reads _ tol _ 0 _ _ Q0 R0)
    as [[[A V] it]|];
    [simpl; discriminate|contradiction].
Qed.

End EigenFacts.

(* ================================================================== *)
(** * The comparison harnesses                                         *)
(* ================================================================== *)

Section HarnessFacts.
Context {F : Type} {SF : Scalar F} {L : OrderedFieldLaws F SF}.

Lemma ltb_leb (x y : F) : ltb x y = true -> leb x y = true.
Proof. intros H. apply leb_total. apply ltb_asym. exact H. Qed.

Lemma leb_refl (x : F) : leb x x = true.
Proof. apply leb_total. apply ltb_irrefl. Qed.

Lemma ltb_trans (x y z : F) :
  ltb x y = true -> ltb y z = true -> ltb x z = true.
Proof.
  intros Hxy Hyz. destruct (ltb_cotrans x y z Hxy) as [H|H]; auto.
  pose proof (ltb_asym _ _ Hyz). congruence.
Qed.

Lemma ltb_below (x y z : F) :
  ltb x y = true -> ltb z y = false -> ltb x z = true.
Proof.
  intros Hxy Hzy. destruct (ltb_cotrans x y z Hxy) as [H|H]; auto.
  congruence.
Qed.

Ltac order :=
  first [ assumption
        | apply leb_refl
        | apply leb_total; assumption
        | apply ltb_leb; assumption
        | apply ltb_leb; eapply ltb_trans; eassumption
        | apply ltb_leb; eapply ltb_below; eassumption
        | eapply ltb_trans; eassumption
        | eapply ltb_below; eassumption
        | congruence
        | lia ].

(** [run_eigen_comparison] selects the fastest of the strategies that
    succeeded, the earlier one on a tie, provided the elapsed times of
    the successful strategies are below the 1e99 it starts from. *)
Lemma pick_eigen_fastest {R : Type} (mt : PerformanceMetrics)
  (res1 res2 res3 : option R) :
  (forall s, result_of res1 res2 res3 s <> None ->
             ltb (time_of mt s) lit_1e99 = true) ->
  (exists s, result_of res1 res2 res3 s <> None) ->
  exists s,
    fst (fst (pick_eigen mt res1 res2 res3)) = s /\
    snd (fst (pick_eigen mt res1 res2 res3)) = time_of mt s /\
    snd (pick_eigen mt res1 res2 res3) = result_of res1 res2 res3 s /\
    fastest_successful mt res1 res2 res3 s.
Proof.
  intros Hbig [s0 Hs0].
  pose proof (Hbig SingleThreaded) as H1.
  pose proof (Hbig OpenMP) as H2.
  pose proof (Hbig Multiprocessing) as H3.
  unfold pick_eigen, fastest_successful.
  destruct res1 as [r1|], res2 as [r2|], res3 as [r3|]; simpl in *;
    try (specialize (H1 ltac:(discriminate)));
    try (specialize (H2 ltac:(discriminate)));
    try (specialize (H3 ltac:(discriminate)));
    try (destruct s0; simpl in Hs0; congruence);
    try match goal with
        | |- context [ltb (openmp_time mt) ?b] =>
            destruct (ltb (openmp_time mt) b) eqn:?
        end;
    cbn [fst snd];
    try match goal with
        | |- context [ltb (multiprocess_time mt) ?b] =>
            destruct (ltb (multiprocess_time mt) b) eqn:?
        end;
    cbn [fst snd];
    try (exfalso; congruence);
    (eexists; split; [reflexivity|]; split; [reflexivity|];
     split; [reflexivity|]; split; [discriminate|];
     intros [| |] Hs'; simpl in *; try congruence;
     (split; [order|intros Hr; order])).
Qed.

(** [run_operation_comparison] compares the three time fields without
    looking at the results: a field that beats the others wins even when
    its strategy returned NULL. *)
Lemma pick_operation_ignores_failure (mt : PerformanceMetrics)
  (result1 result2 : option Matrix) :
  ltb (multiprocess_time mt) (single_thread_time mt) = true ->
  ltb (multiprocess_time mt) (openmp_time mt) = true ->
  snd (pick_operation mt result1 result2 None) = None.
Proof.
  intros H1 H2. unfold pick_operation. simpl.
  destruct (ltb (openmp_time mt) (single_thread_time mt)); simpl;
    rewrite ?H1, ?H2; reflexivity.
Qed.

(** The result [run_eigen_comparison] returns is the one its selection
    picks among the results of the three solvers, with the time fields the
    successful ones stored. *)
Lemma run_eigen_comparison_fastest (sqrt : F -> F) (o : EigenOracle)
  (m : Matrix) (max_iter : Z) (tol : F) (mt : PerformanceMetrics) :
  rows m = cols m ->
  let r1 := eigen_qr_single sqrt (e_alloc1 o) (e_vec1 o) (e_elapsed1 o)
              (Some m) max_iter tol (Some (single_thread_time mt)) in
  let r2 := eigen_qr_openmp sqrt (e_alloc2 o) (e_vec2 o) (e_orders o)
              (e_elapsed2 o)
              (Some m) max_iter tol (Some (openmp_time mt)) in
  let r3 := eigen_qr_multiprocess sqrt (e_alloc3 o) (e_vec3 o) (e_res_ok o)
              (e_reads o) (e_Q0 o) (e_R0 o) (e_elapsed3 o)
              (Some m) max_iter tol (Some (multiprocess_time mt)) in
  let mt' := mkMetrics (field_after (single_thread_time mt) (snd r1))
                       (field_after (openmp_time mt) (snd r2))
                       (field_after (multiprocess_time mt) (snd r3)) in
  (forall s, result_of (fst r1) (fst r2) (fst r3) s <> None ->
             ltb (time_of mt' s) lit_1e99 = true) ->
  (exists s, result_of (fst r1) (fst r2) (fst r3) s <> None) ->
  exists s,
    fst (run_eigen_comparison sqrt o (Some m) max_iter tol (Some mt)) =
      result_of (fst r1) (fst r2) (fst r3) s /\
    fastest_successful mt' (fst r1) (fst r2) (fst r3) s.
Proof.
  intros Hsq r1 r2 r3 mt' Hbig Hsome.
  destruct (pick_eigen_fastest mt' (fst r1) (fst r2) (fst r3) Hbig Hsome)
    as [s [_ [_ [Hres Hfast]]]].
  exists s. split; [|exact Hfast].
  unfold run_eigen_comparison. rewrite Hsq, Z.eqb_refl. simpl negb. cbv iota.
  cbn [fst]. exact Hres.
Qed.

End HarnessFacts.

(* ================================================================== *)
(** * The collection of matrices                                     *)
(* ================================================================== *)

Section CollectionFacts.
Context {F : Type} {SF : Scalar F}.

Lemma find_index_spec (s : string) (its : list (@Matrix F)) (i0 : nat) :
  match find_index s its i0 with
  | Some k =>
      i0 <= k /\ k - i0 < length its /\
      name (nth (k - i0) its no_matrix) = s /\
      forall j, j < k - i0 -> name (nth j its no_matrix) <> s
  | None => forall m, In m its -> name m <> s
  end.
Proof.
  revert i0. induction its as [|m rest IH]; intros i0; simpl.
  - intros m [].
  - destruct (String.eqb_spec (name m) s) as [Heq|Hne].
    + rewrite Nat.sub_diag. repeat split; auto; try lia.
    + specialize (IH (S i0)). destruct (find_index s rest (S i0)) as [k|].
      * destruct IH as [Hle [Hlt [Hnm Hbefore]]].
        replace (k - i0) with (S (k - S i0)) by lia.
        repeat split; auto; try lia.
        intros [|j] Hj; auto. apply Hbefore. lia.
      * intros m' [<-|Hin]; auto.
Qed.

Lemma find_index_some (s : string) (its : list (@Matrix F)) (k : nat) :
  find_index s its 0 = Some k ->
  k < length its /\ name (nth k its no_matrix) = s /\
  forall j, j < k -> name (nth j its no_matrix) <> s.
Proof.
  intros H. pose proof (find_index_spec s its 0) as Hs. rewrite H in Hs.
  rewrite Nat.sub_0_r in Hs. tauto.
Qed.

Lemma find_index_none (s : string) (its : list (@Matrix F)) :
  find_index s its 0 = None <-> ~ In s (map name its).
Proof.
  pose proof (find_index_spec s its 0) as Hs. split.
  - intros H. rewrite H in Hs. intros Hin. apply in_map_iff in Hin.
    destruct Hin as [m [Hnm Hin]]. exact (Hs m Hin Hnm).
  - intros Hn. destruct (find_index s its 0) as [k|]; auto.
    exfalso. apply Hn. destruct Hs as [_ [Hlt [Hnm _]]].
    rewrite Nat.sub_0_r in *. rewrite <- Hnm. apply in_map. apply nth_In. exact Hlt.
Qed.


Lemma find_matrix_none (c : @MatrixCollection F) (s : string) :
  find_matrix (Some c) (Some s) = None <-> ~ In s (names c).
Proof.
  unfold find_matrix, names. split.
  - intros H Hin. apply in_map_iff in Hin. destruct Hin as [m [Hnm Hin]].
    pose proof (find_none _ _ H m Hin) as Hf. simpl in Hf.
    rewrite Hnm, String.eqb_refl in Hf. discriminate.
  - intros Hn. destruct (find _ (items c)) as [m|] eqn:Hf; auto.
    apply find_some in Hf. destruct Hf as [Hin He].
    apply String.eqb_eq in He. exfalso. apply Hn. rewrite <- He.
    apply in_map. exact Hin.
Qed.

Lemma find_matrix_some (c : @MatrixCollection F) (s : string) (m : Matrix) :
  find_matrix (Some c) (Some s) = Some m -> In m (items c) /\ name m = s.
Proof.
  unfold find_matrix. intros H. apply find_some in H.
  destruct H as [Hin He]. apply String.eqb_eq in He. auto.
Qed.

Lemma find_app (p : @Matrix F -> bool) (l1 l2 : list Matrix) :
  find p (l1 ++ l2) =
  match find p l1 with Some x => Some x | None => find p l2 end.
Proof.
  induction l1 as [|x l1 IH]; simpl; auto. destruct (p x); auto.
Qed.

(** The shifting loop of [remove_matrix] closes the gap at [i]. *)
Lemma shift_left_spec (its : list (@Matrix F)) (i : nat) :
  i < length its ->
  firstn (length its - 1) (shift_left its i) = firstn i its ++ skipn (S i) its.
Proof.
  intros Hi. unfold shift_left.
  pose (P := fun (J : nat) (l : list (@Matrix F)) =>
               length l = length its /\
               forall p, nth p l no_matrix =
                         if (i <=? p) && (p + 1 <? J)
                         then nth (p + 1) its no_matrix
                         else nth p its no_matrix).
  assert (HP : P (length its)
                 (for_range (i + 1) (length its)
                    (fun j l => upd l (j - 1) (nth j l no_matrix)) its)).
  { apply (for_range_inv P); unfold P; [lia| |].
    - split; auto. intros p.
      destruct (Nat.leb_spec i p); destruct (Nat.ltb_spec (p + 1) (i + 1));
        simpl; auto; lia.
    - intros j l Hj [Hlen Hnth]. split; [rewrite length_upd; exact Hlen|].
      intros p. rewrite nth_upd, Hlen.
      rewrite (Hnth j).
      destruct (Nat.eqb_spec (j - 1) p) as [Hp|Hp];
        destruct (Nat.ltb_spec (j - 1) (length its));
        destruct (Nat.leb_spec i j); destruct (Nat.ltb_spec (j + 1) j);
        destruct (Nat.leb_spec i p); destruct (Nat.ltb_spec (p + 1) (S j));
        simpl; try lia;
        try (subst p; replace (j - 1 + 1) with j by lia; reflexivity);
        rewrite Hnth;
        destruct (Nat.leb_spec i p); destruct (Nat.ltb_spec (p + 1) j);
        simpl; try lia; reflexivity. }
  destruct HP as [Hlen Hnth].
  apply (nth_ext _ _ no_matrix no_matrix).
  - rewrite length_firstn, length_app, length_firstn, length_skipn, Hlen. lia.
  - intros p Hp. rewrite length_firstn, Hlen in Hp.
    rewrite nth_firstn.
    destruct (Nat.ltb_spec p (length its - 1)); [|lia].
    rewrite Hnth.
    destruct (Nat.leb_spec i p); destruct (Nat.ltb_spec (p + 1) (length its));
      cbn [andb]; try lia.
    + rewrite app_nth2 by (rewrite length_firstn; lia).
      rewrite length_firstn, nth_skipn. f_equal. lia.
    + rewrite app_nth1 by (rewrite length_firstn; lia).
      rewrite nth_firstn. destruct (Nat.ltb_spec p i); [reflexivity|lia].
Qed.


Lemma split_at {A : Type} (l : list A) (i : nat) (d : A) :
  i < length l -> l = firstn i l ++ nth i l d :: skipn (S i) l.
Proof.
  revert i. induction l as [|x l IH]; intros i Hi; simpl in Hi; [lia|].
  destruct i as [|i]; [reflexivity|].
  cbn [firstn nth skipn app]. f_equal. apply IH. lia.
Qed.

Lemma map_without {A B : Type} (f : A -> B) (i : nat) (l : list A) :
  map f (without i l) = without i (map f l).
Proof.
  unfold without. rewrite map_app, firstn_map, skipn_map. reflexivity.
Qed.

Lemma NoDup_without {A : Type} (i : nat) (l : list A) (d : A) :
  NoDup l -> i < length l ->
  NoDup (without i l) /\ ~ In (nth i l d) (without i l).
Proof.
  intros Hnd Hi. rewrite (split_at l i d Hi) in Hnd. unfold without.
  split; [apply (NoDup_remove_1 _ _ _ Hnd)|apply (NoDup_remove_2 _ _ _ Hnd)].
Qed.

Lemma find_without (p : @Matrix F -> bool) (i : nat) (l : list Matrix) :
  i < length l -> p (nth i l no_matrix) = false ->
  find p (without i l) = find p l.
Proof.
  intros Hi Hp. unfold without.
  rewrite (split_at l i no_matrix Hi) at 3.
  rewrite !find_app. cbn [find]. rewrite Hp. reflexivity.
Qed.

Lemma find_index_app (s : string) (l1 l2 : list (@Matrix F)) (i0 : nat) :
  find_index s (l1 ++ l2) i0 =
  match find_index s l1 i0 with
  | Some k => Some k
  | None => find_index s l2 (i0 + length l1)
  end.
Proof.
  revert i0. induction l1 as [|x l1 IH]; intros i0; simpl.
  - rewrite Nat.add_0_r. reflexivity.
  - destruct (String.eqb (name x) s); auto.
    rewrite IH. replace (S i0 + length l1) with (i0 + S (length l1)) by lia.
    reflexivity.
Qed.

Lemma without_last {A : Type} (l : list A) (x : A) :
  without (length l) (l ++ [x]) = l.
Proof.
  unfold without.
  rewrite skipn_all2 by (rewrite length_app; simpl; lia).
  rewrite firstn_app, Nat.sub_diag, firstn_all. cbn [firstn].
  rewrite !app_nil_r. reflexivity.
Qed.

(** What [remove_matrix] returns, in closed form. *)
Lemma remove_matrix_eq (c : @MatrixCollection F) (s : string) :
  remove_matrix (Some c) (Some s) =
  match find_index s (items c) 0 with
  | Some i => (1%Z, Some (mkCollection (without i (items c)) (capacity c)))
  | None => (0%Z, Some c)
  end.
Proof.
  unfold remove_matrix.
  destruct (find_index s (items c) 0) as [i|] eqn:Hf; auto.
  destruct (find_index_some s (items c) i Hf) as [Hi _].
  rewrite shift_left_spec by exact Hi. reflexivity.
Qed.

(** X1.  A matrix that [add_matrix] accepts is appended to the
    collection: the count grows by one, [find_matrix] on its name returns
    it, and the lookups of the other names give what they gave. *)
Theorem add_then_find (ok : bool) (c : @MatrixCollection F)
  (m : @Matrix F) :
  fst (add_matrix ok (Some c) (Some m)) = 1%Z ->
  exists c',
    snd (add_matrix ok (Some c) (Some m)) = Some c' /\
    items c' = items c ++ [m] /\
    count c' = (count c + 1)%Z /\
    find_matrix (Some c') (Some (name m)) = Some m /\
    forall s, s <> name m ->
      find_matrix (Some c') (Some s) = find_matrix (Some c) (Some s).
Proof.
  intros H1.
  assert (Hex : exists cap,
            find_matrix (Some c) (Some (name m)) = None /\
            snd (add_matrix ok (Some c) (Some m)) =
            Some (mkCollection (items c ++ [m]) cap)).
  { unfold add_matrix in *.
    destruct (find_matrix (Some c) (Some (name m))) as [x|]; [discriminate|].
    destruct (capacity c <=? count c)%Z; [destruct ok; [|discriminate]|];
      eexists; split; reflexivity. }
  destruct Hex as [cap [Hnone Hsnd]].
  exists (mkCollection (items c ++ [m]) cap). split; [exact Hsnd|].
  split; [reflexivity|]. split.
  - unfold count. simpl. rewrite length_app. simpl. lia.
  - unfold find_matrix in *. simpl. split.
    + rewrite find_app, Hnone. simpl. rewrite String.eqb_refl. reflexivity.
    + intros s Hs. rewrite find_app.
      destruct (find (fun x => String.eqb (name x) s) (items c)); auto. simpl.
      destruct (String.eqb_spec (name m) s); [congruence|reflexivity].
Qed.

(** X2.  [add_matrix] returns 1 exactly when no matrix of the collection
    has the name of the new one and a slot is free or [realloc] grants the
    doubled array; otherwise it returns 0 and the collection is as it
    was. *)
Theorem add_matrix_outcome (ok : bool) (c : @MatrixCollection F)
  (m : @Matrix F) :
  (fst (add_matrix ok (Some c) (Some m)) = 1%Z <->
   find_matrix (Some c) (Some (name m)) = None /\
   ((count c < capacity c)%Z \/ ok = true)) /\
  (fst (add_matrix ok (Some c) (Some m)) = 0%Z \/
   fst (add_matrix ok (Some c) (Some m)) = 1%Z) /\
  (fst (add_matrix ok (Some c) (Some m)) = 0%Z ->
   snd (add_matrix ok (Some c) (Some m)) = Some c).
Proof.
  unfold add_matrix.
  destruct (find_matrix (Some c) (Some (name m))) as [x|].
  - simpl. repeat split; auto; try discriminate. intros [H _]. discriminate.
  - destruct (Z.leb_spec (capacity c) (count c)); [destruct ok|]; simpl.
    + split; [split; auto|split; [auto|discriminate]].
    + split; [|split; auto].
      split; [discriminate|]. intros [_ [H0|H0]]; [lia|discriminate].
    + split; [split; auto|split; [auto|discriminate]].
Qed.

(** X3.  The collection that [create_collection] hands out is empty and
    has a capacity of 8; it holds no two matrices of one name and fits
    its capacity, which is at least 8, and [add_matrix] and
    [remove_matrix] keep it so. *)
Theorem collection_stays_ok :
  (forall (alloc : bool) (c : @MatrixCollection F),
     create_collection alloc = Some c ->
     collection_ok c /\ items c = [] /\ count c = 0%Z /\ capacity c = 8%Z) /\
  (forall (ok : bool) (c c' : @MatrixCollection F) (m : option Matrix),
     collection_ok c -> snd (add_matrix ok (Some c) m) = Some c' ->
     collection_ok c') /\
  (forall (c c' : @MatrixCollection F) (s : option string),
     collection_ok c -> snd (remove_matrix (Some c) s) = Some c' ->
     collection_ok c').
Proof.
  split; [|split].
  - intros [|] c H; inversion H; subst. unfold collection_ok, names, count.
    simpl. repeat split; try lia. constructor.
  - intros ok c c' [m|] [Hnd [Hfit Hcap]] H; [|inversion H; subst; repeat split; auto].
    unfold add_matrix in H.
    destruct (find_matrix (Some c) (Some (name m))) as [x|] eqn:Hf;
      [inversion H; subst; repeat split; auto|].
    apply find_matrix_none in Hf.
    assert (Hnd' : NoDup (map name (items c ++ [m]))).
    { rewrite map_app. simpl. apply NoDup_app; auto.
      - repeat constructor. intros [].
      - intros a Ha [<-|[]]. exact (Hf Ha). }
    assert (Hcount : Z.of_nat (length (items c ++ [m])) = (count c + 1)%Z).
    { unfold count. rewrite length_app. simpl. lia. }
    destruct (Z.leb_spec (capacity c) (count c)); [destruct ok|];
      inversion H; subst; unfold collection_ok, names, count in *; simpl;
      repeat split; auto; lia.
  - intros c c' [s|] [Hnd [Hfit Hcap]] H; [|inversion H; subst; repeat split; auto].
    rewrite remove_matrix_eq in H.
    destruct (find_index s (items c) 0) as [i|] eqn:Hf;
      [|inversion H; subst; repeat split; auto].
    destruct (find_index_some s (items c) i Hf) as [Hi _].
    inversion H; subst. unfold collection_ok, names, count in *. simpl.
    rewrite map_without. split; [|split; auto].
    + apply (NoDup_without i _ EmptyString); auto. rewrite length_map. exact Hi.
    + unfold without. rewrite length_app, length_firstn, length_skipn. lia.
Qed.

(** X4.  On a collection whose names are distinct, [remove_matrix]
    returns 1 exactly when [find_matrix] finds the name and 0 otherwise,
    leaving the collection as it was; after a return of 1 the collection
    is the old one without that entry, the others in their order: the
    name is no longer found, every other name is found as before and the
    count drops by one. *)
Theorem remove_then_find (c : @MatrixCollection F) (s : string) :
  NoDup (names c) ->
  (fst (remove_matrix (Some c) (Some s)) = 1%Z <->
   find_matrix (Some c) (Some s) <> None) /\
  (find_matrix (Some c) (Some s) = None ->
   remove_matrix (Some c) (Some s) = (0%Z, Some c)) /\
  (fst (remove_matrix (Some c) (Some s)) = 0%Z \/
   fst (remove_matrix (Some c) (Some s)) = 1%Z) /\
  (fst (remove_matrix (Some c) (Some s)) = 0%Z ->
   snd (remove_matrix (Some c) (Some s)) = Some c) /\
  (fst (remove_matrix (Some c) (Some s)) = 1%Z ->
   exists i c',
     snd (remove_matrix (Some c) (Some s)) = Some c' /\
     items c' = without i (items c) /\
     name (nth i (items c) no_matrix) = s /\
     count c' = (count c - 1)%Z /\
     find_matrix (Some c') (Some s) = None /\
     forall s', s' <> s ->
       find_matrix (Some c') (Some s') = find_matrix (Some c) (Some s')).
Proof.
  intros Hnd. rewrite remove_matrix_eq.
  destruct (find_index s (items c) 0) as [i|] eqn:Hf.
  - destruct (find_index_some s (items c) i Hf) as [Hi [Hnm _]].
    assert (Hfound : find_matrix (Some c) (Some s) <> None).
    { intros Hnone. apply find_matrix_none in Hnone.
      apply Hnone. unfold names. rewrite <- Hnm. apply in_map. apply nth_In.
      exact Hi. }
    cbn [fst snd].
    split; [|split; [|split; [right; reflexivity|split; [discriminate|]]]].
    + split; auto.
    + intros Hnone. contradiction.
    + intros _. eexists i, _. split; [reflexivity|]. cbn [items].
      split; [reflexivity|]. split; [exact Hnm|]. split; [|split].
      * unfold count. cbn [items]. unfold without.
        rewrite length_app, length_firstn, length_skipn. lia.
      * apply find_matrix_none. unfold names. cbn [items]. rewrite map_without.
        rewrite <- Hnm.
        rewrite <- (map_nth name (items c) no_matrix i).
        apply NoDup_without; auto. rewrite length_map. exact Hi.
      * intros s' Hs'. unfold find_matrix. cbn [items]. apply find_without; auto.
        rewrite Hnm. apply String.eqb_neq. congruence.
  - cbn [fst snd].
    split; [|split; [reflexivity|split;
                     [left; reflexivity|split; [reflexivity|discriminate]]]].
    split; [discriminate|]. intros Hfound. exfalso. apply Hfound.
    apply find_matrix_none. apply find_index_none. exact Hf.
Qed.

(** X5.  Removing the matrix that [add_matrix] has just accepted gives
    back the entries the collection held before. *)
Theorem add_then_remove (ok : bool) (c c' : @MatrixCollection F)
  (m : @Matrix F) :
  add_matrix ok (Some c) (Some m) = (1%Z, Some c') ->
  exists c'',
    remove_matrix (Some c') (Some (name m)) = (1%Z, Some c'') /\
    items c'' = items c.
Proof.
  intros H.
  assert (Hex : find_matrix (Some c) (Some (name m)) = None /\
                items c' = items c ++ [m]).
  { unfold add_matrix in H.
    destruct (find_matrix (Some c) (Some (name m))) as [x|]; [discriminate|].
    destruct (capacity c <=? count c)%Z; [destruct ok; [|discriminate]|];
      inversion H; subst; auto. }
  destruct Hex as [Hnone Hitems].
  apply find_matrix_none in Hnone. apply find_index_none in Hnone.
  rewrite remove_matrix_eq, Hitems, find_index_app, Hnone. simpl.
  rewrite String.eqb_refl. eexists. split; [reflexivity|]. simpl.
  apply without_last.
Qed.

End CollectionFacts.

(* ================================================================== *)
(** * The determinant variants and their comparison                  *)
(* ================================================================== *)

Section AbortFacts.
Context {F : Type} {SF : Scalar F}.

(** A run is given up only at a step whose row phase lacks its
    resources. *)
Lemma aborted_step (rowphase : @RowPhase F) (n fuel k0 : nat) (A0 : list F)
  (s0 : F) (k : nat) :
  fst (det_loop rowphase n fuel k0 A0 s0) = Aborted k ->
  k0 <= k < k0 + fuel /\ exists akk A, rowphase n k akk A = None.
Proof.
  revert k0 A0 s0. induction fuel as [|fuel IH]; intros k0 A0 s0 H.
  - simpl in H. discriminate.
  - destruct (det_loop_step rowphase n fuel k0 A0 s0)
      as [[_ Heq]|[[_ [Hrp Heq]]|[A2 [_ [_ Heq]]]]];
      rewrite Heq in H; cbn [fst snd] in H.
    + discriminate.
    + inversion H; subst. split; [lia|]. eauto.
    + apply IH in H. destruct H as [Hk Hex]. split; [lia|exact Hex].
Qed.

Lemma rows_multiprocess_none (step_ok : nat -> bool) (n k : nat) (akk : F)
  (A : list F) :
  rows_multiprocess step_ok n k akk A = None <->
  k + 1 < n /\ step_ok k = false.
Proof.
  unfold rows_multiprocess.
  destruct (Nat.eqb_spec (n - (k + 1)) 0) as [H0|H0].
  - split; [discriminate|]. intros [Hk _]. lia.
  - destruct (step_ok k); simpl; split; try discriminate; auto.
    + intros [_ H]. discriminate.
    + intros _. split; [lia|reflexivity].
Qed.

End AbortFacts.

Section DetComparisonFacts.
Context {F : Type} {SF : Scalar F}.

Lemma det_final_agree (rowphase : @RowPhase F) (m : Matrix) :
  sound_rows (Z.to_nat (rows m)) rowphase ->
  (forall k, det_final rowphase m <> Aborted k) ->
  det_final rowphase m = det_final rows_single m.
Proof.
  intros Hsound Hna. unfold det_final in *.
  destruct (det_loop_sound rowphase (Z.to_nat (rows m)) Hsound
              (Z.to_nat (rows m)) 0 (copy_matrix_contiguous m) one)
    as [[k Hab]|Heq]; auto using length_copy_matrix_contiguous.
  exfalso. exact (Hna k Hab).
Qed.

Lemma single_not_aborted (m : @Matrix F) (k : nat) :
  det_final rows_single m <> Aborted k.
Proof.
  unfold det_final. intros H. apply aborted_step in H.
  destruct H as [_ [akk [A H]]]. discriminate.
Qed.

Lemma openmp_not_aborted (sched : nat -> list nat) (m : @Matrix F) (k : nat) :
  det_final (rows_openmp sched) m <> Aborted k.
Proof.
  unfold det_final. intros H. apply aborted_step in H.
  destruct H as [_ [akk [A H]]]. discriminate.
Qed.

Lemma multiprocess_aborted (step_ok : nat -> bool) (m : @Matrix F) (k : nat) :
  det_final (rows_multiprocess step_ok) m = Aborted k ->
  k + 1 < Z.to_nat (rows m) /\ step_ok k = false.
Proof.
  unfold det_final. intros H. apply aborted_step in H.
  destruct H as [_ [akk [A H]]]. apply rows_multiprocess_none in H. exact H.
Qed.

(** The return value of a call on a square matrix with its workspace. *)
Lemma ret_det_run (rowphase : @RowPhase F) (e : F) (m : Matrix) (old : F)
  (t : option F) :
  rows m = cols m ->
  ret (det_run rowphase true e (Some m) (Some old) t) =
  match det_final rowphase m with Aborted _ => 0%Z | _ => 1%Z end.
Proof.
  intros Hsq. rewrite det_run_square by exact Hsq.
  destruct (det_final rowphase m); reflexivity.
Qed.

(** X6.  Once the matrix is square and the workspace is obtained,
    [determinant_single] and [determinant_openmp] return 1, whatever the
    order of the row updates; [determinant_multiprocess] returns 0 only by
    giving up at a step [k] that has rows below it and lacks its pipes,
    forks or buffers, and returns 1 otherwise.  On a 1 by 1 matrix no
    child is needed. *)
Theorem variants_return_one (m : @Matrix F) (e old : F) (t : option F) :
  rows m = cols m ->
  ret (determinant_single true e (Some m) (Some old) t) = 1%Z /\
  (forall sched,
     ret (determinant_openmp sched true e (Some m) (Some old) t) = 1%Z) /\
  (forall step_ok,
     ret (determinant_multiprocess step_ok true e (Some m) (Some old) t) = 1%Z \/
     ret (determinant_multiprocess step_ok true e (Some m) (Some old) t) = 0%Z /\
     exists k, det_final (rows_multiprocess step_ok) m = Aborted k /\
               k + 1 < Z.to_nat (rows m) /\ step_ok k = false) /\
  (forall step_ok,
     (forall k, k + 1 < Z.to_nat (rows m) -> step_ok k = true) ->
     ret (determinant_multiprocess step_ok true e (Some m) (Some old) t) = 1%Z).
Proof.
  intros Hsq.
  unfold determinant_single, determinant_openmp, determinant_multiprocess.
  split; [|split; [|split]].
  - rewrite ret_det_run by exact Hsq.
    destruct (det_final rows_single m) eqn:Hf; auto.
    exfalso. exact (single_not_aborted m k Hf).
  - intros sched. rewrite ret_det_run by exact Hsq.
    destruct (det_final (rows_openmp sched) m) eqn:Hf; auto.
    exfalso. exact (openmp_not_aborted sched m k Hf).
  - intros step_ok. rewrite ret_det_run by exact Hsq.
    destruct (det_final (rows_multiprocess step_ok) m) eqn:Hf; auto.
    right. split; auto. exists k. split; auto.
    apply multiprocess_aborted. exact Hf.
  - intros step_ok Hok. rewrite ret_det_run by exact Hsq.
    destruct (det_final (rows_multiprocess step_ok) m) eqn:Hf; auto.
    apply multiprocess_aborted in Hf. destruct Hf as [Hk Hf].
    rewrite Hok in Hf by exact Hk. discriminate.
Qed.

(** The cell a successful run stores, by the way the sequential
    elimination ends. *)
Lemma det_cell_sound (rowphase : @RowPhase F) (e : F) (m : Matrix) (old : F)
  (t : option F) :
  rows m = cols m ->
  sound_rows (Z.to_nat (rows m)) rowphase ->
  (forall k, det_final rowphase m <> Aborted k) ->
  det_run rowphase true e (Some m) (Some old) t =
  mkDetOut 1 (snd (determinant_gauss_partial_pivot true (Some m) (Some old)))
    (store_time t e).
Proof.
  intros Hsq Hsound Hna. unfold determinant_gauss_partial_pivot.
  rewrite !det_run_square by exact Hsq.
  rewrite (det_final_agree rowphase m Hsound Hna).
  destruct (det_final rows_single m) eqn:Hf; try reflexivity.
  exfalso. exact (single_not_aborted m k Hf).
Qed.

(** X7.  When the three variants get their resources and the OpenMP
    schedule visits each row once, [run_determinant_comparison] returns 1,
    stores the three elapsed times and writes the determinant that
    [determinant_gauss_partial_pivot] computes, whichever variant was the
    fastest. *)
Theorem determinant_comparison_agrees (o : @DetOracle F) (m : @Matrix F)
  (mt : PerformanceMetrics) (old : F) :
  rows m = cols m ->
  d_alloc1 o = true -> d_alloc2 o = true -> d_alloc3 o = true ->
  valid_schedule (Z.to_nat (rows m)) (d_sched o) ->
  (forall k, k + 1 < Z.to_nat (rows m) -> d_step_ok o k = true) ->
  run_determinant_comparison o (Some m) (Some mt) (Some old) =
  (1%Z, Some (mkMetrics (d_elapsed1 o) (d_elapsed2 o) (d_elapsed3 o)),
   snd (determinant_gauss_partial_pivot true (Some m) (Some zero))).
Proof.
  intros Hsq H1 H2 H3 Hv Hok.
  unfold run_determinant_comparison, determinant_single, determinant_openmp,
    determinant_multiprocess.
  rewrite Hsq, Z.eqb_refl, H1, H2, H3. cbn [negb].
  rewrite (det_cell_sound rows_single) by
    (auto using rows_single_sound, single_not_aborted).
  rewrite (det_cell_sound (rows_openmp (d_sched o))) by
    (auto using rows_openmp_sound, openmp_not_aborted).
  rewrite (det_cell_sound (rows_multiprocess (d_step_ok o))).
  - cbn [det_cell time_cell store_time field_after].
    destruct (snd (determinant_gauss_partial_pivot true (Some m) (Some zero)))
      as [d|] eqn:Hd.
    + unfold pick_determinant. cbn [field_after fst snd single_thread_time
        openmp_time multiprocess_time].
      destruct (ltb (d_elapsed2 o) (d_elapsed1 o)); cbn [fst snd];
        destruct (ltb (d_elapsed3 o) _); reflexivity.
    + exfalso. unfold determinant_gauss_partial_pivot in Hd.
      rewrite det_run_square in Hd by exact Hsq.
      destruct (det_final rows_single m); discriminate.
  - exact Hsq.
  - apply rows_multiprocess_sound.
  - intros k Hf. apply multiprocess_aborted in Hf. destruct Hf as [Hk Hf].
    rewrite Hok in Hf by exact Hk. discriminate.
Qed.

(** X8.  [run_determinant_comparison] returns 0, leaving [*metrics] and
    [*out_det] alone, exactly when an argument is NULL or the matrix is not
    square.  Otherwise it returns 1 without looking at what the variants
    returned: when all three fail to get their workspace, it still returns
    1, leaves the time fields as they were and writes 0.0. *)
Theorem determinant_comparison_always_one (o : @DetOracle F)
  (m : option (@Matrix F)) (metrics : option PerformanceMetrics)
  (out_det : option F) :
  (fst (fst (run_determinant_comparison o m metrics out_det)) = 1%Z <->
   exists mm mt old, m = Some mm /\ metrics = Some mt /\ out_det = Some old /\
                     rows mm = cols mm) /\
  (fst (fst (run_determinant_comparison o m metrics out_det)) <> 1%Z ->
   run_determinant_comparison o m metrics out_det = (0%Z, metrics, out_det)) /\
  (forall mm mt old,
     m = Some mm -> metrics = Some mt -> out_det = Some old ->
     rows mm = cols mm ->
     d_alloc1 o = false -> d_alloc2 o = false -> d_alloc3 o = false ->
     run_determinant_comparison o m metrics out_det =
     (1%Z, Some mt, Some zero)).
Proof.
  split; [|split].
  - unfold run_determinant_comparison.
    destruct m as [mm|], metrics as [mt|], out_det as [old|]; cbn [fst];
      try (split; [discriminate|intros [? [? [? [? [? [? ?]]]]]]; discriminate]).
    destruct (Z.eqb_spec (rows mm) (cols mm)) as [Hsq|Hsq]; cbn [negb fst].
    + split; auto. intros _. exists mm, mt, old. auto.
    + split; [discriminate|]. intros [mm' [? [? [Hm [_ [_ Hsq']]]]]].
      inversion Hm; subst. contradiction.
  - unfold run_determinant_comparison.
    destruct m as [mm|], metrics as [mt|], out_det as [old|]; cbn [fst]; auto.
    destruct (negb (rows mm =? cols mm)%Z); cbn [fst]; auto.
    intros H. contradiction.
  - intros mm mt old -> -> -> Hsq H1 H2 H3.
    unfold run_determinant_comparison, determinant_single, determinant_openmp,
      determinant_multiprocess, det_run.
    rewrite Hsq, Z.eqb_refl, H1, H2, H3. cbn.
    unfold pick_determinant. cbn.
    destruct mt as [t1 t2 t3]; cbn.
    destruct (ltb t2 t1); cbn; destruct (ltb t3 _); reflexivity.
Qed.

End DetComparisonFacts.

Section Triangular.
Context {F : Type} {SF : Scalar F}.

Lemma length_swapped_ws (n k : nat) (A : list F) :
  length (swapped_ws n k A) = length A.
Proof.
  unfold swapped_ws. destruct (negb _); auto. apply length_swap_rows.
Qed.

(** A step clears column [k] below the diagonal and leaves the cleared
    columns alone. *)
Lemma step_keeps_zeros (rowphase : @RowPhase F) (n k : nat) (A A2 : list F) :
  sound_rows n rowphase -> k < n ->
  zeros_below n k A ->
  rowphase n k (at_ n (swapped_ws n k A) k k) (swapped_ws n k A) = Some A2 ->
  zeros_below n (S k) A2.
Proof.
  intros Hsound Hk [Hlen Hz] Hrp.
  assert (Hlen1 : length (swapped_ws n k A) = n * n)
    by (rewrite length_swapped_ws; exact Hlen).
  destruct (Hsound _ _ _ _ Hlen1 Hk Hrp) as [Hlen2 HA2].
  split; [exact Hlen2|]. intros r c Hc Hr.
  rewrite HA2 by lia. unfold after_rows, elim_entry.
  assert (Hold : c < k -> at_ n (swapped_ws n k A) r c = zero).
  { intros Hck. unfold swapped_ws.
    destruct (pivot_search_range n A k Hk) as [Hp _].
    destruct (negb _).
    - rewrite swap_rows_spec by (auto; lia).
      destruct (Nat.leb_spec k c); [lia|]. apply Hz; lia.
    - apply Hz; lia. }
  destruct (Nat.ltb_spec k r).
  - destruct (Nat.eqb_spec c k); [reflexivity|].
    destruct (Nat.ltb_spec k c); [lia|]. apply Hold. lia.
  - apply Hold. lia.
Qed.

Lemma det_loop_triangular (rowphase : @RowPhase F) (n : nat) :
  sound_rows n rowphase ->
  forall fuel k0 A0 s0 A s,
    k0 + fuel = n -> zeros_below n k0 A0 ->
    fst (det_loop rowphase n fuel k0 A0 s0) = Complete A s ->
    zeros_below n n A.
Proof.
  intros Hsound. induction fuel as [|fuel IH]; intros k0 A0 s0 A s Hn Hz Hc.
  - assert (Hk : k0 = n) by lia. rewrite Hk in Hz.
    simpl in Hc. inversion Hc; subst A s0. exact Hz.
  - destruct (det_loop_step rowphase n fuel k0 A0 s0)
      as [[_ Heq]|[[_ [_ Heq]]|[A2 [_ [Hrp Heq]]]]];
      rewrite Heq in Hc; cbn [fst snd] in Hc; try discriminate.
    apply (IH (S k0) A2 (swapped_sign n k0 A0 s0) A s); auto; [lia|].
    apply (step_keeps_zeros rowphase n k0 A0 A2); auto. lia.
Qed.

(** X9.  When the elimination of a square matrix runs to completion, the
    workspace it ends with is upper triangular: every entry below the
    diagonal is the 0.0 the row updates stored there.  This holds for each
    variant of the row phase: [rows_single], [rows_openmp] under a
    schedule that visits each row once, and [rows_multiprocess]. *)
Theorem elimination_is_triangular (rowphase : @RowPhase F) (m : @Matrix F)
  (A : list F) (s : F) :
  sound_rows (Z.to_nat (rows m)) rowphase ->
  det_final rowphase m = Complete A s ->
  length A = Z.to_nat (rows m) * Z.to_nat (rows m) /\
  forall r c, c < r < Z.to_nat (rows m) ->
    at_ (Z.to_nat (rows m)) A r c = zero.
Proof.
  intros Hsound Hf. unfold det_final in Hf.
  destruct (det_loop_triangular rowphase (Z.to_nat (rows m)) Hsound
              (Z.to_nat (rows m)) 0 (copy_matrix_contiguous m) one A s)
    as [Hlen Hz]; auto.
  - split; [apply length_copy_matrix_contiguous|]. intros r c Hc. lia.
  - split; [exact Hlen|]. intros r c Hrc. apply Hz; lia.
Qed.

End Triangular.

Section PivotFacts.
Context {F : Type} {SF : Scalar F}.

Lemma in_column_magnitudes (n : nat) (A : list F) (k i : nat) :
  k <= i < n -> In (fabs (at_ n A i k)) (column_magnitudes n A k).
Proof.
  intros Hi. unfold column_magnitudes.
  apply (in_map (fun i => fabs (at_ n A i k))). apply in_seq. lia.
Qed.

(** No row after the selected one exceeds it: the search would have
    moved on. *)
Lemma pivot_search_last (n : nat) (A : list F) (k : nat) :
  k < n ->
  forall i, fst (pivot_search n A k) < i < n ->
    ltb (fabs (at_ n A (fst (pivot_search n A k)) k)) (fabs (at_ n A i k))
    = false.
Proof.
  intros Hk.
  pose (P := fun i (st : nat * F) =>
       k <= fst st < i /\ snd st = fabs (at_ n A (fst st) k) /\
       forall r, fst st < r < i -> ltb (snd st) (fabs (at_ n A r k)) = false).
  assert (Hinv : P n (pivot_search n A k)).
  { unfold pivot_search. apply (for_range_inv P); unfold P; [lia| |].
    - simpl. repeat split; lia.
    - intros i [p mx] Hi [Hp [Hmx Hmax]]. simpl in *.
      unfold gtb. destruct (ltb mx (fabs (at_ n A i k))) eqn:Hgt; simpl.
      + repeat split; lia.
      + repeat split; auto; try lia.
        intros r Hr. destruct (Nat.eq_dec r i) as [->|Hne]; auto.
        apply Hmax. lia. }
  destruct Hinv as [Hp [Hmx Hmax]]. intros i Hi.
  rewrite <- Hmx. apply Hmax. exact Hi.
Qed.

(** C4, the pivot: when the magnitudes of the column are ordered, the
    selected row is the first row of largest magnitude. *)
Lemma pivot_search_argmax (n : nat) (A : list F) (k : nat) :
  k < n -> ordered_on (column_magnitudes n A k) ->
  is_argmax n A k (fst (pivot_search n A k)).
Proof.
  intros Hk Hord.
  assert (Hin : forall i, k <= i < n ->
            In (fabs (at_ n A i k)) (column_magnitudes n A k))
    by (intros; apply in_column_magnitudes; auto).
  assert (Hirr : forall i, k <= i < n ->
            ltb (fabs (at_ n A i k)) (fabs (at_ n A i k)) = false).
  { intros i Hi. destruct (ltb _ _) eqn:E; auto.
    destruct (Hord _ _ (Hin i Hi) (Hin i Hi)) as [Has _].
    rewrite (Has E) in E. discriminate. }
  pose (P := fun i (st : nat * F) =>
       k <= fst st < i /\ snd st = fabs (at_ n A (fst st) k) /\
       (forall r, k <= r < i -> ltb (snd st) (fabs (at_ n A r k)) = false) /\
       (forall r, k <= r < fst st -> ltb (fabs (at_ n A r k)) (snd st) = true)).
  assert (Hinv : P n (pivot_search n A k)).
  { unfold pivot_search. apply (for_range_inv P); unfold P; [lia| |].
    - simpl. repeat split; try lia.
      intros r Hr. assert (r = k) by lia. subst. apply Hirr. lia.
    - intros i [p mx] Hi [Hp [Hmx [Hmax Hfirst]]]. simpl in *. subst mx.
      unfold gtb.
      destruct (ltb (fabs (at_ n A p k)) (fabs (at_ n A i k))) eqn:Hgt; simpl.
      + assert (Hpi : forall r, k <= r < n ->
                  ltb (fabs (at_ n A p k)) (fabs (at_ n A r k)) = true \/
                  ltb (fabs (at_ n A r k)) (fabs (at_ n A i k)) = true).
        { intros r Hr.
          destruct (Hord _ _ (Hin p ltac:(lia)) (Hin i ltac:(lia)))
            as [_ [_ Hco]].
          apply Hco; auto. }
        repeat split; try lia.
        * intros r Hr. destruct (Nat.eq_dec r i) as [->|Hne];
            [apply Hirr; lia|].
          destruct (ltb (fabs (at_ n A i k)) (fabs (at_ n A r k))) eqn:Hc; auto.
          destruct (Hord _ _ (Hin i ltac:(lia)) (Hin r ltac:(lia)))
            as [Has _].
          destruct (Hpi r ltac:(lia)) as [H|H].
          -- rewrite Hmax in H by lia. discriminate.
          -- rewrite (Has Hc) in H. discriminate.
        * intros r Hr. destruct (Hpi r ltac:(lia)) as [H|H]; auto.
          rewrite Hmax in H by lia. discriminate.
      + repeat split; auto; try lia.
        intros r Hr. destruct (Nat.eq_dec r i) as [->|Hne]; auto.
        apply Hmax. lia. }
  destruct Hinv as [Hp [Hmx [Hmax Hfirst]]].
  set (st := pivot_search n A k) in *.
  split; [exact Hp|]. split.
  - intros i Hi. rewrite <- Hmx.
    destruct (Hord _ _ (Hin (fst st) ltac:(lia)) (Hin i Hi)) as [_ [Hto _]].
    rewrite Hmx. apply Hto. rewrite <- Hmx. apply Hmax. exact Hi.
  - intros i Hi. rewrite <- Hmx. apply Hfirst. exact Hi.
Qed.

(** C4, the value: the loop multiplies the diagonal entries into the
    sign, from the first to the last. *)
Lemma diag_product_fold (n : nat) (A : list F) (s : F) :
  diag_product n A s = fold_left mul (diag_entries n A) s.
Proof.
  unfold diag_product, diag_entries, for_range. rewrite Nat.sub_0_r.
  generalize (seq 0 n) as l. intros l. revert s.
  induction l as [|i l IH]; intros s; simpl; auto.
Qed.

Lemma steps_of_app (evs1 evs2 : list (@Event F)) :
  steps_of (evs1 ++ evs2) = steps_of evs1 ++ steps_of evs2.
Proof. unfold steps_of. apply flat_map_app. Qed.

Lemma steps_of_step_events (n k : nat) (A : list F) :
  steps_of (step_events n k A) = [(k, A, fst (pivot_search n A k))].
Proof.
  unfold step_events. cbn [steps_of flat_map app].
  fold (steps_of (F := F)).
  assert (H : forall l (d : F),
             flat_map (fun e : @Event F => match e with
                                 | Pivot k0 A0 p => [(k0, A0, p)]
                                 | _ => []
                                 end) (map (fun i => Division i k d) l) = []).
  { induction l as [|x l IH]; intros d; simpl; auto. }
  rewrite flat_map_app, H. destruct (negb _); reflexivity.
Qed.

(** The workspace after the swap of a step has rows [k] and [p]
    exchanged: the columns left of [k] hold 0.0 in both. *)
Lemma swapped_ws_exchanged (n k : nat) (A : list F) :
  k < n -> zeros_below n k A ->
  forall r c, r < n -> c < n ->
    at_ n (swapped_ws n k A) r c =
    exchanged n A k (fst (pivot_search n A k)) r c.
Proof.
  intros Hk [Hlen Hz] r c Hr Hc.
  destruct (pivot_search_range n A k Hk) as [Hp _].
  unfold swapped_ws, exchanged.
  set (p := fst (pivot_search n A k)) in *.
  destruct (Nat.eqb_spec p k) as [Hpk|Hpk]; simpl.
  - destruct (Nat.eqb_spec r k) as [->|]; [rewrite Hpk; reflexivity|].
    destruct (Nat.eqb_spec r p); [lia|reflexivity].
  - rewrite swap_rows_spec by (auto; lia).
    destruct (Nat.leb_spec k c).
    + destruct (Nat.eqb_spec r k); [reflexivity|].
      destruct (Nat.eqb_spec r p); reflexivity.
    + destruct (Nat.eqb_spec r k) as [->|].
      * rewrite (Hz p c) by lia.
        destruct (Nat.eq_dec c k); [lia|]. apply Hz; lia.
      * destruct (Nat.eqb_spec r p) as [->|]; [|reflexivity].
        rewrite (Hz k c) by lia. apply Hz; lia.
Qed.

(** The steps of a completed loop form a chain. *)
Lemma det_loop_chain (rowphase : @RowPhase F) (n : nat) :
  sound_rows n rowphase ->
  forall fuel k0 A0 s0 A s,
    k0 + fuel = n -> zeros_below n k0 A0 ->
    fst (det_loop rowphase n fuel k0 A0 s0) = Complete A s ->
    next_ws (steps_of (snd (det_loop rowphase n fuel k0 A0 s0))) A = A0 /\
    elimination_chain n k0
      (steps_of (snd (det_loop rowphase n fuel k0 A0 s0))) A.
Proof.
  intros Hsound. induction fuel as [|fuel IH]; intros k0 A0 s0 A s Hn Hz Hc.
  - simpl in Hc. inversion Hc; subst. simpl. split; [reflexivity|lia].
  - assert (Hk0 : k0 < n) by lia.
    destruct (det_loop_step rowphase n fuel k0 A0 s0)
      as [[_ Heq]|[[_ [_ Heq]]|[A2 [_ [Hrp Heq]]]]];
      rewrite Heq in Hc |- *; cbn [fst snd] in Hc |- *; try discriminate.
    pose proof (step_keeps_zeros rowphase n k0 A0 A2 Hsound Hk0 Hz Hrp) as Hz2.
    destruct (IH (S k0) A2 (swapped_sign n k0 A0 s0) A s ltac:(lia) Hz2 Hc)
      as [Hnext Hchain].
    rewrite steps_of_app, steps_of_step_events. cbn [app next_ws].
    split; [reflexivity|]. cbn [elimination_chain].
    destruct (pivot_search_range n A0 k0 Hk0) as [Hp _].
    set (p := fst (pivot_search n A0 k0)) in *.
    split; [reflexivity|]. split; [exact Hp|].
    split; [apply pivot_search_last; exact Hk0|].
    split; [apply pivot_search_argmax; exact Hk0|].
    rewrite Hnext. destruct Hz as [Hlen Hzero].
    assert (Hlen1 : length (swapped_ws n k0 A0) = n * n)
      by (rewrite length_swapped_ws; exact Hlen).
    destruct (Hsound _ _ _ _ Hlen1 Hk0 Hrp) as [Hlen2 HA2].
    split; [exact Hlen2|]. split; [|exact Hchain].
    intros r c Hr Hcn. rewrite HA2 by auto.
    pose proof (swapped_ws_exchanged n k0 A0 Hk0 (conj Hlen Hzero)) as Hex.
    fold p in Hex.
    unfold after_rows, elim_entry, step_entry.
    rewrite !Hex by lia. reflexivity.
Qed.

(** C4, the sign: it is negated at the steps whose pivot row is not
    [k]. *)
Lemma sign_counts_moves (rowphase : @RowPhase F) (n fuel k0 : nat)
  (A0 : list F) (s0 : F) (A : list F) (s : F) :
  fst (det_loop rowphase n fuel k0 A0 s0) = Complete A s ->
  s = Nat.iter
        (count_moved_pivots (snd (det_loop rowphase n fuel k0 A0 s0))) neg s0.
Proof.
  intros Hc.
  destruct (sign_counts_swaps rowphase n fuel k0 A0 s0 A s Hc) as [Hs Hcount].
  rewrite <- Hcount. exact Hs.
Qed.

(** C4, as the code has it.  When the elimination of a square matrix
    runs to completion, the value stored in [*out_det] is the sign
    multiplied by the diagonal entries of the final workspace, from the
    first to the last.  The sign is +1 negated once for each step whose
    pivot row is not [k].  The workspaces of the steps form a chain from
    the copy of the matrix to the final workspace: each step exchanges
    rows [k] and the pivot row and subtracts from the rows below; its
    pivot row is not exceeded by a later row and is the first row of
    largest magnitude in column [k], rows [i >= k], when the magnitudes
    of the column are ordered (none is a NaN). *)
Theorem completed_determinant (rowphase : RowPhase) (e : F) (m : Matrix)
  (old : F) (t : option F) (A : list F) (s : F) :
  rows m = cols m ->
  sound_rows (Z.to_nat (rows m)) rowphase ->
  det_final rowphase m = Complete A s ->
  det_run rowphase true e (Some m) (Some old) t =
    mkDetOut 1
      (Some (fold_left mul (diag_entries (Z.to_nat (rows m)) A) s))
      (store_time t e) /\
  s = Nat.iter (count_moved_pivots (det_events rowphase m)) neg one /\
  next_ws (steps_of (det_events rowphase m)) A = copy_matrix_contiguous m /\
  elimination_chain (Z.to_nat (rows m)) 0 (steps_of (det_events rowphase m)) A.
Proof.
  intros Hsq Hsound Hf. split; [|split].
  - rewrite det_run_square by exact Hsq. rewrite Hf.
    rewrite diag_product_fold. reflexivity.
  - apply (sign_counts_moves rowphase _ _ 0 _ one A s). exact Hf.
  - unfold det_events.
    apply (det_loop_chain rowphase (Z.to_nat (rows m)) Hsound
             (Z.to_nat (rows m)) 0 (copy_matrix_contiguous m) one A s);
      auto.
    split; [apply length_copy_matrix_contiguous|]. intros r c Hc. lia.
Qed.

End PivotFacts.


(* ================================================================== *)
(** * Names, creation and the comparison of operations               *)
(* ================================================================== *)

Section NameFacts.

Lemma length_substring_0 (n : nat) (s : string) :
  String.length (substring 0 n s) = Nat.min n (String.length s).
Proof.
  revert s. induction n as [|n IH]; intros [|a s]; simpl; auto.
Qed.

Lemma substring_0_all (n : nat) (s : string) :
  String.length s <= n -> substring 0 n s = s.
Proof.
  revert s. induction n as [|n IH]; intros [|a s] H; simpl in *; auto; try lia.
  rewrite IH by lia. reflexivity.
Qed.

Lemma prefix_substring_0 (n : nat) (s : string) :
  prefix (substring 0 n s) s = true.
Proof.
  revert s. induction n as [|n IH]; intros [|a s]; simpl; auto.
  destruct (Ascii.ascii_dec a a); [apply IH|congruence].
Qed.

(** The name stored by [strncpy] into the 64-byte field: the first 63
    characters of the source. *)
Lemma strncpy_name_spec (s : string) :
  String.length (strncpy_name s) <= 63 /\
  prefix (strncpy_name s) s = true /\
  (String.length s <= 63 -> strncpy_name s = s).
Proof.
  unfold strncpy_name, MAX_NAME_LENGTH. simpl Nat.sub.
  split; [rewrite length_substring_0; lia|].
  split; [apply prefix_substring_0|apply substring_0_all].
Qed.

End NameFacts.

Section CreateFacts.
Context {F : Type} {SF : Scalar F}.

Lemma cell_repeat (r c i j : nat) :
  cell (repeat (repeat (zero : F) c) r) i j = zero.
Proof.
  unfold cell.
  destruct (Nat.lt_ge_cases i r) as [Hi|Hi].
  - rewrite nth_repeat_lt by exact Hi.
    destruct (Nat.lt_ge_cases j c) as [Hj|Hj].
    + apply nth_repeat_lt. exact Hj.
    + apply nth_overflow. rewrite repeat_length. exact Hj.
  - rewrite (nth_overflow (repeat (repeat zero c) r))
      by (rewrite repeat_length; exact Hi).
    destruct j; reflexivity.
Qed.

(** The character at [i] of the first [n] characters of a string. *)
Lemma get_substring_0 (n : nat) (s : string) (i : nat) :
  String.get i (substring 0 n s) = if i <? n then String.get i s else None.
Proof.
  revert s i. induction n as [|n IH]; intros s i.
  - destruct s; destruct i; reflexivity.
  - destruct s as [|a s].
    + simpl. destruct (i <? S n); destruct i; reflexivity.
    + destruct i as [|i]; [reflexivity|].
      simpl substring. simpl String.get. rewrite IH. reflexivity.
Qed.

(** X10.  [create_matrix] returns NULL exactly when a dimension is not
    positive or an allocation fails.  The matrix it returns has the
    dimensions asked for, [rows] rows of [cols] entries that are all 0.0,
    and a name of at most 63 characters: the given name when it fits, its
    first 63 characters otherwise (character [i] of the name is character
    [i] of the given name for [i < 63], and there is none from 63 on), the
    empty string for a NULL name. *)
Theorem create_matrix_contract (alloc : bool) (nm : option string) (r c : Z) :
  (create_matrix alloc nm r c = None <->
   (r <= 0)%Z \/ (c <= 0)%Z \/ alloc = false) /\
  (forall m : @Matrix F, create_matrix alloc nm r c = Some m ->
     rows m = r /\ cols m = c /\ well_formed m /\
     (forall i j, cell (data m) i j = zero) /\
     String.length (name m) <= 63 /\
     match nm with
     | Some s => prefix (name m) s = true /\
                 (String.length s <= 63 -> name m = s) /\
                 name m = substring 0 63 s /\
                 String.length (name m) = Nat.min 63 (String.length s) /\
                 (forall i, String.get i (name m) =
                            if i <? 63 then String.get i s else None)
     | None => name m = EmptyString
     end).
Proof.
  unfold create_matrix.
  destruct (Z.leb_spec r 0) as [Hr|Hr]; cbn [orb].
  { split; [split; auto|discriminate]. }
  destruct (Z.leb_spec c 0) as [Hc|Hc]; cbn [orb].
  { split; [split; auto|discriminate]. }
  destruct alloc; cbn [negb].
  - split; [split; [discriminate|intros [H|[H|H]]; try lia; discriminate]|].
    intros m Hm. inversion Hm; subst m; clear Hm. cbn [rows cols data name].
    split; [reflexivity|]. split; [reflexivity|]. split.
    + unfold well_formed. cbn [rows cols data].
      split; [lia|]. split; [lia|]. apply shape_repeat.
    + split; [intros i j; apply cell_repeat|].
      destruct nm as [s|].
      * destruct (strncpy_name_spec s) as [H1 [H2 H3]].
        split; [exact H1|]. split; [exact H2|]. split; [exact H3|].
        split; [reflexivity|]. split.
        -- apply (length_substring_0 63 s).
        -- intros i. apply (get_substring_0 63 s i).
      * simpl. split; [lia|reflexivity].
  - split; [split; auto|discriminate].
Qed.

End CreateFacts.

Section ComparisonFacts.
Context {F : Type} {SF : Scalar F}.

(** A child that exists was spawned after every child before it. *)
Lemma spawn_children_some (spawn_ok : nat -> bool) (r c : nat)
  (f : nat -> nat -> F) (e : nat) (pipes : list F) :
  spawn_children spawn_ok r c f (r * c) = Some (e, pipes) ->
  forall x, x < r * c -> spawn_ok x = true.
Proof.
  intros H.
  pose (P := fun (i j : nat) (st : option (nat * list F)) =>
               forall e pipes, st = Some (e, pipes) ->
                 e = i * c + j /\ forall x, x < e -> spawn_ok x = true).
  assert (HP : P r 0 (spawn_children spawn_ok r c f (r * c))).
  { unfold spawn_children.
    apply (for_range_inv (fun i st => P i 0 st)); unfold P; [lia| |].
    - intros e0 p0 H0. inversion H0; subst. split; [lia|]. intros x Hx. lia.
    - intros i st Hi Hst.
      assert (Hrow : P i c
                (for_range 0 c
                   (fun j st =>
                      match st with
                      | None => None
                      | Some (elem_idx, pipes) =>
                          if spawn_ok elem_idx
                          then Some (S elem_idx, upd pipes elem_idx (f i j))
                          else None
                      end) st)).
      { apply (for_range_inv (fun j st => P i j st)); unfold P; [lia|exact Hst|].
        intros j [[e1 p1]|] Hj Hinv e2 p2 Heq; [|discriminate].
        destruct (Hinv e1 p1 eq_refl) as [He1 Hall].
        destruct (spawn_ok e1) eqn:Hok; [|discriminate].
        inversion Heq; subst e2 p2. split; [lia|].
        intros x Hx. destruct (Nat.eq_dec x e1) as [->|Hne]; auto.
        apply Hall. lia. }
      unfold P in *. intros e2 p2 Heq.
      destruct (Hrow e2 p2 Heq) as [He2 Hall]. split; [lia|exact Hall]. }
  destruct (HP e pipes H) as [He Hall]. intros x Hx. apply Hall. lia.
Qed.

(** X11.  The multiprocess variant of an operation hands back a matrix
    exactly when [pipe] and [fork] succeed for every one of the
    [rows * cols] elements of the result; a single failure makes it return
    NULL, and a call that returns NULL leaves [*exec_time] as it was. *)
Theorem multiprocess_needs_every_child (op : @Op F) (e t : F)
  (a b : @Matrix F) (nm : string) (spawn : nat -> bool) :
  refused op a b true = false ->
  (fst (run_multiprocess op true true spawn e (Some a) (Some b) (Some nm) t)
   <> None <->
   forall x, x < Z.to_nat (rows a) * Z.to_nat (out_cols op a b) ->
             spawn x = true) /\
  (fst (run_multiprocess op true true spawn e (Some a) (Some b) (Some nm) t)
   = None ->
   snd (run_multiprocess op true true spawn e (Some a) (Some b) (Some nm) t)
   = t).
Proof.
  intros Hr. rewrite run_multiprocess_eq, Hr. cbn [negb orb].
  destruct (spawn_children spawn _ _ _ _) as [[e' pipes]|] eqn:Hsp; cbn [fst snd].
  - split; [|discriminate]. split; [|discriminate].
    intros _. apply (spawn_children_some _ _ _ _ _ _ Hsp).
  - split; [|reflexivity]. split; [congruence|].
    intros Hall.
    destruct (spawn_children_ok spawn (Z.to_nat (rows a))
                (Z.to_nat (out_cols op a b)) (cell_value op a b) Hall)
      as [e' [pipes H]].
    congruence.
Qed.

(** X12.  When the shapes fit and the three variants get their resources
    (with an OpenMP schedule that visits each cell once),
    [run_operation_comparison] returns the matrix of the operation under
    the requested name and stores the three elapsed times, whichever
    variant was the fastest. *)
Theorem comparison_returns_expected (o : @Oracle F) (a b : @Matrix F)
  (nm opn : string) (op : @Op F) (mt : PerformanceMetrics) :
  op_of opn = Some op ->
  mismatch op a b = false -> (1 <= rows a)%Z -> (1 <= out_cols op a b)%Z ->
  alloc1 o = true -> alloc2 o = true -> alloc3 o = true -> pids_ok o = true ->
  (forall x, x < Z.to_nat (rows a) * Z.to_nat (out_cols op a b) ->
     spawn_ok o x = true) ->
  Permutation (sched o)
    (cells (Z.to_nat (rows a)) (Z.to_nat (out_cols op a b))) ->
  run_operation_comparison o (Some a) (Some b) (Some nm) (Some opn) (Some mt) =
  (Some (expected op a b nm),
   Some (mkMetrics (elapsed1 o) (elapsed2 o) (elapsed3 o))).
Proof.
  intros Hop Hm Hra Hc H1 H2 H3 Hp Hsp Hperm.
  pose proof (not_refused op a b Hm Hra Hc) as Hr.
  unfold run_operation_comparison. rewrite Hop, H1, H2, H3, Hp.
  rewrite run_single_eq, run_multiprocess_eq, Hr.
  rewrite run_openmp_eq by exact Hperm. rewrite Hr. cbn [negb orb].
  destruct (spawn_children_ok (spawn_ok o) (Z.to_nat (rows a))
              (Z.to_nat (out_cols op a b)) (cell_value op a b) Hsp)
    as [e' [pipes ->]].
  unfold pick_operation.
  cbn [single_thread_time openmp_time multiprocess_time fst snd].
  assert (Hname : forall s,
            set_name (expected op a b s) (strncpy_name nm) = expected op a b nm)
    by reflexivity.
  destruct (ltb (elapsed2 o) (elapsed1 o)); cbn [fst snd];
    destruct (ltb (elapsed3 o) _); cbn [fst snd]; rewrite Hname; reflexivity.
Qed.

(** X13.  [run_operation_comparison] returns NULL and leaves the three
    time fields as they were when a pointer is NULL or when the operation
    is none of the strings Addition, Subtraction and Multiplication. *)
Theorem comparison_refuses (o : @Oracle F) (m1 m2 : option (@Matrix F))
  (rn opn : option string) (metrics : option PerformanceMetrics) :
  (m1 = None \/ m2 = None \/ rn = None \/ opn = None \/ metrics = None ->
   run_operation_comparison o m1 m2 rn opn metrics = (None, metrics)) /\
  (forall s mt, opn = Some s -> metrics = Some mt ->
     s <> "Addition"%string -> s <> "Subtraction"%string ->
     s <> "Multiplication"%string ->
     run_operation_comparison o m1 m2 rn opn metrics = (None, metrics)).
Proof.
  split.
  - intros H. unfold run_operation_comparison.
    destruct m1, m2, rn, opn, metrics; auto;
      destruct H as [H|[H|[H|[H|H]]]]; discriminate.
  - intros s mt -> -> Ha Hs Hm. unfold run_operation_comparison.
    destruct m1 as [a|], m2 as [b|], rn as [nm|]; auto.
    assert (Hop : @op_of F SF s = None).
    { unfold op_of. apply String.eqb_neq in Ha, Hs, Hm.
      rewrite Ha, Hs, Hm. reflexivity. }
    rewrite Hop. unfold pick_operation. destruct mt as [t1 t2 t3]. cbn.
    destruct (ltb t2 t1); cbn; destruct (ltb t3 _); reflexivity.
Qed.

End ComparisonFacts.

(* ================================================================== *)
(** * The results of the solvers and their comparison                *)
(* ================================================================== *)

Section EigenMore.
Context {F : Type} {SF : Scalar F}.
Variable sqrt : F -> F.

Lemma qr_iterate_count (qr : list F -> nat -> option (list F * list F))
  (mm : list F -> list F -> nat -> list F) (n : nat) (tol : F)
  (fuel : nat) (iter : Z) (A V A' V' : list F) (iter' : Z) :
  qr_iterate qr mm n tol fuel iter A V = Some (A', V', iter') ->
  (iter <= iter' <= iter + Z.of_nat fuel)%Z.
Proof.
  revert iter A V. induction fuel as [|fuel IH]; intros iter A V H.
  - simpl in H. inversion H; subst. lia.
  - cbn [qr_iterate] in H. destruct (is_converged A n tol).
    + inversion H; subst. lia.
    + destruct (qr A n) as [[Q R]|]; [|discriminate].
      apply IH in H. lia.
Qed.

Lemma qr_iterate_openmp_count (orders : nat -> nat -> nat -> Sum)
  (n : nat) (tol : F) (fuel : nat) (iter : Z) (A V A' V' : list F)
  (iter' : Z) :
  qr_iterate_openmp sqrt orders n tol fuel iter A V = Some (A', V', iter') ->
  (iter <= iter' <= iter + Z.of_nat fuel)%Z.
Proof.
  revert iter A V. induction fuel as [|fuel IH]; intros iter A V H.
  - simpl in H. inversion H; subst. lia.
  - cbn [qr_iterate_openmp] in H. destruct (is_converged A n tol).
    + inversion H; subst. lia.
    + destruct (qr_decompose_openmp sqrt _ A n) as [[Q R]|]; [|discriminate].
      apply IH in H. lia.
Qed.

Lemma qr_iterate_mp_count (res_ok : nat -> bool) (reads : nat -> nat * nat)
  (n : nat) (tol : F)
  (fuel : nat) (iter : Z) (A V Q R A' V' : list F) (iter' : Z) :
  qr_iterate_mp sqrt res_ok reads n tol fuel iter A V Q R
  = Some (A', V', iter') ->
  (iter <= iter' <= iter + Z.of_nat fuel)%Z.
Proof.
  revert iter A V Q R. induction fuel as [|fuel IH]; intros iter A V Q R H.
  - simpl in H. inversion H; subst. lia.
  - cbn [qr_iterate_mp] in H. destruct (is_converged A n tol).
    + inversion H; subst. lia.
    + destruct (res_ok (Z.to_nat iter)); [|discriminate]. cbn [negb] in H.
      apply IH in H. lia.
Qed.

Lemma make_result_fits (m : @Matrix F) (max_iter : Z) (alloc_vec : bool)
  (A V : list F) (iter : Z) :
  (0 <= iter <= Z.max 0 max_iter)%Z ->
  result_fits m max_iter alloc_vec (make_result alloc_vec (rows m) A V iter).
Proof.
  intros Hit. unfold result_fits, make_result.
  cbn [eig_n eigenvalues iterations eigenvectors].
  split; [reflexivity|]. split.
  { unfold extract_eigenvalues. rewrite length_map, length_seq. reflexivity. }
  split; [exact Hit|].
  rewrite create_matrix_eq.
  destruct (Z.leb_spec (rows m) 0) as [Hr|Hr]; cbn [orb].
  { split; [split; auto|discriminate]. }
  destruct alloc_vec; cbn [negb].
  - split; [split; [discriminate|intros [H|H]; [discriminate|lia]]|].
    intros ev Hev. inversion Hev; subst ev; clear Hev.
    unfold copy_flat_to_matrix, set_data. cbn [name rows cols data].
    split; [reflexivity|]. split; [reflexivity|]. split; [reflexivity|].
    apply fill_cells_spec. apply shape_repeat.
  - split; [split; auto|discriminate].
Qed.

(** X14.  Whatever a solver returns describes the matrix it was given:
    [n] is its order, there are [n] eigenvalues, the iteration count lies
    between 0 and [max_iter], and the eigenvector matrix, which is NULL
    exactly when its allocation failed, is an [n] by [n] matrix named
    Eigenvectors.  This holds whatever the orders of the reductions and
    whatever the [read]s were handed. *)
Theorem eigen_result_fits (alloc alloc_vec : bool) (e : F) (m : @Matrix F)
  (max_iter : Z) (tol : F) (t : option F)
  (orders : nat -> nat -> nat -> Sum) (res_ok : nat -> bool)
  (reads : nat -> nat * nat) (Q0 R0 : list F) :
  (forall r,
     fst (eigen_qr_single sqrt alloc alloc_vec e (Some m) max_iter tol t)
     = Some r -> result_fits m max_iter alloc_vec r) /\
  (forall r,
     fst (eigen_qr_openmp sqrt alloc alloc_vec orders e (Some m) max_iter tol t)
     = Some r -> result_fits m max_iter alloc_vec r) /\
  (forall r,
     fst (eigen_qr_multiprocess sqrt alloc alloc_vec res_ok reads Q0 R0 e
            (Some m) max_iter tol t) = Some r ->
     result_fits m max_iter alloc_vec r).
Proof.
  split; [|split].
  - intros r. unfold eigen_qr_single.
    destruct (negb (rows m =? cols m)%Z); [discriminate|].
    destruct (negb alloc); [discriminate|].
    destruct (qr_iterate _ _ _ _ _ _ _ _) as [[[A V] it]|] eqn:Hit;
      [|discriminate].
    cbn [fst]. intros H. inversion H; subst r.
    apply make_result_fits. apply qr_iterate_count in Hit. lia.
  - intros r. unfold eigen_qr_openmp.
    destruct (negb (rows m =? cols m)%Z); [discriminate|].
    destruct (negb alloc); [discriminate|].
    destruct (qr_iterate_openmp _ _ _ _ _ _ _ _) as [[[A V] it]|] eqn:Hit;
      [|discriminate].
    cbn [fst]. intros H. inversion H; subst r.
    apply make_result_fits. apply qr_iterate_openmp_count in Hit. lia.
  - intros r. unfold eigen_qr_multiprocess.
    destruct (negb (rows m =? cols m)%Z); [discriminate|].
    destruct (negb alloc); [discriminate|].
    destruct (qr_iterate_mp _ _ _ _ _ _ _ _ _ _ _) as [[[A V] it]|] eqn:Hit;
      [|discriminate].
    cbn [fst]. intros H. inversion H; subst r.
    apply make_result_fits. apply qr_iterate_mp_count in Hit. lia.
Qed.

(** The accumulator [V] starts as the identity. *)
Lemma identity_flat_spec (n : nat) :
  length (identity_flat n : list F) = n * n /\
  forall i j, i < n -> j < n ->
    at_ n (identity_flat n) i j = if i =? j then one else zero.
Proof.
  unfold identity_flat.
  pose (P := fun (k : nat) (V : list F) =>
               length V = n * n /\
               forall i j, i < n -> j < n ->
                 at_ n V i j = if (i =? j) && (i <? k) then one else zero).
  assert (HP : P n (for_range 0 n (fun i V => store n V i i one)
                      (repeat zero (n * n)))).
  { apply (for_range_inv P); unfold P; [lia| |].
    - split; [apply repeat_length|]. intros i j Hi Hj.
      rewrite andb_false_r. unfold at_. apply nth_repeat.
    - intros k V Hk [Hlen HV]. split; [rewrite length_store; exact Hlen|].
      intros i j Hi Hj. rewrite at_store by (auto; lia). rewrite HV by auto.
      nat_cases. }
  destruct HP as [Hlen HV]. split; [exact Hlen|].
  intros i j Hi Hj. rewrite HV by auto. nat_cases.
Qed.


(** The eigenvector matrix built from the initial accumulator. *)
Lemma identity_eigenvectors (rows_m : Z) :
  (1 <= rows_m)%Z ->
  match create_matrix true (Some "Eigenvectors"%string) rows_m rows_m with
  | Some ev => Some (copy_flat_to_matrix (identity_flat (Z.to_nat rows_m)) ev)
  | None => None
  end = Some (identity_matrix "Eigenvectors" (Z.to_nat rows_m) : @Matrix F).
Proof.
  intros Hr. rewrite create_matrix_eq.
  destruct (Z.leb_spec rows_m 0); [lia|]. cbn [orb negb].
  unfold copy_flat_to_matrix, set_data, identity_matrix.
  cbn [name rows cols data]. rewrite Z2Nat.id by lia. f_equal. f_equal.
  destruct (identity_flat_spec (Z.to_nat rows_m)) as [_ Hid].
  apply (shape_ext (Z.to_nat rows_m) (Z.to_nat rows_m)).
  - apply fill_cells_spec. apply shape_repeat.
  - apply shape_table.
  - intros i j Hi Hj.
    destruct (fill_cells_spec (fun i j => at_ (Z.to_nat rows_m)
                                 (identity_flat (Z.to_nat rows_m)) i j)
                (Z.to_nat rows_m) (Z.to_nat rows_m)
                (repeat (repeat zero (Z.to_nat rows_m)) (Z.to_nat rows_m))
                (shape_repeat _ _)) as [_ Hc].
    rewrite Hc, cell_table by auto. apply Hid; auto.
Qed.

(** X15.  A solver that is given no round to perform ([max_iter <= 0]),
    or whose input already meets the tolerance, performs none: on every
    square matrix it returns the diagonal of the input as eigenvalues, an
    iteration count of 0 and the identity as eigenvector matrix, without
    running a decomposition, a reduction or a [read]. *)
Theorem no_round_returns_diagonal (e : F) (m : @Matrix F) (max_iter : Z)
  (tol : F) (t : option F) (orders : nat -> nat -> nat -> Sum)
  (res_ok : nat -> bool) (reads : nat -> nat * nat) (Q0 R0 : list F) :
  rows m = cols m -> (1 <= rows m)%Z ->
  (max_iter <= 0)%Z \/
  is_converged (copy_matrix_flat m) (Z.to_nat (rows m)) tol = true ->
  let r := mkEigen (diagonal_of m)
             (Some (identity_matrix "Eigenvectors" (Z.to_nat (rows m))))
             (rows m) 0%Z in
  eigen_qr_single sqrt true true e (Some m) max_iter tol t
  = (Some r, store_time t e) /\
  eigen_qr_openmp sqrt true true orders e (Some m) max_iter tol t
  = (Some r, store_time t e) /\
  eigen_qr_multiprocess sqrt true true res_ok reads Q0 R0 e (Some m) max_iter
    tol t
  = (Some r, store_time t e).
Proof.
  intros Hsq Hr Hno r.
  assert (H1 : forall qr mm,
            qr_iterate qr mm (Z.to_nat (rows m)) tol (Z.to_nat max_iter) 0%Z
              (copy_matrix_flat m) (identity_flat (Z.to_nat (rows m))) =
            Some (copy_matrix_flat m, identity_flat (Z.to_nat (rows m)), 0%Z)).
  { intros qr mm. destruct Hno as [Hmax|Hconv].
    - replace (Z.to_nat max_iter) with 0 by lia. reflexivity.
    - apply qr_iterate_converged. exact Hconv. }
  assert (H3 : qr_iterate_openmp sqrt orders (Z.to_nat (rows m)) tol
                 (Z.to_nat max_iter) 0%Z (copy_matrix_flat m)
                 (identity_flat (Z.to_nat (rows m))) =
               Some (copy_matrix_flat m, identity_flat (Z.to_nat (rows m)), 0%Z)).
  { destruct Hno as [Hmax|Hconv].
    - replace (Z.to_nat max_iter) with 0 by lia. reflexivity.
    - apply qr_iterate_openmp_converged. exact Hconv. }
  assert (H2 : qr_iterate_mp sqrt res_ok reads (Z.to_nat (rows m)) tol
                 (Z.to_nat max_iter) 0%Z (copy_matrix_flat m)
                 (identity_flat (Z.to_nat (rows m))) Q0 R0 =
               Some (copy_matrix_flat m, identity_flat (Z.to_nat (rows m)), 0%Z)).
  { destruct Hno as [Hmax|Hconv].
    - replace (Z.to_nat max_iter) with 0 by lia. reflexivity.
    - apply qr_iterate_mp_converged. exact Hconv. }
  assert (Hres : make_result true (rows m) (copy_matrix_flat m)
                   (identity_flat (Z.to_nat (rows m))) 0%Z = r).
  { unfold make_result, r. rewrite extract_eigenvalues_copy.
    rewrite identity_eigenvectors by exact Hr. reflexivity. }
  unfold eigen_qr_single, eigen_qr_openmp, eigen_qr_multiprocess.
  rewrite Hsq, Z.eqb_refl. cbn [negb]. rewrite <- Hsq.
  rewrite H1, H2, H3, Hres. auto.
Qed.

(** ** The multiprocess solver when its reads are whole *)

Lemma length_column_loop (n j : nat) (Q : list F) (f : nat -> list F -> F) :
  length (for_range 0 n (fun i Q => store n Q i j (f i Q)) Q) = length Q.
Proof.
  apply (for_range_inv (fun _ (X : list F) => length X = length Q)); [lia|reflexivity|].
  intros i X _ HX. rewrite length_store. exact HX.
Qed.

Lemma length_orthogonalize (A : list F) (n j : nat) (QR : list F * list F) :
  length (fst (orthogonalize A n j QR)) = length (fst QR) /\
  length (snd (orthogonalize A n j QR)) = length (snd QR).
Proof.
  unfold orthogonalize.
  apply (for_range_inv
           (fun _ (X : list F * list F) =>
              length (fst X) = length (fst QR) /\
              length (snd X) = length (snd QR))); [lia| |].
  - cbn [fst snd]. split; [|reflexivity].
    apply (length_column_loop n j (fst QR) (fun i _ => at_ n A i j)).
  - intros k X _ [HQ HR]. cbn [fst snd]. split.
    + rewrite <- HQ.
      apply (length_column_loop n j (fst X)
               (fun i Q => sub (at_ n Q i j) (mul _ (at_ n Q i k)))).
    + rewrite length_store. exact HR.
Qed.

Lemma length_qr_column (A : list F) (n j : nat) (QR QR' : list F * list F) :
  qr_column sqrt A n j QR = Some QR' ->
  length (fst QR') = length (fst QR) /\ length (snd QR') = length (snd QR).
Proof.
  unfold qr_column. destruct (ltb _ _); [discriminate|].
  intros H. inversion H; subst QR'; clear H. cbn [fst snd].
  destruct (length_orthogonalize A n j QR) as [HQ HR]. split.
  - rewrite <- HQ.
    apply (length_column_loop n j (fst (orthogonalize A n j QR))
             (fun i Q => div (at_ n Q i j) _)).
  - rewrite length_store. exact HR.
Qed.

(** The matrices a successful decomposition hands back fill their
    buffers. *)
Lemma length_qr_decompose_single (A : list F) (n : nat) (Q R : list F) :
  qr_decompose_single sqrt A n = Some (Q, R) ->
  length Q = n * n /\ length R = n * n.
Proof.
  unfold qr_decompose_single.
  pose (P := fun (_ : nat) (st : option (list F * list F)) =>
               forall QR, st = Some QR ->
                 length (fst QR) = n * n /\ length (snd QR) = n * n).
  assert (HP : P n (for_range 0 n
                      (fun j st => match st with
                                   | None => None
                                   | Some QR => qr_column sqrt A n j QR
                                   end)
                      (Some (repeat zero (n * n), repeat zero (n * n))))).
  { apply (for_range_inv P); unfold P; [lia| |].
    - intros QR H. inversion H; subst QR. cbn [fst snd].
      rewrite !repeat_length. auto.
    - intros j st _ IH QR' H. destruct st as [QR|]; [|discriminate].
      destruct (IH QR eq_refl) as [HQ HR].
      destruct (length_qr_column A n j QR QR' H) as [HQ' HR']. lia. }
  intros H. apply (HP (Q, R) H).
Qed.

(** A [read] that is handed all it asks for stores the matrix written. *)
Lemma read_doubles_whole (k want : nat) (X rest buf : list F) :
  want <= k -> length X = want ->
  read_doubles k want (X ++ rest) buf = (X, rest).
Proof.
  intros Hk HX. unfold read_doubles.
  rewrite Nat.min_r by exact Hk.
  assert (Hgot : firstn want (X ++ rest) = X).
  { rewrite <- HX. rewrite firstn_app, Nat.sub_diag, firstn_all. simpl.
    apply app_nil_r. }
  rewrite Hgot, HX. f_equal.
  - rewrite <- HX at 1. rewrite firstn_app, Nat.sub_diag, firstn_all. simpl.
    apply app_nil_r.
  - rewrite <- HX. rewrite skipn_app, Nat.sub_diag, skipn_all. reflexivity.
Qed.

Lemma qr_round_mp_whole (reads : nat -> nat * nat) (n : nat) (i : nat)
  (A Q R Q1 R1 : list F) :
  whole_reads n reads ->
  qr_decompose_single sqrt A n = Some (Q1, R1) ->
  let rQ := read_doubles (fst (reads i)) (n * n) (Q1 ++ R1) Q in
  let rR := read_doubles (snd (reads i)) (n * n) (snd rQ) R in
  fst rQ = Q1 /\ fst rR = R1.
Proof.
  intros Hw Hqr rQ rR.
  destruct (length_qr_decompose_single A n Q1 R1 Hqr) as [HQ HR].
  destruct (Hw i) as [H1 H2].
  assert (EQ : rQ = (Q1, R1)) by (apply read_doubles_whole; assumption).
  assert (ER : rR = (R1, [])).
  { unfold rR. rewrite EQ. cbn [snd].
    rewrite <- (app_nil_r R1) at 1. apply read_doubles_whole; assumption. }
  rewrite EQ, ER. auto.
Qed.

Lemma qr_iterate_mp_agrees (res_ok : nat -> bool) (reads : nat -> nat * nat)
  (n : nat) (tol : F)
  (fuel : nat) (iter : Z) (A V Q R : list F) (x : list F * list F * Z) :
  (forall i, res_ok i = true) -> whole_reads n reads ->
  qr_iterate (qr_decompose_single sqrt) matmul_single n tol fuel iter A V
  = Some x ->
  qr_iterate_mp sqrt res_ok reads n tol fuel iter A V Q R = Some x.
Proof.
  intros Hok Hw. revert iter A V Q R.
  induction fuel as [|fuel IH]; intros iter A V Q R H; [exact H|].
  cbn [qr_iterate qr_iterate_mp] in *.
  destruct (is_converged A n tol); [exact H|].
  rewrite Hok. cbn [negb].
  destruct (qr_decompose_single sqrt A n) as [[Q1 R1]|] eqn:Hqr;
    [|discriminate].
  destruct (qr_round_mp_whole reads n (Z.to_nat iter) A Q R Q1 R1 Hw Hqr)
    as [EQ ER].
  cbv zeta in EQ, ER. rewrite EQ, ER. apply IH. exact H.
Qed.


(** X16.  When [eigen_qr_single] returns a result,
    [eigen_qr_multiprocess], its pipes and forks granted and every [read]
    handed the whole matrix it asks for, returns the same eigenvalues,
    eigenvectors and iteration count, whatever its buffers [Q] and [R]
    held at the start. *)
Theorem eigen_multiprocess_agrees (alloc alloc_vec : bool) (e e' : F)
  (m : option (@Matrix F)) (max_iter : Z) (tol : F) (t t' : option F)
  (res_ok : nat -> bool) (reads : nat -> nat * nat) (Q0 R0 : list F)
  (r : @EigenResult F) :
  (forall i, res_ok i = true) ->
  (forall mm, m = Some mm -> whole_reads (Z.to_nat (rows mm)) reads) ->
  fst (eigen_qr_single sqrt alloc alloc_vec e m max_iter tol t) = Some r ->
  fst (eigen_qr_multiprocess sqrt alloc alloc_vec res_ok reads Q0 R0 e' m
         max_iter tol t') = Some r.
Proof.
  intros Hok Hw H.
  unfold eigen_qr_single, eigen_qr_multiprocess in *.
  destruct m as [mm|]; [|discriminate].
  destruct (negb (rows mm =? cols mm)%Z); [discriminate|].
  destruct (negb alloc); [discriminate|].
  destruct (qr_iterate _ _ _ _ _ _ _ _) as [[[A V] it]|] eqn:Hit;
    [|discriminate].
  rewrite (qr_iterate_mp_agrees res_ok reads _ tol _ 0%Z _ _ Q0 R0 (A, V, it)
             Hok (Hw mm eq_refl) Hit).
  cbn [fst] in *. exact H.
Qed.

(** ** The three solvers on the same matrix *)



End EigenMore.

(* ================================================================== *)
(** * Reductions on doubles                                          *)
(* ================================================================== *)

Section SumOfDoubles.
Local Open Scope Z_scope.











End SumOfDoubles.

Section OneThread.





End OneThread.

Section AllStrategies.
Context {F : Type} {SF : Scalar F}.


End AllStrategies.

Section PickFacts.
Context {F : Type} {SF : Scalar F}.
Variable mt : @PerformanceMetrics F.
Hypothesis Hord : ordered_times mt.

Lemma ot_asym (x y : F) :
  In x (compared mt) -> In y (compared mt) ->
  ltb x y = true -> ltb y x = false.
Proof. intros Hx Hy. apply (Hord x y Hx Hy). Qed.

Lemma ot_total (x y : F) :
  In x (compared mt) -> In y (compared mt) ->
  ltb x y = false -> leb y x = true.
Proof. intros Hx Hy. apply (Hord x y Hx Hy). Qed.

Lemma ot_cotrans (x y z : F) :
  In x (compared mt) -> In y (compared mt) -> In z (compared mt) ->
  ltb x y = true -> ltb x z = true \/ ltb z y = true.
Proof. intros Hx Hy Hz. apply (Hord x y Hx Hy). exact Hz. Qed.

Lemma ot_irrefl (x : F) : In x (compared mt) -> ltb x x = false.
Proof.
  intros Hx. destruct (ltb x x) eqn:H; auto.
  pose proof (ot_asym x x Hx Hx H). congruence.
Qed.

Lemma ot_leb (x y : F) :
  In x (compared mt) -> In y (compared mt) -> ltb x y = true -> leb x y = true.
Proof. intros Hx Hy H. apply ot_total; auto. apply ot_asym; auto. Qed.

Lemma ot_refl (x : F) : In x (compared mt) -> leb x x = true.
Proof. intros Hx. apply ot_total; auto. apply ot_irrefl; auto. Qed.

Lemma ot_trans (x y z : F) :
  In x (compared mt) -> In y (compared mt) -> In z (compared mt) ->
  ltb x y = true -> ltb y z = true -> ltb x z = true.
Proof.
  intros Hx Hy Hz Hxy Hyz.
  destruct (ot_cotrans x y z Hx Hy Hz Hxy) as [H|H]; auto.
  pose proof (ot_asym _ _ Hy Hz Hyz). congruence.
Qed.

Lemma ot_below (x y z : F) :
  In x (compared mt) -> In y (compared mt) -> In z (compared mt) ->
  ltb x y = true -> ltb z y = false -> ltb x z = true.
Proof.
  intros Hx Hy Hz Hxy Hzy.
  destruct (ot_cotrans x y z Hx Hy Hz Hxy) as [H|H]; auto. congruence.
Qed.

End PickFacts.

Section EigenComparison.
Context {F : Type} {SF : Scalar F}.

Ltac member := unfold compared; simpl; auto 6.

Ltac ordered mt Hord :=
  first [ assumption
        | apply (ot_refl mt Hord); member
        | apply (ot_total mt Hord); [member|member|assumption]
        | apply (ot_leb mt Hord); [member|member|assumption]
        | apply (ot_leb mt Hord);
            [member|member|
             eapply (ot_trans mt Hord); [..|eassumption|eassumption]; member]
        | apply (ot_leb mt Hord);
            [member|member|
             eapply (ot_below mt Hord); [..|eassumption|eassumption]; member]
        | eapply (ot_trans mt Hord); [..|eassumption|eassumption]; member
        | eapply (ot_below mt Hord); [..|eassumption|eassumption]; member
        | congruence
        | lia ].

(** The selection of [run_eigen_comparison] on times that are ordered as
    numbers are. *)
Lemma pick_eigen_ordered {R : Type} (mt : @PerformanceMetrics F)
  (res1 res2 res3 : option R) :
  ordered_times mt ->
  (forall s, result_of res1 res2 res3 s <> None ->
             ltb (time_of mt s) lit_1e99 = true) ->
  (exists s, result_of res1 res2 res3 s <> None) ->
  exists s,
    fst (fst (pick_eigen mt res1 res2 res3)) = s /\
    snd (pick_eigen mt res1 res2 res3) = result_of res1 res2 res3 s /\
    fastest_successful mt res1 res2 res3 s.
Proof.
  intros Hord Hbig [s0 Hs0].
  pose proof (Hbig SingleThreaded) as H1.
  pose proof (Hbig OpenMP) as H2.
  pose proof (Hbig Multiprocessing) as H3.
  unfold pick_eigen, fastest_successful.
  destruct res1 as [r1|], res2 as [r2|], res3 as [r3|]; simpl in *;
    try (specialize (H1 ltac:(discriminate)));
    try (specialize (H2 ltac:(discriminate)));
    try (specialize (H3 ltac:(discriminate)));
    try (destruct s0; simpl in Hs0; congruence);
    try match goal with
        | |- context [ltb (openmp_time mt) ?b] =>
            destruct (ltb (openmp_time mt) b) eqn:?
        end;
    cbn [fst snd];
    try match goal with
        | |- context [ltb (multiprocess_time mt) ?b] =>
            destruct (ltb (multiprocess_time mt) b) eqn:?
        end;
    cbn [fst snd];
    try (exfalso; congruence);
    (eexists; split; [reflexivity|]; split; [reflexivity|];
     split; [discriminate|];
     intros [| |] Hs'; simpl in *; try congruence;
     (split; [ordered mt Hord|intros Hr; ordered mt Hord])).
Qed.

(** What a solver leaves in the time field it is handed. *)
Lemma eigen_time_stored (sqrt : F -> F) (o : @EigenOracle F) (m : @Matrix F)
  (max_iter : Z) (tol : F) (old1 old2 old3 : F) :
  let r1 := eigen_qr_single sqrt (e_alloc1 o) (e_vec1 o) (e_elapsed1 o)
              (Some m) max_iter tol (Some old1) in
  let r2 := eigen_qr_openmp sqrt (e_alloc2 o) (e_vec2 o) (e_orders o)
              (e_elapsed2 o) (Some m) max_iter tol (Some old2) in
  let r3 := eigen_qr_multiprocess sqrt (e_alloc3 o) (e_vec3 o) (e_res_ok o)
              (e_reads o) (e_Q0 o) (e_R0 o) (e_elapsed3 o)
              (Some m) max_iter tol (Some old3) in
  field_after old1 (snd r1) =
    match fst r1 with Some _ => e_elapsed1 o | None => old1 end /\
  field_after old2 (snd r2) =
    match fst r2 with Some _ => e_elapsed2 o | None => old2 end /\
  field_after old3 (snd r3) =
    match fst r3 with Some _ => e_elapsed3 o | None => old3 end.
Proof.
  cbv zeta. unfold eigen_qr_single, eigen_qr_openmp, eigen_qr_multiprocess.
  destruct (negb (rows m =? cols m)%Z); [auto|].
  split; [|split].
  - destruct (negb (e_alloc1 o)); [reflexivity|].
    destruct (qr_iterate _ _ _ _ _ _ _ _) as [[[A V] it]|]; reflexivity.
  - destruct (negb (e_alloc2 o)); [reflexivity|].
    destruct (qr_iterate_openmp _ _ _ _ _ _ _ _) as [[[A V] it]|]; reflexivity.
  - destruct (negb (e_alloc3 o)); [reflexivity|].
    destruct (qr_iterate_mp _ _ _ _ _ _ _ _ _ _ _) as [[[A V] it]|];
      reflexivity.
Qed.

(** X17.  On a square matrix [run_eigen_comparison] leaves in each time
    field the elapsed time of its solver when the solver succeeded and
    what the field held otherwise, and it returns NULL when all three
    solvers failed.  When a solver succeeded, the time fields are ordered
    as numbers are and those of the successful solvers are below 1e99, it
    returns the result of a solver that succeeded and that no successful
    solver beat, the successful solvers before it in the order single,
    OpenMP, multiprocess being strictly slower. *)
Theorem eigen_comparison_picks_fastest (sqrt : F -> F) (o : @EigenOracle F)
  (m : @Matrix F) (max_iter : Z) (tol : F) (mt : PerformanceMetrics) :
  rows m = cols m ->
  let r1 := eigen_qr_single sqrt (e_alloc1 o) (e_vec1 o) (e_elapsed1 o)
              (Some m) max_iter tol (Some (single_thread_time mt)) in
  let r2 := eigen_qr_openmp sqrt (e_alloc2 o) (e_vec2 o) (e_orders o)
              (e_elapsed2 o)
              (Some m) max_iter tol (Some (openmp_time mt)) in
  let r3 := eigen_qr_multiprocess sqrt (e_alloc3 o) (e_vec3 o) (e_res_ok o)
              (e_reads o) (e_Q0 o) (e_R0 o) (e_elapsed3 o)
              (Some m) max_iter tol (Some (multiprocess_time mt)) in
  let mt' := mkMetrics (field_after (single_thread_time mt) (snd r1))
                       (field_after (openmp_time mt) (snd r2))
                       (field_after (multiprocess_time mt) (snd r3)) in
  snd (run_eigen_comparison sqrt o (Some m) max_iter tol (Some mt)) = Some mt' /\
  (forall s,
     time_of mt' s = match result_of (fst r1) (fst r2) (fst r3) s with
                     | Some _ => elapsed_of o s
                     | None => time_of mt s
                     end) /\
  ((forall s, result_of (fst r1) (fst r2) (fst r3) s = None) ->
   fst (run_eigen_comparison sqrt o (Some m) max_iter tol (Some mt)) = None) /\
  (ordered_times mt' ->
   (forall s, result_of (fst r1) (fst r2) (fst r3) s <> None ->
              ltb (time_of mt' s) lit_1e99 = true) ->
   (exists s, result_of (fst r1) (fst r2) (fst r3) s <> None) ->
   exists s,
     fst (run_eigen_comparison sqrt o (Some m) max_iter tol (Some mt)) =
       result_of (fst r1) (fst r2) (fst r3) s /\
     fastest_successful mt' (fst r1) (fst r2) (fst r3) s).
Proof.
  intros Hsq r1 r2 r3 mt'.
  assert (Hrun : run_eigen_comparison sqrt o (Some m) max_iter tol (Some mt) =
                 (snd (pick_eigen mt' (fst r1) (fst r2) (fst r3)), Some mt')).
  { unfold run_eigen_comparison. rewrite Hsq, Z.eqb_refl. reflexivity. }
  rewrite Hrun. cbn [fst snd]. split; [reflexivity|]. split; [|split].
  - destruct (eigen_time_stored sqrt o m max_iter tol (single_thread_time mt)
                (openmp_time mt) (multiprocess_time mt)) as [T1 [T2 T3]].
    intros [| |]; unfold mt'; cbn [time_of result_of elapsed_of
      single_thread_time openmp_time multiprocess_time]; assumption.
  - intros Hnone.
    pose proof (Hnone SingleThreaded) as N1.
    pose proof (Hnone OpenMP) as N2.
    pose proof (Hnone Multiprocessing) as N3.
    simpl in N1, N2, N3. unfold pick_eigen. rewrite N1, N2, N3. reflexivity.
  - intros Hord Hbig Hsome.
    destruct (pick_eigen_ordered mt' (fst r1) (fst r2) (fst r3) Hord Hbig Hsome)
      as [s [_ [Hres Hfast]]].
    exists s. split; [exact Hres|exact Hfast].
Qed.

End EigenComparison.

(* ================================================================== *)
(** * Loading matrices from files and folders                       *)
(* ================================================================== *)

Section FileFacts.
Context {F : Type} {SF : Scalar F}.

Lemma scan_elements_inv (file : @FileScan F) (r c : nat) (d : list (list F)) :
  shape r c d ->
  scanned file r c r 0 (scan_elements file r c d).
Proof.
  intros Hs. unfold scan_elements.
  apply (for_range_inv (fun i st => scanned file r c i 0 st)); [lia| |].
  - split.
    + split; [intros _ k Hk; lia|discriminate].
    + intros d0 H0. inversion H0; subst. split; [exact Hs|].
      split; intros; lia.
  - intros i st Hi Hst.
    assert (Hrow : scanned file r c i c
              (for_range 0 c
                 (fun j st =>
                    match st with
                    | None => None
                    | Some d =>
                        match f_value file (i * c + j) with
                        | Some v => Some (set_cell d i j v)
                        | None => None
                        end
                    end) st)).
    { apply (for_range_inv (fun j st => scanned file r c i j st));
        [lia|exact Hst|].
      intros j [d1|] Hj [Hiff Hinv].
      - destruct (Hinv d1 eq_refl) as [Hsh [Hprev Hcur]].
        assert (Hall : forall k, k < i * c + j -> f_value file k <> None)
          by (apply Hiff; discriminate).
        destruct (f_value file (i * c + j)) as [v|] eqn:Hv.
        + split.
          * split; [|discriminate]. intros _ k Hk.
            destruct (Nat.eq_dec k (i * c + j)) as [->|Hne]; [congruence|].
            apply Hall. lia.
          * intros d2 H2. inversion H2; subst d2; clear H2.
            split; [apply shape_set_cell; exact Hsh|]. split.
            -- intros i' j' Hi' Hj'. rewrite (cell_set_cell r c) by (auto; lia).
               destruct (Nat.eqb_spec i i'); [lia|]. cbn [andb].
               apply Hprev; auto.
            -- intros j' Hj'. rewrite (cell_set_cell r c) by (auto; lia).
               rewrite Nat.eqb_refl. cbn [andb].
               destruct (Nat.eqb_spec j j') as [<-|Hne]; [exact Hv|].
               apply Hcur. lia.
        + split; [|discriminate]. split; [congruence|].
          intros Hk. exfalso. apply (Hk (i * c + j)); [lia|exact Hv].
      - split; [|discriminate]. split; [congruence|].
        intros Hk. exfalso. destruct Hiff as [_ Hiff]. apply Hiff; auto.
        intros k Hlt. apply Hk. lia. }
    destruct Hrow as [Hiff Hinv]. split.
    + rewrite Hiff. split; intros H k Hk; apply H; lia.
    + intros d1 H1. destruct (Hinv d1 H1) as [Hsh [Hprev Hcur]].
      split; [exact Hsh|]. split; [|intros; lia].
      intros i' j' Hi' Hj'. destruct (Nat.eq_dec i' i) as [->|Hne].
      * apply Hcur; auto.
      * apply Hprev; auto. lia.
Qed.

(** The scans fill the matrix in row-major order, or fail at the first
    element that is not a number. *)
Lemma scan_elements_spec (file : @FileScan F) (r c : nat) (d : list (list F)) :
  shape r c d ->
  (scan_elements file r c d <> None <->
   forall k, k < r * c -> f_value file k <> None) /\
  forall d', scan_elements file r c d = Some d' ->
    shape r c d' /\
    forall i j, i < r -> j < c -> f_value file (i * c + j) = Some (cell d' i j).
Proof.
  intros Hs. destruct (scan_elements_inv file r c d Hs) as [Hiff Hinv]. split.
  - rewrite Hiff. split; intros H k Hk; apply H; lia.
  - intros d' Hd. destruct (Hinv d' Hd) as [Hsh [Hprev _]]. auto.
Qed.

(** X18.  [read_matrix_from_file] returns a matrix exactly when the file
    opens, a name and two positive dimensions are read, the allocation
    succeeds and each of the [rows * cols] elements is read as a number.
    The matrix then has the name read (its first 63 characters), the
    dimensions read, and the [k]-th number read at row [k / cols], column
    [k % cols]. *)
Theorem read_matrix_from_file_contract (alloc : bool) (file : @FileScan F)
  (path : string) :
  (read_matrix_from_file alloc file (Some path) <> None <->
   f_opens file = true /\ alloc = true /\
   exists nm r c,
     f_name file = Some nm /\ f_dims file = Some (r, c) /\
     (0 < r)%Z /\ (0 < c)%Z /\
     forall k, k < Z.to_nat r * Z.to_nat c -> f_value file k <> None) /\
  (forall m, read_matrix_from_file alloc file (Some path) = Some m ->
     well_formed m /\
     f_dims file = Some (rows m, cols m) /\
     (exists nm, f_name file = Some nm /\ name m = strncpy_name nm) /\
     forall i j, i < Z.to_nat (rows m) -> j < Z.to_nat (cols m) ->
       f_value file (i * Z.to_nat (cols m) + j) = Some (cell (data m) i j)).
Proof.
  unfold read_matrix_from_file.
  destruct (f_opens file); cbn [negb];
    [|split; [split; [congruence|intros [H _]; discriminate]|discriminate]].
  destruct (f_name file) as [nm|];
    [|split; [split; [congruence|
                      intros [_ [_ [nm' [r [c [H _]]]]]]; discriminate]
             |discriminate]].
  destruct (f_dims file) as [[r c]|];
    [|split; [split; [congruence|
                      intros [_ [_ [nm' [r [c [_ [H _]]]]]]]; discriminate]
             |discriminate]].
  destruct (Z.leb_spec r 0) as [Hr|Hr]; cbn [orb].
  { split; [|discriminate]. split; [congruence|].
    intros [_ [_ [nm' [r' [c' [_ [H [Hr' _]]]]]]]]. inversion H; subst. lia. }
  destruct (Z.leb_spec c 0) as [Hc|Hc]; cbn [orb].
  { split; [|discriminate]. split; [congruence|].
    intros [_ [_ [nm' [r' [c' [_ [H [_ [Hc' _]]]]]]]]]. inversion H; subst. lia. }
  rewrite create_matrix_eq.
  destruct (Z.leb_spec r 0); [lia|]. destruct (Z.leb_spec c 0); [lia|].
  cbn [orb]. destruct alloc; cbn [negb];
    [|split; [split; [congruence|intros [_ [Hf _]]; discriminate]|discriminate]].
  cbn [data].
  destruct (scan_elements_spec file (Z.to_nat r) (Z.to_nat c)
              (repeat (repeat zero (Z.to_nat c)) (Z.to_nat r))
              (shape_repeat _ _)) as [Hiff Hval].
  destruct (scan_elements file (Z.to_nat r) (Z.to_nat c) _) as [d|] eqn:Hscan.
  - split.
    + split; [|discriminate]. intros _. split; [reflexivity|].
      split; [reflexivity|]. exists nm, r, c. repeat split; auto.
      apply Hiff. discriminate.
    + intros m Hm. inversion Hm; subst m; clear Hm.
      destruct (Hval d eq_refl) as [Hsh Hcells].
      unfold set_data. cbn [name rows cols data]. split; [|split; [|split]].
      * unfold well_formed. cbn [rows cols data].
        split; [lia|]. split; [lia|]. exact Hsh.
      * reflexivity.
      * exists nm. auto.
      * exact Hcells.
  - split; [|discriminate]. split; [congruence|].
    intros [_ [_ [nm' [r' [c' [_ [Hd [_ [_ Hall]]]]]]]]]. inversion Hd; subst.
    exfalso. destruct Hiff as [_ Hiff]. apply Hiff; auto.
Qed.

(** A matrix read from a file has the shape its dimensions tell. *)
Lemma read_matrix_from_file_well_formed (alloc : bool) (file : @FileScan F)
  (path : option string) (m : Matrix) :
  read_matrix_from_file alloc file path = Some m -> well_formed m.
Proof.
  unfold read_matrix_from_file.
  destruct path as [p|]; [|discriminate].
  destruct (negb (f_opens file)); [discriminate|].
  destruct (f_name file) as [nm|]; [|discriminate].
  destruct (f_dims file) as [[r c]|]; [|discriminate].
  rewrite create_matrix_eq.
  destruct (Z.leb_spec r 0) as [Hr|Hr]; cbn [orb]; [discriminate|].
  destruct (Z.leb_spec c 0) as [Hc|Hc]; cbn [orb]; [discriminate|].
  destruct alloc; cbn [negb]; [|discriminate]. cbn [data].
  destruct (scan_elements_spec file (Z.to_nat r) (Z.to_nat c)
              (repeat (repeat zero (Z.to_nat c)) (Z.to_nat r))
              (shape_repeat _ _)) as [_ Hval].
  destruct (scan_elements file (Z.to_nat r) (Z.to_nat c) _) as [d|];
    [|discriminate].
  intros Hm. inversion Hm; subst m. destruct (Hval d eq_refl) as [Hsh _].
  unfold well_formed, set_data. cbn [rows cols data].
  split; [lia|]. split; [lia|]. exact Hsh.
Qed.

End FileFacts.

Section StoreFacts.
Context {F : Type} {SF : Scalar F}.

(** What [add_matrix] does to the entries. *)
Lemma add_matrix_items (ok : bool) (c : @MatrixCollection F) (m : @Matrix F) :
  (exists cap,
     add_matrix ok (Some c) (Some m) =
       (1%Z, Some (mkCollection (items c ++ [m]) cap)) /\
     find_matrix (Some c) (Some (name m)) = None /\
     (cap = capacity c /\ (count c < capacity c)%Z \/
      cap = (capacity c * 2)%Z /\ (capacity c <= count c)%Z)) \/
  add_matrix ok (Some c) (Some m) = (0%Z, Some c).
Proof.
  unfold add_matrix.
  destruct (find_matrix (Some c) (Some (name m))) as [x|]; [right; reflexivity|].
  destruct (Z.leb_spec (capacity c) (count c)); [destruct ok|].
  - left. eexists. split; [reflexivity|]. split; [reflexivity|]. right. auto.
  - right. reflexivity.
  - left. eexists. split; [reflexivity|]. split; [reflexivity|]. left. auto.
Qed.

Lemma store_ok_app (c : @MatrixCollection F) (m : @Matrix F) (cap : Z) :
  store_ok c -> well_formed m ->
  find_matrix (Some c) (Some (name m)) = None ->
  (cap = capacity c /\ (count c < capacity c)%Z \/
   cap = (capacity c * 2)%Z /\ (capacity c <= count c)%Z) ->
  store_ok (mkCollection (items c ++ [m]) cap).
Proof.
  intros [[Hnd [Hfit Hcap]] Hwf] Hm Hnone Hc.
  apply find_matrix_none in Hnone.
  unfold store_ok, collection_ok, names, count in *. cbn [items capacity].
  split; [split; [|split]|].
  - rewrite map_app. simpl. apply NoDup_app; auto.
    + repeat constructor. intros [].
    + intros a Ha [<-|[]]. exact (Hnone Ha).
  - rewrite length_app. simpl. lia.
  - lia.
  - apply Forall_app. split; [exact Hwf|]. constructor; [exact Hm|constructor].
Qed.

Lemma add_matrix_store_ok (ok : bool) (c c' : @MatrixCollection F)
  (m : @Matrix F) (ret : Z) :
  store_ok c -> well_formed m ->
  add_matrix ok (Some c) (Some m) = (ret, Some c') -> store_ok c'.
Proof.
  intros Hok Hm H.
  destruct (add_matrix_items ok c m) as [[cap [Heq [Hnone Hcap]]]|Heq];
    rewrite Heq in H; inversion H; subst; auto.
  apply store_ok_app; auto.
Qed.

Lemma In_without {A : Type} (i : nat) (l : list A) (x : A) :
  In x (without i l) -> In x l.
Proof.
  unfold without. revert i. induction l as [|a l IH]; intros i H.
  - destruct i; simpl in H; destruct H.
  - destruct i as [|i]; cbn [firstn skipn app] in H.
    + right. exact H.
    + destruct H as [<-|H]; [left; reflexivity|right; apply (IH i); exact H].
Qed.

Lemma Forall_without {A : Type} (P : A -> Prop) (i : nat) (l : list A) :
  Forall P l -> Forall P (without i l).
Proof.
  intros H. apply Forall_forall. intros x Hx. rewrite Forall_forall in H.
  apply H. apply (In_without i). exact Hx.
Qed.

Lemma remove_matrix_store_ok (c c' : @MatrixCollection F) (s : option string)
  (ret : Z) :
  store_ok c -> remove_matrix (Some c) s = (ret, Some c') -> store_ok c'.
Proof.
  intros [[Hnd [Hfit Hcap]] Hwf] H. destruct s as [s|];
    [|inversion H; subst; repeat split; auto].
  rewrite remove_matrix_eq in H.
  destruct (find_index s (items c) 0) as [i|] eqn:Hf;
    [|inversion H; subst; repeat split; auto].
  destruct (find_index_some s (items c) i Hf) as [Hi _].
  inversion H; subst. unfold store_ok, collection_ok, names, count in *.
  cbn [items capacity]. rewrite map_without. split; [split; [|split; auto]|].
  - apply (NoDup_without i _ EmptyString); auto. rewrite length_map. exact Hi.
  - unfold without. rewrite length_app, length_firstn, length_skipn. lia.
  - apply Forall_without. exact Hwf.
Qed.

End StoreFacts.

Section FolderFacts.
Context {F : Type} {SF : Scalar F}.

(** The state of the [readdir] loop: the collection is in order, it
    holds the matrices it held at the start followed by the ones loaded,
    and [loaded] counts these. *)
Lemma load_entries_inv (env : @Folder F) (folder : string)
  (c0 : @MatrixCollection F) (entries : list string) (k : nat)
  (st : @MatrixCollection F * Z) :
  store_ok (fst st) ->
  (exists added, items (fst st) = items c0 ++ added /\
                 snd st = Z.of_nat (length added)) ->
  store_ok (fst (load_entries env folder k entries st)) /\
  exists added,
    items (fst (load_entries env folder k entries st)) = items c0 ++ added /\
    snd (load_entries env folder k entries st) = Z.of_nat (length added).
Proof.
  revert k st. induction entries as [|d_name rest IH]; intros k st Hok Hadd.
  - simpl. auto.
  - cbn [load_entries]. apply IH.
    + unfold load_entry.
      destruct (String.eqb d_name "." || String.eqb d_name ".."); auto.
      destruct (not_txt d_name); auto.
      destruct (read_matrix_from_file _ _ _) as [m|] eqn:Hread; auto.
      apply read_matrix_from_file_well_formed in Hread.
      destruct (add_matrix _ (Some (fst st)) (Some m)) as [ret [col'|]] eqn:Ha;
        [|destruct ret as [|[| |]|]; auto].
      pose proof (add_matrix_store_ok _ _ _ _ _ Hok Hread Ha) as Hok'.
      destruct ret as [|[| |]|]; auto.
    + destruct Hadd as [added [Hitems Hcount]]. unfold load_entry.
      destruct (String.eqb d_name "." || String.eqb d_name "..");
        [exists added; auto|].
      destruct (not_txt d_name); [exists added; auto|].
      destruct (read_matrix_from_file _ _ _) as [m|] eqn:Hread;
        [|exists added; auto].
      destruct (add_matrix_items (file_realloc env k) (fst st) m)
        as [[cap [Heq _]]|Heq]; rewrite Heq; [|exists added; auto].
      exists (added ++ [m]). cbn [fst snd items]. split.
      * rewrite Hitems, app_assoc. reflexivity.
      * rewrite Hcount, length_app. simpl. lia.
Qed.

(** X19.  [read_matrices_from_folder] returns the number of matrices it
    added to the collection.  The matrices stored before stay where they
    are, the loaded ones follow them, and the collection stays in order:
    a file whose matrix bears a name already stored is left out.  When
    the folder cannot be listed nothing is added and 0 is returned. *)
Theorem folder_load_counts (env : @Folder F) (folder : string)
  (c : @MatrixCollection F) :
  store_ok c ->
  exists c' added,
    read_matrices_from_folder env (Some folder) (Some c) =
      (Z.of_nat (length added), Some c') /\
    items c' = items c ++ added /\
    count c' = (count c + Z.of_nat (length added))%Z /\
    store_ok c' /\
    (listing env = None -> added = []).
Proof.
  intros Hok. unfold read_matrices_from_folder.
  destruct (listing env) as [entries|].
  - destruct (load_entries_inv env folder c entries 0 (c, 0%Z) Hok)
      as [Hok' [added [Hitems Hcount]]].
    { exists []. rewrite app_nil_r. auto. }
    exists (fst (load_entries env folder 0 entries (c, 0%Z))), added.
    rewrite Hcount. split; [reflexivity|]. split; [exact Hitems|].
    split; [|split; [exact Hok'|discriminate]].
    unfold count. rewrite Hitems, length_app. lia.
  - exists c, []. simpl. rewrite app_nil_r.
    split; [reflexivity|]. split; [reflexivity|].
    split; [lia|]. split; [exact Hok|reflexivity].
Qed.

End FolderFacts.

Section EntryFacts.
Context {F : Type} {SF : Scalar F}.

Lemma substring_after (a b : string) (n : nat) :
  substring (String.length a) n (a ++ b) = substring 0 n b.
Proof. induction a as [|x a IH]; simpl; auto. Qed.

Lemma substring_whole (s : string) : substring 0 (String.length s) s = s.
Proof. induction s as [|x s IH]; simpl; [|rewrite IH]; reflexivity. Qed.

Lemma substring_split (s : string) (k : nat) :
  k <= String.length s ->
  s = (substring 0 k s ++ substring k (String.length s - k) s)%string.
Proof.
  revert k. induction s as [|x s IH]; intros [|k] Hk; simpl in *;
    try reflexivity; try lia.
  - rewrite substring_whole. reflexivity.
  - rewrite <- (IH k) by lia. reflexivity.
Qed.

Lemma length_append (a b : string) :
  String.length (a ++ b) = String.length a + String.length b.
Proof. induction a as [|x a IH]; simpl; auto. Qed.

Lemma not_txt_spec (d_name : string) :
  not_txt d_name = false <->
  exists stem, stem <> EmptyString /\ d_name = (stem ++ ".txt")%string.
Proof.
  unfold not_txt. cbv zeta. split.
  - intros H. apply orb_false_iff in H. destruct H as [Hlen Hsuf].
    apply Nat.ltb_ge in Hlen. apply negb_false_iff, String.eqb_eq in Hsuf.
    exists (substring 0 (String.length d_name - 4) d_name). split.
    + intros E. apply (f_equal String.length) in E.
      rewrite length_substring_0 in E. simpl in E. lia.
    + rewrite <- Hsuf.
      pose proof (substring_split d_name (String.length d_name - 4)) as Hs.
      replace (String.length d_name - (String.length d_name - 4)) with 4
        in Hs by lia.
      apply Hs. lia.
  - intros [stem [Hne ->]]. rewrite length_append. simpl String.length.
    apply orb_false_iff. split.
    + apply Nat.ltb_ge. destruct stem; [congruence|simpl; lia].
    + replace (String.length stem + 4 - 4) with (String.length stem) by lia.
      rewrite substring_after. reflexivity.
Qed.

(** X20.  The [readdir] loop looks at the entries named [stem.txt] with
    a stem that is not empty, and at no other: an entry of another name,
    the bare [.txt] among them, leaves the collection and the count as
    they are, whatever the file holds. *)
Theorem folder_reads_txt_only (d_name : string) :
  (not_txt d_name = false <->
   exists stem, stem <> EmptyString /\ d_name = (stem ++ ".txt")%string) /\
  forall (env : @Folder F) (folder : string) (k : nat)
         (st : @MatrixCollection F * Z),
    (forall stem, d_name = (stem ++ ".txt")%string -> stem = EmptyString) ->
    load_entry env folder k d_name st = st.
Proof.
  split; [apply not_txt_spec|].
  intros env folder k st H. unfold load_entry.
  destruct (String.eqb d_name "." || String.eqb d_name ".."); [reflexivity|].
  destruct (not_txt d_name) eqn:Hn; [reflexivity|].
  apply not_txt_spec in Hn. destruct Hn as [stem [Hne Hd]].
  exfalso. exact (Hne (H stem Hd)).
Qed.

End EntryFacts.

(* ================================================================== *)
(** * The menu: its input and its handlers                          *)
(* ================================================================== *)

Section InputFacts.

Lemma c_str_plain (l : string) :
  plain l = true -> c_str (l ++ String "010" EmptyString) =
                    (l ++ String "010" EmptyString)%string.
Proof.
  induction l as [|c l IH]; intros H; [reflexivity|].
  cbn [plain] in H. apply andb_prop in H. destruct H as [H Hl].
  apply andb_prop in H. destruct H as [H0 _].
  cbn [append c_str]. apply negb_true_iff in H0. rewrite H0.
  rewrite IH by exact Hl. reflexivity.
Qed.

Lemma c_str_plain' (l : string) : plain l = true -> c_str l = l.
Proof.
  induction l as [|c l IH]; intros H; [reflexivity|].
  cbn [plain] in H. apply andb_prop in H. destruct H as [H Hl].
  apply andb_prop in H. destruct H as [H0 _].
  cbn [c_str]. apply negb_true_iff in H0. rewrite H0.
  rewrite IH by exact Hl. reflexivity.
Qed.

Lemma trim_newline_line (l : string) :
  trim_newline (l ++ String "010" EmptyString) = l.
Proof.
  induction l as [|c l IH]; [reflexivity|].
  cbn [append]. cbn [trim_newline].
  destruct (l ++ String "010" EmptyString)%string eqn:Hl.
  - destruct l; discriminate.
  - rewrite IH. reflexivity.
Qed.

Lemma plain_substring (a b : nat) (l : string) :
  plain l = true -> plain (substring a b l) = true.
Proof.
  revert a b. induction l as [|c l IH]; intros a b H.
  - destruct a, b; reflexivity.
  - cbn [plain] in H. apply andb_prop in H. destruct H as [Hc Hl].
    destruct a as [|a]; [destruct b as [|b]|]; cbn [substring]; auto.
    cbn [plain]. rewrite Hc. cbn [andb]. apply IH. exact Hl.
Qed.

(** What [fgets] takes of a line that fits and of one that does not. *)
Lemma take_line_fits (k : nat) (l rest : string) :
  plain l = true -> String.length l < k ->
  take_line k (line l rest) = ((l ++ String "010" EmptyString)%string, rest).
Proof.
  unfold line. revert k. induction l as [|c l IH]; intros k H Hk.
  - destruct k; [simpl in Hk; lia|]. reflexivity.
  - cbn [plain] in H. apply andb_prop in H. destruct H as [H Hl].
    apply andb_prop in H. destruct H as [_ Hnl]. apply negb_true_iff in Hnl.
    destruct k as [|k]; [simpl in Hk; lia|].
    cbn [append take_line]. rewrite Hnl. rewrite IH by (auto; simpl in Hk; lia).
    reflexivity.
Qed.

Lemma take_line_cut (k : nat) (l rest : string) :
  plain l = true -> k <= String.length l ->
  take_line k (line l rest) =
  (substring 0 k l, line (substring k (String.length l - k) l) rest).
Proof.
  unfold line. revert k. induction l as [|c l IH]; intros k H Hk.
  - assert (k = 0) by (simpl in Hk; lia). subst k. reflexivity.
  - cbn [plain] in H. apply andb_prop in H. destruct H as [H Hl].
    apply andb_prop in H. destruct H as [_ Hnl]. apply negb_true_iff in Hnl.
    destruct k as [|k].
    + cbn [take_line substring String.length]. rewrite Nat.sub_0_r.
      f_equal. cbn [append]. f_equal. f_equal.
      clear. induction l as [|c' l IH]; [reflexivity|].
      cbn [String.length substring]. rewrite <- IH. reflexivity.
    + cbn [append take_line]. rewrite Hnl.
      rewrite IH by (auto; simpl in Hk; lia). reflexivity.
Qed.

Lemma fgets_line (n : nat) (l rest : string) :
  fgets n (line l rest) = Some (take_line (n - 1) (line l rest)).
Proof. unfold fgets, line. destruct l; reflexivity. Qed.

(** A line that fits the buffer is read whole. *)
Lemma read_line_fits (n : nat) (l rest buf : string) :
  plain l = true -> String.length l < n - 1 ->
  read_line_prompt n (line l rest) buf = (Z.of_nat (String.length l), l, rest).
Proof.
  intros Hp Hn. unfold read_line_prompt.
  rewrite fgets_line, take_line_fits by auto.
  rewrite c_str_plain by exact Hp. rewrite trim_newline_line. reflexivity.
Qed.

(** X21.  [read_line_prompt] returns -1 exactly at the end of the input,
    which it leaves with the buffer as they were.  A line shorter than
    [n - 1] characters is read whole, without its newline, and its length
    is returned (0 for an empty line).  A longer line is cut after
    [n - 1] characters: what follows them stays in the input and is what
    the next prompt reads. *)
Theorem read_line_prompt_contract (n : nat) (buf : string) :
  2 <= n ->
  (forall stdin,
     fst (fst (read_line_prompt n stdin buf)) = (-1)%Z <-> stdin = EmptyString) /\
  read_line_prompt n EmptyString buf = ((-1)%Z, buf, EmptyString) /\
  (forall l rest, plain l = true -> String.length l < n - 1 ->
     read_line_prompt n (line l rest) buf =
     (Z.of_nat (String.length l), l, rest)) /\
  (forall l rest, plain l = true -> n - 1 <= String.length l ->
     let kept := trim_newline (substring 0 (n - 1) l) in
     read_line_prompt n (line l rest) buf =
     (Z.of_nat (String.length kept), kept,
      line (substring (n - 1) (String.length l - (n - 1)) l) rest)).
Proof.
  intros Hn. split; [|split; [reflexivity|split]].
  - intros stdin. unfold read_line_prompt, fgets.
    destruct stdin as [|c s]; [split; reflexivity|].
    destruct (take_line (n - 1) (String c s)) as [raw rest].
    cbn [fst]. split; [lia|discriminate].
  - intros l rest Hp Hl. apply read_line_fits; auto.
  - intros l rest Hp Hl kept. unfold read_line_prompt.
    rewrite fgets_line, take_line_cut by auto.
    rewrite c_str_plain' by (apply plain_substring; exact Hp). reflexivity.
Qed.

End InputFacts.

Section ResultFacts.
Context {F : Type} {SF : Scalar F}.

Lemma well_formed_created (nm : string) (r c : Z) (d : list (list F)) :
  (0 < r)%Z -> (0 < c)%Z -> shape (Z.to_nat r) (Z.to_nat c) d ->
  well_formed (mkMatrix nm r c d).
Proof.
  intros Hr Hc [Hl Ha]. unfold well_formed. cbn [rows cols data].
  split; [lia|]. split; [lia|]. split; assumption.
Qed.

Lemma created_some (alloc : bool) (nm : string) (r c : Z) (m : @Matrix F) :
  create_matrix alloc (Some nm) r c = Some m ->
  (0 < r)%Z /\ (0 < c)%Z /\
  m = mkMatrix (strncpy_name nm) r c
        (repeat (repeat zero (Z.to_nat c)) (Z.to_nat r)).
Proof.
  rewrite create_matrix_eq.
  destruct (Z.leb_spec r 0); cbn [orb]; [discriminate|].
  destruct (Z.leb_spec c 0); cbn [orb]; [discriminate|].
  destruct (negb alloc); [discriminate|].
  intros E. inversion E. auto.
Qed.

Lemma shape_for_sched (r c : nat) (sched : list (nat * nat))
  (f : nat -> nat -> F) (d : list (list F)) :
  shape r c d ->
  shape r c (for_sched sched
               (fun ij d => set_cell d (fst ij) (snd ij) (f (fst ij) (snd ij)))
               d).
Proof.
  intros Hs. apply (for_sched_inv (fun d => shape r c d)); auto.
  intros ij d0 _ H0. apply shape_set_cell. exact H0.
Qed.

Lemma shape_collect_children (r c : nat) (pipes : list F) (d : list (list F)) :
  shape r c d -> shape r c (snd (collect_children r c pipes d)).
Proof.
  intros Hs. unfold collect_children.
  apply (for_range_inv (fun _ st => shape r c (snd st))); [lia|exact Hs|].
  intros i st _ Hst.
  apply (for_range_inv (fun _ st => shape r c (snd st))); [lia|exact Hst|].
  intros j st' _ Hst'. cbn [snd]. apply shape_set_cell. exact Hst'.
Qed.

(** Whatever a variant hands back has the shape its dimensions tell,
    whatever the schedule and the payloads. *)
Lemma run_single_well_formed (op : @Op F) (alloc : bool) (e t : F)
  (m1 m2 : option Matrix) (rn : option string) (res : Matrix) :
  fst (run_single op alloc e m1 m2 rn t) = Some res -> well_formed res.
Proof.
  unfold run_single. destruct m1 as [a|], m2 as [b|], rn as [nm|];
    try discriminate.
  destruct (mismatch op a b); [discriminate|].
  destruct (create_matrix alloc (Some nm) (rows a) (out_cols op a b))
    as [result|] eqn:Hc; [|discriminate].
  apply created_some in Hc. destruct Hc as (Hr & Hc & ->). cbn [fst data]. intros E.
  inversion E; subst res. apply well_formed_created; auto.
  apply fill_cells_spec. apply shape_repeat.
Qed.

Lemma run_openmp_well_formed (op : @Op F) (alloc : bool)
  (sched : list (nat * nat)) (e t : F) (m1 m2 : option Matrix)
  (rn : option string) (res : Matrix) :
  fst (run_openmp op alloc sched e m1 m2 rn t) = Some res -> well_formed res.
Proof.
  unfold run_openmp. destruct m1 as [a|], m2 as [b|], rn as [nm|];
    try discriminate.
  destruct (mismatch op a b); [discriminate|].
  destruct (create_matrix alloc (Some nm) (rows a) (out_cols op a b))
    as [result|] eqn:Hc; [|discriminate].
  apply created_some in Hc. destruct Hc as (Hr & Hc & ->). cbn [fst data]. intros E.
  inversion E; subst res. apply well_formed_created; auto.
  apply (shape_for_sched _ _ sched (cell_value op a b)). apply shape_repeat.
Qed.

Lemma run_multiprocess_well_formed (op : @Op F) (alloc pids : bool)
  (spawn : nat -> bool) (e t : F) (m1 m2 : option Matrix)
  (rn : option string) (res : Matrix) :
  fst (run_multiprocess op alloc pids spawn e m1 m2 rn t) = Some res ->
  well_formed res.
Proof.
  unfold run_multiprocess. destruct m1 as [a|], m2 as [b|], rn as [nm|];
    try discriminate.
  destruct (mismatch op a b); [discriminate|].
  destruct (create_matrix alloc (Some nm) (rows a) (out_cols op a b))
    as [result|] eqn:Hc; [|discriminate].
  apply created_some in Hc. destruct Hc as (Hr & Hc & ->). cbv zeta. cbn [data].
  destruct (negb pids); [discriminate|].
  destruct (spawn_children _ _ _ _ _) as [[e' pipes]|]; [|discriminate].
  cbn [fst data]. intros E. inversion E; subst res.
  apply well_formed_created; auto.
  apply shape_collect_children. apply shape_repeat.
Qed.

Lemma well_formed_set_name (m : @Matrix F) (s : string) :
  well_formed m -> well_formed (set_name m s).
Proof. intros H. exact H. Qed.

Lemma comparison_well_formed (o : @Oracle F) (m1 m2 : option Matrix)
  (rn opn : option string) (mt : option PerformanceMetrics) (res : Matrix) :
  fst (run_operation_comparison o m1 m2 rn opn mt) = Some res ->
  well_formed res.
Proof.
  unfold run_operation_comparison.
  destruct m1 as [a|], m2 as [b|], rn as [nm|], opn as [s|], mt as [t|];
    try discriminate.
  destruct (op_of s) as [op|].
  - pose proof (run_single_well_formed op (alloc1 o) (elapsed1 o)
                  (single_thread_time t) (Some a) (Some b)
                  (Some (temp_name nm "single"))) as W1.
    pose proof (run_openmp_well_formed op (alloc2 o) (sched o) (elapsed2 o)
                  (openmp_time t) (Some a) (Some b)
                  (Some (temp_name nm "openmp"))) as W2.
    pose proof (run_multiprocess_well_formed op (alloc3 o) (pids_ok o)
                  (spawn_ok o) (elapsed3 o) (multiprocess_time t)
                  (Some a) (Some b) (Some (temp_name nm "multiproc"))) as W3.
    destruct (run_single op (alloc1 o) (elapsed1 o) (Some a) (Some b)
                (Some (temp_name nm "single")) (single_thread_time t))
      as [r1 t1].
    destruct (run_openmp op (alloc2 o) (sched o) (elapsed2 o) (Some a)
                (Some b) (Some (temp_name nm "openmp")) (openmp_time t))
      as [r2 t2].
    destruct (run_multiprocess op (alloc3 o) (pids_ok o) (spawn_ok o)
                (elapsed3 o) (Some a) (Some b)
                (Some (temp_name nm "multiproc")) (multiprocess_time t))
      as [r3 t3].
    cbn [fst] in *. unfold pick_operation.
    cbn [single_thread_time openmp_time multiprocess_time fst snd].
    destruct (ltb t2 t1); cbn [fst snd]; destruct (ltb t3 _); cbn [fst snd];
      intros E;
      [destruct r3 as [x|]|destruct r2 as [x|]
      |destruct r3 as [x|]|destruct r1 as [x|]];
      inversion E; subst res; apply well_formed_set_name; auto.
  - cbn [fst]. unfold pick_operation.
    cbn [single_thread_time openmp_time multiprocess_time fst snd].
    repeat match goal with
           | |- context [if ?b then _ else _] => destruct b; cbn [fst snd]
           end; discriminate.
Qed.

End ResultFacts.

Section MenuFacts.
Context {F : Type} {SF : Scalar F}.
Variable strtod : string -> option (F * string).

Lemma store_matrix_ok (ok : bool) (col : @MatrixCollection F) (m : @Matrix F) :
  store_ok col -> well_formed m -> store_ok (store_matrix ok col m).
Proof.
  intros Hok Hm. unfold store_matrix.
  destruct (add_matrix ok (Some col) (Some m)) as [ret [col'|]] eqn:Ha.
  - pose proof (add_matrix_store_ok _ _ _ _ _ Hok Hm Ha) as Hok'.
    destruct ret as [|[| |]|]; auto.
  - destruct ret as [|[| |]|]; auto.
Qed.

(** The pointer [find_matrix] returns is the entry the search loop of
    [remove_matrix] stops at. *)
Lemma find_index_find (s : string) (its : list (@Matrix F)) (i0 : nat) :
  find (fun m => String.eqb (name m) s) its =
  match find_index s its i0 with
  | Some k => Some (nth (k - i0) its no_matrix)
  | None => None
  end.
Proof.
  revert i0. induction its as [|m rest IH]; intros i0; cbn [find find_index].
  - reflexivity.
  - destruct (String.eqb (name m) s).
    + rewrite Nat.sub_diag. reflexivity.
    + rewrite (IH (S i0)).
      pose proof (find_index_spec s rest (S i0)) as Hs.
      destruct (find_index s rest (S i0)) as [k|]; [|reflexivity].
      destruct Hs as [Hk _].
      replace (k - i0) with (S (k - S i0)) by lia. reflexivity.
Qed.

Lemma find_matrix_index (col : @MatrixCollection F) (s : string) (m : Matrix) :
  find_matrix (Some col) (Some s) = Some m ->
  exists i, find_index s (items col) 0 = Some i /\
            i < length (items col) /\ nth i (items col) no_matrix = m.
Proof.
  unfold find_matrix. rewrite (find_index_find s (items col) 0).
  destruct (find_index s (items col) 0) as [k|] eqn:Hf; [|discriminate].
  rewrite Nat.sub_0_r. intros E. inversion E. exists k.
  destruct (find_index_some s (items col) k Hf) as [Hk _]. auto.
Qed.

Lemma map_upd_same {A B : Type} (f : A -> B) (l : list A) (i : nat)
  (v d : A) :
  f v = f (nth i l d) -> map f (upd l i v) = map f l.
Proof.
  revert i. induction l as [|x t IH]; intros [|i] H; simpl in *; auto.
  - rewrite H. reflexivity.
  - rewrite IH; auto.
Qed.

(** A store through the pointer of [find_matrix] reaches the data of
    that one matrix: every name and dimension, the capacity and every
    other matrix stay. *)
Lemma store_data_scope (col : @MatrixCollection F) (nm : string)
  (d : list (list F)) :
  capacity (store_data col nm d) = capacity col /\
  map name (items (store_data col nm d)) = map name (items col) /\
  map rows (items (store_data col nm d)) = map rows (items col) /\
  map cols (items (store_data col nm d)) = map cols (items col) /\
  forall k, name (nth k (items col) no_matrix) <> nm ->
    nth k (items (store_data col nm d)) no_matrix = nth k (items col) no_matrix.
Proof.
  unfold store_data.
  destruct (find_index nm (items col) 0) as [i|] eqn:Hf;
    [|repeat split; reflexivity].
  destruct (find_index_some nm (items col) i Hf) as [Hi [Hn _]].
  cbn [items capacity].
  split; [reflexivity|].
  split; [apply (map_upd_same name) with (d := no_matrix); reflexivity|].
  split; [apply (map_upd_same rows) with (d := no_matrix); reflexivity|].
  split; [apply (map_upd_same cols) with (d := no_matrix); reflexivity|].
  intros k Hk. apply nth_upd_other. intros ->. exact (Hk Hn).
Qed.

Lemma store_data_ok (col : @MatrixCollection F) (nm : string) (m : Matrix)
  (d : list (list F)) :
  store_ok col -> find_matrix (Some col) (Some nm) = Some m ->
  shape (Z.to_nat (rows m)) (Z.to_nat (cols m)) d ->
  store_ok (store_data col nm d).
Proof.
  intros [[Hnd [Hfit Hcap]] Hwf] Hfind [Hl Ha].
  destruct (find_matrix_index col nm m Hfind) as [i [Hf [Hi Hm]]].
  destruct (store_data_scope col nm d) as [Hc [Hn _]].
  assert (Hwm : well_formed m).
  { rewrite Forall_forall in Hwf. apply Hwf. rewrite <- Hm.
    apply nth_In. exact Hi. }
  unfold store_ok, collection_ok, names, count in *.
  rewrite Hc, Hn. split.
  - split; [exact Hnd|]. split; [|exact Hcap].
    rewrite <- (length_map name), Hn, length_map. exact Hfit.
  - unfold store_data. rewrite Hf. cbn [items].
    apply Forall_upd; [exact Hwf|]. intros _. rewrite Hm.
    destruct Hwm as [Hr [Hcl _]]. unfold well_formed, set_data.
    cbn [rows cols data]. auto.
Qed.

Lemma well_formed_shape (m : @Matrix F) :
  well_formed m -> shape (Z.to_nat (rows m)) (Z.to_nat (cols m)) (data m).
Proof. intros [_ [_ [Hl Ha]]]. split; assumption. Qed.

Lemma found_well_formed (col : @MatrixCollection F) (nm : string) (m : Matrix) :
  store_ok col -> find_matrix (Some col) (Some nm) = Some m -> well_formed m.
Proof.
  intros [_ Hwf] Hf. apply find_matrix_some in Hf. destruct Hf as [Hin _].
  rewrite Forall_forall in Hwf. auto.
Qed.

Lemma enter_elements_shape (r c : nat) (stdin : string) (d d' : list (list F)) :
  shape r c d -> snd (enter_elements strtod r c stdin d) = Some d' ->
  shape r c d'.
Proof.
  intros Hs. unfold enter_elements. revert d'.
  pose (P := fun (st : string * option (list (list F))) =>
               forall d', snd st = Some d' -> shape r c d').
  apply (for_range_inv (fun _ => P)); [lia| |].
  - intros d' E. inversion E. subst. exact Hs.
  - intros i st _ Hst. cbv beta in *.
    apply (for_range_inv (fun _ => P)); [lia|exact Hst|].
    intros j [s [d0|]] _ Hst' d' E; unfold P in *; cbn [snd fst] in *;
      [|discriminate].
    destruct (read_double_prompt strtod s zero) as [[rc v] rest].
    destruct rc as [|[| |]|]; cbn [snd] in E; try discriminate.
    inversion E. apply shape_set_cell. apply Hst'. reflexivity.
Qed.

Lemma modify_cells_shape (r c len : nat) (cell_of : nat -> nat * nat)
  (stdin : string) (d : list (list F)) :
  shape r c d -> shape r c (snd (modify_cells strtod len cell_of stdin d)).
Proof.
  intros Hs. unfold modify_cells.
  set (run := for_range _ _ _ _).
  change (shape r c (snd (fst run))). subst run.
  pose (P := fun (st : string * list (list F) * bool) =>
               shape r c (snd (fst st))).
  apply (for_range_inv (fun _ => P)); [lia|exact Hs|].
  intros k [[s d0] b] _ Hst. unfold P in *. cbn [fst snd] in *.
  destruct b; [|exact Hst].
  destruct (read_double_prompt strtod s zero) as [[rc v] rest].
  destruct rc as [|[| |]|]; cbn [fst snd]; auto.
  apply shape_set_cell. exact Hst.
Qed.

Lemma handle_enter_matrix_ok (alloc ok : bool) (stdin : string)
  (col : @MatrixCollection F) :
  store_ok col -> store_ok (snd (handle_enter_matrix strtod alloc ok stdin col)).
Proof.
  intros Hok. unfold handle_enter_matrix.
  destruct (read_line_prompt MAX_NAME_LENGTH stdin EmptyString) as [[rc nm] s1].
  destruct (rc =? -1)%Z; [exact Hok|]. destruct (rc =? 0)%Z; [exact Hok|].
  destruct (find_matrix (Some col) (Some nm)); [exact Hok|].
  destruct (read_int_prompt s1 0%Z) as [[rc1 r] s2].
  destruct (rc1 =? -1)%Z; [exact Hok|].
  destruct (negb (rc1 =? 1)%Z || (r <=? 0)%Z); [exact Hok|].
  destruct (read_int_prompt s2 0%Z) as [[rc2 c] s3].
  destruct (rc2 =? -1)%Z; [exact Hok|].
  destruct (negb (rc2 =? 1)%Z || (c <=? 0)%Z); [exact Hok|].
  destruct (create_matrix alloc (Some nm) r c) as [m|] eqn:Hc; [|exact Hok].
  apply created_some in Hc. destruct Hc as (Hr & Hc & ->). cbn [data].
  destruct (enter_elements strtod (Z.to_nat r) (Z.to_nat c) s3 _)
    as [s4 [d|]] eqn:He; [|exact Hok].
  cbn [snd]. apply store_matrix_ok; [exact Hok|].
  unfold set_data. cbn [name rows cols]. apply well_formed_created; auto.
  apply (enter_elements_shape _ _ s3 (repeat (repeat zero (Z.to_nat c))
                                        (Z.to_nat r))).
  - apply shape_repeat.
  - rewrite He. reflexivity.
Qed.

Lemma handle_delete_matrix_ok (stdin : string) (col : @MatrixCollection F) :
  store_ok col -> store_ok (snd (handle_delete_matrix stdin col)).
Proof.
  intros Hok. unfold handle_delete_matrix.
  destruct (read_line_prompt MAX_NAME_LENGTH stdin EmptyString) as [[rc nm] s1].
  destruct (rc =? -1)%Z; [exact Hok|]. destruct (rc =? 0)%Z; [exact Hok|].
  destruct (remove_matrix (Some col) (Some nm)) as [ret [col'|]] eqn:Hr;
    [|exact Hok].
  cbn [snd]. exact (remove_matrix_store_ok _ _ _ _ Hok Hr).
Qed.

Lemma handle_modify_matrix_ok (stdin : string) (col : @MatrixCollection F) :
  store_ok col -> store_ok (snd (handle_modify_matrix strtod stdin col)).
Proof.
  intros Hok. unfold handle_modify_matrix.
  destruct (read_line_prompt MAX_NAME_LENGTH stdin EmptyString) as [[rc nm] s1].
  destruct (rc =? -1)%Z; [exact Hok|]. destruct (rc =? 0)%Z; [exact Hok|].
  destruct (find_matrix (Some col) (Some nm)) as [m|] eqn:Hf; [|exact Hok].
  pose proof (well_formed_shape m (found_well_formed col nm m Hok Hf)) as Hs.
  destruct (read_int_prompt s1 0%Z) as [[rc1 choice] s2].
  destruct (rc1 =? -1)%Z; [exact Hok|].
  destruct (negb (rc1 =? 1)%Z); [exact Hok|].
  destruct (choice =? 1)%Z; [|destruct (choice =? 2)%Z;
                               [|destruct (choice =? 3)%Z; [|exact Hok]]].
  - destruct (read_index s2 (rows m)) as [[i|] s3]; [|exact Hok].
    destruct (read_index s3 (cols m)) as [[j|] s4]; [|exact Hok].
    destruct (read_double_prompt strtod s4 zero) as [[rc2 v] s5].
    destruct rc2 as [|[| |]|]; try exact Hok. cbn [snd].
    apply (store_data_ok col nm m); auto. apply shape_set_cell. exact Hs.
  - destruct (read_index s2 (rows m)) as [[i|] s3]; [|exact Hok].
    destruct (modify_cells strtod _ _ s3 (data m)) as [s4 d] eqn:Hm.
    cbn [snd]. apply (store_data_ok col nm m); auto.
    replace d with (snd (modify_cells strtod (Z.to_nat (cols m))
                           (fun j => (i, j)) s3 (data m)))
      by (rewrite Hm; reflexivity).
    apply modify_cells_shape. exact Hs.
  - destruct (read_index s2 (cols m)) as [[j|] s3]; [|exact Hok].
    destruct (modify_cells strtod _ _ s3 (data m)) as [s4 d] eqn:Hm.
    cbn [snd]. apply (store_data_ok col nm m); auto.
    replace d with (snd (modify_cells strtod (Z.to_nat (rows m))
                           (fun i => (i, j)) s3 (data m)))
      by (rewrite Hm; reflexivity).
    apply modify_cells_shape. exact Hs.
Qed.

Lemma handle_read_from_file_ok (alloc ok : bool) (scan : string -> @FileScan F)
  (stdin : string) (col : @MatrixCollection F) :
  store_ok col ->
  store_ok (snd (handle_read_from_file alloc ok scan stdin col)).
Proof.
  intros Hok. unfold handle_read_from_file.
  destruct (read_line_prompt 512 stdin EmptyString) as [[rc path] s1].
  destruct (rc =? -1)%Z; [exact Hok|]. destruct (rc =? 0)%Z; [exact Hok|].
  destruct (read_matrix_from_file alloc (scan path) (Some path)) as [m|] eqn:Hr;
    [|exact Hok].
  cbn [snd]. apply store_matrix_ok; [exact Hok|].
  exact (read_matrix_from_file_well_formed _ _ _ _ Hr).
Qed.

Lemma read_matrices_from_folder_ok (env : @Folder F) (folder : option string)
  (col col' : @MatrixCollection F) (ret : Z) :
  store_ok col ->
  read_matrices_from_folder env folder (Some col) = (ret, Some col') ->
  store_ok col'.
Proof.
  intros Hok. unfold read_matrices_from_folder.
  destruct folder as [fd|]; [|intros E; inversion E; subst; exact Hok].
  destruct (listing env) as [entries|];
    [|intros E; inversion E; subst; exact Hok].
  cbv zeta. intros E. inversion E.
  apply (load_entries_inv env fd col entries 0 (col, 0%Z)); [exact Hok|].
  exists []. rewrite app_nil_r. auto.
Qed.

Lemma handle_read_from_folder_ok (env : @Folder F) (stdin : string)
  (col : @MatrixCollection F) :
  store_ok col -> store_ok (snd (handle_read_from_folder env stdin col)).
Proof.
  intros Hok. unfold handle_read_from_folder.
  destruct (read_line_prompt 512 stdin EmptyString) as [[rc path] s1].
  destruct (rc =? -1)%Z; [exact Hok|]. destruct (rc =? 0)%Z; [exact Hok|].
  destruct (read_matrices_from_folder env (Some path) (Some col))
    as [ret [col'|]] eqn:Hr; [|exact Hok].
  cbn [snd]. exact (read_matrices_from_folder_ok _ _ _ _ _ Hok Hr).
Qed.

Lemma handle_save_to_file_same (stdin : string) (col : @MatrixCollection F) :
  snd (handle_save_to_file stdin col) = col.
Proof.
  unfold handle_save_to_file.
  destruct (read_line_prompt MAX_NAME_LENGTH stdin EmptyString) as [[rc nm] s1].
  destruct (rc =? -1)%Z; [reflexivity|]. destruct (rc =? 0)%Z; [reflexivity|].
  destruct (find_matrix (Some col) (Some nm)); [|reflexivity].
  destruct (read_line_prompt 512 s1 EmptyString) as [[rc' p] s2]. reflexivity.
Qed.

Lemma handle_save_all_same (stdin : string) (col : @MatrixCollection F) :
  snd (handle_save_all stdin col) = col.
Proof.
  unfold handle_save_all. destruct (count col =? 0)%Z; [reflexivity|].
  destruct (read_line_prompt 512 stdin EmptyString) as [[rc' p] s2]. reflexivity.
Qed.

Lemma handle_operation_ok (operation : string) (o : @Oracle F)
  (metrics : @PerformanceMetrics F) (ok : bool) (after : string -> string)
  (stdin : string) (col : @MatrixCollection F) :
  store_ok col ->
  store_ok (snd (handle_operation operation o metrics ok after stdin col)).
Proof.
  intros Hok. unfold handle_operation.
  destruct (count col <? 2)%Z; [exact Hok|].
  destruct (read_line_prompt 64 stdin EmptyString) as [[rc1 name1] s1].
  destruct (rc1 =? -1)%Z; [exact Hok|]. destruct (rc1 =? 0)%Z; [exact Hok|].
  destruct (read_line_prompt 64 s1 EmptyString) as [[rc2 name2] s2].
  destruct (rc2 =? -1)%Z; [exact Hok|]. destruct (rc2 =? 0)%Z; [exact Hok|].
  destruct (read_line_prompt 64 s2 EmptyString) as [[rc3 result_name] s3].
  destruct (rc3 =? -1)%Z; [exact Hok|]. destruct (rc3 =? 0)%Z; [exact Hok|].
  destruct (find_matrix (Some col) (Some name1)) as [m1|]; [|exact Hok].
  destruct (find_matrix (Some col) (Some name2)) as [m2|]; [|exact Hok].
  cbv zeta.
  destruct (fst (run_operation_comparison o (Some m1) (Some m2)
                   (Some result_name) (Some operation) (Some metrics)))
    as [result|] eqn:Hr; [|exact Hok].
  cbn [snd]. apply store_matrix_ok; [exact Hok|].
  exact (comparison_well_formed _ _ _ _ _ _ _ Hr).
Qed.

(** X22.  Whatever is typed and whatever the environment grants, an
    action of the menu leaves the store in order: no two matrices share a
    name, the entries fit the capacity, and every matrix has as many rows
    and columns of data as its dimensions tell, both at least 1. *)
Theorem menu_keeps_store_ok (env : @MenuEnv F) (choice : Z) (stdin : string)
  (col : @MatrixCollection F) :
  store_ok col -> store_ok (snd (handle_action strtod env choice stdin col)).
Proof.
  intros Hok. unfold handle_action.
  destruct (choice =? 1)%Z; [apply handle_enter_matrix_ok; exact Hok|].
  destruct (choice =? 2)%Z.
  { unfold handle_display_matrix.
    destruct (read_line_prompt _ _ _) as [[rc nm] s1]. exact Hok. }
  destruct (choice =? 3)%Z; [apply handle_delete_matrix_ok; exact Hok|].
  destruct (choice =? 4)%Z; [apply handle_modify_matrix_ok; exact Hok|].
  destruct (choice =? 5)%Z; [apply handle_read_from_file_ok; exact Hok|].
  destruct (choice =? 6)%Z; [apply handle_read_from_folder_ok; exact Hok|].
  destruct (choice =? 7)%Z; [rewrite handle_save_to_file_same; exact Hok|].
  destruct (choice =? 8)%Z; [rewrite handle_save_all_same; exact Hok|].
  destruct (choice =? 9)%Z; [exact Hok|].
  destruct (choice =? 10)%Z; [apply handle_operation_ok; exact Hok|].
  destruct (choice =? 11)%Z; [apply handle_operation_ok; exact Hok|].
  destruct (choice =? 12)%Z; [apply handle_operation_ok; exact Hok|].
  destruct (choice =? 13)%Z.
  { unfold handle_determinant.
    destruct (read_line_prompt _ _ _) as [[rc nm] s1]. exact Hok. }
  destruct (choice =? 14)%Z; [|exact Hok].
  unfold handle_eigen.
  destruct (read_line_prompt _ _ _) as [[rc nm] s1]. exact Hok.
Qed.

End MenuFacts.

Section OperationFacts.
Context {F : Type} {SF : Scalar F}.
Variable strtod : string -> option (F * string).

(** With every resource granted the comparison hands back the matrix of
    the operation, whichever variant was the fastest. *)
Lemma comparison_result_granted (o : @Oracle F) (a b : @Matrix F)
  (nm opn : string) (op : @Op F) (mt : PerformanceMetrics) :
  op_of opn = Some op ->
  mismatch op a b = false -> (1 <= rows a)%Z -> (1 <= out_cols op a b)%Z ->
  granted o (Z.to_nat (rows a)) (Z.to_nat (out_cols op a b)) ->
  fst (run_operation_comparison o (Some a) (Some b) (Some nm) (Some opn)
         (Some mt)) = Some (expected op a b nm).
Proof.
  intros Hop Hm Hra Hc (H1 & H2 & H3 & Hp & Hsp & Hperm).
  pose proof (not_refused op a b Hm Hra Hc) as Hr.
  unfold run_operation_comparison. rewrite Hop, H1, H2, H3, Hp.
  rewrite run_single_eq, run_multiprocess_eq, Hr.
  rewrite run_openmp_eq by exact Hperm. rewrite Hr. cbn [negb orb].
  destruct (spawn_children_ok (spawn_ok o) (Z.to_nat (rows a))
              (Z.to_nat (out_cols op a b)) (cell_value op a b) Hsp)
    as [e' [pipes ->]].
  unfold pick_operation.
  cbn [single_thread_time openmp_time multiprocess_time fst snd].
  destruct (ltb (elapsed2 o) (elapsed1 o)); cbn [fst snd];
    destruct (ltb (elapsed3 o) _); cbn [fst snd]; reflexivity.
Qed.

Lemma read_answer (l rest buf : string) :
  answer l ->
  exists rc, read_line_prompt 64 (line l rest) buf = (rc, l, rest) /\
             (rc =? -1)%Z = false /\ (rc =? 0)%Z = false.
Proof.
  intros [Hp Hl]. exists (Z.of_nat (String.length l)).
  split; [apply read_line_fits; [exact Hp|simpl; lia]|].
  split; [apply Z.eqb_neq|apply Z.eqb_neq]; lia.
Qed.

(** X23.  Options 10 to 12 end to end: with at least two matrices
    stored, the three answers name the operands and the result; when the
    operands are stored and fit the operation, the result name is free,
    every variant gets its resources and the array has room or can grow,
    the matrix of the operation is appended to the collection under the
    result name.  The handler reads the three lines and no more; the
    input it leaves is what the exits of the children make of the rest
    (the rest itself on a terminal or a pipe). *)
Theorem menu_operation_stores (opn : string) (op : @Op F) (o : @Oracle F)
  (mt : @PerformanceMetrics F) (ok : bool) (after : string -> string)
  (col : @MatrixCollection F) (n1 n2 rn rest : string) (a b : @Matrix F) :
  op_of opn = Some op ->
  (2 <= count col)%Z ->
  answer n1 -> answer n2 -> answer rn ->
  find_matrix (Some col) (Some n1) = Some a ->
  find_matrix (Some col) (Some n2) = Some b ->
  find_matrix (Some col) (Some rn) = None ->
  mismatch op a b = false -> (1 <= rows a)%Z -> (1 <= out_cols op a b)%Z ->
  granted o (Z.to_nat (rows a)) (Z.to_nat (out_cols op a b)) ->
  ok = true \/ (count col < capacity col)%Z ->
  handle_operation opn o mt ok after (line n1 (line n2 (line rn rest))) col =
  (after rest,
   mkCollection (items col ++ [expected op a b rn])
     (if (capacity col <=? count col)%Z then capacity col * 2
      else capacity col)).
Proof.
  intros Hop Hcnt A1 A2 A3 Hf1 Hf2 Hf3 Hm Hr Hc Hg Hroom.
  unfold handle_operation.
  destruct (Z.ltb_spec (count col) 2); [lia|].
  destruct (read_answer n1 (line n2 (line rn rest)) EmptyString A1)
    as [rc1 [-> [-> ->]]].
  destruct (read_answer n2 (line rn rest) EmptyString A2)
    as [rc2 [-> [-> ->]]].
  destruct (read_answer rn rest EmptyString A3) as [rc3 [-> [-> ->]]].
  rewrite Hf1, Hf2. cbv zeta.
  rewrite (comparison_result_granted o a b rn opn op mt) by assumption.
  assert (Hfork : forks_child op (alloc3 o) (pids_ok o) (spawn_ok o) a b = true).
  { destruct Hg as (_ & _ & G3 & G4 & G5 & _). unfold forks_child.
    rewrite Hm, G3, G4, G5 by nia.
    destruct (Z.leb_spec (rows a) 0); [lia|].
    destruct (Z.leb_spec (out_cols op a b) 0); [lia|]. reflexivity. }
  rewrite Hop, Hfork.
  unfold store_matrix, add_matrix, expected. cbn [name].
  destruct A3 as [_ Hl].
  destruct (strncpy_name_spec rn) as [_ [_ Hn]]. rewrite Hn by lia.
  rewrite Hf3.
  destruct (Z.leb_spec (capacity col) (count col)).
  - destruct Hroom as [-> |]; [reflexivity|lia].
  - reflexivity.
Qed.

Lemma scope_same (col : @MatrixCollection F) (nm : string) :
  capacity col = capacity col /\
  map name (items col) = map name (items col) /\
  map rows (items col) = map rows (items col) /\
  map cols (items col) = map cols (items col) /\
  forall k, name (nth k (items col) no_matrix) <> nm ->
    nth k (items col) no_matrix = nth k (items col) no_matrix.
Proof. repeat split; reflexivity. Qed.

(** X24.  Option 4 reaches the entries of the matrix named by the first
    answer and nothing else: the names, the dimensions and the order of
    the stored matrices, the capacity, and every matrix of another name
    are afterwards what they were, whatever is typed. *)
Theorem modify_stays_in_scope (stdin : string) (col : @MatrixCollection F) :
  let nm := snd (fst (read_line_prompt MAX_NAME_LENGTH stdin EmptyString)) in
  let col' := snd (handle_modify_matrix strtod stdin col) in
  capacity col' = capacity col /\
  map name (items col') = map name (items col) /\
  map rows (items col') = map rows (items col) /\
  map cols (items col') = map cols (items col) /\
  forall k, name (nth k (items col) no_matrix) <> nm ->
    nth k (items col') no_matrix = nth k (items col) no_matrix.
Proof.
  cbv zeta. unfold handle_modify_matrix.
  destruct (read_line_prompt MAX_NAME_LENGTH stdin EmptyString) as [[rc nm] s1].
  cbn [fst snd].
  destruct (rc =? -1)%Z; [apply scope_same|].
  destruct (rc =? 0)%Z; [apply scope_same|].
  destruct (find_matrix (Some col) (Some nm)) as [m|]; [|apply scope_same].
  destruct (read_int_prompt s1 0%Z) as [[rc1 choice] s2].
  destruct (rc1 =? -1)%Z; [apply scope_same|].
  destruct (negb (rc1 =? 1)%Z); [apply scope_same|].
  destruct (choice =? 1)%Z; [|destruct (choice =? 2)%Z;
                               [|destruct (choice =? 3)%Z; [|apply scope_same]]].
  - destruct (read_index s2 (rows m)) as [[i|] s3]; [|apply scope_same].
    destruct (read_index s3 (cols m)) as [[j|] s4]; [|apply scope_same].
    destruct (read_double_prompt strtod s4 zero) as [[rc2 v] s5].
    destruct rc2 as [|[| |]|]; try apply scope_same.
    cbn [snd]. apply store_data_scope.
  - destruct (read_index s2 (rows m)) as [[i|] s3]; [|apply scope_same].
    destruct (modify_cells strtod _ _ s3 (data m)) as [s4 d].
    cbn [snd]. apply store_data_scope.
  - destruct (read_index s2 (cols m)) as [[j|] s3]; [|apply scope_same].
    destruct (modify_cells strtod _ _ s3 (data m)) as [s4 d].
    cbn [snd]. apply store_data_scope.
Qed.

End OperationFacts.

(* ================================================================== *)
(** * Runs on the sample inputs                                        *)
(* ================================================================== *)

Lemma well_formed_sample_a : well_formed sample_a.
Proof. repeat split; simpl; try lia; repeat constructor. Qed.

Lemma well_formed_sample_b : well_formed sample_b.
Proof. repeat split; simpl; try lia; repeat constructor. Qed.

(** C2 at [sample_a], [sample_b]. *)
Lemma arithmetic_contract_witness :
  is_result 2 2
    (fun i j => add (cell (data sample_a) i j) (cell (data sample_b) i j))
    (add_matrices true (Some sample_a) (Some sample_b) (Some "C"%string)).
Proof.
  destruct (arithmetic_contract sample_a sample_b "C"%string 0%float 0%float
              well_formed_sample_a well_formed_sample_b) as [H _].
  destruct (H eq_refl eq_refl (cells 2 2) (Permutation_refl _)) as [Hadd _].
  exact (Forall_inv Hadd).
Defined.

(** C3 at [singular_m]: the second step finds a column of zeros. *)
Lemma singular_is_success_witness :
  determinant_single true 0%float (Some singular_m) (Some 7%float) None =
  mkDetOut 1 (Some 0%float) None.
Proof.
  assert (Hin : In (Pivot 1 [2; 4; 0; 0]%float 1)
                  (det_events rows_single singular_m)).
  { vm_compute. right. right. right. left. reflexivity. }
  assert (Hsmall : forall i, 1 <= i < Z.to_nat (rows singular_m) ->
            ltb (fabs (at_ (Z.to_nat (rows singular_m)) [2; 4; 0; 0]%float i 1))
              PIVOT_EPS = true).
  { intros i Hi. simpl in Hi. assert (i = 1) by lia. subst i. reflexivity. }
  destruct (singular_is_success rows_single 0%float singular_m 7%float None
              1 [2; 4; 0; 0]%float 1 eq_refl Hin Hsmall) as [_ [_ H]].
  exact (proj1 (H eq_refl)).
Defined.

(** C4 fails on the code: the entries of [overflow_m] are finite, its
    elimination runs to completion, and the pivot of step 2 is row 2,
    which holds a NaN, while row 3 holds 2.0: row 2 is not the row of
    largest magnitude. *)
Lemma pivot_not_argmax :
  rows overflow_m = cols overflow_m /\
  determinant_single true 0%float (Some overflow_m) (Some 0%float) None =
    mkDetOut 1 (Some nan) None /\
  In (Pivot 2 overflow_ws2 2) (det_events rows_single overflow_m) /\
  at_ 4 overflow_ws2 2 2 = nan /\
  at_ 4 overflow_ws2 3 2 = 2%float /\
  ~ is_argmax 4 overflow_ws2 2 2.
Proof.
  split; [reflexivity|]. split; [vm_compute; reflexivity|].
  split; [vm_compute; tauto|].
  split; [reflexivity|]. split; [reflexivity|].
  intros [_ [Hmax _]]. specialize (Hmax 3 ltac:(lia)).
  vm_compute in Hmax. discriminate.
Qed.

(** C4 at [sample_a]. *)
Lemma completed_determinant_witness :
  determinant_single true 0%float (Some sample_a) (Some 0%float) None =
    mkDetOut 1
      (Some (fold_left mul (diag_entries 2 sample_a_final_ws)
               sample_a_final_sign))
      None /\
  sample_a_final_sign =
    Nat.iter (count_moved_pivots (det_events rows_single sample_a)) neg one /\
  next_ws (steps_of (det_events rows_single sample_a)) sample_a_final_ws =
    copy_matrix_contiguous sample_a /\
  elimination_chain 2 0 (steps_of (det_events rows_single sample_a))
    sample_a_final_ws.
Proof.
  assert (Hf : det_final rows_single sample_a =
               Complete sample_a_final_ws sample_a_final_sign)
    by (vm_compute; reflexivity).
  exact (@completed_determinant float ieee_scalar rows_single 0%float
           sample_a 0%float None sample_a_final_ws sample_a_final_sign
           eq_refl (rows_single_sound 2) Hf).
Defined.

(** C8 fails on the code: the last row of [overflow_zero_row] is zero,
    its entries are finite, and [determinant_single] returns 1 with a
    NaN. *)
Lemma zero_row_gives_nan :
  rows overflow_zero_row = cols overflow_zero_row /\
  has_zero_row overflow_zero_row /\
  determinant_single true 0%float (Some overflow_zero_row) (Some 0%float)
    None = mkDetOut 1 (Some nan) None /\
  nan <> 0%float.
Proof.
  split; [reflexivity|]. split.
  - exists 2. split; [simpl; lia|]. intros c Hc. simpl in Hc.
    destruct c as [|[|[|c]]]; try lia; reflexivity.
  - split; [vm_compute; reflexivity|]. intros H.
    apply (f_equal PrimFloat.is_nan) in H. vm_compute in H. discriminate.
Qed.

Lemma has_zero_row_sample : has_zero_row zero_row_m.
Proof.
  exists 1. split; [simpl; lia|]. intros c Hc. simpl in Hc.
  destruct c as [|[|[|c]]]; try lia; reflexivity.
Qed.

Lemma tame_pivots_sample :
  tame_pivots 3 (det_events rows_single zero_row_m).
Proof.
  intros k A p Hin _. vm_compute in Hin.
  repeat match type of Hin with
         | _ \/ _ => destruct Hin as [Hin|Hin]
         | False => destruct Hin
         | _ = _ => first [discriminate Hin | inversion Hin; subst; clear Hin]
         end;
    (split; [vm_compute; reflexivity|];
     intros c Hc; destruct c as [|[|[|c]]]; try lia; vm_compute; reflexivity).
Qed.

(** C8 at the 3 by 3 identity and at [zero_row_m]. *)
Lemma identity_and_zero_row_witness :
  determinant_single true 0%float
    (Some (identity_matrix "I"%string 3)) (Some 0%float) None =
    mkDetOut 1 (Some one) None /\
  determinant_single true 0%float (Some zero_row_m) (Some 1%float) None =
    mkDetOut 1 (Some zero) None.
Proof.
  destruct (@identity_and_zero_row float ieee_scalar ieee_number_facts
              ieee_unit_facts) as [Hi Hz].
  split.
  - apply (proj1 (Hi 3 "I"%string 0%float 0%float None ltac:(lia))).
  - apply (proj1 (Hz zero_row_m 0%float 1%float None eq_refl
                    has_zero_row_sample tame_pivots_sample)).
Defined.

(** C9 fails on the code: the elimination of [overflow_m] divides by a
    NaN at step 2, and [1e-12 <= fabs(NaN)] is false. *)
Lemma division_by_nan :
  In (Division 3 2 nan) (det_events rows_single overflow_m) /\
  leb PIVOT_EPS (fabs nan) = false.
Proof.
  split; [vm_compute; tauto|reflexivity].
Qed.

(** C9 at [sample_a]: the division of its first step divides by 3. *)
Lemma divisors_above_threshold_witness :
  ltb (fabs 3%float) PIVOT_EPS = false /\
  (leb 3%float 3%float = true -> leb PIVOT_EPS (fabs 3%float) = true).
Proof.
  assert (Hin : In (Division 1 0 3%float) (det_events rows_single sample_a)).
  { vm_compute. tauto. }
  exact (@divisors_above_threshold float ieee_scalar ieee_number_facts
           rows_single sample_a 1 0 3%float variant_single Hin).
Defined.

Lemma is_diagonal_diag_m : is_diagonal diag_m.
Proof.
  split; [reflexivity|]. intros i j Hi Hj Hne. simpl in Hi, Hj.
  destruct i as [|[|i]], j as [|[|j]]; try lia; reflexivity.
Qed.



(** C5, as the code has it, at [diag_m] with the default tolerance. *)
Lemma diagonal_needs_no_round_witness :
  exists r,
    fst (eigen_qr_single PrimFloat.sqrt true true 0%float (Some diag_m) 500
           default_tol None) = Some r /\
    eigenvalues r = diagonal_of diag_m /\ iterations r = 0%Z.
Proof.
  exact (proj1 (diagonal_needs_no_round PrimFloat.sqrt diag_m 500 default_tol
                  0%float None true (fun _ _ _ => chunked [(0, 1); (1, 2)])
                  (fun _ => true) (fun _ => (0, 0)) [] []
                  is_diagonal_diag_m eq_refl)).
Defined.

(** C5 as stated fails at [diag_m]: no result with an iteration count of
    1 is returned. *)
Lemma diagonal_iterations_not_one :
  ~ exists r,
      fst (eigen_qr_single PrimFloat.sqrt true true 0%float (Some diag_m) 500
             default_tol None) = Some r /\
      iterations r = 1%Z.
Proof.
  intros [r [Hr Hit]]. vm_compute in Hr. inversion Hr; subst r.
  simpl in Hit. discriminate.
Qed.

(** C6 at [rank1_m]: the decomposition of the first round breaks down;
    [eigen_qr_single] returns NULL, and [eigen_qr_multiprocess] returns a
    result whatever its buffers held and whatever its [read]s are
    handed. *)
Theorem multiprocess_misses_breakdown :
  is_converged (copy_matrix_flat rank1_m) 2 default_tol = false /\
  breaks_down PrimFloat.sqrt (copy_matrix_flat rank1_m) 2 /\
  fst (eigen_qr_single PrimFloat.sqrt true true 0%float (Some rank1_m) 500
         default_tol None) = None /\
  (forall (reads : nat -> nat * nat) (Q0 R0 : list float),
     fst (eigen_qr_multiprocess PrimFloat.sqrt true true (fun _ => true)
            reads Q0 R0 0%float (Some rank1_m) 500 default_tol None) <> None).
Proof.
  split; [vm_compute; reflexivity|]. split; [|split].
  - apply decomposition_fails_iff. vm_compute. reflexivity.
  - vm_compute. reflexivity.
  - intros reads Q0 R0. apply multiprocess_never_fails; auto.
Qed.

(** C7 at [one_a + one_b] when [fork] fails: the single and OpenMP runs
    return their sums, the multiprocess run returns NULL and leaves its
    time field at the 0.0 it held, and the comparison returns NULL. *)
Theorem operation_comparison_drops_success :
  fst (add_matrices_single true 0.5%float (Some one_a) (Some one_b)
         (Some (temp_name "C" "single")) 0%float) <> None /\
  fst (add_matrices_openmp true [(0, 0)] 0.25%float (Some one_a) (Some one_b)
         (Some (temp_name "C" "openmp")) 0%float) <> None /\
  add_matrices_multiprocess true true (fun _ => false) 0.125%float
    (Some one_a) (Some one_b) (Some (temp_name "C" "multiproc")) 0%float
  = (None, 0%float) /\
  run_operation_comparison no_fork (Some one_a) (Some one_b)
    (Some "C"%string) (Some "Addition"%string) (Some fresh_metrics)
  = (None, Some (mkMetrics 0.5%float 0.25%float 0%float)).
Proof.
  repeat split; vm_compute; try discriminate; reflexivity.
Qed.

(** On IEEE doubles the determinant of every identity matrix is 1.0. *)
Lemma identity_determinant_ieee (n : nat) (nm : string) (e old : float)
  (t : option float) :
  determinant_single true e (Some (identity_matrix nm n)) (Some old) t =
  mkDetOut 1 (Some 1%float) (store_time t e).
Proof. apply (@identity_determinant float ieee_scalar ieee_unit_facts). Qed.

(** ** Further runs on IEEE doubles *)

Example determinant_of_sample_a :
  determinant_single true 0.5%float (Some sample_a) (Some 0%float) (Some 0%float)
  = mkDetOut 1 (Some (-2)%float) (Some 0.5%float).
Proof. vm_compute. reflexivity. Qed.

Example events_of_singular_m :
  det_events rows_single singular_m =
  [Pivot 0 [1; 2; 2; 4]%float 1; Swap 0 1; Division 1 0 2%float;
   Pivot 1 [2; 4; 0; 0]%float 1].
Proof. vm_compute. reflexivity. Qed.

Example determinant_of_three_m :
  det_cell (determinant_single true 0%float (Some three_m) (Some 0%float) None)
    = Some 4%float /\
  det_cell (determinant_openmp (backwards 3) true 0%float (Some three_m)
              (Some 0%float) None) = Some 4%float /\
  det_cell (determinant_multiprocess (fun _ => true) true 0%float (Some three_m)
              (Some 0%float) None) = Some 4%float.
Proof. repeat split; vm_compute; reflexivity. Qed.

Example product_of_samples :
  multiply_matrices true (Some sample_a) (Some sample_b) (Some "C"%string) =
  Some (mkMatrix "C" 2 2 [[19; 22]; [43; 50]]%float).
Proof. vm_compute. reflexivity. Qed.

(** The solver on [spd_m] converges, and its eigenvalues are the roots
    4.618... and 2.381... of the characteristic polynomial (the bounds are
    binary fractions around them). *)
Example eigenvalues_of_spd_m :
  match fst (eigen_qr_single PrimFloat.sqrt true true 0%float (Some spd_m) 500
               default_tol None) with
  | Some r =>
      (0 < iterations r < 500)%Z /\
      match eigenvalues r with
      | [l1; l2] =>
          PrimFloat.ltb 4.6171875%float l1
          && PrimFloat.ltb l1 4.619140625%float
          && PrimFloat.ltb 2.37890625%float l2
          && PrimFloat.ltb l2 2.3828125%float
          = true
      | _ => False
      end
  | None => False
  end.
Proof. vm_compute. repeat split; reflexivity. Qed.

(** ** Runs of the further properties *)

Lemma add_then_find_witness :
  exists c',
    snd (add_matrix true (Some one_stored) (Some sample_b)) = Some c' /\
    items c' = items one_stored ++ [sample_b] /\
    count c' = (count one_stored + 1)%Z /\
    find_matrix (Some c') (Some (name sample_b)) = Some sample_b /\
    forall s, s <> name sample_b ->
      find_matrix (Some c') (Some s) = find_matrix (Some one_stored) (Some s).
Proof. apply (add_then_find true one_stored sample_b). reflexivity. Defined.

Lemma names_two_stored : NoDup (names two_stored).
Proof.
  unfold names. simpl. constructor.
  - simpl. intros [H|[]]. discriminate.
  - constructor; [intros []|constructor].
Defined.

Lemma remove_then_find_witness :
  exists i c',
    snd (remove_matrix (Some two_stored) (Some "A"%string)) = Some c' /\
    items c' = without i (items two_stored) /\
    name (nth i (items two_stored) no_matrix) = "A"%string /\
    count c' = (count two_stored - 1)%Z /\
    find_matrix (Some c') (Some "A"%string) = None /\
    forall s', s' <> "A"%string ->
      find_matrix (Some c') (Some s') = find_matrix (Some two_stored) (Some s').
Proof.
  exact (proj2 (proj2 (proj2 (proj2
           (remove_then_find two_stored "A"%string names_two_stored))))
           eq_refl).
Defined.

Lemma add_then_remove_witness :
  exists c'',
    remove_matrix
      (Some (mkCollection [sample_a; sample_b] 8)) (Some (name sample_b))
    = (1%Z, Some c'') /\
    items c'' = items one_stored.
Proof.
  exact (add_then_remove true one_stored (mkCollection [sample_a; sample_b] 8)
           sample_b eq_refl).
Defined.

Lemma variants_return_one_witness :
  ret (determinant_single true 0%float (Some sample_a) (Some 0%float) None) = 1%Z.
Proof.
  exact (proj1 (variants_return_one sample_a 0%float 0%float None eq_refl)).
Defined.

Lemma valid_backwards (n : nat) : valid_schedule n (backwards n).
Proof.
  intros k Hk. unfold backwards. apply Permutation_sym. apply Permutation_rev.
Qed.

Lemma determinant_comparison_agrees_witness :
  run_determinant_comparison det_granted (Some sample_a) (Some fresh_metrics)
    (Some 7%float) =
  (1%Z, Some (mkMetrics 0.5%float 0.25%float 0.125%float),
   snd (determinant_gauss_partial_pivot true (Some sample_a) (Some zero))).
Proof.
  apply (determinant_comparison_agrees det_granted sample_a fresh_metrics 7%float);
    try reflexivity.
  apply (valid_backwards 2).
Defined.

Lemma elimination_is_triangular_witness :
  length three_final_ws = 3 * 3 /\
  forall r c, c < r < 3 -> at_ 3 three_final_ws r c = zero.
Proof.
  apply (elimination_is_triangular rows_single three_m three_final_ws
           three_final_sign).
  - apply rows_single_sound.
  - vm_compute. reflexivity.
Defined.

Lemma multiprocess_needs_every_child_witness :
  fst (run_multiprocess add_op true true (fun _ => true) 0.5%float
         (Some sample_a) (Some sample_b) (Some "C"%string) 0%float) <> None <->
  forall x, x < 2 * 2 -> (fun _ : nat => true) x = true.
Proof.
  exact (proj1 (multiprocess_needs_every_child add_op 0.5%float 0%float
                  sample_a sample_b "C"%string (fun _ => true) eq_refl)).
Defined.

Lemma comparison_returns_expected_witness :
  run_operation_comparison all_granted (Some sample_a) (Some sample_b)
    (Some "C"%string) (Some "Addition"%string) (Some fresh_metrics) =
  (Some (expected add_op sample_a sample_b "C"),
   Some (mkMetrics 0.5%float 0.25%float 0.125%float)).
Proof.
  apply (comparison_returns_expected all_granted sample_a sample_b "C"%string
           "Addition"%string add_op fresh_metrics);
    try reflexivity; simpl; lia.
Defined.

Lemma no_round_returns_diagonal_witness :
  eigen_qr_single PrimFloat.sqrt true true 0.5%float (Some rank1_m) 0
    default_tol (Some 0%float)
  = (Some (mkEigen (diagonal_of rank1_m)
             (Some (identity_matrix "Eigenvectors" 2)) 2 0%Z),
     Some 0.5%float).
Proof.
  refine (proj1 (no_round_returns_diagonal PrimFloat.sqrt 0.5%float rank1_m 0
                   default_tol (Some 0%float)
                   (fun _ _ _ => chunked [(0, 1); (1, 2)])
                   (fun _ => true) (fun _ => (0, 0)) [] []
                   eq_refl _ _)).
  - simpl. lia.
  - left. lia.
Defined.

Lemma eigen_multiprocess_agrees_witness :
  fst (eigen_qr_multiprocess PrimFloat.sqrt true true (fun _ => true)
         (fun _ => (4, 4)) [] []
         0.25%float (Some spd_m) 500 default_tol None) = Some spd_result.
Proof.
  apply (eigen_multiprocess_agrees PrimFloat.sqrt true true 0%float 0.25%float
           (Some spd_m) 500 default_tol None None (fun _ => true)
           (fun _ => (4, 4)) [] [] spd_result).
  - reflexivity.
  - intros mm Hmm i. inversion Hmm; subst mm. simpl. lia.
  - vm_compute. reflexivity.
Defined.

(** The three sample times and 1e99 are ordered as numbers are. *)
Lemma ordered_sample_times :
  ordered_times (mkMetrics 0.5%float 0.25%float 0.125%float).
Proof.
  intros x y Hx Hy. simpl in Hx, Hy.
  destruct Hx as [<-|[<-|[<-|[<-|[]]]]], Hy as [<-|[<-|[<-|[<-|[]]]]];
    (split; [|split]);
    try (intros z Hz; simpl in Hz; destruct Hz as [<-|[<-|[<-|[<-|[]]]]]);
    vm_compute; intuition discriminate.
Defined.

Lemma eigen_comparison_picks_fastest_witness :
  exists s,
    fst (run_eigen_comparison PrimFloat.sqrt eigen_granted (Some spd_m) 500
           default_tol (Some fresh_metrics)) =
      result_of (Some spd_result) (Some spd_result) (Some spd_result) s /\
    fastest_successful (mkMetrics 0.5%float 0.25%float 0.125%float)
      (Some spd_result) (Some spd_result) (Some spd_result) s.
Proof.
  refine (proj2 (proj2 (proj2 (eigen_comparison_picks_fastest PrimFloat.sqrt
                                 eigen_granted spd_m 500 default_tol
                                 fresh_metrics eq_refl)))
            ordered_sample_times _ (ex_intro _ SingleThreaded _)).
  - intros [| |] _; vm_compute; reflexivity.
  - vm_compute. discriminate.
Defined.

Lemma two_stored_ok : store_ok two_stored.
Proof.
  unfold store_ok, collection_ok, well_formed, two_stored, names, count.
  cbn [items capacity map name length].
  split; [split; [|split; simpl; lia]|].
  - repeat constructor; simpl; intuition discriminate.
  - repeat constructor; simpl; lia.
Qed.

Lemma folder_load_counts_witness :
  exists c' added,
    read_matrices_from_folder sample_folder (Some "dir"%string)
      (Some two_stored) = (Z.of_nat (length added), Some c') /\
    items c' = items two_stored ++ added /\
    count c' = (count two_stored + Z.of_nat (length added))%Z /\
    store_ok c' /\
    (listing sample_folder = None -> added = []).
Proof.
  exact (folder_load_counts sample_folder "dir"%string two_stored two_stored_ok).
Defined.

Lemma read_line_prompt_contract_witness :
  read_line_prompt 64 (line "A" "B") EmptyString = (1%Z, "A"%string, "B"%string).
Proof.
  refine (proj1 (proj2 (proj2 (read_line_prompt_contract 64 EmptyString _)))
            "A"%string "B"%string eq_refl _).
  - lia.
  - simpl. lia.
Defined.

Lemma menu_keeps_store_ok_witness :
  store_ok (snd (handle_action no_number sample_env 6 (line "dir" EmptyString)
                   two_stored)).
Proof.
  exact (menu_keeps_store_ok no_number sample_env 6 (line "dir" EmptyString)
           two_stored two_stored_ok).
Defined.

Lemma menu_operation_stores_witness :
  handle_operation "Addition" all_granted fresh_metrics true
    (fun s => line "C" s)
    (line "A" (line "B" (line "C" EmptyString))) two_stored =
  (line "C" EmptyString,
   mkCollection (items two_stored ++ [expected add_op sample_a sample_b "C"])
     (if (capacity two_stored <=? count two_stored)%Z
      then capacity two_stored * 2 else capacity two_stored)).
Proof.
  apply (menu_operation_stores "Addition"%string add_op all_granted
           fresh_metrics true (fun s => line "C" s) two_stored
           "A"%string "B"%string "C"%string EmptyString sample_a sample_b);
    try reflexivity.
  - split; [reflexivity|simpl; lia].
  - split; [reflexivity|simpl; lia].
  - split; [reflexivity|simpl; lia].
  - simpl. lia.
  - simpl. lia.
  - repeat split; try reflexivity.
  - left. reflexivity.
Defined.
